(* ===== verification/_CoqProject ===== *)
-Q . S2P
Prelude.v
Params.v
Core.v
Message.v
Network.v
NetworkProps.v
External.v
Storage.v
Chain.v
Ledger.v
ChainLemmas.v
ChainProps.v
Query.v
MerkleProof.v
Partition.v
PartitionLemmas.v
PartitionProps.v
PartitionInit.v
Pbft.v
PbftSteps.v
PbftProps.v
BlockOps.v
Relay.v
Broker.v
Clpa.v
ClpaBroker.v
Szhbft.v
ModuleLaws.v
RelayProps.v
SzhbftProps.v
BrokerProps.v
ClpaProps.v
ClpaBrokerProps.v
Committee.v
CommitteeLemmas.v
CommitteeProps.v
DataFeed.v
DataFeedProps.v
ClpaBrokerCommittee.v
ClpaBrokerCommitteeProps.v
Measure.v
MeasureProps.v
Supervisor.v
SupervisorProps.v
Startup.v
StartupProps.v
