(* ===== verification/Prelude.v ===== *)
(** * BlockEmulator: a verification library (root file)

    BlockEmulator is a sharded-blockchain emulator written in Go.  Every shard runs
    PBFT among its nodes; the blocks of a shard move money between accounts kept in
    a Merkle-Patricia trie; a supervisor injects transactions and is told of every
    block.  Cross-shard payments are handled by one of several mechanisms: relaying
    (with or without Merkle proofs), splitting through a broker account, or
    re-partitioning the accounts with the CLPA algorithm.  This library translates
    the Go code into executable definitions and proves what each part promises.

    ** Files, and the code they model (paths under src/)

    - [Prelude]: outcomes of Go code ([go]: return, panic, block for ever), record
      update, machine integers ([u64], [i64], [i32]), wall-clock time, the tactics
      and the lemmas on loops shared by all files.
    - [Params]: params/global_config.go and static_config.go (the class [Params]),
      utils/utils_partition.go ([Addr2Shard], [ModBytes]).
    - [Core]: core/account.go, transaction.go, txpool.go, block.go.
    - [Message]: message/, shard/nodes.go; the framing [MergeMessage]/[SplitMessage].
    - [Network], [NetworkProps]: networks/ (connection pool, rate limiters, both readers)
      and the loops that read a connection in pbft.go and supervisor.go.
    - [External]: interfaces of the libraries the code calls (gob and JSON codecs,
      sha256, the bolt database, the go-ethereum trie, the bitset), their documented
      laws, and [RefExternal], a computable instance satisfying all of them, on
      which the witnesses run.
    - [Storage]: storage/storage.go.
    - [Chain], [Ledger], [ChainLemmas], [ChainProps]: chain/blockchain.go.
      [Ledger] is the abstract specification: a map of balances and [exec_txs];
      [represents] says which ledger a state root stands for.
    - [MerkleProof]: chain/merkleproof.go.
    - [Query]: query/, what the tools read from the files of a node.
    - [Partition], [PartitionLemmas], [PartitionProps], [PartitionInit]:
      partition/graph.go and partition_CLPA.go.
    - [Pbft], [PbftSteps], [PbftProps]: consensus_shard/pbft_all/pbft.go,
      messageHandle.go, view_change.go, toolFuncs.go, pbftMod_interface.go.  The two
      Go interfaces of a mechanism are the classes [ExtraOpInConsensus] and
      [OpInterShards]; what the node expects of them is [ConsensusLaws] and
      [InterShardLaws], against which the node's theorems are proved.
    - [BlockOps]: the code the mechanisms share (committing, relaying, catching up).
    - [Relay], [Broker], [Clpa]: pbftInside_module*.go, pbftOutside_module*.go,
      accountTransfer_module.go, dataSupport/clpaData_Extra.go.
    - [ClpaBroker]: pbftInside_modCLPABroker.go, pbftOutside_modCLPABroker.go and
      accountTransfermod_Broker.go, the mechanism that combines the last two.
    - [Szhbft]: pbftInside_moduleSZHBFT.go, pbftOutside_moduleSZHBFT.go.
    - [ModuleLaws] shows that the five mechanisms keep the laws; [RelayProps],
      [BrokerProps], [ClpaProps], [ClpaBrokerProps], [SzhbftProps] hold their own
      properties.
    - [Committee], [CommitteeLemmas], [CommitteeProps]: broker/broker.go,
      supervisor/signal/ and the handlers of the relay, broker and CLPA committees of
      supervisor/committee/.
    - [DataFeed], [DataFeedProps]: the parsing of the data set and [MsgSendingControl]
      of every committee; the relay and SZHBFT committees.  The operations of a
      committee that the loop uses are the record [CommitteeOps], its laws the class
      [CommitteeLaws].
    - [ClpaBrokerCommittee], [ClpaBrokerCommitteeProps]: committee_clpa_broker.go.
    - [Measure], [MeasureProps]: supervisor/measure/.  A measurement is a record
      [MeasureModule] (the Go interface); [MeasureLaws] is what the supervisor needs.
    - [Supervisor], [SupervisorProps]: supervisor/supervisor.go.
    - [Startup], [StartupProps]: main.go, build/ and [ReadConfigFile]; from the files and
      the flags to a running node or supervisor.

    ** How the state corresponds

    Every struct is a record with the source's field names; a pointer that may be
    nil is an [option]; a Go map is a [gmap], a set-like map a [gset]; a slice is a
    list and an index out of range is a [Panic].  A mutex that is held across calls
    is a boolean field and locking it twice is [Blocked]; a mutex held inside one
    access only is left out.  Methods take the receiver last and return the new one.
    Sending a message appends to the field [out] (or [bcm_out], [ccm_out]); so the
    order of sends is observable.  Times read from the clock are arguments, one per
    reading; so are the orders in which Go visits a map where the result can depend
    on it ([CLPA_Partition], [Stable_Init_Partition]).

    The handlers of PBFT run as goroutines.  [PbftSteps] gives them as a step
    relation of one node: a message is taken in, waits while its stage has not come,
    and runs when the condition variable lets it; any interleaving of handlers is a
    run.  [CommitteeLemmas.reach] is the corresponding relation for the broker
    committee: batches and block reports in any order, each one atomic.
    [DataFeed.control_step] is the one of [MsgSendingControl] of the two CLPA
    committees: each turn of its loops is atomic, reports come in between, also while
    it waits for a new epoch.  [SzhbftProps.race] lets the two critical sections of
    each vote interleave with everything else, and in [NetworkProps.net_run] the
    sends of all goroutines come in the order in which they get the lock.

    ** What is proved

    - Ledger and chain: the trie loop implements the ledger specification
      ([GetUpdateStatusTrie_refines]); conservation and no overdraft inside a shard;
      what relaying does to the total supply; replicas that execute a leader's block
      reach the root in its header; every branch of [AddBlock]; restart from disk;
      account migration; SZHBFT block generation.
    - Storage and proofs: a stored block is found again; transaction proofs made
      from a block verify, singly, in a batch, and searched along the chain; the queries
      show the newest block, all stored blocks, and the balances of the ledger.
    - Partitioning: the incremental counters equal recomputation; CLPA terminates,
      keeps every account in a shard, empties none, and returns exactly the change; both
      initial partitions give a state on which it can run.
    - Start-up: which flags and tables start a node, and as what; the generated scripts
      start every node once.
    - PBFT: for every run of a node, every module and every interleaving: a request
      is executed at most once and only with a quorum of commits, a commit is sent
      only with a quorum of prepares and once per request; quorums intersect; when a
      new view is announced and entered.
    - Network: messages arrive whole and in order on every connection, whatever fails;
      an upload is cut into portions of at most the burst size.
    - Mechanisms: each cross-shard transaction of a block is relayed once to its
      shard; honest proofs are accepted; missing blocks are caught up; the broker
      leader's report; migration loses neither accounts nor queued transactions, and
      with brokers leaves every transaction in a queue where it can be committed; what
      SZHBFT proposes, commits and confirms.
    - Supervisor: injection loses nothing; the second half of a split payment is
      only sent after the first was reported; the supervisor's partition map and the
      nodes' maps stay equal; the combined committee refines the broker committee; which
      part of the data set is injected; nothing is injected while the shards
      re-partition, and the wait ends; the statistics add up and never index out of range; the run
      stops when the last reports are of empty blocks, and not before.
    - Where the code falls short of its purpose, a theorem states what it does
      instead ([relay_mints_the_rejected], [halves_mint_or_burn],
      [AddBlock_ignores_state_root], [one_proof_for_all], [repeated_votes_count],
      [repeated_new_view_rewinds], [missing_request_is_skipped],
      [broker_never_catches_up], [proposal_drops_global_txs],
      [local_commit_extends_local_chain], [unanimous_round_confirms],
      [ReadFromConn_never_serves]).

    ** Fuel and bounds

    The loops of [Network] take fuel and return [None] when it runs out: an upload needs
    one round per byte and one more ([upload_in_bursts]), a reader one per message and
    one more ([messages_arrive_whole]); with a bandwidth of 0, and in [ReadFromConn],
    no fuel is enough, which is the theorem.  No other definition runs out of fuel.
    The CLPA loop runs [MaxIterations] times, as in
    the source; [old_requests] counts down the heights between two numbers; waiting
    loops ([wait_for]) consume the list of what arrives in each sleep and are
    [Blocked] when nothing more arrives.  Unsigned and signed counters wrap at their
    width where the source computes on them; the counters of [Partition] count
    things held in memory and are plain integers.

    ** What is not modelled

    - In the models of the nodes and of the supervisor a send appends to [out];
      [Network] models the connections between them by themselves, delays apart.
    - Reading files (the records of the data set and the lines of the broker file, the
      bytes of the JSON files are arguments), parsing of flags, logging and console
      output, figurePlot/, shard/vrf/ (which the program does not call).  A CSV file that
      is written is the list of its rows.
    - The first of the two versions that an unfinished merge left in
      pbftOutside_moduleSZHBFT.go.
    - Whole-network agreement: the theorems are about every run of one node and about
      sets of votes, not about a network of nodes.  *)

From Stdlib Require Export ZArith Lia.
From stdpp Require Export base tactics numbers list strings gmap fin_maps sets.

Open Scope Z_scope.

(** ** Byte strings

    A Go [string] and a Go [[]byte] are both byte sequences; the source converts
    between them freely ([string(tx.TxHash)]).  Both are Rocq [string]s. *)

Abbreviation bytes := string (only parsing).
Abbreviation Address := string (only parsing).

(** ** Outcomes of Go code

    A call returns, panics ([log.Panic], a nil-map write, an index out of range,
    the unlock of an unlocked mutex), or blocks for ever on a held lock. *)

Inductive go (A : Type) : Type :=
| Ret (a : A)
| Panic (why : string)
| Blocked (what : string).
Arguments Ret {A} _.
Arguments Panic {A} _.
Arguments Blocked {A} _.

#[export] Instance go_ret : MRet go := λ A a, Ret a.
#[export] Instance go_bind : MBind go := λ A B f m,
  match m with
  | Ret a => f a
  | Panic w => Panic w
  | Blocked w => Blocked w
  end.
#[export] Instance go_fmap : FMap go := λ A B f m,
  match m with
  | Ret a => Ret (f a)
  | Panic w => Panic w
  | Blocked w => Blocked w
  end.

(** [x, err := ...; if err != nil { log.Panic(err) }] *)
Definition or_panic {A} (why : string) (o : option A) : go A :=
  match o with Some a => Ret a | None => Panic why end.

(** [for ... { body }] over a slice, stopping at the first panic. *)
Fixpoint go_fold {A S} (f : S → A → go S) (s : S) (l : list A) : go S :=
  match l with
  | [] => Ret s
  | a :: l => s' ← f s a; go_fold f s' l
  end.

(** The same with the index of the element, as in [for i, x := range l]. *)
Fixpoint go_ifold {A S} (f : Z → S → A → go S) (i : Z) (s : S) (l : list A) : go S :=
  match l with
  | [] => Ret s
  | a :: l => s' ← f i s a; go_ifold f (i + 1) s' l
  end.

Definition returns {A} (m : go A) : Prop := ∃ a, m = Ret a.

(** ** Record update [r <| field := v |>] *)

Class Eta (R : Type) := eta : R → R.
Class Setter {R T : Type} (p : R → T) := set_field : (T → T) → R → R.
Arguments set_field {R T} p {_} _ _.

Ltac solve_setter :=
  lazymatch goal with
  | |- @Setter ?R ?T ?p =>
      let f := fresh "f" in
      let r := fresh "r" in
      intros f r;
      let e := eval hnf in (eta r) in
      lazymatch eval pattern (p r) in e with
      | ?g _ => let e' := eval cbv beta in (g (f (p r))) in exact e'
      end
  end.
#[export] Hint Extern 1 (Setter _) => solve_setter : typeclass_instances.

Declare Scope go_scope.
Delimit Scope go_scope with go.
Open Scope go_scope.
Notation "r <| p := v |>" := (set_field p (λ _, v) r)
  (at level 1, left associativity, p at level 9, format "r <| p  :=  v |>") : go_scope.
Notation "r <| p ::= f |>" := (set_field p f r)
  (at level 1, left associativity, p at level 9, format "r <| p  ::=  f |>") : go_scope.

(** ** Machine integers ([uint64], [int], [int32] on a 64-bit target) *)

Definition u64 (z : Z) : Z := z `mod` 2 ^ 64.
Definition i64 (z : Z) : Z := (z + 2 ^ 63) `mod` 2 ^ 64 - 2 ^ 63.
Definition i32 (z : Z) : Z := (z + 2 ^ 31) `mod` 2 ^ 32 - 2 ^ 31.
Definition MaxInt : Z := 2 ^ 63 - 1.

Definition is_u64 (z : Z) : Prop := 0 ≤ z < 2 ^ 64.
Definition is_i64 (z : Z) : Prop := - 2 ^ 63 ≤ z < 2 ^ 63.

Lemma u64_range z : is_u64 (u64 z).
Proof. unfold is_u64, u64. apply Z.mod_pos_bound. lia. Qed.

Lemma u64_id z : is_u64 z → u64 z = z.
Proof. unfold is_u64, u64. intros. by apply Z.mod_small. Qed.

Lemma i64_range z : is_i64 (i64 z).
Proof.
  unfold is_i64, i64. pose proof (Z.mod_pos_bound (z + 2 ^ 63) (2 ^ 64)). lia.
Qed.

Lemma i64_id z : is_i64 z → i64 z = z.
Proof. unfold is_i64, i64. intros. rewrite Z.mod_small; lia. Qed.

(** A Go [int] survives the conversion to [uint64] and back. *)
Lemma i64_u64 z : is_i64 z → i64 (u64 z) = z.
Proof.
  unfold is_i64, i64, u64. intros. rewrite Zplus_mod_idemp_l. rewrite Z.mod_small; lia.
Qed.

Lemma i32_id z : - 2 ^ 31 ≤ z < 2 ^ 31 → i32 z = z.
Proof. unfold i32. intros. rewrite Z.mod_small; lia. Qed.

(** [len(l)] as a Go [int] / [uint64]. *)
Definition len {A} (l : list A) : Z := Z.of_nat (length l).

Lemma len_nonneg {A} (l : list A) : 0 ≤ len l.
Proof. unfold len. lia. Qed.
Lemma len_nil {A} : len (@nil A) = 0.
Proof. done. Qed.
Lemma len_cons {A} (x : A) l : len (x :: l) = 1 + len l.
Proof. unfold len. simpl. lia. Qed.
Lemma len_app {A} (l k : list A) : len (l ++ k) = len l + len k.
Proof. unfold len. rewrite length_app. lia. Qed.

(** ** Wall-clock time

    A [time.Time] is the number of nanoseconds since the zero [time.Time]. *)

Definition Time : Type := Z.
Definition time_zero : Time := 0.
Definition IsZero (t : Time) : bool := t =? 0.
Definition After (t u : Time) : bool := u <? t.

(** [t.Sub(u)] saturates at the ends of [time.Duration] (an [int64]). *)
Definition Sub (t u : Time) : Z := Z.max (- 2 ^ 63) (Z.min (2 ^ 63 - 1) (t - u)).
(** [d.Milliseconds()]: truncated division. *)
Definition Milliseconds (d : Z) : Z := d `quot` 1000000.
(** [t.UnixMilli()]; the Unix epoch is 62135596800 s after the zero time. *)
Definition UnixMilli (t : Time) : Z := (t - 62135596800 * 1000000000) `div` 1000000.

(** ** Sums *)

Definition sumZ (l : list Z) : Z := foldr Z.add 0 l.

Lemma sumZ_app l k : sumZ (l ++ k) = sumZ l + sumZ k.
Proof. induction l as [|x l IH]; csimpl; lia. Qed.

Lemma sumZ_add {A} (f g : A → Z) l :
  sumZ ((λ x, f x + g x) <$> l) = sumZ (f <$> l) + sumZ (g <$> l).
Proof. induction l as [|x l IH]; csimpl; lia. Qed.

Lemma sumZ_ext {A} (f g : A → Z) l :
  (∀ x, x ∈ l → f x = g x) → sumZ (f <$> l) = sumZ (g <$> l).
Proof.
  induction l as [|x l IH]; intros H; csimpl; [done|].
  rewrite H by (by left). rewrite IH; [done|]. intros y Hy. apply H. by right.
Qed.

Lemma sumZ_perm l k : l ≡ₚ k → sumZ l = sumZ k.
Proof. induction 1; csimpl; lia. Qed.

Lemma sumZ_nonneg {A} (f : A → Z) l :
  (∀ x, x ∈ l → 0 ≤ f x) → 0 ≤ sumZ (f <$> l).
Proof.
  induction l as [|x l IH]; intros H; csimpl; [done|].
  assert (0 ≤ f x) by (apply H; by left).
  assert (0 ≤ sumZ (f <$> l)) by (apply IH; intros y Hy; apply H; by right). lia.
Qed.

(** The sum of a function that is [d] at one element of a duplicate-free list. *)
Lemma sumZ_indicator {A} `{EqDecision A} (x : A) (d : Z) l :
  NoDup l → x ∈ l → sumZ ((λ y, if decide (y = x) then d else 0) <$> l) = d.
Proof.
  induction 1 as [|y l Hy Hl IH]; intros Hx; [by apply not_elem_of_nil in Hx|]. csimpl.
  destruct (decide (y = x)) as [->|Hne].
  - rewrite (sumZ_ext _ (λ _, 0)).
    + clear. induction l; csimpl; lia.
    + intros z Hz. rewrite decide_False; [done|]. intros ->. done.
  - rewrite IH; [lia|]. apply elem_of_cons in Hx as [?|?]; congruence.
Qed.

(** ** Generic lemmas on the outcome monad *)

Lemma bind_Ret {A B} (f : A → go B) (m : go A) (b : B) :
  (m ≫= f) = Ret b ↔ ∃ a, m = Ret a ∧ f a = Ret b.
Proof. destruct m; simpl; naive_solver. Qed.

Lemma or_panic_Ret {A} why (o : option A) a : or_panic why o = Ret a ↔ o = Some a.
Proof. destruct o; simpl; naive_solver. Qed.

Lemma go_fold_app {A S} (f : S → A → go S) s l k :
  go_fold f s (l ++ k) = (s' ← go_fold f s l; go_fold f s' k).
Proof.
  revert s. induction l as [|a l IH]; intros s; simpl; [done|].
  destruct (f s a); simpl; [apply IH|done|done].
Qed.

Lemma go_fold_ext {A S} (f g : S → A → go S) s l :
  (∀ s a, f s a = g s a) → go_fold f s l = go_fold g s l.
Proof.
  intros Hfg. revert s. induction l as [|a l IH]; intros s; simpl; [done|].
  rewrite Hfg. destruct (g s a); simpl; [apply IH|done|done].
Qed.

(** A loop whose body always preserves an invariant preserves it. *)
Lemma go_fold_inv {A S} (P : S → Prop) (f : S → A → go S) s l s' :
  (∀ s a s', a ∈ l → P s → f s a = Ret s' → P s') →
  P s → go_fold f s l = Ret s' → P s'.
Proof.
  revert s. induction l as [|a l IH]; intros s Hf Hs; simpl.
  - by intros [= ->].
  - intros (s1 & H1 & H2)%bind_Ret. apply (IH s1); [|by apply (Hf s a); [left|..]|done].
    intros s2 b s3 Hb. apply Hf. by right.
Qed.

(** A loop whose body never panics on states satisfying the invariant returns. *)
Lemma go_fold_total {A S} (P : S → Prop) (f : S → A → go S) s l :
  (∀ s a, a ∈ l → P s → ∃ s', f s a = Ret s' ∧ P s') →
  P s → ∃ s', go_fold f s l = Ret s' ∧ P s'.
Proof.
  revert s. induction l as [|a l IH]; intros s Hf Hs; simpl; [eauto|].
  destruct (Hf s a) as (s1 & -> & H1); [by left|done|]. simpl.
  apply IH; [|done]. intros s2 b Hb. apply Hf. by right.
Qed.

Lemma filter_all {A} (P : A → Prop) `{∀ x, Decision (P x)} (l : list A) :
  (∀ x, x ∈ l → P x) → filter P l = l.
Proof.
  induction l as [|x l IH]; intros Hl; [done|]. rewrite filter_cons_True by (apply Hl; left).
  f_equal. apply IH. intros y Hy. apply Hl. by right.
Qed.
Lemma filter_none {A} (P : A → Prop) `{∀ x, Decision (P x)} (l : list A) :
  (∀ x, x ∈ l → ¬ P x) → filter P l = [].
Proof.
  induction l as [|x l IH]; intros Hl; [done|]. rewrite filter_cons_False by (apply Hl; left).
  apply IH. intros y Hy. apply Hl. by right.
Qed.

Lemma filter_ext_in {A} (P Q : A → Prop) `{∀ x, Decision (P x), ∀ x, Decision (Q x)} (l : list A) :
  (∀ x, x ∈ l → P x ↔ Q x) → filter P l = filter Q l.
Proof.
  induction l as [|x l IH]; intros Hl; [done|].
  assert (filter P l = filter Q l) as E by (apply IH; intros y Hy; apply Hl; by right).
  destruct (Hl x) as [HPQ HQP]; [by left|]. rewrite !filter_cons, E. repeat case_decide; tauto.
Qed.

(** An update at a known index. *)
Lemma alter_insert {A} (f : A → A) i (l : list A) x : l !! i = Some x → <[i := f x]> l = alter f i l.
Proof. revert i. induction l as [|y l IH]; intros [|i]; csimpl; [done..|naive_solver|]. intros H. f_equal. by apply IH. Qed.

(** A loop that appends one result per element. *)
Lemma go_collect {A B} (f : A → go B) (P : A → B → Prop) acc l :
  (∀ a, a ∈ l → ∃ b, f a = Ret b ∧ P a b) →
  ∃ bs, go_fold (λ acc a, r ← f a; Ret (acc ++ [r])) acc l = Ret (acc ++ bs) ∧ Forall2 P l bs.
Proof.
  revert acc. induction l as [|a l IH]; intros acc Hf; simpl.
  { exists []. by rewrite (right_id_L [] (++)). }
  destruct (Hf a) as (b & -> & Hb); [by left|]. simpl.
  destruct (IH (acc ++ [b])) as (bs & -> & Hbs); [intros; apply Hf; by right|].
  exists (b :: bs). rewrite <- (assoc_L (++)). split; [done|by constructor].
Qed.

Create HintDb go_db.
Create Rewrite HintDb go_rw.
#[export] Hint Rewrite @bind_Ret @or_panic_Ret @len_app @len_cons @len_nil : go_rw.
#[export] Hint Resolve u64_range i64_range len_nonneg : go_db.

(** ** Tactics *)

(** Split every bind that returned into its parts. *)
Ltac go_inv :=
  repeat match goal with
  | H : (_ ≫= _) = Ret _ |- _ => apply bind_Ret in H as (? & ? & ?)
  | H : or_panic _ _ = Ret _ |- _ => apply or_panic_Ret in H
  | H : Ret _ = Ret _ |- _ => injection H as H
  | H : Panic _ = Ret _ |- _ => discriminate H
  | H : Blocked _ = Ret _ |- _ => discriminate H
  | H : mret _ = Ret _ |- _ => unfold mret, go_ret in H
  end; subst.

(** Split every [match]/[if] of a hypothesis, keeping the equations. *)
Ltac split_match_in H :=
  repeat match type of H with
  | context [match ?x with _ => _ end] => destruct x eqn:?; try discriminate H
  end.

(** Case analysis on every [match]/[if] of the goal, with its equation. *)
Ltac split_match :=
  repeat match goal with
  | |- context [match ?x with _ => _ end] => destruct x eqn:?
  end.

(** Turn boolean tests on [Z] into propositions. *)
Ltac z_bool :=
  repeat match goal with
  | H : (_ <? _) = true |- _ => apply Z.ltb_lt in H
  | H : (_ <? _) = false |- _ => apply Z.ltb_ge in H
  | H : (_ <=? _) = true |- _ => apply Z.leb_le in H
  | H : (_ <=? _) = false |- _ => apply Z.leb_gt in H
  | H : (_ =? _) = true |- _ => apply Z.eqb_eq in H
  | H : (_ =? _) = false |- _ => apply Z.eqb_neq in H
  | H : _ && _ = true |- _ => apply andb_prop in H as [? ?]
  | H : negb _ = true |- _ => apply negb_true_iff in H
  | H : negb _ = false |- _ => apply negb_false_iff in H
  | H : bool_decide _ = true |- _ => apply bool_decide_eq_true in H
  | H : bool_decide _ = false |- _ => apply bool_decide_eq_false in H
  end.

(** Prove a property of every element of a concrete list, one goal per element. *)
Ltac each_elem :=
  let x := fresh "x" in let Hx := fresh "Hx" in
  intros x Hx;
  lazymatch type of Hx with
  | _ ∈ ?l => let l' := eval hnf in l in change (x ∈ l') in Hx
  end;
  repeat match type of Hx with
  | _ ∈ _ :: _ => apply elem_of_cons in Hx as [->|Hx]
  | _ ∈ [] => exfalso; revert Hx; apply not_elem_of_nil
  end.

(** A decidable fact, by computation. *)
Ltac by_compute := apply (bool_decide_unpack _); vm_compute; exact I.

(** Run the monad only. *)
Ltac go_step := cbn beta iota delta [mbind go_bind or_panic mret go_ret fst snd].

(** Did it return?  Evaluates without normalising the result. *)
Definition is_Ret {A} (m : go A) : bool := match m with Ret _ => true | _ => false end.
Lemma is_Ret_returns {A} (m : go A) : is_Ret m = true → ∃ a, m = Ret a.
Proof. destruct m; [by eexists|done|done]. Qed.

(** The result, or [d] if there is none. *)
Definition ret_or {A} (d : A) (m : go A) : A := match m with Ret a => a | _ => d end.
Lemma is_Ret_or {A} (d : A) (m : go A) : is_Ret m = true → m = Ret (ret_or d m).
Proof. by destruct m. Qed.
