(* ===== verification/Params.v ===== *)
(** * Run parameters and address arithmetic

    [params/global_config.go] and [params/static_config.go] hold the globals that
    are set once at start-up; they are the fields of the class [Params], so every
    definition that reads a global takes them implicitly.  [utils/utils_partition.go]
    maps an address to its default shard and a byte string to a residue. *)

From S2P Require Import Prelude.
From Stdlib Require Import Ascii.

(** ** [params/global_config.go], [params/static_config.go] *)

Class Params := mkParams {
  NodesInShard : Z;
  ShardNum : Z;
  PbftViewChangeTimeOut : Z;
  BlocksizeInBytes : Z;
  UseBlocksizeInBytes : Z;
  InjectSpeed : Z;
  BrokerNum : Z;
  RelayWithMerkleProof : Z
}.

Definition SupervisorShard : Z := 2147483647.
Definition Init_Balance : Z := 100000000000000000000000000000000000000000000.

Record ChainConfig := mkChainConfig {
  ChainID : Z;
  cc_NodeID : Z;
  cc_ShardID : Z;
  Nodes_perShard : Z;
  ShardNums : Z;
  BlockSize : Z;
  BlockInterval : Z;
  cc_InjectSpeed : Z
}.

(** ** [utils/utils_partition.go] *)

(** One digit of [strconv.ParseUint(s, 16, 64)]: upper and lower case hex. *)
Definition hex_digit (c : ascii) : option Z :=
  let n := Z.of_N (N_of_ascii c) in
  if (48 <=? n) && (n <=? 57) then Some (n - 48)
  else if (97 <=? n) && (n <=? 102) then Some (n - 87)
  else if (65 <=? n) && (n <=? 70) then Some (n - 55)
  else None.

Fixpoint hex_digits (acc : Z) (s : string) : option Z :=
  match s with
  | EmptyString => Some acc
  | String c s =>
      d ← hex_digit c;
      let n := acc * 16 + d in
      if n <? 2 ^ 64 then hex_digits n s else None
  end.

(** [strconv.ParseUint(s, 16, 64)]: [None] is a syntax or a range error. *)
Definition ParseUint16 (s : string) : option Z :=
  match s with
  | EmptyString => None
  | _ => hex_digits 0 s
  end.

(** [strconv.ParseInt(s, 16, 64)]: an optional sign, and a range of 64 bits. *)
Definition ParseInt16 (s : string) : option Z :=
  match s with
  | EmptyString => None
  | String c s' =>
      let neg := Ascii.eqb c "-"%char in
      un ← ParseUint16 (if neg || Ascii.eqb c "+"%char then s' else s);
      if neg then if un <=? 2 ^ 63 then Some (- un) else None
      else if un <? 2 ^ 63 then Some un else None
  end.

(** [addr[len(addr)-8:]] when longer than eight bytes. *)
Definition last8 (addr : Address) : string :=
  let n := String.length addr in
  if (8 <? n)%nat then String.substring (n - 8) 8 addr else addr.

Definition Addr2Shard `{Params} (addr : Address) : go Z :=
  num ← or_panic "strconv.ParseUint" (ParseUint16 (last8 addr));
  if ShardNum =? 0 then Panic "integer divide by zero"
  else Ret (Z.rem (i64 num) ShardNum).

(** [new(big.Int).SetBytes]: big-endian. *)
Fixpoint SetBytes_from (acc : Z) (s : bytes) : Z :=
  match s with
  | EmptyString => acc
  | String c s => SetBytes_from (acc * 256 + Z.of_N (N_of_ascii c)) s
  end.

Definition ModBytes (data : bytes) (modulus : Z) : go Z :=
  let num := SetBytes_from 0 data in
  if i64 modulus =? 0 then Panic "division by zero"
  else Ret (u64 (num `mod` (i64 modulus))).

#[global] Arguments ModBytes : simpl never.
#[global] Arguments Addr2Shard : simpl never.

(** ** Lemmas *)

Lemma hex_digit_range c d : hex_digit c = Some d → 0 ≤ d < 16.
Proof. unfold hex_digit. intros H. split_match_in H; injection H as <-; z_bool; lia. Qed.

Lemma hex_digits_bound s acc n :
  0 ≤ acc → hex_digits acc s = Some n →
  0 ≤ n < (acc + 1) * 16 ^ Z.of_nat (String.length s).
Proof.
  revert acc. induction s as [|c s IH]; intros acc Hacc; simpl.
  - intros [= ->]. lia.
  - destruct (hex_digit c) as [d|] eqn:Hd; simpl; [|done].
    apply hex_digit_range in Hd. case_match; [|done].
    intros Hs. apply IH in Hs; [|lia].
    rewrite Nat2Z.inj_succ, Z.pow_succ_r by lia.
    set (p := 16 ^ Z.of_nat (String.length s)) in *.
    assert (0 < p) by (apply Z.pow_pos_nonneg; lia). nia.
Qed.

Lemma substring_length s n m : (String.length (String.substring n m s) ≤ m)%nat.
Proof.
  revert n m. induction s as [|c s IH]; intros n m; destruct n, m; simpl; try lia.
  - pose proof (IH 0%nat m). lia.
  - apply IH.
  - apply IH.
Qed.

Lemma last8_length a : (String.length (last8 a) ≤ 8)%nat.
Proof.
  unfold last8. destruct (8 <? String.length a)%nat eqn:H; [apply substring_length|].
  apply Nat.ltb_ge in H. lia.
Qed.

(** The number read from the tail of an address fits 32 bits. *)
Lemma parse_last8_bound a n : ParseUint16 (last8 a) = Some n → 0 ≤ n < 2 ^ 32.
Proof.
  unfold ParseUint16. pose proof (last8_length a).
  destruct (last8 a) as [|c s] eqn:E; [done|]. intros Hs.
  apply hex_digits_bound in Hs; [|lia].
  assert (16 ^ Z.of_nat (String.length (String c s)) ≤ 16 ^ 8).
  { apply Z.pow_le_mono_r; lia. }
  assert (16 ^ 8 = 2 ^ 32) by done. lia.
Qed.

Lemma Addr2Shard_eq `{Params} addr s :
  0 < ShardNum → Addr2Shard addr = Ret s →
  ∃ n, ParseUint16 (last8 addr) = Some n ∧ s = n `mod` ShardNum.
Proof.
  unfold Addr2Shard. intros HS Ha. go_inv. apply parse_last8_bound in H0 as Hb.
  split_match_in H1. z_bool. injection H1 as <-.
  rewrite i64_id by (unfold is_i64; lia). rewrite Z.rem_mod_nonneg by lia. eauto.
Qed.

Lemma Addr2Shard_bound `{Params} addr s :
  0 < ShardNum → Addr2Shard addr = Ret s → 0 ≤ s < ShardNum.
Proof.
  intros HS (n & _ & ->)%Addr2Shard_eq; [|done]. apply Z.mod_pos_bound. lia.
Qed.

Lemma SetBytes_nonneg s acc : 0 ≤ acc → 0 ≤ SetBytes_from acc s.
Proof.
  revert acc. induction s as [|c s IH]; intros acc Hacc; simpl; [done|]. apply IH. lia.
Qed.

Lemma ModBytes_bound data m :
  0 < m < 2 ^ 63 → ∃ i, ModBytes data m = Ret i ∧ 0 ≤ i < m.
Proof.
  intros Hm. unfold ModBytes. rewrite i64_id by (unfold is_i64; lia).
  destruct (m =? 0) eqn:E; z_bool; [lia|].
  pose proof (Z.mod_pos_bound (SetBytes_from 0 data) m).
  eexists. split; [done|]. rewrite u64_id; [lia|]. unfold is_u64. lia.
Qed.

#[export] Hint Resolve Addr2Shard_bound ModBytes_bound : go_db.

(** The parameters the witnesses run with: two shards of four nodes. *)
Definition params4 : Params := {|
  NodesInShard := 4; ShardNum := 2; PbftViewChangeTimeOut := 10000; BlocksizeInBytes := 20000;
  UseBlocksizeInBytes := 0; InjectSpeed := 2000; BrokerNum := 10; RelayWithMerkleProof := 0 |}.
