(* ===== verification/Core.v ===== *)
(** * Core data: accounts, transactions, the transaction pool, blocks

    [core/account.go], [core/transaction.go], [core/txpool.go], [core/block.go].
    [encoding/gob] and [crypto/sha256] are interfaces ([Codec], [Sha256]): the
    code only relies on decoding an encoding, and on hashing being a function. *)

From S2P Require Import Prelude Params.

(** ** Serialisation and hashing *)

Class Codec (A : Type) := { enc : A → bytes; dec : bytes → option A }.
Class CodecOk (A : Type) `{Codec A} := dec_enc (a : A) : dec (enc a) = Some a.
Class Sha256 := Sum256 : bytes → bytes.

Lemma enc_inj `{CodecOk A} (a b : A) : enc a = enc b → a = b.
Proof. intros E. pose proof (dec_enc a) as Ha. rewrite E, dec_enc in Ha. congruence. Qed.

(** ** [core/account.go] *)

Record AccountState := mkAS {
  as_AcAddress : Address;
  as_Nonce : Z;
  as_Balance : Z;
  as_StorageRoot : bytes;
  as_CodeHash : bytes
}.
#[export] Instance AccountState_eta : Eta AccountState := λ r,
  mkAS (as_AcAddress r) (as_Nonce r) (as_Balance r) (as_StorageRoot r) (as_CodeHash r).

(** Returns the success flag and the updated state. *)
Definition Deduct (s : AccountState) (val : Z) : bool * AccountState :=
  if as_Balance s <? val then (false, s)
  else (true, s <| as_Balance ::= λ b, b - val |>).

Definition Deposit (s : AccountState) (value : Z) : AccountState :=
  s <| as_Balance ::= λ b, b + value |>.

Definition DecodeAS `{Codec AccountState} (b : bytes) : go AccountState :=
  or_panic "gob: AccountState" (dec b).
Definition AS_Hash `{Codec AccountState} `{Sha256} (s : AccountState) : bytes :=
  Sum256 (enc s).

(** ** [core/transaction.go] *)

Record Transaction := mkTx {
  tx_Sender : Address;
  tx_Recipient : Address;
  tx_Nonce : Z;
  tx_Signature : bytes;
  tx_Value : Z;
  tx_TxHash : bytes;
  tx_Time : Time;
  tx_Relayed : bool;
  tx_HasBroker : bool;
  tx_SenderIsBroker : bool;
  tx_OriginalSender : Address;
  tx_FinalRecipient : Address;
  tx_RawTxHash : option bytes       (* [None] is the nil slice *)
}.
#[export] Instance Transaction_eta : Eta Transaction := λ r,
  mkTx (tx_Sender r) (tx_Recipient r) (tx_Nonce r) (tx_Signature r) (tx_Value r)
       (tx_TxHash r) (tx_Time r) (tx_Relayed r) (tx_HasBroker r) (tx_SenderIsBroker r)
       (tx_OriginalSender r) (tx_FinalRecipient r) (tx_RawTxHash r).

#[export] Instance Transaction_eq_dec : EqDecision Transaction.
Proof. solve_decision. Defined.

Definition DecodeTx `{Codec Transaction} (b : bytes) : go Transaction :=
  or_panic "gob: Transaction" (dec b).

(** The hash covers the transaction before [TxHash] is filled in. *)
Definition NewTransaction `{Codec Transaction} `{Sha256}
    (sender recipient : Address) (value nonce : Z) (proposeTime : Time) : Transaction :=
  let tx := mkTx sender recipient nonce "" value "" proposeTime false false false "" "" None in
  tx <| tx_TxHash := Sum256 (enc tx) |>.

(** [unsafe.Sizeof(Transaction{})] on a 64-bit target: strings 16 bytes, slices
    and [time.Time] 24, words and pointers 8, the three flags padded to 8. *)
Definition sizeof_Transaction : Z := 16 + 16 + 8 + 24 + 8 + 24 + 24 + 8 + 16 + 16 + 24.

(** ** [core/txpool.go] *)

Record TxPool := mkTxPool {
  TxQueue : list Transaction;
  RelayPool : option (gmap Z (list Transaction));   (* [None] is the nil map *)
  pool_locked : bool
}.
#[export] Instance TxPool_eta : Eta TxPool := λ r,
  mkTxPool (TxQueue r) (RelayPool r) (pool_locked r).

Definition NewTxPool : TxPool := mkTxPool [] (Some ∅) false.

(** [pool.RelayPool[sid]] as an expression: nil for a missing key or a nil map. *)
Definition relay_of (pool : TxPool) (sid : Z) : list Transaction :=
  default [] (m ← RelayPool pool; m !! sid).

(** [lock.Lock(); defer lock.Unlock(); body] *)
Definition with_pool_lock {A} (pool : TxPool) (body : go A) : go A :=
  if pool_locked pool then Blocked "txpool.lock" else body.

Definition stamp (now : Time) (tx : Transaction) : Transaction :=
  if IsZero (tx_Time tx) then tx <| tx_Time := now |> else tx.

Definition AddTx2Pool (now : Time) (tx : Transaction) (pool : TxPool) : go TxPool :=
  with_pool_lock pool (Ret (pool <| TxQueue ::= λ q, q ++ [stamp now tx] |>)).

Definition AddTxs2Pool (now : Time) (txs : list Transaction) (pool : TxPool) : go TxPool :=
  with_pool_lock pool (Ret (pool <| TxQueue ::= λ q, q ++ (stamp now <$> txs) |>)).

Definition AddTxs2Pool_Head (txs : list Transaction) (pool : TxPool) : go TxPool :=
  with_pool_lock pool (Ret (pool <| TxQueue ::= λ q, txs ++ q |>)).

(** Cut the queue at [n]: the packed prefix and the pool that is left. *)
Definition cut_queue (n : Z) (pool : TxPool) : list Transaction * TxPool :=
  (take (Z.to_nat n) (TxQueue pool), pool <| TxQueue ::= drop (Z.to_nat n) |>).

Definition PackTxs (max_txs : Z) (pool : TxPool) : go (list Transaction * TxPool) :=
  with_pool_lock pool
    (let txNum := if len (TxQueue pool) <? max_txs then len (TxQueue pool) else max_txs in
     Ret (cut_queue txNum pool)).

(** The scan of [PackTxsWithBytes]: the index at which the size is exceeded. *)
Fixpoint bytes_cut (max_bytes currentSize tx_idx : Z) (q : list Transaction) : Z :=
  match q with
  | [] => tx_idx
  | _ :: q =>
      let currentSize := currentSize + sizeof_Transaction in
      if max_bytes <? currentSize then tx_idx
      else bytes_cut max_bytes currentSize (tx_idx + 1) q
  end.

Definition PackTxsWithBytes (max_bytes : Z) (pool : TxPool) : go (list Transaction * TxPool) :=
  with_pool_lock pool (Ret (cut_queue (bytes_cut max_bytes 0 0 (TxQueue pool)) pool)).

Definition AddRelayTx (tx : Transaction) (shardID : Z) (pool : TxPool) : go TxPool :=
  with_pool_lock pool
    match RelayPool pool with
    | None => Panic "assignment to entry in nil map"
    | Some m => Ret (pool <| RelayPool := Some (<[shardID := default [] (m !! shardID) ++ [tx]]> m) |>)
    end.

Definition GetLocked (pool : TxPool) : go TxPool :=
  with_pool_lock pool (Ret (pool <| pool_locked := true |>)).

Definition GetUnlocked (pool : TxPool) : go TxPool :=
  if pool_locked pool then Ret (pool <| pool_locked := false |>)
  else Panic "sync: unlock of unlocked mutex".

Definition GetTxQueueLen (pool : TxPool) : go Z :=
  with_pool_lock pool (Ret (len (TxQueue pool))).

Definition ClearRelayPool (pool : TxPool) : go TxPool :=
  with_pool_lock pool (Ret (pool <| RelayPool := None |>)).

Definition PackRelayTxs (shardID minRelaySize maxRelaySize : Z) (pool : TxPool)
    : go (option (list Transaction) * bool * TxPool) :=
  with_pool_lock pool
    match m ← RelayPool pool; m !! shardID with
    | None => Ret (None, false, pool)
    | Some q =>
        if len q <? i64 minRelaySize then Ret (None, false, pool)
        else
          let txNum := if len q <? maxRelaySize then len q else maxRelaySize in
          let m := default ∅ (RelayPool pool) in
          Ret (Some (take (Z.to_nat txNum) q), true,
               pool <| RelayPool := Some (<[shardID := drop (Z.to_nat txNum) q]> m) |>)
    end.

(** The two lists a queue is split into by [tx.Sender == addr]. *)
Definition sent_by (addr : Address) (q : list Transaction) : list Transaction :=
  filter (λ tx, tx_Sender tx = addr) q.
Definition not_sent_by (addr : Address) (q : list Transaction) : list Transaction :=
  filter (λ tx, tx_Sender tx ≠ addr) q.

(** A relay queue whose transactions all move gets no entry in the new map. *)
Definition TransferTxs (addr : Address) (pool : TxPool) : go (list Transaction * TxPool) :=
  with_pool_lock pool
    (let relay := default ∅ (RelayPool pool) in
     let moved := map_to_list relay ≫= λ '(_, q), sent_by addr q in
     let kept := omap (λ q, match not_sent_by addr q with [] => None | k => Some k end) relay in
     Ret (sent_by addr (TxQueue pool) ++ moved,
          pool <| TxQueue ::= not_sent_by addr |> <| RelayPool := Some kept |>)).

(** ** [core/block.go]

    The bloom filter is carried in its serialised form. *)

Record BlockHeader := mkBH {
  bh_ParentBlockHash : bytes;
  bh_StateRoot : bytes;
  bh_TxRoot : bytes;
  bh_Bloom : bytes;
  bh_Number : Z;
  bh_Time : Time;
  bh_Miner : Z
}.
#[export] Instance BlockHeader_eta : Eta BlockHeader := λ r,
  mkBH (bh_ParentBlockHash r) (bh_StateRoot r) (bh_TxRoot r) (bh_Bloom r)
       (bh_Number r) (bh_Time r) (bh_Miner r).

Record Block := mkBlock {
  b_Header : BlockHeader;
  b_Body : list Transaction;
  b_Hash : bytes
}.
#[export] Instance Block_eta : Eta Block := λ r, mkBlock (b_Header r) (b_Body r) (b_Hash r).

#[export] Instance BlockHeader_eq_dec : EqDecision BlockHeader.
Proof. solve_decision. Defined.
#[export] Instance Block_eq_dec : EqDecision Block.
Proof. solve_decision. Defined.

Definition DecodeBH `{Codec BlockHeader} (b : bytes) : go BlockHeader :=
  or_panic "gob: BlockHeader" (dec b).
Definition BH_Hash `{Codec BlockHeader} `{Sha256} (bh : BlockHeader) : bytes := Sum256 (enc bh).
Definition NewBlock (bh : BlockHeader) (bb : list Transaction) : Block := mkBlock bh bb "".
Definition DecodeB `{Codec Block} (b : bytes) : go Block := or_panic "gob: Block" (dec b).

(** ** Lemmas *)

(** A pool operation that returns was entered with the lock free and leaves it free. *)
Lemma with_pool_lock_Ret {A} pool (body : go A) a :
  with_pool_lock pool body = Ret a ↔ pool_locked pool = false ∧ body = Ret a.
Proof. unfold with_pool_lock. destruct (pool_locked pool); naive_solver. Qed.
#[export] Hint Rewrite @with_pool_lock_Ret : go_rw.

Lemma cut_queue_app n pool packed pool' :
  cut_queue n pool = (packed, pool') → packed ++ TxQueue pool' = TxQueue pool.
Proof. intros [= <- <-]. simpl. apply take_drop. Qed.

Lemma bytes_cut_spec max q cur i :
  0 ≤ i →
  let k := bytes_cut max cur i q in
  i ≤ k ≤ i + len q
  ∧ (cur ≤ max → cur + (k - i) * sizeof_Transaction ≤ max)
  ∧ (k < i + len q → max < cur + (k - i + 1) * sizeof_Transaction).
Proof.
  revert cur i. induction q as [|tx q IH]; intros cur i Hi; simpl.
  - rewrite len_nil. lia.
  - rewrite len_cons. pose proof (len_nonneg q).
    assert (0 < sizeof_Transaction) by (unfold sizeof_Transaction; lia).
    destruct (max <? cur + sizeof_Transaction) eqn:E; z_bool; [lia|].
    destruct (IH (cur + sizeof_Transaction) (i + 1)) as (H1 & H2 & H3); [lia|].
    split_and!; [lia|lia|intros; specialize (H2); nia|intros; nia].
Qed.

Lemma sent_split addr q : sent_by addr q ++ not_sent_by addr q ≡ₚ q.
Proof.
  unfold sent_by, not_sent_by. induction q as [|tx q IH]; [done|].
  rewrite !filter_cons. destruct (decide (tx_Sender tx = addr)) as [E|E].
  - rewrite decide_False by naive_solver. simpl. by rewrite IH.
  - rewrite decide_True by done. rewrite <- Permutation_middle. by rewrite IH.
Qed.

(** All the transactions a pool holds, relay queues included. *)
Definition pool_txs (pool : TxPool) : list Transaction :=
  TxQueue pool ++ (map_to_list (default ∅ (RelayPool pool)) ≫= snd).

Lemma omap_kept_sent addr (m : gmap Z (list Transaction)) :
  (map_to_list m ≫= λ '(_, q), sent_by addr q)
  ++ (map_to_list (omap (λ q, match not_sent_by addr q with [] => None | k => Some k end) m) ≫= snd)
  ≡ₚ map_to_list m ≫= snd.
Proof.
  induction m as [|k q m Hk Hfst IH] using map_first_key_ind.
  { by rewrite omap_empty, map_to_list_empty. }
  set (F := λ q : list Transaction, match not_sent_by addr q with [] => None | k => Some k end) in *.
  rewrite map_to_list_insert_first_key by done. csimpl.
  assert (omap F m !! k = None) as Hk' by (by rewrite lookup_omap, Hk).
  assert ((map_to_list (omap F (<[k:=q]> m)) ≫= snd)
          ≡ₚ not_sent_by addr q ++ (map_to_list (omap F m) ≫= snd)) as Hkept.
  { destruct (not_sent_by addr q) as [|tx r] eqn:E.
    - rewrite omap_insert_None by (by unfold F; rewrite E). by rewrite delete_id.
    - rewrite (omap_insert_Some _ _ _ _ (tx :: r)) by (by unfold F; rewrite E).
      apply (bind_Permutation snd _ ((k, tx :: r) :: map_to_list (omap F m))).
      by apply map_to_list_insert. }
  etrans; [apply Permutation_app_head, Hkept|].
  etrans; [|apply Permutation_app; [apply (sent_split addr)|exact IH]].
  rewrite <- !(assoc_L (++)). apply Permutation_app_head.
  rewrite !(assoc_L (++)). apply Permutation_app_tail, Permutation_app_comm.
Qed.

(** ** Properties of the transaction pool *)

Module TxPoolProps.

(** Packing a proposal from an unlocked pool always returns; it takes
    exactly [min(max_txs, len)] transactions from the head of the queue, loses and
    reorders none, and leaves the relay pool and the lock alone. *)
Theorem PackTxs_spec (max_txs : Z) (pool : TxPool) :
  pool_locked pool = false → 0 ≤ max_txs →
  ∃ packed pool', PackTxs max_txs pool = Ret (packed, pool')
  ∧ packed ++ TxQueue pool' = TxQueue pool
  ∧ len packed = Z.min max_txs (len (TxQueue pool))
  ∧ RelayPool pool' = RelayPool pool ∧ pool_locked pool' = false.
Proof.
  intros Hl Hm. unfold PackTxs, with_pool_lock. rewrite Hl.
  set (n := if len (TxQueue pool) <? max_txs then len (TxQueue pool) else max_txs).
  assert (n = Z.min max_txs (len (TxQueue pool))) as Hn.
  { unfold n. destruct (len (TxQueue pool) <? max_txs) eqn:E; z_bool; lia. }
  eexists _, _. split; [done|]. simpl. split_and!; [apply take_drop| |done|done].
  unfold len in *. rewrite length_take. lia.
Qed.

Definition pool3 : TxPool :=
  let tx s := mkTx s "b" 0 "" 5 s 7 false false false "" "" None in
  mkTxPool [tx "a1"; tx "a2"; tx "a3"] (Some {[ 2 := [tx "a1"; tx "a4"] ]}) false.

Lemma PackTxs_spec_witness :
  ∃ packed pool', PackTxs 2 pool3 = Ret (packed, pool')
  ∧ packed ++ TxQueue pool' = TxQueue pool3
  ∧ len packed = Z.min 2 (len (TxQueue pool3))
  ∧ RelayPool pool' = RelayPool pool3 ∧ pool_locked pool' = false.
Proof. apply (PackTxs_spec 2 pool3); [reflexivity|lia]. Defined.

(** Packing by size returns the longest prefix of the queue whose
    accumulated in-memory size does not exceed [max_bytes]; the rest stays queued. *)
Theorem PackTxsWithBytes_maximal (max_bytes : Z) (pool : TxPool) :
  pool_locked pool = false → 0 ≤ max_bytes →
  ∃ packed pool', PackTxsWithBytes max_bytes pool = Ret (packed, pool')
  ∧ packed ++ TxQueue pool' = TxQueue pool
  ∧ len packed * sizeof_Transaction ≤ max_bytes
  ∧ (TxQueue pool' ≠ [] → max_bytes < (len packed + 1) * sizeof_Transaction).
Proof.
  intros Hl Hm. unfold PackTxsWithBytes, with_pool_lock. rewrite Hl.
  destruct (bytes_cut_spec max_bytes (TxQueue pool) 0 0) as (H1 & H2 & H3); [lia|].
  set (k := bytes_cut max_bytes 0 0 (TxQueue pool)) in *.
  eexists _, _. split; [done|]. simpl.
  assert (len (take (Z.to_nat k) (TxQueue pool)) = k) as ->.
  { unfold len in *. rewrite length_take. lia. }
  split_and!; [apply take_drop|lia|]. intros Hne.
  assert (k < len (TxQueue pool)); [|lia].
  assert (len (drop (Z.to_nat k) (TxQueue pool)) ≠ 0) as Hd.
  { unfold len. destruct (drop _ _); simpl in *; [done|lia]. }
  unfold len in *. rewrite length_drop in Hd. lia.
Qed.

Lemma PackTxsWithBytes_maximal_witness :
  ∃ packed pool', PackTxsWithBytes 400 pool3 = Ret (packed, pool')
  ∧ packed ++ TxQueue pool' = TxQueue pool3
  ∧ len packed * sizeof_Transaction ≤ 400
  ∧ (TxQueue pool' ≠ [] → 400 < (len packed + 1) * sizeof_Transaction).
Proof. apply (PackTxsWithBytes_maximal 400 pool3); [reflexivity|lia]. Defined.

(** Re-sharding an address moves out exactly the transactions it sent,
    from the queue and from every relay queue: what is taken all has that sender,
    nothing left in the pool has it, and no transaction is lost or duplicated. *)
Theorem TransferTxs_partition (addr : Address) (pool : TxPool) :
  pool_locked pool = false →
  ∃ moved pool', TransferTxs addr pool = Ret (moved, pool')
  ∧ (∀ tx, tx ∈ moved → tx_Sender tx = addr)
  ∧ (∀ tx, tx ∈ pool_txs pool' → tx_Sender tx ≠ addr)
  ∧ moved ++ pool_txs pool' ≡ₚ pool_txs pool.
Proof.
  intros Hl. unfold TransferTxs, with_pool_lock. rewrite Hl.
  set (m := default ∅ (RelayPool pool)). eexists _, _. split; [done|].
  unfold pool_txs; simpl. fold m. split_and!.
  - intros tx [[? _]%list_elem_of_filter|Hb]%elem_of_app; [done|].
    apply list_elem_of_bind in Hb as ([k q] & Hq & _). by apply list_elem_of_filter in Hq as [? _].
  - intros tx [[? _]%list_elem_of_filter|Hb]%elem_of_app; [done|].
    apply list_elem_of_bind in Hb as ([k q] & Hq & Hk). simpl in Hq.
    apply elem_of_map_to_list in Hk. rewrite lookup_omap in Hk.
    destruct (m !! k) as [q0|]; simpl in Hk; [|done].
    destruct (not_sent_by addr q0) as [|t r] eqn:E; [done|]. injection Hk as <-.
    rewrite <- E in Hq. by apply list_elem_of_filter in Hq as [? _].
  - etrans; [|apply Permutation_app; [apply (sent_split addr)|apply (omap_kept_sent addr)]].
    rewrite <- !(assoc_L (++)). apply Permutation_app_head.
    rewrite !(assoc_L (++)). apply Permutation_app_tail, Permutation_app_comm.
Qed.

Lemma TransferTxs_partition_witness :
  ∃ moved pool', TransferTxs "a1" pool3 = Ret (moved, pool')
  ∧ (∀ tx, tx ∈ moved → tx_Sender tx = "a1")
  ∧ (∀ tx, tx ∈ pool_txs pool' → tx_Sender tx ≠ "a1")
  ∧ moved ++ pool_txs pool' ≡ₚ pool_txs pool3.
Proof. apply (TransferTxs_partition "a1" pool3). reflexivity. Defined.

End TxPoolProps.
