(* ===== verification/Message.v ===== *)
(** * Messages: structs, wire framing

    [message/*.go], [shard/nodes.go] and the proof record of [chain/merkleproof.go].
    A message travels as a 30-byte zero-padded type name followed by the JSON of
    its struct ([MergeMessage]/[SplitMessage]). *)

From S2P Require Import Prelude Params Core.
From Stdlib Require Import Ascii.

(** ** [shard/nodes.go] *)

Record Node := mkNode { n_NodeID : Z; n_ShardID : Z; n_IPaddr : string }.

(** ** [message/message.go]: types *)

Abbreviation MessageType := string (only parsing).
Abbreviation RequestType := string (only parsing).

Definition prefixMSGtypeLen : nat := 30.

Definition CPrePrepare : MessageType := "preprepare".
Definition CPrepare : MessageType := "prepare".
Definition CCommit : MessageType := "commit".
Definition CRequestOldrequest : MessageType := "requestOldrequest".
Definition CSendOldrequest : MessageType := "sendOldrequest".
Definition CStop : MessageType := "stop".
Definition CRelay : MessageType := "relay".
Definition CRelayWithProof : MessageType := "CRelay&Proof".
Definition CInject : MessageType := "inject".
Definition CBlockInfo : MessageType := "BlockInfo".
Definition CSeqIDinfo : MessageType := "SequenceID".
Definition CInterSZonePrepare : MessageType := "InterSZonePrepare".
Definition CInterSZoneConfirm : MessageType := "InterSZoneConfirm".
Definition CInterSZoneVote : MessageType := "InterSZVote".
Definition ViewChangePropose : MessageType := "ViewChangePropose".
Definition NewChange : MessageType := "NewChange".
Definition AccountState_and_TX : MessageType := "AccountState&txs".
Definition CPartitionMsg : MessageType := "PartitionModifiedMap".
Definition CPartitionReady : MessageType := "ready for partition".
Definition BrokerRawTx : MessageType := "brokerRawTx".
Definition BrokerConfirm1 : MessageType := "brokerConfirm1".
Definition BrokerConfirm2 : MessageType := "brokerConfirm2".
Definition BrokerType1 : MessageType := "brokerType1".
Definition BrokerType2 : MessageType := "brokerType2".
Definition CInjectBroker : MessageType := "InjectTx_Broker".
Definition CBrokerTxMap : MessageType := "BrokerTxMap".
Definition CAccountTransferMsg_broker : MessageType := "BrokerAS_transfer".
Definition CInner2CrossTx : MessageType := "innerShardTx_be_crossShard".

Definition BlockRequest : RequestType := "Block".
Definition PartitionReq : RequestType := "PartitionReq".

(** Every message type the source declares. *)
Definition all_message_types : list MessageType :=
  [CPrePrepare; CPrepare; CCommit; CRequestOldrequest; CSendOldrequest; CStop; CRelay;
   CRelayWithProof; CInject; CBlockInfo; CSeqIDinfo; CInterSZonePrepare; CInterSZoneConfirm;
   CInterSZoneVote; ViewChangePropose; NewChange; AccountState_and_TX; CPartitionMsg;
   CPartitionReady; BrokerRawTx; BrokerConfirm1; BrokerConfirm2; BrokerType1; BrokerType2;
   CInjectBroker; CBrokerTxMap; CAccountTransferMsg_broker; CInner2CrossTx].

(** ** Structs *)

Record Request := mkRequest { r_RequestType : RequestType; r_Content : bytes; r_ReqTime : Time }.

(** [RequestMsg] is a pointer and may be nil. *)
Record PrePrepare := mkPrePrepare {
  pp_RequestMsg : option Request; pp_Digest : bytes; pp_SeqID : Z }.
Record Prepare := mkPrepare { p_Digest : bytes; p_SeqID : Z; p_SenderNode : Node }.
Record Commit := mkCommit { c_Digest : bytes; c_SeqID : Z; c_SenderNode : Node }.
Record RequestOldMessage := mkRequestOld {
  ro_SeqStartHeight : Z; ro_SeqEndHeight : Z; ro_ServerNode : Node; ro_SenderNode : Node }.
Record SendOldMessage := mkSendOld {
  so_SeqStartHeight : Z; so_SeqEndHeight : Z; so_OldRequest : list (option Request);
  so_SenderNode : Node }.
Record InjectTxs := mkInject { it_Txs : list Transaction; it_ToShardID : Z }.

Record BlockInfoMsg := mkBlockInfo {
  bi_BlockBodyLength : Z;
  bi_InnerShardTxs : list Transaction;
  bi_Epoch : Z;
  bi_ProposeTime : Time;
  bi_CommitTime : Time;
  bi_SenderShardID : Z;
  bi_Relay1Txs : list Transaction;
  bi_Relay2Txs : list Transaction;
  bi_Broker1Txs : list Transaction;
  bi_Broker2Txs : list Transaction
}.
Record SeqIDinfo := mkSeqIDinfo { si_SenderShardID : Z; si_SenderSeq : Z }.

(** [message_viewChange.go] *)
Record ViewChangeMsg := mkViewChange {
  vc_CurView : Z; vc_NextView : Z; vc_SeqID : Z; vc_FromNode : Z }.
Record NewViewMsg := mkNewView {
  nv_CurView : Z; nv_NextView : Z; nv_NewSeqID : Z; nv_FromNode : Z }.

(** [chain/merkleproof.go] *)
Record TxProofResult := mkTxProof {
  pr_Found : bool; pr_BlockHash : bytes; pr_TxHash : bytes; pr_TxRoot : bytes;
  pr_BlockHeight : Z; pr_KeyList : list bytes; pr_ValueList : list bytes; pr_Error : string }.

(** [message_relay.go] *)
Record Relay := mkRelay { rl_Txs : list Transaction; rl_SenderShardID : Z; rl_SenderSeq : Z }.
Record RelayWithProof := mkRelayWithProof {
  rp_Txs : list Transaction; rp_TxProofs : list TxProofResult;
  rp_SenderShardID : Z; rp_SenderSeq : Z }.

(** SZHBFT messages of [message.go]. *)
Record InterSZonePrepare := mkSZPrepare {
  zp_Block : Block; zp_SeqID : Z; zp_View : Z; zp_ReqTime : Time; zp_SenderNode : Node }.
Record InterSZoneConfirm := mkSZConfirm {
  zc_Block : Block; zc_SeqID : Z; zc_View : Z; zc_Signatures : bytes; zc_SenderNode : Node }.
Record InterSZoneVote := mkSZVote {
  zv_SeqID : Z; zv_View : Z; zv_SenderShardID : Z; zv_SenderNodeID : Z; zv_Result : bool }.

(** [message_CLPA.go] *)
Record PartitionModifiedMap := mkPartitionMap { PartitionModified : gmap string Z }.
Record AccountTransferMsg := mkATM {
  at_ModifiedMap : gmap string Z; at_Addrs : list Address;
  at_AccountState : list AccountState; at_ATid : Z }.
Record PartitionReadyMsg := mkPartitionReady { pr_FromShard : Z; pr_NowSeqID : Z }.
Record AccountStateAndTx := mkAST {
  ast_Addrs : list Address; ast_AccountState : list AccountState;
  ast_Txs : list Transaction; ast_FromShard : Z }.

(** [message_broker.go] *)
Record BrokerRawMeg := mkBrokerRaw {
  br_Tx : Transaction; br_Broker : Address; br_Hlock : Z; br_Snonce : Z; br_Bnonce : Z;
  br_Signature : bytes }.
Record BrokerType1Meg := mkBrokerType1 {
  b1_RawMeg : BrokerRawMeg; b1_Hcurrent : Z; b1_Broker : Address }.
Record Mag1Confirm := mkMag1 { m1_Tx1Hash : bytes; m1_RawMeg : BrokerRawMeg }.
Record BrokerType2Meg := mkBrokerType2 { b2_RawMeg : BrokerRawMeg; b2_Broker : Address }.
Record Mag2Confirm := mkMag2 { m2_Tx2Hash : bytes; m2_RawMeg : BrokerRawMeg }.
Record InnerTx2CrossTx := mkInner2Cross { ic_Txs : list Transaction }.

(** ** A message after JSON decoding *)

Inductive payload : Type :=
| MPrePrepare (m : PrePrepare) | MPrepare (m : Prepare) | MCommit (m : Commit)
| MRequestOld (m : RequestOldMessage) | MSendOld (m : SendOldMessage)
| MViewChange (m : ViewChangeMsg) | MNewView (m : NewViewMsg)
| MRelay (m : Relay) | MRelayWithProof (m : RelayWithProof) | MInject (m : InjectTxs)
| MBlockInfo (m : BlockInfoMsg) | MSeqIDinfo (m : SeqIDinfo)
| MSZPrepare (m : InterSZonePrepare) | MSZConfirm (m : InterSZoneConfirm)
| MSZVote (m : InterSZoneVote)
| MPartitionMap (m : PartitionModifiedMap) | MPartitionReady (m : PartitionReadyMsg)
| MAccountStateAndTx (m : AccountStateAndTx) | MBrokerAST (m : AccountStateAndTx)
| MInner2Cross (m : InnerTx2CrossTx)
| MStop.

(** The type name each struct is sent under. *)
Definition type_of (m : payload) : MessageType :=
  match m with
  | MPrePrepare _ => CPrePrepare | MPrepare _ => CPrepare | MCommit _ => CCommit
  | MRequestOld _ => CRequestOldrequest | MSendOld _ => CSendOldrequest
  | MViewChange _ => ViewChangePropose | MNewView _ => NewChange
  | MRelay _ => CRelay | MRelayWithProof _ => CRelayWithProof | MInject _ => CInject
  | MBlockInfo _ => CBlockInfo | MSeqIDinfo _ => CSeqIDinfo
  | MSZPrepare _ => CInterSZonePrepare | MSZConfirm _ => CInterSZoneConfirm
  | MSZVote _ => CInterSZoneVote
  | MPartitionMap _ => CPartitionMsg | MPartitionReady _ => CPartitionReady
  | MAccountStateAndTx _ => AccountState_and_TX | MBrokerAST _ => CAccountTransferMsg_broker
  | MInner2Cross _ => CInner2CrossTx
  | MStop => CStop
  end.

(** ** [message/message.go]: framing *)

Fixpoint zeros (n : nat) : bytes :=
  match n with O => "" | S n => String zero (zeros n) end.

Definition MergeMessage (msgType : MessageType) (content : bytes) : go bytes :=
  if (prefixMSGtypeLen <? String.length msgType)%nat then Panic "index out of range"
  else Ret (msgType +:+ (zeros (prefixMSGtypeLen - String.length msgType) +:+ content)).

(** Drop the zero bytes of a string. *)
Fixpoint prune (s : bytes) : bytes :=
  match s with
  | EmptyString => EmptyString
  | String c s => if ascii_dec c zero then prune s else String c (prune s)
  end.

(** [s[:n]] and [s[n:]]; a slice beyond the length panics. *)
Fixpoint split_at (n : nat) (s : bytes) : option (bytes * bytes) :=
  match n, s with
  | O, _ => Some ("", s)
  | S n, String c s => '(a, b) ← split_at n s; Some (String c a, b)
  | S n, EmptyString => None
  end.

Definition SplitMessage (message : bytes) : go (MessageType * bytes) :=
  '(msgTypeBytes, content) ← or_panic "slice bounds out of range" (split_at prefixMSGtypeLen message);
  Ret (prune msgTypeBytes, content).

(** ** Lemmas *)

Lemma string_app_cons c (s t : string) : String c s +:+ t = String c (s +:+ t).
Proof. done. Qed.

Lemma string_app_assoc (s t u : string) : (s +:+ t) +:+ u = s +:+ (t +:+ u).
Proof. induction s as [|c s IH]; [done|]. rewrite ?string_app_cons; simpl. by rewrite IH. Qed.

Lemma string_length_app (s t : string) :
  String.length (s +:+ t) = (String.length s + String.length t)%nat.
Proof. induction s as [|c s IH]; [done|]. rewrite ?string_app_cons; simpl. by rewrite IH. Qed.

Lemma length_zeros n : String.length (zeros n) = n.
Proof. induction n as [|n IH]; simpl; [done|]. by rewrite IH. Qed.

Lemma prune_zeros n : prune (zeros n) = "".
Proof. induction n as [|n IH]; simpl; [done|]. by destruct (ascii_dec zero zero). Qed.

Lemma prune_app s t : prune (s +:+ t) = prune s +:+ prune t.
Proof.
  induction s as [|c s IH]; [done|]. rewrite string_app_cons. simpl.
  rewrite IH. by destruct (ascii_dec c zero).
Qed.

Lemma split_at_app s t : split_at (String.length s) (s +:+ t) = Some (s, t).
Proof. induction s as [|c s IH]; [by destruct t|]. rewrite string_app_cons. simpl. by rewrite IH. Qed.

Lemma split_at_None n s : split_at n s = None ↔ (String.length s < n)%nat.
Proof.
  revert s. induction n as [|n IH]; intros s; simpl.
  - split; [by destruct s|lia].
  - destruct s as [|c s]; simpl; [split; [lia|done]|].
    rewrite <- Nat.succ_lt_mono, <- IH. destruct (split_at n s) as [[??]|]; naive_solver.
Qed.

Lemma string_app_nil_r (s : string) : s +:+ "" = s.
Proof. induction s as [|c s IH]; [done|]. rewrite ?string_app_cons; simpl. by rewrite IH. Qed.

Lemma merge_split ty content :
  (String.length ty ≤ prefixMSGtypeLen)%nat → prune ty = ty →
  ∃ m, MergeMessage ty content = Ret m ∧ SplitMessage m = Ret (ty, content).
Proof.
  intros Hlen Hty. unfold MergeMessage.
  rewrite (proj2 (Nat.ltb_ge _ _)) by done. eexists. split; [done|].
  unfold SplitMessage. rewrite <- string_app_assoc.
  set (pre := ty +:+ zeros (prefixMSGtypeLen - String.length ty)).
  assert (String.length pre = prefixMSGtypeLen) as <-.
  { unfold pre. rewrite string_length_app, length_zeros. lia. }
  rewrite split_at_app. simpl. unfold pre.
  by rewrite prune_app, prune_zeros, Hty, string_app_nil_r.
Qed.

Module MessageProps.

(** Framing round trip: a type name of at most 30 bytes without zero bytes,
    merged with any content, is split back into exactly that type and content. *)
Theorem Merge_Split_roundtrip (ty : MessageType) (content : bytes) :
  (String.length ty ≤ prefixMSGtypeLen)%nat → prune ty = ty →
  ∃ m, MergeMessage ty content = Ret m ∧ SplitMessage m = Ret (ty, content).
Proof.
  apply merge_split.
Qed.

Lemma Merge_Split_roundtrip_witness :
  ∃ m, MergeMessage CInner2CrossTx "{}" = Ret m ∧ SplitMessage m = Ret (CInner2CrossTx, "{}"%string).
Proof. apply (Merge_Split_roundtrip CInner2CrossTx "{}"); [vm_compute; lia|reflexivity]. Defined.

(** Every message type the program declares survives framing, and no two
    of them share a name, so the receiver's dispatch is unambiguous; a message
    shorter than the 30-byte prefix makes the receiver panic. *)
Theorem all_types_framed :
  (∀ ty, ty ∈ all_message_types →
     ∀ content, ∃ m, MergeMessage ty content = Ret m ∧ SplitMessage m = Ret (ty, content))
  ∧ NoDup all_message_types
  ∧ (∀ m, type_of m ∈ all_message_types)
  ∧ (∀ s, (String.length s < prefixMSGtypeLen)%nat ↔ SplitMessage s = Panic "slice bounds out of range").
Proof.
  split_and!.
  - assert (Forall (λ ty, (String.length ty ≤ prefixMSGtypeLen)%nat ∧ prune ty = ty)
              all_message_types) as Hall.
    { by_compute. }
    intros ty Hty content. rewrite Forall_forall in Hall. destruct (Hall ty Hty) as [Hl Hp].
    by apply merge_split.
  - by_compute.
  - intros m. destruct m; by_compute.
  - intros s. unfold SplitMessage. rewrite <- split_at_None.
    destruct (split_at prefixMSGtypeLen s) as [[??]|]; simpl; naive_solver.
Qed.

End MessageProps.
