(* ===== verification/Network.v ===== *)
(** * The network layer

    [networks/p2pNetwork.go], [upload_limit.go], [download_limit.go], and the loops that
    read a connection in [consensus_shard/pbft_all/pbft.go] and
    [supervisor/supervisor.go].

    - [golang.org/x/time/rate] is the class [RateLimiter], with its documented
      behaviour as [RateLimiterOk]; [Limiters.plain] is an instance.
    - A TCP connection delivers the bytes written to it, in order; a write that fails
      may have delivered some of its bytes, and nothing written later gets through.
    - [TcpDial]'s goroutine holds [connMaplock] from the look-up of the connection to the
      end of the write, so the sends of all goroutines are one sequence of steps, in the
      order in which they get the lock.  What the network answers to a send is its
      argument [a]. *)

From S2P Require Import Prelude Params Message.
From Stdlib Require Import Ascii.

(** ** [golang.org/x/time/rate] *)

Class RateLimiter := {
  Limiter : Type;
  NewLimiter : Z → Z → Limiter;
  Burst : Limiter → Z;
  (** [WaitN(context.TODO(), n)]; [None] is an error. *)
  WaitN : Limiter → Z → option Limiter
}.
(** "WaitN blocks until lim permits n events to happen.  It returns an error if n
    exceeds the Limiter's burst size, the Context is canceled, or the expected wait time
    exceeds the Context's Deadline"; [context.TODO()] is never cancelled and has no
    deadline. *)
Class RateLimiterOk (RL : RateLimiter) := {
  Burst_new r b : Burst (NewLimiter r b) = b;
  WaitN_permits l n : n ≤ Burst l → ∃ l', WaitN l n = Some l' ∧ Burst l' = Burst l;
  WaitN_exceeds l n : Burst l < n → WaitN l n = None
}.

Module Limiters.
Definition plain : RateLimiter :=
  {| Limiter := Z; NewLimiter _ b := b; Burst l := l; WaitN l n := if n <=? l then Some l else None |}.
Lemma plain_ok : RateLimiterOk plain.
Proof.
  split; simpl; [done|..]; intros l n H.
  - rewrite (proj2 (Z.leb_le _ _)) by done. by exists l.
  - by rewrite (proj2 (Z.leb_gt _ _)).
Qed.
End Limiters.

(** ** Network parameters *)

Record NetParams := mkNetParams { Delay : Z; JitterRange : Z; Bandwidth : Z }.
#[export] Instance NetParams_eta : Eta NetParams := λ n, mkNetParams (Delay n) (JitterRange n) (Bandwidth n).

(** The parameters after [InitNetworkTools]; both limiters are made from them. *)
Definition clamp (np : NetParams) : NetParams :=
  mkNetParams (if Delay np <? 0 then 0 else Delay np)
    (if JitterRange np <? 0 then 0 else JitterRange np)
    (if Bandwidth np <? 0 then 2147483647 else Bandwidth np).
Definition InitNetworkTools {RL : RateLimiter} (np : NetParams) : NetParams * Limiter * Limiter :=
  let np := clamp np in
  (np, NewLimiter (Bandwidth np) (Bandwidth np), NewLimiter (Bandwidth np) (Bandwidth np)).

(** The delay of one send, in milliseconds; [draw n] is [randomDelayGenerator.Intn(n)]. *)
Definition send_delay (draw : Z → Z) (np : NetParams) : Z :=
  if JitterRange np =? 0 then Delay np
  else draw (JitterRange np) - Z.quot (JitterRange np) 2 + Delay np.

(** ** Bytes *)

Definition newline : ascii := "010".
Definition nl : bytes := String newline "".

(** [ReadBytes('\n')] of the bytes to come: what is returned, what is left, and whether
    the stream ended before the delimiter. *)
Fixpoint ReadBytes (s : bytes) : bytes * bytes * bool :=
  match s with
  | EmptyString => ("", "", true)
  | String c s =>
      if ascii_dec c newline then (nl, s, false)
      else let '(line, rest, eof) := ReadBytes s in (String c line, rest, eof)
  end.

(** The first [n] bytes. *)
Fixpoint first_bytes (n : nat) (s : bytes) : bytes :=
  match n, s with
  | S n, String c s => String c (first_bytes n s)
  | _, _ => ""
  end.

Section network.
Context {RL : RateLimiter}.

(** ** [upload_limit.go], [download_limit.go]

    The loops return whether all tokens were granted and what was asked for; [None]: not
    finished after [fuel] rounds. *)

Fixpoint upload_wait (fuel : nat) (n : Z) (l : Limiter) : option (bool * Limiter * list Z) :=
  match fuel with
  | O => None
  | S fuel =>
      if 0 <? n then
        let writeByteNum := Burst l in
        let writeByteNum := if n <? writeByteNum then n else writeByteNum in
        match WaitN l writeByteNum with
        | None => Some (false, l, [])
        | Some l =>
            '(granted, l, asked) ← upload_wait fuel (n - writeByteNum) l;
            Some (granted, l, writeByteNum :: asked)
        end
      else Some (true, l, [])
  end.

Fixpoint download_wait (fuel : nat) (n : Z) (l : Limiter) : option (bool * Limiter * list Z) :=
  match fuel with
  | O => None
  | S fuel =>
      if 0 <? n then
        let writeByteNum := Burst l in
        let writeByteNum := if n <? writeByteNum then n else writeByteNum in
        match WaitN l n with
        | None => Some (false, l, [])
        | Some l =>
            '(granted, l, asked) ← download_wait fuel (n - writeByteNum) l;
            Some (granted, l, n :: asked)
        end
      else Some (true, l, [])
  end.

(** ** Connections *)

Record Conn := mkConn { c_addr : string; c_wire : bytes; c_broken : bool }.

Record Net := mkNet {
  connectionPool : gmap string nat;
  rateLimiterUpload : Limiter;
  conns : list Conn
}.
#[export] Instance Net_eta : Eta Net := λ n, mkNet (connectionPool n) (rateLimiterUpload n) (conns n).

(** What the network answers to one send: is the pooled connection alive, does a new one
    come about, and after how many bytes does the write fail. *)
Record answers := mkAnswers { a_alive : bool; a_dial : bool; a_write : option nat }.

Definition conn_Write (a : answers) (p : bytes) (k : Conn) : Conn :=
  if c_broken k then k
  else match a_write a with
       | None => mkConn (c_addr k) (c_wire k +:+ p) false
       | Some n => mkConn (c_addr k) (c_wire k +:+ first_bytes n p) true
       end.

(** [net.Dial], with the entry of the pool. *)
Definition Dial (a : answers) (addr : string) (n : Net) : option (nat * Net) :=
  if a_dial a then
    let c := length (conns n) in
    Some (c, n <| conns ::= λ l, l ++ [mkConn addr "" false] |> <| connectionPool ::= <[addr := c]> |>)
  else None.

(** [writeToConn] with the upload limiter. *)
Definition writeToConn (fuel : nat) (a : answers) (connMsg : bytes) (c : nat) (n : Net) : option Net :=
  '(granted, l, _) ← upload_wait fuel (Z.of_nat (String.length connMsg)) (rateLimiterUpload n);
  let n := n <| rateLimiterUpload := l |> in
  Some (if granted : bool then n <| conns ::= alter (conn_Write a connMsg) c |> else n).

(** The part of [TcpDial] under the lock; [None]: the lock is still held after [fuel]
    rounds of the limiter.  Every pooled connection comes from [net.Dial("tcp", ...)]
    and is a [*net.TCPConn]. *)
Definition TcpDial (fuel : nat) (a : answers) (context : bytes) (addr : string) (n : Net) : option Net :=
  let write '(c, n) := writeToConn fuel a (context +:+ nl) c n in
  match connectionPool n !! addr with
  | Some c =>
      if a_alive a then write (c, n)
      else
        let n := n <| connectionPool ::= delete addr |> in
        match Dial a addr n with Some cn => write cn | None => Some n end
  | None => match Dial a addr n with Some cn => write cn | None => Some n end
  end.

(** The sends that [Broadcast] starts. *)
Definition Broadcast (sender : string) (receivers : list string) (msg : bytes) : list (string * bytes) :=
  (λ ip, (ip, msg)) <$> filter (λ ip, ip ≠ sender) receivers.

Definition CloseAllConnInPool (n : Net) : Net :=
  n <| conns := map_fold (λ _ c l, alter (λ k, mkConn (c_addr k) (c_wire k) true) c l) (conns n) (connectionPool n) |>
    <| connectionPool := ∅ |>.

(** ** Receiving *)

Section receiving.
Context {S : Type} (stopped : S → bool) (handle : bytes → S → go S).

(** The loop of a node's [handleClientRequest] on the bytes of a connection, under
    [tcpPoolLock]. *)
Fixpoint handleClientRequest (fuel : nat) (stream : bytes) (s : S) : option (go S) :=
  match fuel with
  | O => None
  | Datatypes.S fuel =>
      let '(clientRequest, rest, eof) := ReadBytes stream in
      if stopped s then Some (Ret s)
      else if eof : bool then Some (Ret s)
      else match handle clientRequest s with
           | Ret s => handleClientRequest fuel rest s
           | Panic why => Some (Panic why)
           | Blocked what => Some (Blocked what)
           end
  end.
End receiving.

(** That of the supervisor, under [tcpLock]: it has no stop signal to look at. *)
Definition supervisor_handleClientRequest {S : Type} (handle : bytes → S → go S) :=
  handleClientRequest (λ _, false) handle.

Inductive ReadErr := ErrShortBuffer | ErrOther.

(** A [bytes.Buffer] has only [io.EOF] to report, which is not an error here. *)
Definition readMessage (buffer : bytes) : bytes * option ReadErr * bytes :=
  let '(message, rest, eof) := ReadBytes buffer in (message, None, rest).

(** The loop that handles the full messages of the buffer; with the log. *)
Fixpoint full_messages (fuel : nat) (buffer : bytes) (log : list bytes) : option (bytes * list bytes) :=
  match fuel with
  | O => None
  | S fuel =>
      match readMessage buffer with
      | (_, Some _, buffer) => Some (buffer, log)
      | (message, None, buffer) => full_messages fuel buffer (log ++ [message])
      end
  end.

Definition buffer_size : Z := 1024.

(** [ReadFromConn] on a connection whose reads give [chunks], then end. *)
Fixpoint ReadFromConn (fuel : nat) (chunks : list bytes) (l : Limiter) (buffer : bytes) (log : list bytes)
    : option (list bytes) :=
  '(granted, l, _) ← download_wait fuel buffer_size l;
  if granted : bool then
    match chunks with
    | [] => Some log
    | chunk :: chunks =>
        '(buffer, log) ← full_messages fuel (buffer +:+ chunk) log;
        ReadFromConn fuel chunks l buffer log
    end
  else Some log.

End network.
