(* ===== verification/NetworkProps.v ===== *)
(** * The network layer: properties *)

From S2P Require Import Prelude Params Message Network.
From Stdlib Require Import Ascii.

(** ** The limiters *)

Section limiters.
Context {RL : RateLimiter} {RLok : RateLimiterOk RL}.

Lemma upload_done fuel l : (0 < fuel)%nat → upload_wait fuel 0 l = Some (true, l, []).
Proof. by destruct fuel; [lia|]. Qed.

(** Rounds of at most the burst size, which add up to the whole. *)
Lemma upload_wait_ok fuel n l :
  0 < Burst l → 0 ≤ n < Z.of_nat fuel →
  ∃ l' asked, upload_wait fuel n l = Some (true, l', asked) ∧ Burst l' = Burst l ∧ sumZ asked = n
    ∧ (∀ k, k ∈ asked → 1 ≤ k ≤ Burst l) ∧ len asked = (n + Burst l - 1) / Burst l.
Proof.
  revert n l. induction fuel as [|fuel IH]; intros n l Hb Hn; [lia|]. simpl.
  destruct (Z.ltb_spec 0 n) as [Hpos|]; cycle 1.
  { assert (n = 0) as -> by lia. exists l, []. do 3 (split; [done|]). split; [by intros ? ?%not_elem_of_nil|].
    rewrite Z.div_small by lia. done. }
  set (w := if n <? Burst l then n else Burst l).
  assert (1 ≤ w ≤ Burst l ∧ w ≤ n ∧ (n ≤ Burst l → w = n) ∧ (Burst l ≤ n → w = Burst l)) as (Hw & Hwn & Hw1 & Hw2).
  { unfold w. destruct (Z.ltb_spec n (Burst l)); lia. }
  destruct (WaitN_permits l w) as (l1 & -> & Hl1); [lia|].
  destruct (IH (n - w) l1) as (l2 & asked & -> & Hl2 & Hsum & Hall & Hlen); [lia..|]. simpl.
  exists l2, (w :: asked). split; [done|]. split; [congruence|]. split; [csimpl; lia|]. split.
  - intros k [->|Hk]%elem_of_cons; [lia|]. rewrite <- Hl1. by apply Hall.
  - rewrite len_cons, Hlen, Hl1. destruct (Z.le_gt_cases n (Burst l)) as [Hle|Hgt].
    + rewrite Hw1 by done. rewrite Z.div_small by lia. symmetry.
      rewrite <- (Z.div_unique (n + Burst l - 1) (Burst l) 1 (n - 1)); lia.
    + rewrite Hw2 by lia. replace (n + Burst l - 1) with ((n - Burst l + Burst l - 1) + 1 * Burst l) by lia.
      rewrite Z.div_add by lia. lia.
Qed.

(** With no tokens at all the loop goes round for ever. *)
Lemma upload_wait_stuck fuel n l : Burst l = 0 → 0 < n → upload_wait fuel n l = None.
Proof.
  revert l. induction fuel as [|fuel IH]; intros l Hb Hn; [done|]. simpl.
  rewrite (proj2 (Z.ltb_lt _ _)) by done. rewrite Hb, (proj2 (Z.ltb_ge _ _)) by lia.
  destruct (WaitN_permits l 0) as (l1 & -> & Hl1); [lia|]. rewrite Z.sub_0_r, IH; [done|lia|done].
Qed.

Lemma download_wait_ok fuel n l :
  0 < n ≤ Burst l → ∃ l', download_wait (S (S fuel)) n l = Some (true, l', [n]) ∧ Burst l' = Burst l.
Proof.
  intros [Hn Hb]. simpl. rewrite (proj2 (Z.ltb_lt _ _)) by done.
  destruct (WaitN_permits l n Hb) as (l' & -> & Hl'). exists l'. split; [|done].
  assert ((if n <? Burst l then n else Burst l) = n) as -> by (destruct (Z.ltb_spec n (Burst l)); lia).
  by rewrite Z.sub_diag.
Qed.
Lemma download_wait_refused fuel n l : 0 < n → Burst l < n → download_wait (S fuel) n l = Some (false, l, []).
Proof. intros Hn Hb. simpl. rewrite (proj2 (Z.ltb_lt _ _)) by done. by rewrite WaitN_exceeds. Qed.

Lemma init_bursts np np' d u :
  InitNetworkTools np = (np', d, u) →
  np' = clamp np ∧ Burst d = Bandwidth (clamp np) ∧ Burst u = Bandwidth (clamp np).
Proof. intros [= <- <- <-]. by rewrite !Burst_new. Qed.
Lemma clamp_bandwidth np : 0 ≤ Bandwidth (clamp np) ∧ (Bandwidth (clamp np) = 0 ↔ Bandwidth np = 0).
Proof. simpl. destruct (Z.ltb_spec (Bandwidth np) 0); lia. Qed.
End limiters.

(** ** Lines *)

Fixpoint newline_free (s : bytes) : bool :=
  match s with
  | EmptyString => true
  | String c s => negb (bool_decide (c = newline)) && newline_free s
  end.

(** The bytes of some messages on the wire. *)
Fixpoint frames (ms : list bytes) : bytes :=
  match ms with [] => "" | m :: ms => (m +:+ nl) +:+ frames ms end.

Lemma frames_snoc ms m : frames (ms ++ [m]) = frames ms +:+ (m +:+ nl).
Proof. induction ms as [|x ms IH]; simpl; [by rewrite string_app_nil_r|]. by rewrite IH, !string_app_assoc. Qed.

Lemma read_line m rest : newline_free m = true → ReadBytes (m +:+ (nl +:+ rest)) = (m +:+ nl, rest, false).
Proof.
  induction m as [|c m IH]; [done|]. cbn [newline_free]. intros [Hc Hm]%andb_true_iff.
  rewrite !string_app_cons. cbn [ReadBytes]. destruct (ascii_dec c newline) as [->|_]; [done|]. by rewrite IH.
Qed.
Lemma read_end s : newline_free s = true → ReadBytes s = (s, "", true).
Proof.
  induction s as [|c s IH]; [done|]. cbn [newline_free ReadBytes]. intros [Hc Hs]%andb_true_iff.
  destruct (ascii_dec c newline) as [->|_]; [done|]. by rewrite IH.
Qed.

(** What a write that fails leaves of a frame: some of the message, or all of the frame. *)
Lemma first_bytes_frame n m :
  newline_free m = true →
  newline_free (first_bytes n (m +:+ nl)) = true ∨ first_bytes n (m +:+ nl) = m +:+ nl.
Proof.
  revert n. induction m as [|c m IH]; intros [|n]; [by left|by right; destruct n|by left|].
  cbn [newline_free]. intros [Hc Hm]%andb_true_iff. rewrite string_app_cons. cbn [first_bytes newline_free].
  destruct (IH n Hm) as [->| ->]; [left|by right]. by rewrite Hc.
Qed.

Section serving.
Context {S : Type} (stopped : S → bool) (handle : bytes → S → go S).

(** Serve messages one by one until the stop signal is seen. *)
Fixpoint serve (ms : list bytes) (s : S) : go S :=
  match ms with
  | [] => Ret s
  | m :: ms => if stopped s then Ret s else s ← handle (m +:+ nl) s; serve ms s
  end.

Lemma handle_frames fuel ms part s :
  (∀ m, m ∈ ms → newline_free m = true) → newline_free part = true → (length ms < fuel)%nat →
  handleClientRequest stopped handle fuel (frames ms +:+ part) s = Some (serve ms s).
Proof.
  revert fuel s. induction ms as [|m ms IH]; intros [|fuel] s Hms Hp Hfuel; [simpl in Hfuel; lia| |simpl in Hfuel; lia|].
  - change (frames [] +:+ part) with part. cbn [handleClientRequest serve]. rewrite (read_end part) by done. by destruct (stopped s).
  - cbn [frames handleClientRequest serve]. rewrite !string_app_assoc, read_line by (apply Hms; left).
    destruct (stopped s); [done|]. destruct (handle _ s) as [s1| |]; [|done..].
    apply IH; [intros; apply Hms; by right|done|simpl in Hfuel; lia].
Qed.
End serving.

(** ** Runs: the sends of all goroutines in the order of the lock *)

Inductive net_op :=
| Send (addr : string) (msg : bytes) (a : answers)
| CloseAll.

Section runs.
Context {RL : RateLimiter} {RLok : RateLimiterOk RL}.
Implicit Types (n : Net) (k : Conn).

Definition net_step (fuel : nat) (op : net_op) n : option Net :=
  match op with
  | Send addr msg a => TcpDial fuel a msg addr n
  | CloseAll => Some (CloseAllConnInPool n)
  end.
Fixpoint net_run (fuel : nat) (ops : list net_op) n : option Net :=
  match ops with [] => Some n | op :: ops => n ← net_step fuel op n; net_run fuel ops n end.

Lemma net_run_snoc fuel ops op n : net_run fuel (ops ++ [op]) n = (n ← net_run fuel ops n; net_step fuel op n).
Proof.
  revert n. induction ops as [|o ops IH]; intros n; simpl; [by destruct (net_step fuel op n)|].
  destruct (net_step fuel o n); simpl; [apply IH|done].
Qed.

(** The start of a process. *)
Definition net_start (np : NetParams) : Net := mkNet ∅ (InitNetworkTools np).2 [].

(** The messages sent to an address, in order. *)
Definition sent_to (addr : string) (ops : list net_op) : list bytes :=
  omap (λ op, match op with Send ip msg _ => if decide (ip = addr) then Some msg else None | CloseAll => None end) ops.

Lemma sent_to_app addr ops1 ops2 : sent_to addr (ops1 ++ ops2) = sent_to addr ops1 ++ sent_to addr ops2.
Proof. apply omap_app. Qed.

(** A connection carries whole messages, and if it is broken perhaps part of one more. *)
Definition carries k (ms : list bytes) : Prop :=
  (∀ m, m ∈ ms → newline_free m = true)
  ∧ ∃ part, c_wire k = frames ms +:+ part ∧ newline_free part = true ∧ (c_broken k = false → part = "").

Lemma write_carries a m k ms :
  carries k ms → newline_free m = true →
  carries (conn_Write a (m +:+ nl) k) ms ∨ carries (conn_Write a (m +:+ nl) k) (ms ++ [m]).
Proof.
  intros (Hms & part & Hw & Hp & Hb) Hm. unfold conn_Write.
  assert (∀ m', m' ∈ ms ++ [m] → newline_free m' = true) as Hms'
    by (intros m' [?| ->%list_elem_of_singleton]%elem_of_app; auto).
  destruct (c_broken k) eqn:Eb; [left; split; [done|]; exists part; by rewrite Eb|].
  rewrite Hw, (Hb eq_refl), string_app_nil_r. destruct (a_write a) as [n|].
  - destruct (first_bytes_frame n m Hm) as [Hf| ->]; [left|right]; (split; [done|]).
    + by eexists.
    + exists "". simpl. by rewrite frames_snoc, string_app_nil_r.
  - right. split; [done|]. exists "". simpl. by rewrite frames_snoc, string_app_nil_r.
Qed.

(** What holds after some steps: the pool points to connections of its addresses, and
    every connection carries some of the messages sent to its address, in order. *)
Record net_ok (ops : list net_op) n : Prop := {
  no_burst : 0 < Burst (rateLimiterUpload n);
  no_pool addr c : connectionPool n !! addr = Some c → ∃ k, conns n !! c = Some k ∧ c_addr k = addr;
  no_conns c k : conns n !! c = Some k → ∃ ms, ms `sublist_of` sent_to (c_addr k) ops ∧ carries k ms
}.

Lemma net_ok_more ops op n : net_ok ops n → net_ok (ops ++ [op]) n.
Proof.
  intros [H1 H2 H3]. split; [done..|]. intros c k (ms & Hs & Hc)%H3. exists ms. split; [|done].
  rewrite sent_to_app. by apply sublist_inserts_r.
Qed.

Lemma writeToConn_ok fuel a m c n :
  0 < Burst (rateLimiterUpload n) → (String.length m + 1 < fuel)%nat →
  ∃ l, writeToConn fuel a (m +:+ nl) c n = Some (mkNet (connectionPool n) l (alter (conn_Write a (m +:+ nl)) c (conns n)))
    ∧ Burst l = Burst (rateLimiterUpload n).
Proof.
  intros Hb Hf. unfold writeToConn.
  destruct (upload_wait_ok fuel (Z.of_nat (String.length (m +:+ nl))) (rateLimiterUpload n) Hb)
    as (l & asked & -> & Hl & _); [rewrite string_length_app; simpl; lia|].
  by exists l.
Qed.

Lemma net_ok_write ops n l c k addr m a :
  net_ok ops n → conns n !! c = Some k → c_addr k = addr → newline_free m = true →
  Burst l = Burst (rateLimiterUpload n) →
  net_ok (ops ++ [Send addr m a]) (mkNet (connectionPool n) l (alter (conn_Write a (m +:+ nl)) c (conns n))).
Proof.
  intros [H1 H2 H3] Hk Ha Hm Hl.
  assert (∀ k0, c_addr (conn_Write a (m +:+ nl) k0) = c_addr k0) as Haddr.
  { intros k0. unfold conn_Write. destruct (c_broken k0), (a_write a); done. }
  split; simpl; [by rewrite Hl|..].
  - intros ip c' (k' & Hk' & Hip)%H2. destruct (decide (c' = c)) as [->|Hne].
    + exists (conn_Write a (m +:+ nl) k'). rewrite list_lookup_alter_eq, Hk'. split; [done|]. by rewrite Haddr.
    + exists k'. by rewrite list_lookup_alter_ne.
  - intros c' k'. destruct (decide (c' = c)) as [->|Hne].
    + rewrite list_lookup_alter_eq, Hk. simpl. intros [= <-]. rewrite Haddr, sent_to_app. simpl.
      rewrite decide_True by done. destruct (H3 c k Hk) as (ms & Hs & Hc).
      destruct (write_carries a m k ms Hc Hm); eexists; (split; [|done]).
      * by apply sublist_inserts_r.
      * by apply sublist_app.
    + rewrite list_lookup_alter_ne by done. intros (ms & Hs & Hc)%H3. exists ms. split; [|done].
      rewrite sent_to_app. by apply sublist_inserts_r.
Qed.

Definition dialled (addr : string) n : Net :=
  n <| conns ::= λ l, l ++ [mkConn addr "" false] |> <| connectionPool ::= <[addr := length (conns n)]> |>.
Lemma net_ok_dial ops n addr : net_ok ops n → net_ok ops (dialled addr n).
Proof.
  intros [H1 H2 H3]. split; simpl; [done|..].
  - intros ip c. destruct (decide (ip = addr)) as [->|Hne].
    + rewrite lookup_insert_eq. intros [= <-]. exists (mkConn addr "" false). by rewrite list_lookup_middle.
    + rewrite lookup_insert_ne by done. intros (k & Hk & Ha)%H2. exists k. split; [|done]. by apply lookup_app_l_Some.
  - intros c k [Hk|[_ Hk]]%lookup_app_Some; [by apply (H3 c)|].
    apply list_lookup_singleton_Some in Hk as [_ <-]. exists []. split; [apply sublist_nil_l|].
    split; [by intros ? ?%not_elem_of_nil|]. by exists "".
Qed.
Lemma net_ok_delete ops n addr : net_ok ops n → net_ok ops (n <| connectionPool ::= delete addr |>).
Proof. intros [H1 H2 H3]. split; [done| |done]. intros ip c. simpl. intros [_ H]%lookup_delete_Some. by apply H2. Qed.

(** One send from a good network. *)
Lemma dial_write_ok fuel ops n addr m a :
  net_ok ops n → newline_free m = true → (String.length m + 1 < fuel)%nat →
  ∃ n', match Dial a addr n with Some (c, n) => writeToConn fuel a (m +:+ nl) c n | None => Some n end = Some n'
    ∧ net_ok (ops ++ [Send addr m a]) n'.
Proof.
  intros Hok Hm Hf. unfold Dial. destruct (a_dial a); [|exists n; split; [done|by apply net_ok_more]].
  fold (dialled addr n). pose proof (net_ok_dial ops n addr Hok) as Hd.
  destruct (writeToConn_ok fuel a m (length (conns n)) (dialled addr n) (no_burst _ _ Hd) Hf) as (l & E & Hl).
  eexists. split; [exact E|]. eapply net_ok_write; [exact Hd| | |done|done].
  - simpl. apply list_lookup_middle. done.
  - done.
Qed.

Lemma TcpDial_ok fuel ops n addr m a :
  net_ok ops n → newline_free m = true → (String.length m + 1 < fuel)%nat →
  ∃ n', TcpDial fuel a m addr n = Some n' ∧ net_ok (ops ++ [Send addr m a]) n'.
Proof.
  intros Hok Hm Hf. unfold TcpDial. destruct (connectionPool n !! addr) as [c|] eqn:Ec; [|by apply dial_write_ok].
  destruct (a_alive a); [|apply dial_write_ok; [by apply net_ok_delete|done..]].
  destruct (no_pool _ _ Hok addr c Ec) as (k & Hk & Ha).
  destruct (writeToConn_ok fuel a m c n (no_burst _ _ Hok) Hf) as (l & E & Hl).
  eexists. split; [exact E|]. by eapply net_ok_write.
Qed.

Lemma close_conns (pool : gmap string nat) (l : list Conn) c k' :
  map_fold (λ _ c l, alter (λ k, mkConn (c_addr k) (c_wire k) true) c l) l pool !! c = Some k' →
  ∃ k, l !! c = Some k ∧ c_addr k' = c_addr k ∧ c_wire k' = c_wire k ∧ (c_broken k = true → c_broken k' = true).
Proof.
  revert k'. induction pool as [|ip c0 pool Hip Hfirst IH] using map_first_key_ind; intros k'.
  { rewrite map_fold_empty. intros Hk. by exists k'. }
  rewrite map_fold_insert_first_key by done. destruct (decide (c = c0)) as [->|Hne].
  - rewrite list_lookup_alter_eq. intros (k1 & (k & Hk & H1 & H2 & H3)%IH & ->)%fmap_Some. by exists k.
  - rewrite list_lookup_alter_ne by done. apply IH.
Qed.

Lemma net_ok_close ops n : net_ok ops n → net_ok (ops ++ [CloseAll]) (CloseAllConnInPool n).
Proof.
  intros Hok%(net_ok_more _ CloseAll). destruct Hok as [H1 H2 H3]. split; simpl; [done|done|].
  intros c k' (k & Hk & -> & Hw & Hb)%close_conns. destruct (H3 c k Hk) as (ms & Hs & Hms & part & Hp & Hnl & Hbr).
  exists ms. split; [done|]. split; [done|]. exists part. rewrite Hw. split; [done|]. split; [done|].
  intros Hk'. apply Hbr. destruct (c_broken k); [|done]. by rewrite Hb in Hk'.
Qed.

Lemma start_burst np : Bandwidth np ≠ 0 → 0 < Burst (rateLimiterUpload (net_start np)).
Proof. intros Hnp. simpl. rewrite Burst_new. pose proof (clamp_bandwidth np). simpl in *. lia. Qed.

Lemma net_run_ok fuel np ops :
  Bandwidth np ≠ 0 → (∀ addr m a, Send addr m a ∈ ops → newline_free m = true ∧ (String.length m + 1 < fuel)%nat) →
  ∃ n, net_run fuel ops (net_start np) = Some n ∧ net_ok ops n.
Proof.
  intros Hnp. induction ops as [|op ops IH] using rev_ind; intros Hops.
  { exists (net_start np). split; [done|]. split; [by apply start_burst|done|done]. }
  destruct IH as (n & E & Hn); [intros ip m a Hin; apply (Hops ip m a); set_solver|]. rewrite net_run_snoc, E. simpl.
  destruct op as [addr m a|]; simpl; [|eexists; split; [done|by apply net_ok_close]].
  destruct (Hops addr m a) as [Hm Hf]; [set_solver|]. by apply TcpDial_ok.
Qed.

(** ** Runs without failures *)

Definition no_failure (op : net_op) : Prop :=
  match op with Send _ _ a => a_alive a = true ∧ a_dial a = true ∧ a_write a = None | CloseAll => False end.

(** One connection per address that was sent something, and it carries everything. *)
Record net_complete (ops : list net_op) n : Prop := {
  nc_burst : 0 < Burst (rateLimiterUpload n);
  nc_new addr : connectionPool n !! addr = None → sent_to addr ops = [] ∧ ∀ k, k ∈ conns n → c_addr k ≠ addr;
  nc_pool addr c : connectionPool n !! addr = Some c →
    conns n !! c = Some (mkConn addr (frames (sent_to addr ops)) false)
    ∧ ∀ c' k, conns n !! c' = Some k → c_addr k = addr → c' = c
}.

Lemma complete_write ops n l c addr m a :
  net_complete ops n → connectionPool n !! addr = Some c → no_failure (Send addr m a) →
  Burst l = Burst (rateLimiterUpload n) →
  net_complete (ops ++ [Send addr m a])
    (mkNet (connectionPool n) l (alter (conn_Write a (m +:+ nl)) c (conns n))).
Proof.
  intros [H1 H2 H3] Hc (_ & _ & Ha) Hl. destruct (H3 addr c Hc) as [Hk Hu].
  assert (alter (conn_Write a (m +:+ nl)) c (conns n)
    = <[c := mkConn addr (frames (sent_to addr ops ++ [m])) false]> (conns n)) as ->.
  { rewrite <- (alter_insert _ _ _ _ Hk). f_equal. unfold conn_Write. simpl. by rewrite Ha, frames_snoc. }
  assert (c < length (conns n))%nat as Hlt by by eapply lookup_lt_Some.
  split; simpl; [by rewrite Hl|..]; intros ip; rewrite ?sent_to_app; simpl.
  - intros Hip. assert (addr ≠ ip) as Hne by (intros ->; congruence). rewrite decide_False, app_nil_r by done.
    destruct (H2 ip Hip) as [Hs Hno]. split; [done|]. intros k Hk'. apply list_elem_of_lookup in Hk' as [i [(_ & <- & _)|[_ Hi]]%list_lookup_insert_Some]; [done|].
    apply Hno. by eapply list_elem_of_lookup_2.
  - intros c' Hip. destruct (H3 ip c' Hip) as [Hk' Hu']. destruct (decide (addr = ip)) as [<-|Hne].
    + assert (c' = c) as -> by congruence. split; [by apply list_lookup_insert_eq|].
      intros c1 k [(-> & _)|[? Hc1]]%list_lookup_insert_Some Hka; [done|]. by eapply Hu.
    + assert (c' ≠ c) as Hcc by (intros ->; congruence). rewrite list_lookup_insert_ne, app_nil_r by done.
      split; [done|]. intros c1 k [(-> & <- & _)|[? Hc1]]%list_lookup_insert_Some Hka; [done|]. by eapply Hu'.
Qed.

Lemma complete_dial ops n addr :
  net_complete ops n → connectionPool n !! addr = None → net_complete ops (dialled addr n).
Proof.
  intros [H1 H2 H3] Hn. destruct (H2 addr Hn) as [Hs Hno]. split; simpl; [done|..].
  - intros ip [Hip Hne]%lookup_insert_None. destruct (H2 ip Hip) as [Hs' Hno']. split; [done|].
    intros k [Hk| ->%list_elem_of_singleton]%elem_of_app; [by apply Hno'|done].
  - intros ip c. destruct (decide (ip = addr)) as [->|Hne].
    + rewrite lookup_insert_eq. intros [= <-]. rewrite list_lookup_middle, Hs by done. split; [done|].
      intros c' k [Hk|[? [? _]%list_lookup_singleton_Some]]%lookup_app_Some Ha; [|lia].
      destruct (Hno k); [by eapply list_elem_of_lookup_2|done].
    + rewrite lookup_insert_ne by done. intros [Hk Hu]%H3. split; [by apply lookup_app_l_Some|].
      intros c' k [Hk'|[_ [_ <-]%list_lookup_singleton_Some]]%lookup_app_Some Ha; [by eapply Hu|done].
Qed.

Lemma complete_step fuel ops n op :
  net_complete ops n → no_failure op →
  (∀ addr m a, op = Send addr m a → (String.length m + 1 < fuel)%nat) →
  ∃ n', net_step fuel op n = Some n' ∧ net_complete (ops ++ [op]) n'.
Proof.
  intros Hn Hop Hf. destruct op as [addr m a|]; [|done]. specialize (Hf addr m a eq_refl). pose proof Hop as (Ha & Hd & Hw).
  simpl. unfold TcpDial. destruct (connectionPool n !! addr) as [c|] eqn:Ec.
  - rewrite Ha. destruct (writeToConn_ok fuel a m c n (nc_burst _ _ Hn) Hf) as (l & -> & Hl).
    eexists. split; [done|]. by apply complete_write.
  - unfold Dial. rewrite Hd. fold (dialled addr n). pose proof (complete_dial ops n addr Hn Ec) as Hn1.
    destruct (writeToConn_ok fuel a m (length (conns n)) (dialled addr n) (nc_burst _ _ Hn1) Hf) as (l & -> & Hl).
    eexists. split; [done|]. apply complete_write; [done|by apply lookup_insert_eq|done|done].
Qed.

Lemma net_run_complete fuel np ops :
  Bandwidth np ≠ 0 → (∀ op, op ∈ ops → no_failure op) →
  (∀ addr m a, Send addr m a ∈ ops → (String.length m + 1 < fuel)%nat) →
  ∃ n, net_run fuel ops (net_start np) = Some n ∧ net_complete ops n.
Proof.
  intros Hnp. induction ops as [|op ops IH] using rev_ind; intros Hops Hf.
  { exists (net_start np). split; [done|]. split; [by apply start_burst| |done]. split; [done|]. by intros k ?%not_elem_of_nil. }
  destruct IH as (n & E & Hn); [intros; apply Hops; set_solver|intros ip m a Hin; apply (Hf ip m a); set_solver|].
  rewrite net_run_snoc, E. apply complete_step; [done|apply Hops; set_solver|]. intros addr m a ->. apply (Hf addr m a). set_solver.
Qed.
End runs.

Section reading.
Context {RL : RateLimiter} {RLok : RateLimiterOk RL}.

(** [readMessage] reports no error, so the loop over the messages never breaks. *)
Lemma full_messages_never fuel buffer log : full_messages fuel buffer log = None.
Proof.
  revert buffer log. induction fuel as [|fuel IH]; intros buffer log; [done|]. simpl. unfold readMessage.
  by destruct (ReadBytes buffer) as [[message rest] eof].
Qed.
End reading.

Module NetworkProps.

(** C8. Messages arrive whole and in order.  However many goroutines send, to whatever
    addresses, with connections that are found dead, that cannot be made, that break in
    the middle of a write or are closed by the process: if no message contains a newline
    and the bandwidth is not 0, every send finishes, and the reader of each connection
    handles exactly some of the messages sent to that address, in the order in which they
    were sent, each with its newline, none cut, merged or repeated, until its stop signal
    is set or a handler panics.  When nothing fails, one connection per address carries
    all of them. *)
Theorem messages_arrive_whole {RL : RateLimiter} {RLok : RateLimiterOk RL} (fuel : nat) (np : NetParams) (ops : list net_op) :
  Bandwidth np ≠ 0 →
  (∀ addr m a, Send addr m a ∈ ops → newline_free m = true ∧ (String.length m + 1 < fuel)%nat) →
  ∃ n, net_run fuel ops (net_start np) = Some n
    ∧ (∀ c k, conns n !! c = Some k →
        ∃ ms, ms `sublist_of` sent_to (c_addr k) ops
          ∧ ∀ (S : Type) (stopped : S → bool) handle (s : S) fuel', (length ms < fuel')%nat →
              handleClientRequest stopped handle fuel' (c_wire k) s = Some (serve stopped handle ms s))
    ∧ ((∀ op, op ∈ ops → no_failure op) →
        ∀ addr, sent_to addr ops ≠ [] →
          ∃ c, conns n !! c = Some (mkConn addr (frames (sent_to addr ops)) false)
            ∧ ∀ c' k, conns n !! c' = Some k → c_addr k = addr → c' = c).
Proof.
  intros Hnp Hops. destruct (net_run_ok fuel np ops Hnp Hops) as (n & E & Hn). exists n. split; [done|]. split.
  - intros c k (ms & Hs & Hms & part & -> & Hp & _)%(no_conns _ _ Hn). exists ms. split; [done|].
    intros. by apply handle_frames.
  - intros Hgood addr Hsent. destruct (net_run_complete fuel np ops Hnp Hgood) as (n' & E' & Hn').
    { intros ip m a Hin. by apply (Hops ip m a). }
    assert (n' = n) as -> by congruence. destruct (connectionPool n !! addr) as [c|] eqn:Ec.
    + exists c. by apply (nc_pool _ _ Hn').
    + by destruct (nc_new _ _ Hn' addr Ec).
Qed.

(** C23. Bounds of an upload: with a bandwidth of [b > 0] bytes ([b = 2^31 - 1] for a
    negative setting), sending [n] bytes asks the limiter for [ceil (n / b)] portions,
    each of 1 to [b] bytes and [n] bytes in all, all granted, within [n + 1] rounds.  With
    a bandwidth of 0 the loop never ends, and the sender keeps [connMaplock]. *)
Theorem upload_in_bursts {RL : RateLimiter} {RLok : RateLimiterOk RL} (np : NetParams) (n : Z) (fuel : nat) :
  let '(np', _, upload) := InitNetworkTools np in
  0 < n →
  (Bandwidth np ≠ 0 → n < Z.of_nat fuel →
    ∃ l asked, upload_wait fuel n upload = Some (true, l, asked) ∧ sumZ asked = n
      ∧ (∀ k, k ∈ asked → 1 ≤ k ≤ Bandwidth np')
      ∧ len asked = (n + Bandwidth np' - 1) / Bandwidth np')
  ∧ (Bandwidth np = 0 → ∀ a msg addr, upload_wait fuel n upload = None
      ∧ (a_dial a = true → TcpDial fuel a msg addr (mkNet ∅ upload []) = None)).
Proof.
  destruct (InitNetworkTools np) as [[np' download] upload] eqn:E.
  apply init_bursts in E as (-> & _ & Hu). pose proof (clamp_bandwidth np) as [Hb0 Hb]. rewrite <- Hu in *. intros Hn. split.
  - intros Hnp Hf. destruct (upload_wait_ok fuel n upload) as (l & asked & E & _ & Hs & Hk & Hl); [|lia|by exists l, asked].
    assert (Burst upload ≠ 0) by tauto. lia.
  - intros Hz%Hb a msg addr. split; [by apply upload_wait_stuck|]. intros Hd. unfold TcpDial, Dial. simpl.
    rewrite lookup_empty, Hd. unfold writeToConn. rewrite upload_wait_stuck; [done|done|].
    rewrite string_length_app. simpl. lia.
Qed.

(** The reading side of the package cannot work: [ReadFromConn] asks its limiter for
    the whole buffer of 1024 bytes in every round, so with a bandwidth below that it gives
    up before it reads anything; and with a larger one the loop over the messages never
    ends once a read has succeeded, since [readMessage] hides the [io.EOF] it waits for. *)
Theorem ReadFromConn_never_serves {RL : RateLimiter} {RLok : RateLimiterOk RL} (np : NetParams) (fuel : nat) (chunks : list bytes) :
  let '(np', download, _) := InitNetworkTools np in
  (Bandwidth np' < buffer_size → ReadFromConn (S fuel) chunks download "" [] = Some [])
  ∧ (buffer_size ≤ Bandwidth np' → chunks ≠ [] → ReadFromConn fuel chunks download "" [] = None).
Proof.
  destruct (InitNetworkTools np) as [[np' download] upload] eqn:E.
  apply init_bursts in E as (-> & Hd & _). rewrite <- Hd. split.
  - intros Hb. destruct chunks as [|chunk chunks]; cbn [ReadFromConn];
      (rewrite download_wait_refused; [done|done|done]).
  - intros Hb Hc. destruct chunks as [|chunk chunks]; [done|]. cbn [ReadFromConn].
    destruct (download_wait fuel buffer_size download) as [[[granted l] asked]|] eqn:Ew; [|done].
    assert (granted = true) as ->.
    { destruct fuel as [|[|fuel]]; [done| |].
      - simpl in Ew. destruct (WaitN_permits download buffer_size) as (l1 & El & _); [lia|]. by rewrite El in Ew.
      - destruct (download_wait_ok fuel buffer_size download) as (l1 & El & _); [done|]. rewrite El in Ew. by injection Ew. }
    simpl. by rewrite full_messages_never.
Qed.

(** *** Witnesses *)

#[local] Existing Instances Limiters.plain Limiters.plain_ok.

Definition fine : answers := mkAnswers true true None.
Definition some_ops : list net_op :=
  [Send "a:1" "one" fine; Send "b:1" "two" fine; Send "a:1" "three" fine].
Definition slow : NetParams := mkNetParams 3 1 2.

Lemma messages_arrive_whole_witness :
  ∃ n, net_run 10 some_ops (net_start slow) = Some n
    ∧ (∀ c k, conns n !! c = Some k →
        ∃ ms, ms `sublist_of` sent_to (c_addr k) some_ops
          ∧ ∀ (S : Type) (stopped : S → bool) handle (s : S) fuel', (length ms < fuel')%nat →
              handleClientRequest stopped handle fuel' (c_wire k) s = Some (serve stopped handle ms s))
    ∧ ((∀ op, op ∈ some_ops → no_failure op) →
        ∀ addr, sent_to addr some_ops ≠ [] →
          ∃ c, conns n !! c = Some (mkConn addr (frames (sent_to addr some_ops)) false)
            ∧ ∀ c' k, conns n !! c' = Some k → c_addr k = addr → c' = c).
Proof.
  apply (messages_arrive_whole 10 slow some_ops); [discriminate|].
  intros addr m a [E|[E|[E|[]%not_elem_of_nil]%elem_of_cons]%elem_of_cons]%elem_of_cons;
    injection E as -> -> ->; (split; [reflexivity|vm_compute; lia]).
Defined.

Lemma upload_in_bursts_witness :
  (∃ l asked, upload_wait 10 7 (2 : Limiter) = Some (true, l, asked) ∧ sumZ asked = 7
      ∧ (∀ k, k ∈ asked → 1 ≤ k ≤ 2) ∧ len asked = (7 + 2 - 1) / 2)
  ∧ TcpDial 10 fine "one" "a:1" (mkNet ∅ (0 : Limiter) []) = None.
Proof.
  split.
  - exact (proj1 (upload_in_bursts slow 7 10 eq_refl) ltac:(discriminate) eq_refl).
  - exact (proj2 (proj2 (upload_in_bursts (mkNetParams 3 1 0) 7 10 eq_refl) eq_refl fine "one"%string "a:1"%string) eq_refl).
Defined.

Lemma ReadFromConn_never_serves_witness :
  ReadFromConn 5 ["one"%string] (2 : Limiter) "" [] = Some []
  ∧ ReadFromConn 5 ["one"%string] (2048 : Limiter) "" [] = None.
Proof.
  split.
  - exact (proj1 (ReadFromConn_never_serves slow 4 ["one"%string]) eq_refl).
  - exact (proj2 (ReadFromConn_never_serves (mkNetParams 3 1 2048) 5 ["one"%string]) ltac:(discriminate) ltac:(discriminate)).
Defined.

End NetworkProps.
