(* ===== verification/External.v ===== *)
(** * Interfaces to the libraries the program calls

    Operations and the documented behaviour the proofs rely on, as type classes:
    gob/json codecs, sha256, the bolt database, the go-ethereum Merkle-Patricia
    trie, the bits-and-blooms bitset.  [RefExternal] is a computable instance that
    satisfies every law: the laws are consistent, and witnesses run on it. *)

From S2P Require Import Prelude Params Core Message.
From Stdlib Require Import Ascii.

(** ** bolt: a bucketed key/value store ([storage/storage.go] uses Put and Get) *)

Class BoltLib := {
  DB : Type;
  db_Put : DB → string → bytes → bytes → option DB;   (* [None]: an error *)
  db_Get : DB → string → bytes → option bytes          (* [None]: nil *)
}.
(** A Put fails on a blank or oversized key and on an oversized value. *)
Definition slen (s : string) : Z := Z.of_nat (String.length s).
Definition MaxKeySize : Z := 32768.
Definition MaxValueSize : Z := 2 ^ 31 - 2.

Class BoltOk `{BoltLib} := {
  put_ok db bkt k v :
    0 < slen k ≤ MaxKeySize → slen v ≤ MaxValueSize → is_Some (db_Put db bkt k v);
  get_put_eq db bkt k v db' : db_Put db bkt k v = Some db' → db_Get db' bkt k = Some v;
  get_put_ne db bkt k v db' bkt' k' :
    db_Put db bkt k v = Some db' → (bkt, k) ≠ (bkt', k') → db_Get db' bkt' k' = db_Get db bkt' k'
}.

(** ** go-ethereum [trie], [trie.Database], [common.BytesToHash] *)

Class TrieLib := {
  Trie : Type;
  TrieDB : Type;
  NodeSet : Type;
  trie_NewEmpty : Trie;
  trie_Get : Trie → bytes → option bytes;
  trie_Update : Trie → bytes → bytes → Trie;
  trie_Hash : Trie → bytes;
  trie_New : bytes → TrieDB → option Trie;                  (* [None]: missing root *)
  trie_Commit : Trie → bytes * option NodeSet;
  triedb_Update : TrieDB → NodeSet → option TrieDB;
  triedb_Commit : TrieDB → bytes → option TrieDB;
  BytesToHash : bytes → bytes;
  (* [Prove]: the proof nodes as key/value pairs, or an error; [VerifyProof]: the
     value found under the key, [None] for nil or an error *)
  trie_Prove : Trie → bytes → option (list (bytes * bytes));
  VerifyProof : bytes → bytes → list (bytes * bytes) → option bytes
}.

Definition same_content `{TrieLib} (t u : Trie) : Prop := ∀ k, trie_Get t k = trie_Get u k.

(** The tries a program can hold: opened from the database at a root, then updated. *)
Inductive trie_from `{TrieLib} (db : TrieDB) (r : bytes) : Trie → Prop :=
| tf_open t : trie_New r db = Some t → trie_from db r t
| tf_update t k v : trie_from db r t → trie_from db r (trie_Update t k v).

Class TrieOk `{TrieLib} := {
  get_empty k : trie_Get trie_NewEmpty k = None;
  get_update_eq t k v : v ≠ ""%string → trie_Get (trie_Update t k v) k = Some v;
  get_update_ne t k v k' : k ≠ k' → trie_Get (trie_Update t k v) k' = trie_Get t k';
  hash_content t u : same_content t u → trie_Hash t = trie_Hash u;
  BytesToHash_root t : BytesToHash (trie_Hash t) = trie_Hash t;
  BytesToHash_idem b : BytesToHash (BytesToHash b) = BytesToHash b;
  open_root r db t : trie_New r db = Some t → trie_Hash t = r;
  (* the empty root is always present *)
  new_empty db : ∃ t, trie_New (trie_Hash trie_NewEmpty) db = Some t ∧ same_content t trie_NewEmpty;
  (* committing yields the root, under which the content can be reopened; roots
     already present stay; there is no node set only if the trie is the one opened *)
  commit_reopen db r t h ns :
    trie_from db r t → trie_Commit t = (h, ns) →
    h = trie_Hash t ∧
    match ns with
    | None => h = r ∧ ∃ t', trie_New h db = Some t' ∧ same_content t' t
    | Some n => ∃ db1 db2, triedb_Update db n = Some db1 ∧ triedb_Commit db1 h = Some db2
        ∧ (∃ t', trie_New h db2 = Some t' ∧ same_content t' t)
        ∧ (∀ r t0, trie_New r db = Some t0 → ∃ t1, trie_New r db2 = Some t1 ∧ same_content t1 t0)
    end;
  (* [Prove] also answers for an absent key, with a proof of absence; a proof
     verifies to the value under the key, nil when it is absent *)
  prove_verify t k :
    ∃ p, trie_Prove t k = Some p ∧ VerifyProof (trie_Hash t) k p = trie_Get t k
}.

(** Keccak without collisions: a root determines its content.  A hypothesis of the
    few theorems that compare the tries of two machines. *)
Definition roots_collision_free `{TrieLib} : Prop :=
  ∀ t u, trie_Hash t = trie_Hash u → same_content t u.

(** ** bitset *)

Class BitSetLib := {
  bs_New : Z → bytes;
  bs_Set : bytes → Z → bytes;
  bs_Test : bytes → Z → bool
}.
Class BitSetOk `{BitSetLib} := {
  test_new n i : bs_Test (bs_New n) i = false;
  test_set b i j : bs_Test (bs_Set b i) j = (i =? j) || bs_Test b j
}.

(** ** Everything together *)

(** gob omits an empty slice, so a non-nil empty [RawTxHash] would come back nil;
    every other block comes back as it was. *)
Definition gob_stable (b : Block) : Prop :=
  ∀ tx, tx ∈ b_Body b → tx_RawTxHash tx ≠ Some ""%string.
#[export] Instance gob_stable_dec b : Decision (gob_stable b).
Proof.
  refine (cast_if (decide (Forall (λ tx, tx_RawTxHash tx ≠ Some ""%string) (b_Body b))));
    unfold gob_stable; by rewrite <- Forall_forall.
Defined.

Class External := {
  ext_gob_as :: Codec AccountState;
  ext_gob_tx :: Codec Transaction;
  ext_gob_bh :: Codec BlockHeader;
  ext_gob_b :: Codec Block;
  ext_gob_atm :: Codec AccountTransferMsg;
  json_Request : Request → bytes;
  json_BrokerRawMeg : BrokerRawMeg → bytes;
  ext_sha256 :: Sha256;
  ext_bolt :: BoltLib;
  ext_trie :: TrieLib;
  ext_bitset :: BitSetLib
}.

Class ExternalOk `{External} := {
  ok_gob_as :: CodecOk AccountState;
  ok_gob_as_nonempty (s : AccountState) : enc s ≠ ""%string;
  ok_gob_bh :: CodecOk BlockHeader;
  ok_gob_b (b : Block) : gob_stable b → dec (enc b) = Some b;
  ok_gob_atm :: CodecOk AccountTransferMsg;
  ok_sha256_size b : slen (Sum256 b) = 32;
  ok_bolt :: BoltOk;
  ok_trie :: TrieOk;
  ok_bitset :: BitSetOk
}.

(** ** A reference instance *)

Module RefExternal.

(** Prefix-free serialisers: [ser a rest] writes [a] in front of [rest]. *)
Class Ser (A : Type) := {
  ser : A → string → string;
  par : string → option (A * string);
  par_ser a rest : par (ser a rest) = Some (a, rest)
}.

#[export] Instance Ser_unit : Ser unit.
Proof.
  refine {| ser (_ : unit) r := r; par s := Some (tt, s); par_ser := _ |}.
  by intros [].
Defined.

#[export] Instance Ser_bool : Ser bool.
Proof.
  refine {|
  ser (b : bool) r := String (if b then "1" else "0")%char r;
  par s := match s with String c r => Some (Ascii.eqb c "1"%char, r) | EmptyString => None end; par_ser := _ |}.
  by intros [].
Defined.

Fixpoint ser_pos (p : positive) (r : string) : string :=
  match p with
  | xH => String "2" r
  | xO p => String "0" (ser_pos p r)
  | xI p => String "1" (ser_pos p r)
  end.
Fixpoint par_pos (s : string) : option (positive * string) :=
  match s with
  | String c s =>
      if Ascii.eqb c "2" then Some (xH, s)
      else '(p, r) ← par_pos s; Some (if Ascii.eqb c "0" then xO p else xI p, r)
  | EmptyString => None
  end.
#[export] Instance Ser_pos : Ser positive.
Proof.
  refine {| ser := ser_pos; par := par_pos; par_ser := _ |}.
  intros p r. induction p as [p IH|p IH|]; simpl; [by rewrite IH..|done].
Defined.

#[export] Instance Ser_Z : Ser Z.
Proof.
  refine {|
  ser (z : Z) r := match z with
             | Z0 => String "z" r | Zpos p => String "+" (ser p r) | Zneg p => String "-" (ser p r)
             end;
  par s := match s with
           | String c s =>
               if Ascii.eqb c "z" then Some (Z0, s)
               else '(p, r) ← par s; Some (if Ascii.eqb c "+" then Zpos p else Zneg p, r)
           | EmptyString => None
           end; par_ser := _ |}.
  intros [|p|p] r; cbn -[ser par]; [done|by rewrite par_ser..].
Defined.

Fixpoint ser_string (s r : string) : string :=
  match s with
  | EmptyString => String "e" r
  | String c s => String "c" (String c (ser_string s r))
  end.
Fixpoint par_string (s : string) : option (string * string) :=
  match s with
  | String t s =>
      if Ascii.eqb t "e" then Some (EmptyString, s)
      else match s with
           | String c s => '(u, r) ← par_string s; Some (String c u, r)
           | EmptyString => None
           end
  | EmptyString => None
  end.
#[export] Instance Ser_string : Ser string.
Proof.
  refine {| ser := ser_string; par := par_string; par_ser := _ |}.
  intros s r. induction s as [|c s IH]; simpl; [done|]. by rewrite IH.
Defined.

#[export] Instance Ser_prod {A B} `{Ser A, Ser B} : Ser (A * B).
Proof.
  refine {|
  ser (p : A * B) r := ser p.1 (ser p.2 r);
  par s := '(a, s) ← par s; '(b, s) ← par s; Some ((a, b), s); par_ser := _ |}.
  intros [a b] r. simpl. rewrite par_ser. simpl. by rewrite par_ser.
Defined.

#[export] Instance Ser_option {A} `{Ser A} : Ser (option A).
Proof.
  refine {|
  ser (o : option A) r := match o with None => ser false r | Some a => ser true (ser a r) end;
  par s := '(b, s) ← par s;
           if (b : bool) then '(a, s) ← par s; Some (Some a, s) else Some (None, s); par_ser := _ |}.
  intros [a|] r; simpl; [by rewrite par_ser|done].
Defined.

Fixpoint par_n {A} `{Ser A} (n : nat) (s : string) : option (list A * string) :=
  match n with
  | O => Some ([], s)
  | S n => '(a, s) ← par s; '(l, s) ← par_n n s; Some (a :: l, s)
  end.
#[export] Instance Ser_list {A} `{Ser A} : Ser (list A).
Proof.
  refine {|
  ser (l : list A) r := ser (Z.of_nat (length l)) (foldr ser r l);
  par s := '(n, s) ← par s; par_n (Z.to_nat n) s; par_ser := _ |}.
  intros l r. rewrite par_ser. simpl. rewrite Nat2Z.id.
  induction l as [|a l IH]; simpl; [done|]. rewrite par_ser. simpl. by rewrite IH.
Defined.

#[export] Instance Ser_gmap {K V} `{Countable K} `{Ser K} `{Ser V} : Ser (gmap K V).
Proof.
  refine {|
  ser (m : gmap K V) r := ser (map_to_list m : list (K * V)) r;
  par s := '(l, s) ← (par s : option (list (K * V) * string));
           Some (list_to_map l : gmap K V, s); par_ser := _ |}.
  intros m r. rewrite par_ser. simpl. by rewrite list_to_map_to_list.
Defined.

(** Records through a tuple. *)
Definition ser_iso {A B} `{Ser B} (f : A → B) (g : B → A) (gf : ∀ a, g (f a) = a) : Ser A.
Proof.
  refine {|
  ser (a : A) r := ser (f a) r;
  par s := '(b, s) ← par s; Some (g b, s) ; par_ser := _ |}.
  intros. rewrite par_ser. simpl. by rewrite gf.
Defined.

#[export] Instance Ser_AS : Ser AccountState.
Proof.
  refine (ser_iso
    (λ s, (as_AcAddress s, as_Nonce s, as_Balance s, as_StorageRoot s, as_CodeHash s))
    (λ '(a, b, c, d, e), mkAS a b c d e) _). by intros [].
Defined.

#[export] Instance Ser_Tx : Ser Transaction.
Proof.
  refine (ser_iso
    (λ t, (tx_Sender t, tx_Recipient t, tx_Nonce t, tx_Signature t, tx_Value t, tx_TxHash t,
           tx_Time t, tx_Relayed t, tx_HasBroker t, tx_SenderIsBroker t, tx_OriginalSender t,
           tx_FinalRecipient t, tx_RawTxHash t))
    (λ '(a, b, c, d, e, f, g, h, i, j, k, l, m), mkTx a b c d e f g h i j k l m) _). by intros [].
Defined.

#[export] Instance Ser_BH : Ser BlockHeader.
Proof.
  refine (ser_iso
    (λ h, (bh_ParentBlockHash h, bh_StateRoot h, bh_TxRoot h, bh_Bloom h, bh_Number h, bh_Time h,
           bh_Miner h))
    (λ '(a, b, c, d, e, f, g), mkBH a b c d e f g) _). by intros [].
Defined.

#[export] Instance Ser_Block : Ser Block.
Proof.
  refine (ser_iso (λ b, (b_Header b, b_Body b, b_Hash b)) (λ '(a, b, c), mkBlock a b c) _).
  by intros [].
Defined.

#[export] Instance Ser_ATM : Ser AccountTransferMsg.
Proof.
  refine (ser_iso (λ m, (at_ModifiedMap m, at_Addrs m, at_AccountState m, at_ATid m))
    (λ '(a, b, c, d), mkATM a b c d) _). by intros [].
Defined.

#[export] Instance Ser_Request : Ser Request.
Proof.
  refine (ser_iso (λ r, (r_RequestType r, r_Content r, r_ReqTime r))
    (λ '(a, b, c), mkRequest a b c) _). by intros [].
Defined.

#[export] Instance Ser_BrokerRawMeg : Ser BrokerRawMeg.
Proof.
  refine (ser_iso
    (λ m, (br_Tx m, br_Broker m, br_Hlock m, br_Snonce m, br_Bnonce m, br_Signature m))
    (λ '(a, b, c, d, e, f), mkBrokerRaw a b c d e f) _). by intros [].
Defined.

(** A codec from a serialiser: one tag byte, then the value, then the end. *)
Definition ser_codec {A} `{Ser A} : Codec A := {|
  enc a := String "g" (ser a "");
  dec s := match s with
           | String _ s => '(a, r) ← par s; if String.eqb r "" then Some a else None
           | EmptyString => None
           end |}.

Lemma ser_codec_ok {A} `{Ser A} : @CodecOk A ser_codec.
Proof. intros a. simpl. by rewrite par_ser. Qed.

#[export] Instance bolt : BoltLib := {|
  DB := gmap (string * string) string;
  db_Put db bkt k v := if String.eqb k "" then None else Some (<[(bkt, k) := v]> db);
  db_Get db bkt k := db !! (bkt, k) |}.

#[export] Instance bolt_ok : BoltOk.
Proof.
  split; simpl.
  - intros db bkt k v Hk _. destruct (String.eqb_spec k "") as [->|]; [by destruct Hk|eauto].
  - intros db bkt k v db'. destruct (String.eqb k ""); [done|]. intros [= <-].
    apply lookup_insert_eq.
  - intros db bkt k v db' bkt' k'. destruct (String.eqb k ""); [done|]. intros [= <-] Hne.
    by apply lookup_insert_ne.
Qed.

(** A trie is its content, its root the serialised content; the database is the
    list of the contents committed to it. *)
Definition root (m : gmap string string) : bytes := ser m "".

Fixpoint find_root (r : bytes) (db : list (gmap string string)) : option (gmap string string) :=
  match db with
  | [] => None
  | m :: db => if String.eqb (root m) r then Some m else find_root r db
  end.

#[export] Instance trie : TrieLib := {|
  Trie := gmap string string;
  TrieDB := list (gmap string string);
  NodeSet := gmap string string;
  trie_NewEmpty := ∅;
  trie_Get t k := t !! k;
  trie_Update t k v := if String.eqb v "" then delete k t else <[k := v]> t;
  trie_Hash := root;
  trie_New r db := if String.eqb (root ∅) r then Some ∅ else find_root r db;
  trie_Commit t := (root t, Some t);
  triedb_Update db n := Some (n :: db);
  triedb_Commit db r := Some db;
  BytesToHash b := b;
  trie_Prove t k := Some [(root t, ser (k, t !! k) "")];
  VerifyProof r k p :=
    match p with
    | [(h, s)] => '((k', v), _) ← (par s : option ((string * option string) * string));
        if String.eqb h r && String.eqb k k' then v else None
    | _ => None
    end |}.

Lemma root_inj (m n : gmap string string) : root m = root n → m = n.
Proof. unfold root. intros E. pose proof (par_ser m "") as Hm. rewrite E, par_ser in Hm. congruence. Qed.

Lemma trie_new_root (t : gmap string string) r db : trie_New r db = Some t → root t = r.
Proof.
  simpl. destruct (String.eqb_spec (root ∅) r) as [E|E]; [by intros [= <-]|].
  induction db as [|m db IH]; simpl; [done|].
  destruct (String.eqb_spec (root m) r); [by intros [= <-]|done].
Qed.

Lemma trie_new_head (t : gmap string string) db : trie_New (root t) (t :: db) = Some t.
Proof.
  simpl. destruct (String.eqb_spec (root ∅) (root t)) as [E|E].
  - by apply root_inj in E as <-.
  - by rewrite String.eqb_refl.
Qed.

Lemma trie_new_cons (t t0 : gmap string string) r db :
  trie_New r db = Some t0 → trie_New r (t :: db) = Some t0.
Proof.
  intros Hr. apply trie_new_root in Hr as Hroot. revert Hr. simpl.
  destruct (String.eqb (root ∅) r); [done|].
  destruct (String.eqb_spec (root t) r) as [E|E]; [|done].
  intros _. f_equal. apply root_inj. congruence.
Qed.

#[export] Instance trie_ok : TrieOk.
Proof.
  split.
  - intros k. apply lookup_empty.
  - intros t k v Hv. simpl. destruct (String.eqb_spec v ""); [done|]. apply lookup_insert_eq.
  - intros t k v k' Hk. simpl. destruct (String.eqb v "");
      [by apply lookup_delete_ne|by apply lookup_insert_ne].
  - intros t u Htu. simpl. f_equal. apply map_eq. exact Htu.
  - done.
  - done.
  - intros r db t. apply trie_new_root.
  - intros db. exists ∅. split; [|done]. simpl. by rewrite String.eqb_refl.
  - intros db r0 t h ns _ [= <- <-]. split; [done|]. eexists _, _. split; [done|]. split; [done|].
    split; [exists t; split; [apply trie_new_head|done]|].
    intros r t0 Hr. exists t0. split; [by apply trie_new_cons|done].
  - intros t k. eexists. split; [done|].
    cbn -[ser par]. rewrite par_ser. simpl. by rewrite !String.eqb_refl.
Qed.

Lemma trie_collision_free : roots_collision_free.
Proof. intros t u ->%root_inj k. done. Qed.

#[export] Instance bitset : BitSetLib := {|
  bs_New _ := ser (@nil Z) "";
  bs_Set b i := ser (i :: default [] (fst <$> (par b : option (list Z * string)))) "";
  bs_Test b i := existsb (Z.eqb i) (default [] (fst <$> (par b : option (list Z * string)))) |}.

#[export] Instance bitset_ok : BitSetOk.
Proof.
  split; cbn -[ser par]; intros.
  - by rewrite par_ser.
  - rewrite par_ser. cbn -[ser par]. by rewrite (Z.eqb_sym j).
Qed.

(** A 32-byte hash, cheap to run: the bytes as a number in base 256, modulo a prime. *)
Fixpoint bytes_of (n : nat) (z : Z) : bytes :=
  match n with
  | O => ""
  | S n => String (ascii_of_N (Z.to_N (z `mod` 256))) (bytes_of n (z / 256))
  end.
Definition toy_sha (b : bytes) : bytes := bytes_of 32 (SetBytes_from 1 b `mod` (2 ^ 255 - 19)).

Lemma bytes_of_length n z : String.length (bytes_of n z) = n.
Proof. revert z. induction n as [|n IH]; intros z; simpl; [done|]. by rewrite IH. Qed.

(** The bundle. *)
#[export] Instance ext : External := {|
  ext_gob_as := ser_codec;
  ext_gob_tx := ser_codec;
  ext_gob_bh := ser_codec;
  ext_gob_b := ser_codec;
  ext_gob_atm := ser_codec;
  json_Request r := ser r "";
  json_BrokerRawMeg m := ser m "";
  ext_sha256 := toy_sha;
  ext_bolt := bolt;
  ext_trie := trie;
  ext_bitset := bitset |}.

#[export] Instance ext_ok : ExternalOk.
Proof.
  split; try apply ser_codec_ok; try apply _.
  - done.
  - intros b _. apply ser_codec_ok.
  - intros b. unfold slen, Sum256. simpl ext_sha256. unfold toy_sha. by rewrite bytes_of_length.
Qed.

End RefExternal.
