(* ===== verification/Storage.v ===== *)
(** * Block storage

    [storage/storage.go]: blocks, headers and the newest block hash in three
    buckets of a bolt database.  The log file is the database itself; the bucket
    creation of [NewStorage] is part of opening it. *)

From S2P Require Import Prelude Params Core Message External.

Section storage.
Context `{External}.

(** ** [storage/storage.go] *)

Definition blockBucket : string := "block".
Definition blockHeaderBucket : string := "blockHeader".
Definition newestBlockHashBucket : string := "newestBlockHash".
Definition OnlyNewestBlock : bytes := "OnlyNewestBlock".

Definition UpdateNewestBlock (newestbhash : bytes) (s : DB) : go DB :=
  or_panic "bolt: put" (db_Put s newestBlockHashBucket OnlyNewestBlock newestbhash).

Definition AddBlockHeader (blockhash : bytes) (bh : BlockHeader) (s : DB) : go DB :=
  or_panic "bolt: put" (db_Put s blockHeaderBucket blockhash (enc bh)).

Definition AddBlock (b : Block) (s : DB) : go DB :=
  s ← or_panic "bolt: put" (db_Put s blockBucket (b_Hash b) (enc b));
  s ← AddBlockHeader (b_Hash b) (b_Header b) s;
  UpdateNewestBlock (b_Hash b) s.

(** The inner [None] is the error "the block is not existed". *)
Definition GetBlockHeader (bhash : bytes) (s : DB) : go (option BlockHeader) :=
  match db_Get s blockHeaderBucket bhash with
  | None => Ret None
  | Some bh_encoded => Some <$> DecodeBH bh_encoded
  end.

Definition GetBlock (bhash : bytes) (s : DB) : go (option Block) :=
  match db_Get s blockBucket bhash with
  | None => Ret None
  | Some b_encoded => Some <$> DecodeB b_encoded
  end.

(** [None] is the error "cannot find the newest block hash". *)
Definition GetNewestBlockHash (s : DB) : option bytes :=
  db_Get s newestBlockHashBucket OnlyNewestBlock.

(** ** What the rest of the program relies on *)

(** A block bolt accepts and gob gives back unchanged. *)
Record storable (b : Block) : Prop := {
  st_hash : 0 < slen (b_Hash b) ≤ MaxKeySize;
  st_gob : gob_stable b;
  st_size : slen (enc b) ≤ MaxValueSize;
  st_header_size : slen (enc (b_Header b)) ≤ MaxValueSize
}.

#[export] Instance storable_dec b : Decision (storable b).
Proof.
  refine (cast_if (decide ((0 < slen (b_Hash b) ∧ slen (b_Hash b) ≤ MaxKeySize) ∧ gob_stable b
    ∧ slen (enc b) ≤ MaxValueSize ∧ slen (enc (b_Header b)) ≤ MaxValueSize)));
    [destruct_and?; by split|by intros [[??] ???]; naive_solver].
Defined.

(** The store holds [b] under its hash. *)
Definition stored (s : DB) (b : Block) : Prop := GetBlock (b_Hash b) s = Ret (Some b).

(** The block on top of the store is [b]. *)
Definition top_is (s : DB) (b : Block) : Prop :=
  GetNewestBlockHash s = Some (b_Hash b) ∧ stored s b
  ∧ GetBlockHeader (b_Hash b) s = Ret (Some (b_Header b)).

Context `{!ExternalOk}.

Lemma put_hash_size s bkt k v :
  0 < slen k ≤ MaxKeySize → slen v ≤ MaxValueSize →
  ∃ s', db_Put s bkt k v = Some s'.
Proof. apply put_ok. Qed.

Lemma UpdateNewestBlock_returns s k :
  slen k ≤ MaxKeySize → ∃ s', UpdateNewestBlock k s = Ret s'.
Proof.
  intros Hk. unfold UpdateNewestBlock.
  destruct (put_hash_size s newestBlockHashBucket OnlyNewestBlock k) as [s' ->]; [done| |by eexists].
  unfold MaxValueSize, MaxKeySize in *. lia.
Qed.

(** Reading after a block was added. *)
Lemma AddBlock_gets s b s' :
  AddBlock b s = Ret s' →
  GetNewestBlockHash s' = Some (b_Hash b)
  ∧ db_Get s' blockBucket (b_Hash b) = Some (enc b)
  ∧ db_Get s' blockHeaderBucket (b_Hash b) = Some (enc (b_Header b))
  ∧ (∀ h, h ≠ b_Hash b → db_Get s' blockBucket h = db_Get s blockBucket h
                        ∧ db_Get s' blockHeaderBucket h = db_Get s blockHeaderBucket h).
Proof.
  unfold AddBlock, AddBlockHeader, UpdateNewestBlock, GetNewestBlockHash. intros Ha.
  apply bind_Ret in Ha as (s1 & P1%or_panic_Ret & Ha).
  apply bind_Ret in Ha as (s2 & P2%or_panic_Ret & P3%or_panic_Ret).
  split_and!.
  - by eapply get_put_eq.
  - rewrite (get_put_ne _ _ _ _ _ _ _ P3), (get_put_ne _ _ _ _ _ _ _ P2) by done.
    by eapply get_put_eq.
  - rewrite (get_put_ne _ _ _ _ _ _ _ P3) by done. by eapply get_put_eq.
  - intros h Hne.
    by rewrite !(get_put_ne _ _ _ _ _ _ _ P3), !(get_put_ne _ _ _ _ _ _ _ P2),
      !(get_put_ne _ _ _ _ _ _ _ P1)
      by (unfold blockBucket, blockHeaderBucket, newestBlockHashBucket; naive_solver).
Qed.

Lemma AddBlock_top s b :
  storable b → ∃ s', AddBlock b s = Ret s' ∧ top_is s' b
  ∧ (∀ h, h ≠ b_Hash b → GetBlock h s' = GetBlock h s ∧ GetBlockHeader h s' = GetBlockHeader h s).
Proof.
  intros [Hh Hg Hb Hbh].
  assert (∃ s', AddBlock b s = Ret s') as [s' Hs'].
  { unfold AddBlock, AddBlockHeader.
    destruct (put_hash_size s blockBucket (b_Hash b) (enc b)) as [s1 ->]; [done..|]. simpl.
    destruct (put_hash_size s1 blockHeaderBucket (b_Hash b) (enc (b_Header b))) as [s2 ->]; [done..|].
    simpl. apply UpdateNewestBlock_returns. lia. }
  exists s'. split; [done|]. apply AddBlock_gets in Hs' as (H1 & H2 & H3 & H4).
  unfold top_is, stored, GetBlock, GetBlockHeader, DecodeB, DecodeBH.
  split; [split_and!; [done|..]|].
  - by rewrite H2, ok_gob_b.
  - by rewrite H3, dec_enc.
  - intros h Hne. by destruct (H4 h Hne) as [-> ->].
Qed.

End storage.

Module StorageProps.
Section props.
Context `{ExternalOk}.

(** Storing a block (whose hash fits a bolt key) always succeeds; afterwards
    it is the newest block, reading its hash gives back exactly that block and
    that header, and every other block stays readable as before. *)
Theorem AddBlock_persists (s : DB) (b : Block) :
  storable b →
  ∃ s', AddBlock b s = Ret s'
  ∧ GetNewestBlockHash s' = Some (b_Hash b)
  ∧ GetBlock (b_Hash b) s' = Ret (Some b)
  ∧ GetBlockHeader (b_Hash b) s' = Ret (Some (b_Header b))
  ∧ (∀ h, h ≠ b_Hash b → GetBlock h s' = GetBlock h s ∧ GetBlockHeader h s' = GetBlockHeader h s).
Proof.
  intros Hb. destruct (AddBlock_top s b Hb) as (s' & Ha & (? & ? & ?) & ?). by exists s'.
Qed.

End props.

Definition block7 : Block :=
  mkBlock (mkBH "p" "s" "t" "b" 7 0 1) (TxQueue TxPoolProps.pool3) "h7".

#[local] Existing Instances RefExternal.ext RefExternal.ext_ok.
Definition empty_store : DB := (∅ : gmap (string * string) string).

Lemma AddBlock_persists_witness :
  ∃ s', AddBlock block7 empty_store = Ret s'
  ∧ GetNewestBlockHash s' = Some "h7"%string
  ∧ GetBlock "h7" s' = Ret (Some block7)
  ∧ GetBlockHeader "h7" s' = Ret (Some (b_Header block7))
  ∧ (∀ h, h ≠ "h7"%string → GetBlock h s' = GetBlock h empty_store
                          ∧ GetBlockHeader h s' = GetBlockHeader h empty_store).
Proof.
  apply (AddBlock_persists empty_store block7).
  by_compute.
Defined.

End StorageProps.
