(* ===== verification/Chain.v ===== *)
(** * The blockchain of a node

    [chain/blockchain.go]: the status trie, block generation, validation and
    addition, account migration.  The abstract specification is a ledger
    ([Ledger]): an address map of balances where an address that was never touched
    owns [Init_Balance]. *)

From S2P Require Import Prelude Params Core Message External Storage.

(** ** [type BlockChain struct]

    [triedb] stands for the trie database together with the disk database below
    it; the partition lock is held only inside one map access. *)

Record BlockChain `{External} := mkBlockChain {
  bc_triedb : TrieDB;
  bc_ChainConfig : ChainConfig;
  bc_CurrentBlock : Block;
  bc_Storage : DB;
  bc_Txpool : TxPool;
  bc_PartitionMap : gmap Address Z
}.
#[export] Instance BlockChain_eta `{External} : Eta BlockChain := λ r,
  mkBlockChain _ (bc_triedb r) (bc_ChainConfig r) (bc_CurrentBlock r) (bc_Storage r)
    (bc_Txpool r) (bc_PartitionMap r).

Section chain.
Context `{Params} `{External}.

Definition bc_ShardID (bc : BlockChain) : Z := cc_ShardID (bc_ChainConfig bc).
Definition state_root (bc : BlockChain) : bytes := bh_StateRoot (b_Header (bc_CurrentBlock bc)).

(** ** Transaction root and bloom filter *)

Definition tx_trie (txs : list Transaction) : Trie :=
  foldl (λ t tx, trie_Update t (tx_TxHash tx) (String Ascii.zero "")) trie_NewEmpty txs.

Definition GetTxTreeRoot (txs : list Transaction) : bytes := trie_Hash (tx_trie txs).

Definition GetBloomFilter (txs : list Transaction) : go bytes :=
  go_fold (λ bs tx, i ← ModBytes (tx_TxHash tx) 2048; Ret (bs_Set bs i)) (bs_New 2048) txs.

(** ** Partition map and pool *)

Definition Update_PartitionMap (key : Address) (val : Z) (bc : BlockChain) : BlockChain :=
  bc <| bc_PartitionMap ::= <[key := val]> |>.

Definition Get_PartitionMap (bc : BlockChain) (key : Address) : go Z :=
  match bc_PartitionMap bc !! key with
  | None => s ← Addr2Shard key; Ret (u64 s)
  | Some v => Ret v
  end.

Definition SendTx2Pool (now : Time) (txs : list Transaction) (bc : BlockChain) : go BlockChain :=
  p ← AddTxs2Pool now txs (bc_Txpool bc); Ret (bc <| bc_Txpool := p |>).

(** ** [GetUpdateStatusTrie] *)

(** The account read from the trie, or a new one with the initial balance. *)
Definition load_account (st : Trie) (nonce : Z) (addr : Address) : go AccountState :=
  match trie_Get st addr with
  | None => Ret (mkAS "" nonce (0 + Init_Balance) "" "")
  | Some e => DecodeAS e
  end.

(** The sender's half of the loop body; [None] is the [continue]. *)
Definition debit_sender (bc : BlockChain) (i : Z) (tx : Transaction) (st : Trie) (cnt : Z)
    : go (option (Trie * Z)) :=
  senderIn ← (if tx_Relayed tx then Ret false
              else s ← Get_PartitionMap bc (tx_Sender tx);
                   Ret ((s =? bc_ShardID bc) || tx_HasBroker tx));
  if senderIn : bool then
    s_state ← load_account st i (tx_Sender tx);
    if as_Balance s_state <? tx_Value tx then Ret None
    else
      let '(_, s_state) := Deduct s_state (tx_Value tx) in
      Ret (Some (trie_Update st (tx_Sender tx) (enc s_state), cnt + 1))
  else Ret (Some (st, cnt)).

(** The recipient's half. *)
Definition credit_recipient (bc : BlockChain) (i : Z) (tx : Transaction) (st : Trie) (cnt : Z)
    : go (Trie * Z) :=
  r ← Get_PartitionMap bc (tx_Recipient tx);
  if (r =? bc_ShardID bc) || tx_HasBroker tx then
    r_state ← load_account st i (tx_Recipient tx);
    let r_state := Deposit r_state (tx_Value tx) in
    Ret (trie_Update st (tx_Recipient tx) (enc r_state), cnt + 1)
  else Ret (st, cnt).

Definition handle_tx (bc : BlockChain) (i : Z) (s : Trie * Z) (tx : Transaction) : go (Trie * Z) :=
  d ← debit_sender bc i tx s.1 s.2;
  match d with
  | None => Ret s
  | Some (st, cnt) => credit_recipient bc i tx st cnt
  end.

(** Commit an in-memory trie: the new root and the database that holds it. *)
Definition commit_trie (db : TrieDB) (st : Trie) : go (bytes * TrieDB) :=
  let '(rt, ns) := trie_Commit st in
  match ns with
  | None => Ret (rt, db)
  | Some n =>
      db ← or_panic "triedb.Update" (triedb_Update db n);
      db ← or_panic "triedb.Commit" (triedb_Commit db rt);
      Ret (rt, db)
  end.

Definition GetUpdateStatusTrie (txs : list Transaction) (bc : BlockChain) : go (bytes * BlockChain) :=
  if len txs =? 0 then Ret (BytesToHash (state_root bc), bc)
  else
    st ← or_panic "trie.New" (trie_New (BytesToHash (state_root bc)) (bc_triedb bc));
    '(st, cnt) ← go_ifold (handle_tx bc) 0 (st, 0) txs;
    if cnt =? 0 then Ret (BytesToHash (state_root bc), bc)
    else
      '(rt, db) ← commit_trie (bc_triedb bc) st;
      Ret (rt, bc <| bc_triedb := db |>).

(** ** Blocks *)

(** Header of the next block, filled from the transactions it carries. *)
Definition next_header (bc : BlockChain) (now : Time) (rt : bytes) (txs : list Transaction)
    (miner : Z) : go BlockHeader :=
  bloom ← GetBloomFilter txs;
  Ret (mkBH (b_Hash (bc_CurrentBlock bc)) rt (GetTxTreeRoot txs) bloom
            (u64 (bh_Number (b_Header (bc_CurrentBlock bc)) + 1)) now miner).

Definition hashed (b : Block) : Block := b <| b_Hash := BH_Hash (b_Header b) |>.

Definition GenerateBlock (now : Time) (miner : Z) (bc : BlockChain) : go (Block * BlockChain) :=
  '(txs, pool) ← (if UseBlocksizeInBytes =? 1 then PackTxsWithBytes BlocksizeInBytes (bc_Txpool bc)
                  else PackTxs (BlockSize (bc_ChainConfig bc)) (bc_Txpool bc));
  let bc := bc <| bc_Txpool := pool |> in
  '(rt, bc) ← GetUpdateStatusTrie txs bc;
  bh ← next_header bc now rt txs miner;
  Ret (hashed (NewBlock bh txs), bc).

Definition NewGenisisBlock : go Block :=
  bloom ← GetBloomFilter [];
  Ret (hashed (NewBlock (mkBH "" (trie_Hash trie_NewEmpty) (GetTxTreeRoot []) bloom 0 time_zero 0) [])).

Definition AddGenisisBlock (gb : Block) (s : DB) : go (Block * DB) :=
  s ← Storage.AddBlock gb s;
  newestHash ← or_panic "GetNewestBlockHash" (GetNewestBlockHash s);
  curb ← GetBlock newestHash s;
  curb ← or_panic "GetBlock" curb;
  Ret (curb, s).

Definition AddBlock (b : Block) (bc : BlockChain) : go BlockChain :=
  if negb (bh_Number (b_Header b) =? u64 (bh_Number (b_Header (bc_CurrentBlock bc)) + 1)) then Ret bc
  else if negb (String.eqb (bh_ParentBlockHash (b_Header b)) (b_Hash (bc_CurrentBlock bc))) then Ret bc
  else
    bc ← match trie_New (BytesToHash (bh_StateRoot (b_Header b))) (bc_triedb bc) with
         | Some _ => Ret bc
         | None => '(_, bc) ← GetUpdateStatusTrie (b_Body b) bc; Ret bc
         end;
    s ← Storage.AddBlock b (bc_Storage bc);
    Ret (bc <| bc_CurrentBlock := b |> <| bc_Storage := s |>).

(** The two tests of [AddBlock], as one proposition: the block is the next one. *)
Definition fits (bc : BlockChain) (b : Block) : Prop :=
  bh_Number (b_Header b) = u64 (bh_Number (b_Header (bc_CurrentBlock bc)) + 1)
  ∧ bh_ParentBlockHash (b_Header b) = b_Hash (bc_CurrentBlock bc).
#[export] Instance fits_dec bc b : Decision (fits bc b).
Proof. unfold fits. apply _. Defined.

(** [db] and [s] are the trie database and the bolt file found on disk. *)
Definition NewBlockChain (cc : ChainConfig) (db : TrieDB) (s : DB) : go BlockChain :=
  match GetNewestBlockHash s with
  | None =>
      gb ← NewGenisisBlock;
      '(curb, s) ← AddGenisisBlock gb s;
      Ret (mkBlockChain _ db cc curb s NewTxPool ∅)
  | Some curHash =>
      curb ← GetBlock curHash s;
      curb ← or_panic "GetBlock" curb;
      _ ← or_panic "trie.New" (trie_New (BytesToHash (bh_StateRoot (b_Header curb))) db);
      Ret (mkBlockChain _ db cc curb s NewTxPool ∅)
  end.

(** [true]: no error. *)
Definition IsValidBlock (bc : BlockChain) (b : Block) : bool :=
  if negb (String.eqb (bh_ParentBlockHash (b_Header b)) (b_Hash (bc_CurrentBlock bc))) then false
  else if negb (String.eqb (GetTxTreeRoot (b_Body b)) (bh_TxRoot (b_Header b))) then false
  else true.

(** ** Accounts *)

(** One turn of the loop of [AddAccounts] at index [i]. *)
Definition add_account (bc : BlockChain) (as_ : list AccountState) (i : Z) (st : Trie)
    (addr : Address) : go Trie :=
  p ← Get_PartitionMap bc addr;
  if p =? bc_ShardID bc then
    a ← or_panic "index out of range" (as_ !! Z.to_nat i);
    Ret (trie_Update st addr (enc (mkAS "" (as_Nonce a) (0 + as_Balance a) "" "")))
  else Ret st.

Definition AddAccounts (ac : list Address) (as_ : list AccountState) (bc : BlockChain) : go BlockChain :=
  '(rt, bc) ← (if len ac =? 0 then Ret (state_root bc, bc)
     else
       st ← or_panic "trie.New" (trie_New (BytesToHash (state_root bc)) (bc_triedb bc));
       st ← go_ifold (add_account bc as_) 0 st ac;
       let '(rrt, ns) := trie_Commit st in
       match ns with
       | None => Ret (state_root bc, bc)
       | Some n =>
           db ← or_panic "triedb.Update" (triedb_Update (bc_triedb bc) n);
           db ← or_panic "triedb.Commit" (triedb_Commit db rrt);
           Ret (rrt, bc <| bc_triedb := db |>)
       end);
  bh ← next_header bc time_zero rt [] 0;
  let b := hashed (NewBlock bh []) in
  s ← Storage.AddBlock b (bc_Storage bc);
  Ret (bc <| bc_CurrentBlock := b |> <| bc_Storage := s |>).

Definition FetchAccounts (addrs : list Address) (bc : BlockChain) : go (list AccountState) :=
  st ← or_panic "trie.New" (trie_New (BytesToHash (state_root bc)) (bc_triedb bc));
  go_fold (λ res addr, a ← load_account st 0 addr; Ret (res ++ [a])) [] addrs.

(** ** SZHBFT: local and global blocks *)

(** The sorting loop: local, global and remaining transactions. *)
Definition sort_tx (bc : BlockChain)
    (acc : list Transaction * list Transaction * list Transaction) (tx : Transaction)
    : go (list Transaction * list Transaction * list Transaction) :=
  let '(localTxs, globalTxs, remainQueue) := acc in
  if BlockSize (bc_ChainConfig bc) <=? len localTxs + len globalTxs then
    Ret (localTxs, globalTxs, remainQueue ++ [tx])
  else
    inputSZ ← Get_PartitionMap bc (tx_Sender tx);
    outputSZ ← Get_PartitionMap bc (tx_Recipient tx);
    if (inputSZ =? bc_ShardID bc) && (outputSZ =? bc_ShardID bc) then
      Ret (localTxs ++ [tx], globalTxs, remainQueue)
    else Ret (localTxs, globalTxs ++ [tx], remainQueue).

Definition GenerateSZBlock (now : Time) (miner : Z) (bc : BlockChain)
    : go (option Block * option Block * BlockChain) :=
  pool ← GetLocked (bc_Txpool bc);
  '(localTxs, globalTxs, remainQueue) ← go_fold (sort_tx bc) ([], [], []) (TxQueue pool);
  pool ← GetUnlocked (pool <| TxQueue := remainQueue |>);
  let bc := bc <| bc_Txpool := pool |> in
  '(globalBlock, bc) ←
    (if 0 <? len globalTxs then
       '(rt, bc) ← GetUpdateStatusTrie globalTxs bc;
       bh ← next_header bc now rt globalTxs miner;
       Ret (Some (hashed (NewBlock bh globalTxs)), bc)
     else Ret (None, bc));
  localBlock ←
    (if 0 <? len localTxs then
       bh ← next_header bc now (state_root bc) localTxs miner;
       Ret (Some (hashed (NewBlock bh localTxs)))
     else Ret None);
  Ret (localBlock, globalBlock, bc).

(** The keys of the map, in Go's unspecified order: a set. *)
Definition GetRelatedShards (bc : BlockChain) (block : Block) : go (gset Z) :=
  go_fold (λ (shardMap : gset Z) tx,
             inputSZ ← Get_PartitionMap bc (tx_Sender tx);
             outputSZ ← Get_PartitionMap bc (tx_Recipient tx);
             Ret ({[ outputSZ ]} ∪ ({[ inputSZ ]} ∪ shardMap)))
          {[ bc_ShardID bc ]} (b_Body block).

End chain.

#[global] Arguments next_header : simpl never.
#[global] Arguments GetUpdateStatusTrie : simpl never.
