(* ===== verification/Ledger.v ===== *)
(** * The ledger: abstract specification of the status trie

    [exec_txs] says what a block does to balances; [represents] relates a state
    root to a ledger; [GetUpdateStatusTrie_refines] is the refinement theorem that
    the trie loop of [chain/blockchain.go] implements [exec_txs].  The accounting
    properties (conservation, no overdraft, agreement of replicas) follow from it. *)

From S2P Require Import Prelude Params Core Message External Storage Chain.

(** ** Ledgers, up to pointwise equality *)

Definition ledger : Type := Address → Z.
#[export] Instance ledger_equiv : Equiv ledger := λ l k, ∀ a, l a = k a.
#[export] Instance ledger_equivalence : Equivalence (≡@{ledger}).
Proof. split; [by intros l a|by intros l k H a|intros l k m H1 H2 a; by rewrite H1]. Qed.

Definition credit (a : Address) (d : Z) (l : ledger) : ledger :=
  λ x, if decide (x = a) then l x + d else l x.
#[export] Instance credit_proper a d : Proper ((≡) ==> (≡)) (credit a d).
Proof. intros l k H x. unfold credit. by rewrite (H x). Qed.

(** The total held by a list of addresses. *)
Definition total (A : list Address) (l : ledger) : Z := sumZ (l <$> A).
#[export] Instance total_proper A : Proper ((≡) ==> (=)) (total A).
Proof. intros l k H. apply sumZ_ext. intros a _. apply H. Qed.

Section spec.
Context (here : Address → bool).

Definition debits (tx : Transaction) : bool :=
  negb (tx_Relayed tx) && (here (tx_Sender tx) || tx_HasBroker tx).
Definition credits (tx : Transaction) : bool := here (tx_Recipient tx) || tx_HasBroker tx.
(** The shard must debit the sender and cannot. *)
Definition rejected (l : ledger) (tx : Transaction) : bool :=
  debits tx && (l (tx_Sender tx) <? tx_Value tx).

Definition exec_tx (l : ledger) (tx : Transaction) : ledger :=
  if rejected l tx then l
  else
    let l := if debits tx then credit (tx_Sender tx) (- tx_Value tx) l else l in
    if credits tx then credit (tx_Recipient tx) (tx_Value tx) l else l.

Definition exec_txs (l : ledger) (txs : list Transaction) : ledger := foldl exec_tx l txs.

#[export] Instance exec_tx_proper : Proper ((≡) ==> (=) ==> (≡)) exec_tx.
Proof.
  intros l k H tx _ <-. unfold exec_tx, rejected. rewrite (H (tx_Sender tx)).
  destruct (debits tx && _); [done|]. destruct (debits tx), (credits tx); by rewrite ?H.
Qed.
#[export] Instance exec_txs_proper : Proper ((≡) ==> (=) ==> (≡)) exec_txs.
Proof.
  intros l k H txs _ <-. revert l k H.
  induction txs as [|tx txs IH]; intros l k H; simpl; [done|]. apply IH. by rewrite H.
Qed.

(** The transactions of a block that are rejected when their turn comes. *)
Fixpoint rejects (l : ledger) (txs : list Transaction) : list Transaction :=
  match txs with
  | [] => []
  | tx :: txs =>
      (if rejected l tx then [tx] else []) ++ rejects (exec_tx l tx) txs
  end.

(** *** Accounting *)

Lemma total_credit A a d l : NoDup A → a ∈ A → total A (credit a d l) = total A l + d.
Proof.
  intros HA Ha. unfold total, credit.
  trans (sumZ ((λ x, l x + (if decide (x = a) then d else 0)) <$> A)).
  - apply sumZ_ext. intros x _. case_decide; lia.
  - by rewrite sumZ_add, sumZ_indicator.
Qed.

Lemma exec_tx_total A l tx :
  NoDup A → tx_Sender tx ∈ A → tx_Recipient tx ∈ A →
  total A (exec_tx l tx) = total A l
    + (if rejected l tx then 0
       else (if credits tx then tx_Value tx else 0) - (if debits tx then tx_Value tx else 0)).
Proof.
  intros HA Hs Hr. unfold exec_tx. destruct (rejected l tx); [lia|].
  destruct (debits tx), (credits tx); rewrite ?total_credit by done; lia.
Qed.

Lemma exec_tx_nonneg l tx :
  0 ≤ tx_Value tx → (∀ a, 0 ≤ l a) → ∀ a, 0 ≤ exec_tx l tx a.
Proof.
  intros Hv Hl a. unfold exec_tx, rejected, credit. specialize (Hl a) as Ha.
  destruct (debits tx); simpl.
  - destruct (l (tx_Sender tx) <? tx_Value tx) eqn:E; [done|]. z_bool.
    destruct (credits tx); repeat case_decide; subst; lia.
  - destruct (credits tx); repeat case_decide; lia.
Qed.

Lemma exec_txs_nonneg l txs :
  (∀ tx, tx ∈ txs → 0 ≤ tx_Value tx) → (∀ a, 0 ≤ l a) → ∀ a, 0 ≤ exec_txs l txs a.
Proof.
  revert l. induction txs as [|tx txs IH]; intros l Hv Hl; simpl; [done|].
  apply IH; [intros; apply Hv; by right|]. apply exec_tx_nonneg; [apply Hv; by left|done].
Qed.

(** A block whose transactions all stay inside the shard conserves the total. *)
Lemma exec_txs_conserved A l txs :
  NoDup A →
  (∀ tx, tx ∈ txs → tx_Sender tx ∈ A ∧ tx_Recipient tx ∈ A ∧ debits tx = credits tx) →
  total A (exec_txs l txs) = total A l.
Proof.
  intros HA. revert l. induction txs as [|tx txs IH]; intros l Htx; simpl; [done|].
  rewrite IH by (intros; apply Htx; by right).
  destruct (Htx tx) as (? & ? & E); [by left|].
  rewrite exec_tx_total, E by done. destruct (rejected l tx), (credits tx); lia.
Qed.

End spec.

(** ** The trie as a ledger *)

Section refine.
Context `{Params} `{External}.

Definition bal (t : Trie) : ledger := λ a,
  match trie_Get t a with
  | None => Init_Balance
  | Some e => match dec e with Some s => as_Balance s | None => 0 end
  end.

(** Every value in the trie is an encoded account. *)
Definition wf_trie (t : Trie) : Prop :=
  ∀ a e, trie_Get t a = Some e → ∃ s : AccountState, e = enc s.

(** Under the root [rt] the database holds the ledger [l]. *)
Definition represents (db : TrieDB) (rt : bytes) (l : ledger) : Prop :=
  ∃ t, trie_New (BytesToHash rt) db = Some t ∧ wf_trie t ∧ bal t ≡ l.

(** The state of a chain. *)
Definition has_ledger (bc : BlockChain) (l : ledger) : Prop :=
  represents (bc_triedb bc) (state_root bc) l.

(** [db'] still holds whatever [db] held. *)
Definition extends (db db' : TrieDB) : Prop :=
  ∀ rt l, represents db rt l → represents db' rt l.

(** Does the chain hold the account [a]?  (For addresses that have a shard.) *)
Definition here (bc : BlockChain) (a : Address) : bool :=
  match Get_PartitionMap bc a with Ret s => s =? bc_ShardID bc | _ => false end.

(** Every address of the block has a shard ([Addr2Shard] does not panic). *)
Definition routable (bc : BlockChain) (txs : list Transaction) : Prop :=
  ∀ tx, tx ∈ txs →
    returns (Get_PartitionMap bc (tx_Sender tx)) ∧ returns (Get_PartitionMap bc (tx_Recipient tx)).

Context `{!ExternalOk}.

Lemma wf_update t a s : wf_trie t → wf_trie (trie_Update t a (enc (s : AccountState))).
Proof.
  intros Ht b e. destruct (decide (a = b)) as [->|Hne].
  - rewrite get_update_eq by apply ok_gob_as_nonempty. intros [= <-]. by exists s.
  - rewrite get_update_ne by done. apply Ht.
Qed.

Lemma bal_update t a s b :
  bal (trie_Update t a (enc (s : AccountState))) b =
  if decide (b = a) then as_Balance s else bal t b.
Proof.
  unfold bal. destruct (decide (b = a)) as [->|Hne].
  - by rewrite get_update_eq, dec_enc by apply ok_gob_as_nonempty.
  - by rewrite get_update_ne.
Qed.

Lemma load_account_ok t i a :
  wf_trie t → ∃ s, load_account t i a = Ret s ∧ as_Balance s = bal t a.
Proof.
  intros Ht. unfold load_account, bal, DecodeAS. destruct (trie_Get t a) as [e|] eqn:E.
  - destruct (Ht a e E) as [s ->]. rewrite dec_enc. by exists s.
  - eexists. split; [done|]. done.
Qed.

Lemma same_content_bal t u : same_content t u → wf_trie t → wf_trie u ∧ bal u ≡ bal t.
Proof.
  intros Htu Ht. split; [intros a e; rewrite <- Htu; apply Ht|].
  intros a. unfold bal. by rewrite Htu.
Qed.

(** What one half or one turn of the loop does, from [(st, cnt)] to [(st', cnt')]. *)
Record loop_step (db : TrieDB) (rt : bytes) (st st' : Trie) (cnt cnt' : Z) (l' : ledger) : Prop := {
  ls_wf : wf_trie st';
  ls_bal : bal st' ≡ l';
  ls_from : trie_from db rt st → trie_from db rt st';
  ls_cnt : cnt ≤ cnt';
  ls_same : cnt' = cnt → st' = st
}.

Lemma loop_step_refl db rt st cnt : wf_trie st → loop_step db rt st st cnt cnt (bal st).
Proof. by split. Qed.

Lemma loop_step_equiv db rt st st' cnt cnt' l l' :
  l ≡ l' → loop_step db rt st st' cnt cnt' l → loop_step db rt st st' cnt cnt' l'.
Proof. intros E [? Hb ???]. split; try done. by rewrite Hb. Qed.

Lemma loop_step_trans db rt st st1 st2 cnt cnt1 cnt2 l1 l2 :
  loop_step db rt st st1 cnt cnt1 l1 → loop_step db rt st1 st2 cnt1 cnt2 l2 →
  loop_step db rt st st2 cnt cnt2 l2.
Proof.
  intros [? ? ? ? S1] [? ? ? ? S2]. split; try done; [naive_solver|lia|].
  intros ->. rewrite S2, S1 by lia. done.
Qed.

Lemma update_step db rt st cnt a (s : AccountState) d :
  wf_trie st → as_Balance s = bal st a + d →
  loop_step db rt st (trie_Update st a (enc s)) cnt (cnt + 1) (credit a d (bal st)).
Proof.
  intros Hst Hs. split; [by apply wf_update| |intros; by constructor|lia|lia].
  intros b. rewrite bal_update. unfold credit. destruct (decide (b = a)) as [->|]; done.
Qed.

Lemma here_Ret bc a : returns (Get_PartitionMap bc a) →
  ∃ s, Get_PartitionMap bc a = Ret s ∧ (s =? bc_ShardID bc) = here bc a.
Proof. unfold here. intros [s ->]. by exists s. Qed.

Lemma debit_sender_ok db rt bc i tx st cnt :
  wf_trie st → returns (Get_PartitionMap bc (tx_Sender tx)) →
  debit_sender bc i tx st cnt = Ret None ∧ rejected (here bc) (bal st) tx = true
  ∨ ∃ st' cnt', debit_sender bc i tx st cnt = Ret (Some (st', cnt'))
    ∧ rejected (here bc) (bal st) tx = false
    ∧ loop_step db rt st st' cnt cnt'
        (if debits (here bc) tx then credit (tx_Sender tx) (- tx_Value tx) (bal st) else bal st).
Proof.
  intros Hst (s & Hs & Hh)%here_Ret. unfold debit_sender, rejected, debits.
  destruct (tx_Relayed tx); simpl.
  { right. eexists _, _. split; [done|]. split; [done|]. by apply loop_step_refl. }
  rewrite Hs. simpl. rewrite Hh. destruct (here bc (tx_Sender tx) || tx_HasBroker tx); simpl.
  2:{ right. eexists _, _. split; [done|]. split; [done|]. by apply loop_step_refl. }
  destruct (load_account_ok st i (tx_Sender tx)) as (a & -> & Ha); [done|]. simpl. rewrite Ha.
  destruct (bal st (tx_Sender tx) <? tx_Value tx) eqn:E; [by left|]. right.
  unfold Deduct. rewrite Ha, E. eexists _, _. split; [done|]. split; [done|].
  apply update_step; [done|]. simpl. lia.
Qed.

Lemma credit_recipient_ok db rt bc i tx st cnt :
  wf_trie st → returns (Get_PartitionMap bc (tx_Recipient tx)) →
  ∃ st' cnt', credit_recipient bc i tx st cnt = Ret (st', cnt')
    ∧ loop_step db rt st st' cnt cnt'
        (if credits (here bc) tx then credit (tx_Recipient tx) (tx_Value tx) (bal st) else bal st).
Proof.
  intros Hst (s & Hs & Hh)%here_Ret. unfold credit_recipient, credits. rewrite Hs. simpl. rewrite Hh.
  destruct (here bc (tx_Recipient tx) || tx_HasBroker tx).
  2:{ eexists _, _. split; [done|]. by apply loop_step_refl. }
  destruct (load_account_ok st i (tx_Recipient tx)) as (a & -> & Ha); [done|].
  eexists _, _. split; [done|]. apply update_step; [done|]. simpl. lia.
Qed.

Lemma handle_tx_ok db rt bc i tx st cnt :
  wf_trie st → routable bc [tx] →
  ∃ st' cnt', handle_tx bc i (st, cnt) tx = Ret (st', cnt')
    ∧ loop_step db rt st st' cnt cnt' (exec_tx (here bc) (bal st) tx).
Proof.
  intros Hst Hr. destruct (Hr tx) as [Hs Hd]; [by left|]. unfold handle_tx, exec_tx. simpl.
  destruct (debit_sender_ok db rt bc i tx st cnt Hst Hs) as [[-> ->]|(st1 & c1 & -> & -> & HA1)].
  { eexists _, _. split; [done|]. by apply loop_step_refl. }
  simpl. destruct (credit_recipient_ok db rt bc i tx st1 c1) as (st2 & c2 & -> & HA2); [apply HA1|done|].
  eexists _, _. split; [done|]. eapply loop_step_trans; [exact HA1|].
  eapply loop_step_equiv; [|exact HA2]. pose proof (ls_bal _ _ _ _ _ _ _ HA1) as Hb.
  destruct (credits (here bc) tx); [|done]. intros a. unfold credit. by rewrite (Hb a).
Qed.

Lemma handle_txs_ok db rt bc i txs st cnt :
  wf_trie st → routable bc txs →
  ∃ st' cnt', go_ifold (handle_tx bc) i (st, cnt) txs = Ret (st', cnt')
    ∧ loop_step db rt st st' cnt cnt' (exec_txs (here bc) (bal st) txs).
Proof.
  revert i st cnt. induction txs as [|tx txs IH]; intros i st cnt Hst Hr; simpl.
  { eexists _, _. split; [done|]. by apply loop_step_refl. }
  destruct (handle_tx_ok db rt bc i tx st cnt Hst) as (st1 & c1 & -> & HA1).
  { intros tx' ->%list_elem_of_singleton. apply Hr. by left. }
  destruct (IH (i + 1) st1 c1) as (st2 & c2 & E & HA2); [apply HA1|intros ? ?; apply Hr; by right|].
  simpl. eexists _, _. split; [exact E|]. eapply loop_step_trans; [exact HA1|].
  eapply loop_step_equiv; [|exact HA2]. by rewrite (ls_bal _ _ _ _ _ _ _ HA1).
Qed.

Lemma commit_trie_ok db rt st :
  trie_from db rt st → wf_trie st →
  ∃ db', commit_trie db st = Ret (trie_Hash st, db')
    ∧ represents db' (trie_Hash st) (bal st) ∧ extends db db'.
Proof.
  intros Hf Hst. unfold commit_trie. destruct (trie_Commit st) as [h ns] eqn:E.
  destruct (commit_reopen db rt st h ns Hf E) as [-> Hns]. destruct ns as [n|].
  - destruct Hns as (db1 & db2 & -> & E2 & (t' & Ht' & Hsame) & Hold). simpl. rewrite E2. simpl.
    exists db2. split; [done|]. split.
    + exists t'. rewrite BytesToHash_root. split; [done|]. apply same_content_bal; [|done].
      intros k. symmetry. apply Hsame.
    + intros rt0 l (t & Ht & Hwf & Hl). destruct (Hold _ _ Ht) as (t1 & Ht1 & Hs1).
      exists t1. split; [done|]. destruct (same_content_bal t t1) as [? Hb];
        [intros k; symmetry; apply Hs1|done|]. split; [done|]. by rewrite Hb.
  - destruct Hns as (_ & t' & Ht' & Hsame). exists db. split; [done|]. split; [|by intros ???].
    exists t'. rewrite BytesToHash_root. split; [done|]. apply same_content_bal; [|done].
    intros k. symmetry. apply Hsame.
Qed.

(** The root returned and the database left by [GetUpdateStatusTrie]. *)
Lemma status_trie_ok bc l txs :
  has_ledger bc l → routable bc txs →
  ∃ rt db', GetUpdateStatusTrie txs bc = Ret (rt, bc <| bc_triedb := db' |>)
    ∧ represents db' rt (exec_txs (here bc) l txs) ∧ extends (bc_triedb bc) db'.
Proof.
  intros (t & Ht & Hwf & Hl) Hr. unfold GetUpdateStatusTrie.
  assert (∀ l', bal t ≡ l' →
    represents (bc_triedb bc) (BytesToHash (state_root bc)) l') as Hsame.
  { intros l' Hl'. exists t. by rewrite BytesToHash_idem. }
  assert (∀ rt : bytes, Ret (rt, bc) = Ret (rt, bc <| bc_triedb := bc_triedb bc |>)) as Hid
    by (by destruct bc).
  destruct (len txs =? 0) eqn:E0.
  { z_bool. destruct txs; [|unfold len in *; simpl in *; lia]. rewrite Hid. eexists _, _.
    split; [done|]. split; [by apply Hsame|by intros ???]. }
  rewrite Ht. simpl.
  destruct (handle_txs_ok (bc_triedb bc) (BytesToHash (state_root bc)) bc 0 txs t 0 Hwf Hr) as (st & cnt & -> & Hls). simpl.
  assert (bal st ≡ exec_txs (here bc) l txs) as Hb.
  { rewrite (ls_bal _ _ _ _ _ _ _ Hls). by rewrite Hl. }
  destruct (cnt =? 0) eqn:Ec.
  { z_bool. subst cnt. rewrite Hid. eexists _, _. split; [done|]. split; [|by intros ???].
    apply Hsame. rewrite <- Hb. by rewrite (ls_same _ _ _ _ _ _ _ Hls). }
  destruct (commit_trie_ok (bc_triedb bc) (BytesToHash (state_root bc)) st) as (db' & -> & (t' & Ht' & Hwf' & Hb') & Hext).
  { apply (ls_from _ _ _ _ _ _ _ Hls). by econstructor. }
  { apply Hls. }
  simpl. eexists _, _. split; [done|]. split; [|done]. exists t'. split; [done|].
  split; [done|]. by rewrite Hb'.
Qed.

End refine.

(** ** Cross-shard accounting *)

(** The copy [HandleinCommit] sends to the recipient's shard. *)
Definition relayed (tx : Transaction) : Transaction := tx <| tx_Relayed := true |>.

(** [tx] leaves the shard [h1] for the shard [h2]. *)
Record crossing (h1 h2 : Address → bool) (tx : Transaction) : Prop := {
  cr_fresh : tx_Relayed tx = false;
  cr_plain : tx_HasBroker tx = false;
  cr_sender : h1 (tx_Sender tx) = true;
  cr_not_recipient : h1 (tx_Recipient tx) = false;
  cr_recipient : h2 (tx_Recipient tx) = true
}.

Lemma source_total h1 h2 A l txs :
  NoDup A → (∀ tx, tx ∈ txs → crossing h1 h2 tx ∧ tx_Sender tx ∈ A ∧ tx_Recipient tx ∉ A) →
  total A (exec_txs h1 l txs)
  = total A l - sumZ (tx_Value <$> txs) + sumZ (tx_Value <$> rejects h1 l txs).
Proof.
  intros HA. revert l. induction txs as [|tx txs IH]; intros l Htx; csimpl; [lia|].
  rewrite IH by (intros; apply Htx; by right). rewrite fmap_app, sumZ_app.
  destruct (Htx tx) as ([Hf Hp Hs Hnr _] & Hin & _); [by left|].
  unfold exec_tx, rejected, debits, credits. rewrite Hf, Hp, Hs, Hnr. simpl.
  destruct (l (tx_Sender tx) <? tx_Value tx); csimpl; [lia|].
  rewrite total_credit by done. lia.
Qed.

Lemma dest_total h1 h2 A l txs :
  NoDup A → (∀ tx, tx ∈ txs → crossing h1 h2 tx ∧ tx_Recipient tx ∈ A) →
  total A (exec_txs h2 l (relayed <$> txs)) = total A l + sumZ (tx_Value <$> txs).
Proof.
  intros HA. revert l. induction txs as [|tx txs IH]; intros l Htx; csimpl; [lia|].
  rewrite IH by (intros; apply Htx; by right).
  destruct (Htx tx) as ([_ Hp _ _ Hr] & Hin); [by left|].
  unfold exec_tx, rejected, debits, credits, relayed. simpl. rewrite Hp, Hr. simpl.
  rewrite total_credit by done. lia.
Qed.

Module LedgerProps.
Section props.
Context {PA : Params} {EX : External} {EXO : ExternalOk}.

(** C2. Refinement: on a chain whose current root opens to the ledger [l],
    [GetUpdateStatusTrie] never panics on addresses that have a shard; reopening
    the root it returns gives exactly [exec_txs] of [l] (transactions in order, the
    underfunded ones skipped, new accounts at [Init_Balance]); every older root
    stays readable and nothing but the trie database changes. *)
Theorem GetUpdateStatusTrie_refines (bc : BlockChain) (l : ledger) (txs : list Transaction) :
  has_ledger bc l → routable bc txs →
  ∃ rt db', GetUpdateStatusTrie txs bc = Ret (rt, bc <| bc_triedb := db' |>)
    ∧ represents db' rt (exec_txs (here bc) l txs)
    ∧ (∀ rt0 l0, represents (bc_triedb bc) rt0 l0 → represents db' rt0 l0).
Proof. apply status_trie_ok. Qed.

(** C31. Money inside a shard: executing a block of non-relayed transactions between
    accounts of the shard keeps the sum over any list of accounts containing them,
    and no account goes below zero if none was and no value is negative. *)
Theorem block_conserves_and_never_overdraws
    (bc : BlockChain) (l : ledger) (txs : list Transaction) (A : list Address) :
  has_ledger bc l → routable bc txs → NoDup A → (∀ a, 0 ≤ l a) →
  (∀ tx, tx ∈ txs → 0 ≤ tx_Value tx ∧ tx_Relayed tx = false
     ∧ tx_Sender tx ∈ A ∧ tx_Recipient tx ∈ A
     ∧ here bc (tx_Sender tx) = true ∧ here bc (tx_Recipient tx) = true) →
  ∃ rt bc' l', GetUpdateStatusTrie txs bc = Ret (rt, bc')
    ∧ represents (bc_triedb bc') rt l' ∧ total A l' = total A l ∧ ∀ a, 0 ≤ l' a.
Proof.
  intros Hl Hr HA Hnn Htx. destruct (status_trie_ok bc l txs Hl Hr) as (rt & db' & -> & Hrep & _).
  eexists _, _, _. split; [done|]. split; [exact Hrep|]. split.
  - apply exec_txs_conserved; [done|]. intros tx Hin.
    destruct (Htx tx Hin) as (_ & Hrel & Hs & Hd & Hhs & Hhd).
    unfold debits, credits. by rewrite Hrel, Hhs, Hhd.
  - apply exec_txs_nonneg; [|done]. intros tx Hin. by apply Htx.
Qed.

(** Money between shards: when a block of cross-shard transactions runs at the
    source and the relayed copies of all of them run at the destination, the
    combined balances grow by exactly the values of the transactions the source
    skipped as underfunded; they are conserved iff nothing of value was skipped. *)
Theorem relay_mints_the_rejected
    (src dst : BlockChain) (l1 l2 : ledger) (txs : list Transaction) (A1 A2 : list Address) :
  has_ledger src l1 → has_ledger dst l2 → routable src txs → routable dst txs →
  NoDup A1 → NoDup A2 →
  (∀ tx, tx ∈ txs → crossing (here src) (here dst) tx
     ∧ tx_Sender tx ∈ A1 ∧ (tx_Recipient tx ∉ A1) ∧ tx_Recipient tx ∈ A2) →
  ∃ rt1 src' rt2 dst' l1' l2',
    GetUpdateStatusTrie txs src = Ret (rt1, src')
    ∧ GetUpdateStatusTrie (relayed <$> txs) dst = Ret (rt2, dst')
    ∧ represents (bc_triedb src') rt1 l1' ∧ represents (bc_triedb dst') rt2 l2'
    ∧ total A1 l1' + total A2 l2'
      = total A1 l1 + total A2 l2 + sumZ (tx_Value <$> rejects (here src) l1 txs).
Proof.
  intros Hl1 Hl2 Hr1 Hr2 HA1 HA2 Htx.
  destruct (status_trie_ok src l1 txs Hl1 Hr1) as (rt1 & db1 & -> & Hrep1 & _).
  destruct (status_trie_ok dst l2 (relayed <$> txs) Hl2) as (rt2 & db2 & -> & Hrep2 & _).
  { intros tx' (tx & -> & Hin)%list_elem_of_fmap. apply (Hr2 tx Hin). }
  eexists _, _, _, _, _, _. split; [done|]. split; [done|].
  split; [exact Hrep1|]. split; [exact Hrep2|].
  rewrite (source_total (here src) (here dst)); [|done|by intros tx Hin; destruct (Htx tx Hin) as (? & ? & ? & ?)].
  rewrite (dest_total (here src) (here dst)); [|done|by intros tx Hin; destruct (Htx tx Hin) as (? & ? & ? & ?)]. lia.
Qed.

End props.

#[local] Existing Instances RefExternal.ext RefExternal.ext_ok.
#[local] Existing Instance params4.

(** Chains of the shards 0 and 1: accounts ["a0"], ["b0"] and ["b1"]. *)
Definition cc (shard : Z) : ChainConfig := mkChainConfig shard 0 shard 4 2 100 5000 2000.
Definition empty_chain (shard : Z) : BlockChain :=
  let gb := mkBlock (mkBH "" (trie_Hash trie_NewEmpty) "" "" 0 0 0) [] "g" in
  mkBlockChain _ [] (cc shard) gb StorageProps.empty_store NewTxPool ∅.
Definition pay (s r : Address) (v : Z) : Transaction := mkTx s r 0 "" v s 7 false false false "" "" None.

Lemma empty_chain_ledger shard : has_ledger (empty_chain shard) (λ _, Init_Balance).
Proof. exists (∅ : gmap string string). split; [reflexivity|]. split; [by intros a e|done]. Qed.

Lemma GetUpdateStatusTrie_refines_witness :
  ∃ rt db', GetUpdateStatusTrie [pay "a0" "b0" 5; pay "a0" "b1" 7] (empty_chain 0)
            = Ret (rt, (empty_chain 0) <| bc_triedb := db' |>)
    ∧ represents db' rt (exec_txs (here (empty_chain 0)) (λ _, Init_Balance)
                           [pay "a0" "b0" 5; pay "a0" "b1" 7])
    ∧ (∀ rt0 l0, represents (bc_triedb (empty_chain 0)) rt0 l0 → represents db' rt0 l0).
Proof.
  apply (GetUpdateStatusTrie_refines (empty_chain 0) (λ _, Init_Balance)).
  - apply empty_chain_ledger.
  - each_elem; split; eexists; vm_compute; reflexivity.
Defined.

Lemma block_conserves_and_never_overdraws_witness :
  ∃ rt bc' l', GetUpdateStatusTrie [pay "a0" "b0" 5; pay "b0" "a0" 7] (empty_chain 0) = Ret (rt, bc')
    ∧ represents (bc_triedb bc') rt l'
    ∧ total ["a0"; "b0"]%string l' = total ["a0"; "b0"]%string (λ _, Init_Balance) ∧ ∀ a, 0 ≤ l' a.
Proof.
  apply (block_conserves_and_never_overdraws (empty_chain 0)).
  - apply empty_chain_ledger.
  - each_elem; split; eexists; vm_compute; reflexivity.
  - by_compute.
  - intros _. vm_compute. discriminate.
  - each_elem; (split; [vm_compute; discriminate|]); by_compute.
Defined.

(** The second payment is underfunded and its value is minted. *)
Lemma relay_mints_the_rejected_witness :
  let txs := [pay "a0" "b1" 5; pay "a0" "b1" (2 * Init_Balance)] in
  let minted := sumZ (tx_Value <$> rejects (here (empty_chain 0)) (λ _, Init_Balance) txs) in
  minted = 2 * Init_Balance ∧ ∃ rt1 src' rt2 dst' l1' l2',
    GetUpdateStatusTrie txs (empty_chain 0) = Ret (rt1, src')
    ∧ GetUpdateStatusTrie (relayed <$> txs) (empty_chain 1) = Ret (rt2, dst')
    ∧ represents (bc_triedb src') rt1 l1' ∧ represents (bc_triedb dst') rt2 l2'
    ∧ total ["a0"%string] l1' + total ["b1"%string] l2'
      = total ["a0"%string] (λ _, Init_Balance) + total ["b1"%string] (λ _, Init_Balance)
        + minted.
Proof.
  split; [reflexivity|].
  apply (relay_mints_the_rejected (empty_chain 0) (empty_chain 1)).
  - apply empty_chain_ledger.
  - apply empty_chain_ledger.
  - each_elem; split; eexists; vm_compute; reflexivity.
  - each_elem; split; eexists; vm_compute; reflexivity.
  - by_compute.
  - by_compute.
  - each_elem; (split; [split; reflexivity|]); by_compute.
Defined.

End LedgerProps.
