(* ===== verification/ChainLemmas.v ===== *)
(** * Lemmas about the blockchain

    Content congruence of the trie loop, totality of block generation, what
    [AddBlock] does on every branch, the SZHBFT sorting loop. *)

From S2P Require Import Prelude Params Core Message External Storage Chain Ledger.

Section lemmas.
Context {PA : Params} {EX : External} {EXO : ExternalOk}.

(** ** The loop depends on the content of the trie only *)

Lemma same_content_update t u a (s : AccountState) :
  same_content t u → same_content (trie_Update t a (enc s)) (trie_Update u a (enc s)).
Proof.
  intros Htu k. destruct (decide (a = k)) as [->|].
  - by rewrite !get_update_eq by apply ok_gob_as_nonempty.
  - by rewrite !get_update_ne.
Qed.

Lemma load_account_same t u i a : same_content t u → load_account t i a = load_account u i a.
Proof. intros Htu. unfold load_account. by rewrite Htu. Qed.

(** Two chains that assign the same accounts to the same shard. *)
Record same_view (bc1 bc2 : BlockChain) : Prop := {
  sv_map : bc_PartitionMap bc1 = bc_PartitionMap bc2;
  sv_shard : bc_ShardID bc1 = bc_ShardID bc2
}.

Lemma same_view_partition bc1 bc2 a :
  same_view bc1 bc2 → Get_PartitionMap bc1 a = Get_PartitionMap bc2 a.
Proof. intros [Hm _]. unfold Get_PartitionMap. by rewrite Hm. Qed.

Lemma same_view_here bc1 bc2 a : same_view bc1 bc2 → here bc1 a = here bc2 a.
Proof.
  intros Hv. unfold here. rewrite (same_view_partition bc1 bc2 a Hv).
  by rewrite (sv_shard _ _ Hv).
Qed.

Lemma handle_tx_same bc1 bc2 i t u cnt tx t' cnt' :
  same_view bc1 bc2 → same_content t u →
  handle_tx bc1 i (t, cnt) tx = Ret (t', cnt') →
  ∃ u', handle_tx bc2 i (u, cnt) tx = Ret (u', cnt') ∧ same_content t' u'.
Proof.
  intros Hv Htu. unfold handle_tx, debit_sender, credit_recipient; simpl.
  rewrite !(same_view_partition bc1 bc2) by done. rewrite (sv_shard _ _ Hv).
  rewrite (load_account_same t u) by done.
  intros (d & Hd & Hc)%bind_Ret. apply bind_Ret in Hd as (b & -> & Hd). simpl.
  assert (∀ t1 u1 c1 t2 c2,
    same_content t1 u1 →
    (r ← Get_PartitionMap bc2 (tx_Recipient tx);
     if (r =? bc_ShardID bc2) || tx_HasBroker tx then
       r_state ← load_account t1 i (tx_Recipient tx);
       Ret (trie_Update t1 (tx_Recipient tx) (enc (Deposit r_state (tx_Value tx))), c1 + 1)
     else Ret (t1, c1)) = Ret (t2, c2) →
    ∃ u2, (r ← Get_PartitionMap bc2 (tx_Recipient tx);
     if (r =? bc_ShardID bc2) || tx_HasBroker tx then
       r_state ← load_account u1 i (tx_Recipient tx);
       Ret (trie_Update u1 (tx_Recipient tx) (enc (Deposit r_state (tx_Value tx))), c1 + 1)
     else Ret (u1, c1)) = Ret (u2, c2) ∧ same_content t2 u2) as Hcredit.
  { intros t1 u1 c1 t2 c2 H1 (r & -> & Hr)%bind_Ret. simpl. case_match.
    - rewrite <- (load_account_same t1 u1) by done.
      apply bind_Ret in Hr as (s & -> & [= <- <-]). simpl. eexists. split; [done|].
      by apply same_content_update.
    - injection Hr as <- <-. by eexists. }
  destruct b.
  - apply bind_Ret in Hd as (s & -> & Hd). simpl.
    destruct (as_Balance s <? tx_Value tx).
    + injection Hd as <-. injection Hc as <- <-. by eexists.
    + destruct (Deduct s (tx_Value tx)) as [ok s']. injection Hd as <-.
      eapply Hcredit; [|exact Hc]. by apply same_content_update.
  - injection Hd as <-. by eapply Hcredit.
Qed.

Lemma handle_txs_same bc1 bc2 i t u cnt txs t' cnt' :
  same_view bc1 bc2 → same_content t u →
  go_ifold (handle_tx bc1) i (t, cnt) txs = Ret (t', cnt') →
  ∃ u', go_ifold (handle_tx bc2) i (u, cnt) txs = Ret (u', cnt') ∧ same_content t' u'.
Proof.
  intros Hv. revert i t u cnt. induction txs as [|tx txs IH]; intros i t u cnt Htu; simpl.
  { intros [= <- <-]. by eexists. }
  intros ([t1 c1] & H1 & H2)%bind_Ret.
  destruct (handle_tx_same bc1 bc2 i t u cnt tx t1 c1 Hv Htu H1) as (u1 & -> & Hs). simpl. eauto.
Qed.

(** ** Block generation *)

Lemma GetBloomFilter_returns txs : ∃ bs, GetBloomFilter txs = Ret bs.
Proof.
  destruct (go_fold_total (λ _, True)
    (λ bs tx, i ← ModBytes (tx_TxHash tx) 2048; Ret (bs_Set bs i)) (bs_New 2048) txs) as (bs & E & _);
    [|done|by exists bs].
  intros bs tx _ _. destruct (ModBytes_bound (tx_TxHash tx) 2048) as (i & -> & _); [lia|].
  by eexists.
Qed.

(** The header of the block that [next_header] builds on top of [bc]. *)
Record extends_chain (bc : BlockChain) (rt : bytes) (txs : list Transaction) (b : Block) : Prop := {
  ec_parent : bh_ParentBlockHash (b_Header b) = b_Hash (bc_CurrentBlock bc);
  ec_number : bh_Number (b_Header b) = u64 (bh_Number (b_Header (bc_CurrentBlock bc)) + 1);
  ec_root : bh_StateRoot (b_Header b) = rt;
  ec_txroot : bh_TxRoot (b_Header b) = GetTxTreeRoot txs;
  ec_bloom : GetBloomFilter txs = Ret (bh_Bloom (b_Header b));
  ec_body : b_Body b = txs;
  ec_hash : b_Hash b = BH_Hash (b_Header b)
}.

Lemma next_header_ok bc now rt txs miner :
  ∃ bh, next_header bc now rt txs miner = Ret bh
    ∧ extends_chain bc rt txs (hashed (NewBlock bh txs)).
Proof.
  unfold next_header. destruct (GetBloomFilter_returns txs) as [bs Hbs]. rewrite Hbs.
  eexists. split; [done|]. by split.
Qed.

(** The transactions [GenerateBlock] packs and the pool it leaves. *)
Definition pack (bc : BlockChain) : go (list Transaction * TxPool) :=
  if UseBlocksizeInBytes =? 1 then PackTxsWithBytes BlocksizeInBytes (bc_Txpool bc)
  else PackTxs (BlockSize (bc_ChainConfig bc)) (bc_Txpool bc).

Lemma pack_ok bc : pool_locked (bc_Txpool bc) = false →
  ∃ txs pool', pack bc = Ret (txs, pool')
    ∧ txs ++ TxQueue pool' = TxQueue (bc_Txpool bc)
    ∧ RelayPool pool' = RelayPool (bc_Txpool bc) ∧ pool_locked pool' = false.
Proof.
  intros Hl. unfold pack, PackTxsWithBytes, PackTxs, with_pool_lock. rewrite Hl.
  destruct (UseBlocksizeInBytes =? 1); eexists _, _; (split; [done|]); simpl;
    (split; [apply take_drop|done]).
Qed.

Lemma routable_sub bc txs txs' :
  (∀ tx, tx ∈ txs' → tx ∈ txs) → routable bc txs → routable bc txs'.
Proof. intros Hsub Hr tx Hin. by apply Hr, Hsub. Qed.

Lemma GenerateBlock_ok bc now miner l :
  has_ledger bc l → pool_locked (bc_Txpool bc) = false → routable bc (TxQueue (bc_Txpool bc)) →
  ∃ b pool' db', GenerateBlock now miner bc
      = Ret (b, bc <| bc_Txpool := pool' |> <| bc_triedb := db' |>)
    ∧ b_Body b ++ TxQueue pool' = TxQueue (bc_Txpool bc)
    ∧ RelayPool pool' = RelayPool (bc_Txpool bc) ∧ pool_locked pool' = false
    ∧ extends_chain bc (bh_StateRoot (b_Header b)) (b_Body b) b
    ∧ represents db' (bh_StateRoot (b_Header b)) (exec_txs (here bc) l (b_Body b))
    ∧ extends (bc_triedb bc) db'
    ∧ ∃ txs, GetUpdateStatusTrie txs (bc <| bc_Txpool := pool' |>)
             = Ret (bh_StateRoot (b_Header b), bc <| bc_Txpool := pool' |> <| bc_triedb := db' |>)
             ∧ b_Body b = txs.
Proof.
  intros Hl Hk Hr. unfold GenerateBlock. fold (pack bc).
  destruct (pack_ok bc Hk) as (txs & pool' & -> & Happ & Hrp & Hlk). simpl.
  set (bc1 := bc <| bc_Txpool := pool' |>).
  destruct (status_trie_ok bc1 l txs) as (rt & db' & E & Hrep & Hext); [done| |].
  { intros tx Hin. apply (Hr tx). rewrite <- Happ. apply elem_of_app. by left. }
  rewrite E. simpl.
  destruct (next_header_ok (bc1 <| bc_triedb := db' |>) now rt txs miner) as (bh & -> & Hec). simpl.
  destruct Hec as [Hpar Hnum Hroot Htx Hbl _ Hhash]. simpl in *.
  eexists _, pool', db'. split; [done|]. simpl. rewrite Hroot. split_and!; try done.
  exists txs. done.
Qed.

(** ** [AddBlock] *)

Lemma AddBlock_unfit bc b : ¬ fits bc b → AddBlock b bc = Ret bc.
Proof.
  intros Hf. unfold AddBlock. destruct (_ =? _) eqn:E; simpl; [|done]. z_bool.
  destruct (String.eqb_spec (bh_ParentBlockHash (b_Header b)) (b_Hash (bc_CurrentBlock bc))); [|done].
  by destruct Hf.
Qed.

(** The trie work of an accepted block. *)
Definition sync_trie (b : Block) (bc : BlockChain) : go BlockChain :=
  match trie_New (BytesToHash (bh_StateRoot (b_Header b))) (bc_triedb bc) with
  | Some _ => Ret bc
  | None => '(_, bc) ← GetUpdateStatusTrie (b_Body b) bc; Ret bc
  end.

Lemma AddBlock_fit bc b :
  fits bc b →
  AddBlock b bc = bc ← sync_trie b bc; s ← Storage.AddBlock b (bc_Storage bc);
                  Ret (bc <| bc_CurrentBlock := b |> <| bc_Storage := s |>).
Proof. intros [Hn Hp]. unfold AddBlock. by rewrite Hn, Z.eqb_refl, Hp, String.eqb_refl. Qed.

Lemma sync_trie_ok b bc l :
  has_ledger bc l → routable bc (b_Body b) →
  ∃ db', sync_trie b bc = Ret (bc <| bc_triedb := db' |>) ∧ extends (bc_triedb bc) db'.
Proof.
  intros Hl Hr. unfold sync_trie.
  destruct (trie_New (BytesToHash (bh_StateRoot (b_Header b))) (bc_triedb bc)).
  { exists (bc_triedb bc). split; [by destruct bc|by intros ???]. }
  destruct (status_trie_ok bc l (b_Body b) Hl Hr) as (rt & db' & -> & _ & Hext). by exists db'.
Qed.

(** What [AddBlock] leaves when it accepts [b]. *)
Record added (bc : BlockChain) (b : Block) (bc' : BlockChain) : Prop := {
  ad_current : bc_CurrentBlock bc' = b;
  ad_config : bc_ChainConfig bc' = bc_ChainConfig bc;
  ad_pool : bc_Txpool bc' = bc_Txpool bc;
  ad_map : bc_PartitionMap bc' = bc_PartitionMap bc;
  ad_extends : extends (bc_triedb bc) (bc_triedb bc');
  ad_top : top_is (bc_Storage bc') b;
  ad_old : ∀ h, h ≠ b_Hash b → GetBlock h (bc_Storage bc') = GetBlock h (bc_Storage bc)
}.

Lemma AddBlock_synced bc b db' :
  fits bc b → storable b → sync_trie b bc = Ret (bc <| bc_triedb := db' |>) →
  extends (bc_triedb bc) db' →
  ∃ bc', AddBlock b bc = Ret bc' ∧ added bc b bc' ∧ bc_triedb bc' = db'.
Proof.
  intros Hf Hst Hs Hext. rewrite AddBlock_fit, Hs by done. simpl.
  destruct (AddBlock_top (bc_Storage bc) b Hst) as (s' & -> & Htop & Hold). simpl.
  eexists. split; [done|]. split; [|done]. split; try done. intros h Hne. by apply Hold.
Qed.

(** ** The root computed by leader and replica *)

Lemma exec_txs_ext h1 h2 l txs : (∀ a, h1 a = h2 a) → exec_txs h1 l txs = exec_txs h2 l txs.
Proof.
  intros Hh. revert l. induction txs as [|tx txs IH]; intros l; simpl; [done|]. rewrite IH. f_equal.
  unfold exec_tx, rejected, debits, credits. by rewrite !Hh.
Qed.

Lemma status_trie_root bc l txs rt bc' :
  has_ledger bc l → routable bc txs → GetUpdateStatusTrie txs bc = Ret (rt, bc') →
  ∃ t st cnt, trie_New (BytesToHash (state_root bc)) (bc_triedb bc) = Some t
    ∧ go_ifold (handle_tx bc) 0 (t, 0) txs = Ret (st, cnt)
    ∧ rt = if cnt =? 0 then BytesToHash (state_root bc) else trie_Hash st.
Proof.
  intros (t & Ht & Hwf & Hl) Hr. unfold GetUpdateStatusTrie.
  destruct (handle_txs_ok (bc_triedb bc) (BytesToHash (state_root bc)) bc 0 txs t 0 Hwf Hr) as (st & cnt & E & Hls).
  rewrite Ht. simpl. rewrite E. simpl. intros Hg. exists t, st, cnt. split; [done|]. split; [done|].
  destruct (len txs =? 0) eqn:E0.
  { z_bool. destruct txs; [|unfold len in *; simpl in *; lia]. injection E as <- <-.
    by injection Hg as <- _. }
  destruct (cnt =? 0); [by injection Hg as <- _|].
  destruct (commit_trie_ok (bc_triedb bc) (BytesToHash (state_root bc)) st) as (db' & Ec & _).
  { apply (ls_from _ _ _ _ _ _ _ Hls). by econstructor. }
  { apply Hls. }
  rewrite Ec in Hg. by injection Hg as <- _.
Qed.

(** On the same block, two chains with the same view compute the same root. *)
Lemma status_root_same bc1 bc2 l1 l2 txs rt1 rt2 bc1' bc2' :
  roots_collision_free → same_view bc1 bc2 → state_root bc1 = state_root bc2 →
  has_ledger bc1 l1 → has_ledger bc2 l2 → routable bc1 txs →
  GetUpdateStatusTrie txs bc1 = Ret (rt1, bc1') →
  GetUpdateStatusTrie txs bc2 = Ret (rt2, bc2') → rt1 = rt2.
Proof.
  intros Hcf Hv Hroot Hl1 Hl2 Hr G1 G2.
  assert (routable bc2 txs) as Hr2.
  { intros tx Hin. rewrite <- !(same_view_partition bc1 bc2) by done. by apply Hr. }
  destruct (status_trie_root _ _ _ _ _ Hl1 Hr G1) as (t1 & st1 & c1 & T1 & E1 & ->).
  destruct (status_trie_root _ _ _ _ _ Hl2 Hr2 G2) as (t2 & st2 & c2 & T2 & E2 & ->).
  assert (same_content t1 t2) as Hsame.
  { apply Hcf. by rewrite (open_root _ _ _ T1), (open_root _ _ _ T2), Hroot. }
  destruct (handle_txs_same bc1 bc2 0 t1 t2 0 txs st1 c1 Hv Hsame E1) as (st2' & E2' & Hst).
  rewrite E2 in E2'. injection E2' as <- <-. rewrite Hroot. by rewrite (hash_content st1 st2).
Qed.

(** ** The SZHBFT sorting loop *)

Definition is_local (bc : BlockChain) (tx : Transaction) : bool :=
  here bc (tx_Sender tx) && here bc (tx_Recipient tx).
Definition locals (bc : BlockChain) (q : list Transaction) := filter (λ tx, is_local bc tx = true) q.
Definition globals (bc : BlockChain) (q : list Transaction) := filter (λ tx, is_local bc tx = false) q.

Lemma locals_cons bc tx q :
  locals bc (tx :: q) = (if is_local bc tx then [tx] else []) ++ locals bc q.
Proof. unfold locals. rewrite filter_cons. by destruct (is_local bc tx). Qed.
Lemma globals_cons bc tx q :
  globals bc (tx :: q) = (if is_local bc tx then [] else [tx]) ++ globals bc q.
Proof. unfold globals. rewrite filter_cons. by destruct (is_local bc tx). Qed.

Lemma sort_full bc l g r q :
  BlockSize (bc_ChainConfig bc) ≤ len l + len g →
  go_fold (sort_tx bc) (l, g, r) q = Ret (l, g, r ++ q).
Proof.
  intros Hfull. revert r. induction q as [|tx q IH]; intros r; simpl.
  { by rewrite (right_id_L [] (++)). }
  rewrite (proj2 (Z.leb_le _ _)) by done. simpl. rewrite IH. by rewrite <- (assoc_L (++)).
Qed.

Lemma sort_ok bc l g q :
  routable bc q →
  let k := Z.to_nat (BlockSize (bc_ChainConfig bc) - (len l + len g)) in
  go_fold (sort_tx bc) (l, g, []) q
  = Ret (l ++ locals bc (take k q), g ++ globals bc (take k q), drop k q).
Proof.
  revert l g. induction q as [|tx q IH]; intros l g Hr k; simpl.
  { unfold locals, globals. by rewrite take_nil, drop_nil, !filter_nil, !(right_id_L [] (++)). }
  destruct (_ <=? _) eqn:E; z_bool.
  - simpl. rewrite sort_full by done. assert (k = 0%nat) as -> by lia.
    unfold locals, globals. simpl. by rewrite !filter_nil, !(right_id_L [] (++)).
  - destruct (Hr tx) as [Hs Hd]; [by left|].
    destruct (here_Ret _ _ Hs) as (s & -> & Es), (here_Ret _ _ Hd) as (d & -> & Ed). simpl.
    rewrite Es, Ed. fold (is_local bc tx).
    assert (k = S (Z.to_nat (BlockSize (bc_ChainConfig bc) - (len l + len g + 1)))) as -> by lia.
    assert (routable bc q) as Hrq by (intros ??; apply Hr; by right). simpl.
    rewrite locals_cons, globals_cons.
    assert (len (l ++ [tx]) + len g = len l + len g + 1
            ∧ len l + len (g ++ [tx]) = len l + len g + 1) as [L1 L2]
      by (rewrite !len_app, !len_cons, !len_nil; lia).
    destruct (is_local bc tx); simpl; rewrite IH, ?L1, ?L2 by done;
      by rewrite <- (assoc_L (++)).
Qed.

Lemma IsValidBlock_ok bc b :
  bh_ParentBlockHash (b_Header b) = b_Hash (bc_CurrentBlock bc) →
  bh_TxRoot (b_Header b) = GetTxTreeRoot (b_Body b) → IsValidBlock bc b = true.
Proof. intros Hp Ht. unfold IsValidBlock. by rewrite Hp, Ht, !String.eqb_refl. Qed.

(** One of the two SZHBFT blocks: built from [txs] with the root [rt], or absent. *)
Definition sz_block (bc : BlockChain) (txs : list Transaction) (o : option Block) : Prop :=
  match o with
  | None => txs = []
  | Some b => txs ≠ [] ∧ extends_chain bc (bh_StateRoot (b_Header b)) txs b
  end.

Lemma sz_block_view bc bc' txs o :
  bc_CurrentBlock bc' = bc_CurrentBlock bc → sz_block bc' txs o → sz_block bc txs o.
Proof. intros Hc. destruct o as [b|]; [|done]. intros [? [??????]]. split; [done|]. split; congruence. Qed.

Lemma len_pos {A} (l : list A) : (0 <? len l) = match l with [] => false | _ => true end.
Proof. destruct l; [done|]. rewrite len_cons. pose proof (len_nonneg l). apply Z.ltb_lt. lia. Qed.

Lemma sz_global_ok bc now miner txs l :
  has_ledger bc l → routable bc txs →
  ∃ o db', (if 0 <? len txs then
       '(rt, bc) ← GetUpdateStatusTrie txs bc;
       bh ← next_header bc now rt txs miner;
       Ret (Some (hashed (NewBlock bh txs)), bc)
     else Ret (None, bc)) = Ret (o, bc <| bc_triedb := db' |>)
    ∧ sz_block bc txs o ∧ extends (bc_triedb bc) db'
    ∧ (∀ b, o = Some b → represents db' (bh_StateRoot (b_Header b)) (exec_txs (here bc) l txs)).
Proof.
  intros Hl Hr. rewrite len_pos. destruct txs as [|tx txs].
  { exists None, (bc_triedb bc). split; [by destruct bc|]. split; [done|]. split; [by intros ???|done]. }
  destruct (status_trie_ok bc l (tx :: txs) Hl Hr) as (rt & db' & -> & Hrep & Hext). go_step.
  destruct (next_header_ok (bc <| bc_triedb := db' |>) now rt (tx :: txs) miner) as (bh & -> & Hec).
  go_step. eexists _, db'. split; [done|]. destruct Hec as [? ? Hroot ? ? ? ?].
  split; [split; [done|]; by split|]. split; [done|]. intros b [= <-]. by rewrite Hroot.
Qed.

Lemma sz_local_ok bc now miner txs rt :
  ∃ o, (if 0 <? len txs then
       bh ← next_header bc now rt txs miner;
       Ret (Some (hashed (NewBlock bh txs)))
     else Ret None) = Ret o ∧ sz_block bc txs o ∧ (∀ b, o = Some b → bh_StateRoot (b_Header b) = rt).
Proof.
  rewrite len_pos. destruct txs as [|tx txs]; [by exists None|].
  destruct (next_header_ok bc now rt (tx :: txs) miner) as (bh & -> & Hec). go_step.
  eexists. split; [done|]. destruct Hec as [? ? Hroot ? ? ? ?].
  split; [split; [done|]; by split|]. intros b [= <-]. done.
Qed.

Lemma u64_succ_ne n : u64 (u64 n + 1) ≠ u64 n.
Proof.
  unfold u64. rewrite Z.add_mod_idemp_l by lia. intros E.
  assert ((1 : Z) `mod` 2 ^ 64 = 0) as H1; [|by vm_compute in H1].
  replace 1 with ((n + 1) - n) by lia. rewrite Zminus_mod, E, Z.sub_diag. done.
Qed.

(** Two blocks built on the same chain exclude each other. *)
Lemma fits_exclusive bc bc' b1 b2 :
  fits bc b1 → fits bc b2 → bc_CurrentBlock bc' = b1 → ¬ fits bc' b2.
Proof.
  intros [N1 _] [N2 _] Hc [N2' _]. rewrite Hc, N1, N2 in N2'. by apply (u64_succ_ne _ (eq_sym N2')).
Qed.

(** The two blocks and the chain that [GenerateSZBlock] leaves. *)
Lemma GenerateSZBlock_ok bc l now miner :
  has_ledger bc l → pool_locked (bc_Txpool bc) = false → routable bc (TxQueue (bc_Txpool bc)) →
  let q := TxQueue (bc_Txpool bc) in
  let k := Z.to_nat (BlockSize (bc_ChainConfig bc)) in
  ∃ lb gb db', GenerateSZBlock now miner bc
      = Ret (lb, gb, bc <| bc_Txpool := mkTxPool (drop k q) (RelayPool (bc_Txpool bc)) false |> <| bc_triedb := db' |>)
    ∧ sz_block bc (locals bc (take k q)) lb ∧ sz_block bc (globals bc (take k q)) gb
    ∧ (∀ b, lb = Some b → bh_StateRoot (b_Header b) = state_root bc)
    ∧ (∀ b, gb = Some b → represents db' (bh_StateRoot (b_Header b)) (exec_txs (here bc) l (globals bc (take k q)))).
Proof.
  intros Hl Hk Hr q k. unfold GenerateSZBlock, GetLocked, with_pool_lock. rewrite Hk. go_step.
  pose proof (sort_ok bc [] [] q Hr) as Hsort. cbn zeta in Hsort. cbn [app] in Hsort.
  replace (Z.to_nat (BlockSize (bc_ChainConfig bc) - _)) with k in Hsort
    by (unfold k, len; simpl; lia).
  change (TxQueue ((bc_Txpool bc) <| pool_locked := true |>)) with q.
  rewrite Hsort. go_step. unfold GetUnlocked. cbn [pool_locked set_field]. go_step.
  set (bc1 := bc <| bc_Txpool := _ |>).
  destruct (sz_global_ok bc1 now miner (globals bc (take k q)) l) as (gb & db' & -> & Hg & _ & Hgr).
  { done. }
  { intros tx [_ Hin]%list_elem_of_filter. apply (Hr tx). by apply (subseteq_take k). }
  go_step.
  destruct (sz_local_ok (bc1 <| bc_triedb := db' |>) now miner (locals bc (take k q))
              (state_root (bc1 <| bc_triedb := db' |>))) as (lb & -> & Hlb & Hlr).
  go_step. exists lb, gb, db'. split; [done|].
  split; [by eapply sz_block_view; [|exact Hlb]|]. split; [by eapply sz_block_view; [|exact Hg]|]. done.
Qed.

(** ** Start and restart *)

Lemma NewGenisisBlock_ok : ∃ gb, NewGenisisBlock = Ret gb
  ∧ bh_StateRoot (b_Header gb) = trie_Hash trie_NewEmpty ∧ bh_Number (b_Header gb) = 0
  ∧ b_Body gb = [].
Proof.
  unfold NewGenisisBlock. destruct (GetBloomFilter_returns []) as [bs ->]. by eexists.
Qed.

Lemma empty_root_ledger db : represents db (trie_Hash trie_NewEmpty) (λ _, Init_Balance).
Proof.
  destruct (new_empty db) as (t & Ht & Hs). exists t. rewrite BytesToHash_root. split; [done|].
  destruct (same_content_bal trie_NewEmpty t) as [? Hb].
  { intros k. symmetry. apply Hs. }
  { intros a e. by rewrite get_empty. }
  split; [done|]. rewrite Hb. intros a. unfold bal. by rewrite get_empty.
Qed.

Lemma NewBlockChain_empty cc db s0 :
  GetNewestBlockHash s0 = None → (∀ gb, NewGenisisBlock = Ret gb → storable gb) →
  ∃ g, NewBlockChain cc db s0 = Ret g
    ∧ has_ledger g (λ _, Init_Balance) ∧ bh_Number (b_Header (bc_CurrentBlock g)) = 0.
Proof.
  intros Hs0 Hst. unfold NewBlockChain. rewrite Hs0.
  destruct NewGenisisBlock_ok as (gb & Eg & Hroot & Hn & _). rewrite Eg. simpl.
  unfold AddGenisisBlock. destruct (AddBlock_top s0 gb (Hst gb Eg)) as (s & -> & (Hnew & Hget & _) & _).
  simpl. rewrite Hnew. simpl. rewrite Hget. simpl. eexists. split; [done|]. split; [|done].
  unfold has_ledger, state_root. simpl. rewrite Hroot. apply empty_root_ledger.
Qed.

Lemma NewBlockChain_restart cc bc b l :
  top_is (bc_Storage bc) b → bc_CurrentBlock bc = b → has_ledger bc l →
  ∃ r, NewBlockChain cc (bc_triedb bc) (bc_Storage bc) = Ret r
    ∧ bc_CurrentBlock r = b ∧ has_ledger r l ∧ bc_Txpool r = NewTxPool ∧ bc_PartitionMap r = ∅.
Proof.
  intros (Hnew & Hget & _) Hcur Hl. unfold NewBlockChain. rewrite Hnew, Hget. simpl.
  unfold has_ledger, state_root in *. rewrite Hcur in Hl. destruct Hl as (t & Ht & Hwf).
  rewrite Ht. simpl. eexists. split; [done|]. simpl. split; [done|]. split; [|done]. by exists t.
Qed.

(** ** Account migration *)

(** The state [AddAccounts] writes: address, storage root and code are dropped. *)
Definition copied (s : AccountState) : AccountState :=
  mkAS "" (as_Nonce s) (as_Balance s) "" "".

(** The trie after the loop of [AddAccounts], all addresses being of this shard. *)
Definition install (st : Trie) (acs : list (Address * AccountState)) : Trie :=
  foldl (λ t p, trie_Update t p.1 (enc (copied p.2))) st acs.

Lemma add_accounts_loop bc pre as_ ac st :
  length ac = length as_ →
  (∀ a, a ∈ ac → returns (Get_PartitionMap bc a) ∧ here bc a = true) →
  go_ifold (add_account bc (pre ++ as_)) (len pre) st ac = Ret (install st (zip ac as_)).
Proof.
  revert pre as_ st. induction ac as [|a ac IH]; intros pre [|s as_] st Hlen Hh; try done.
  destruct (Hh a) as [Hr Ha]; [by left|]. destruct (here_Ret _ _ Hr) as (p & Ep & Hp).
  assert (add_account bc (pre ++ s :: as_) (len pre) st a
          = Ret (trie_Update st a (enc (copied s)))) as E1.
  { unfold add_account. rewrite Ep. simpl. rewrite Hp, Ha.
    unfold len. by rewrite Nat2Z.id, list_lookup_middle. }
  simpl. rewrite E1. simpl.
  replace (len pre + 1) with (len (pre ++ [s])) by (rewrite len_app, len_cons, len_nil; lia).
  rewrite (cons_middle s pre as_), (assoc_L (++)).
  apply (IH (pre ++ [s]) as_); [by injection Hlen|]. intros b Hb. apply Hh. by right.
Qed.

Lemma install_wf st acs : wf_trie st → wf_trie (install st acs).
Proof.
  revert st. induction acs as [|p acs IH]; intros st Hst; [done|]. apply IH. by apply wf_update.
Qed.
Lemma install_from db rt st acs : trie_from db rt st → trie_from db rt (install st acs).
Proof.
  revert st. induction acs as [|p acs IH]; intros st Hst; [done|]. apply IH. by constructor.
Qed.
Lemma install_other st acs a : a ∉ acs.*1 → trie_Get (install st acs) a = trie_Get st a.
Proof.
  revert st. induction acs as [|[b s] acs IH]; intros st Ha; [done|]. csimpl in *.
  apply not_elem_of_cons in Ha as [Hne Ha]. rewrite IH by done. by rewrite get_update_ne.
Qed.
Lemma install_in st acs a s :
  NoDup (acs.*1) → (a, s) ∈ acs → trie_Get (install st acs) a = Some (enc (copied s)).
Proof.
  revert st. induction acs as [|[b u] acs IH]; intros st; csimpl; [by intros _ ?%not_elem_of_nil|].
  intros [Hb Hnd]%NoDup_cons [[= -> ->]|Hin]%elem_of_cons; [|by apply IH].
  rewrite install_other by done. apply get_update_eq, ok_gob_as_nonempty.
Qed.

Lemma fetch_loop st acc ac as_ :
  Forall2 (λ a s, load_account st 0 a = Ret s) ac as_ →
  go_fold (λ res addr, a ← load_account st 0 addr; Ret (res ++ [a])) acc ac = Ret (acc ++ as_).
Proof.
  intros Hall. revert acc. induction Hall as [|a s ac as_ Ha _ IH]; intros acc; simpl.
  { by rewrite (right_id_L [] (++)). }
  rewrite Ha. simpl. rewrite IH. by rewrite <- (assoc_L (++)).
Qed.

Lemma load_enc st i a (s : AccountState) :
  trie_Get st a = Some (enc s) → load_account st i a = Ret s.
Proof. intros E. unfold load_account, DecodeAS. by rewrite E, dec_enc. Qed.

Lemma load_installed t st ac as_ :
  same_content t (install st (zip ac as_)) → NoDup ac → length ac = length as_ →
  Forall2 (λ a s, load_account t 0 a = Ret s) ac (copied <$> as_).
Proof.
  intros Ht Hnd Hlen. apply Forall2_fmap_r, Forall2_same_length_lookup_2; [done|].
  intros i a s Ha Hs. apply load_enc. rewrite Ht. apply install_in.
  - by rewrite fst_zip by lia.
  - apply list_elem_of_lookup. exists i. apply lookup_zip_with_Some. by exists a, s.
Qed.

(** The root and database after the trie part of [AddAccounts]. *)
Lemma install_commit bc l ac as_ t :
  trie_New (BytesToHash (state_root bc)) (bc_triedb bc) = Some t → wf_trie t → bal t ≡ l →
  BytesToHash (state_root bc) = state_root bc →
  let st := install t (zip ac as_) in
  ∃ rt db', (let '(rrt, ns) := trie_Commit st in
       match ns with
       | None => Ret (state_root bc, bc)
       | Some n =>
           db ← or_panic "triedb.Update" (triedb_Update (bc_triedb bc) n);
           db ← or_panic "triedb.Commit" (triedb_Commit db rrt);
           Ret (rrt, bc <| bc_triedb := db |>)
       end) = Ret (rt, bc <| bc_triedb := db' |>)
    ∧ BytesToHash rt = rt
    ∧ ∃ t', trie_New rt db' = Some t' ∧ same_content t' st.
Proof.
  intros Ht Hwf Hb Hroot st. destruct (trie_Commit st) as [h ns] eqn:E.
  destruct (commit_reopen (bc_triedb bc) (BytesToHash (state_root bc)) st h ns) as [Hh Hns];
    [by apply install_from; constructor|done|]. destruct ns as [n|].
  - destruct Hns as (db1 & db2 & -> & E2 & Ht' & _). simpl. rewrite E2. simpl.
    eexists _, _. split; [done|]. split; [|done]. by rewrite Hh, BytesToHash_root.
  - destruct Hns as (-> & Ht'). exists (state_root bc), (bc_triedb bc).
    split; [by destruct bc|]. rewrite Hroot in Ht'. done.
Qed.

(** A replica that accepts the leader's block ends with the leader's ledger. *)
Lemma replica_sync leader replica pool db' b l rt :
  roots_collision_free → same_view leader replica → bc_CurrentBlock leader = bc_CurrentBlock replica →
  has_ledger leader l → has_ledger replica l → routable leader (b_Body b) →
  rt = bh_StateRoot (b_Header b) →
  GetUpdateStatusTrie (b_Body b) (leader <| bc_Txpool := pool |>) = Ret (rt, db') →
  represents (bc_triedb db') rt (exec_txs (here leader) l (b_Body b)) →
  ∃ db2, sync_trie b replica = Ret (replica <| bc_triedb := db2 |>)
    ∧ extends (bc_triedb replica) db2
    ∧ represents db2 (bh_StateRoot (b_Header b)) (exec_txs (here leader) l (b_Body b)).
Proof.
  intros Hcf Hv Hcur Hl1 Hl2 Hr -> G1 (t & Ht & Hwf & Hb).
  assert (routable replica (b_Body b)) as Hrr.
  { intros tx Hin. rewrite <- !(same_view_partition leader replica) by done. by apply Hr. }
  unfold sync_trie. destruct (trie_New _ (bc_triedb replica)) as [t2|] eqn:E2.
  - exists (bc_triedb replica). split; [by destruct replica|]. split; [by intros ???|].
    assert (same_content t t2) as Hsame.
    { apply Hcf. by rewrite (open_root _ _ _ Ht), (open_root _ _ _ E2). }
    destruct (same_content_bal t t2 Hsame Hwf) as [? Hb2]. exists t2. split; [done|].
    split; [done|]. by rewrite Hb2.
  - destruct (status_trie_ok replica l (b_Body b) Hl2 Hrr) as (rt2 & db2 & G2 & Hrep2 & Hext2).
    exists db2. rewrite G2. split; [done|]. split; [done|].
    assert (bh_StateRoot (b_Header b) = rt2) as ->.
    { refine (status_root_same (leader <| bc_Txpool := pool |>) replica l l (b_Body b) _ _ _ _
                Hcf _ _ _ Hl2 _ G1 G2); try done.
      - by destruct Hv.
      - unfold state_root. simpl. by rewrite Hcur. }
    rewrite (exec_txs_ext _ (here replica)); [done|]. intros a. by apply same_view_here.
Qed.

(** Accounts that are installed are what is then fetched. *)
Lemma AddAccounts_ok (bc : BlockChain) (l : ledger)
    (ac : list Address) (as_ : list AccountState) :
  has_ledger bc l → BytesToHash (state_root bc) = state_root bc →
  NoDup ac → length ac = length as_ → ac ≠ [] →
  (∀ a, a ∈ ac → returns (Get_PartitionMap bc a) ∧ here bc a = true) →
  ∃ b, fits bc b ∧ b_Body b = [] ∧ (storable b → returns (AddAccounts ac as_ bc))
  ∧ ∀ bc', AddAccounts ac as_ bc = Ret bc' →
    bc_CurrentBlock bc' = b ∧ FetchAccounts ac bc' = Ret (copied <$> as_)
    ∧ ∃ l', has_ledger bc' l' ∧ ∀ a, a ∉ ac → l' a = l a.
Proof.
  intros (t & Ht & Hwf & Hb) Hroot Hnd Hlen Hne Hh. unfold AddAccounts.
  assert ((len ac =? 0) = false) as ->.
  { apply Z.eqb_neq. destruct ac; [done|]. rewrite len_cons. pose proof (len_nonneg ac). lia. }
  rewrite Ht. go_step. pose proof (add_accounts_loop bc [] as_ ac t Hlen Hh) as Eloop.
  rewrite len_nil in Eloop. simpl in Eloop. rewrite Eloop. go_step.
  destruct (install_commit bc l ac as_ t Ht Hwf Hb Hroot) as (rt & db' & -> & Hrt & t' & Ht' & Hs).
  go_step. destruct (next_header_ok (bc <| bc_triedb := db' |>) time_zero rt [] 0) as (bh & -> & Hec).
  go_step. destruct Hec as [Hpar Hnum Hr _ _ _ _]. simpl in Hr. eexists. split; [done|]. split; [done|].
  split.
  { intros Hst. destruct (AddBlock_top (bc_Storage (bc <| bc_triedb := db' |>)) _ Hst) as (s' & -> & _).
    by eexists. }
  intros bc' (s' & _ & [= <-])%bind_Ret. split; [done|].
  assert (trie_New (BytesToHash (bh_StateRoot bh)) db' = Some t') as Hopen by (by rewrite Hr, Hrt).
  split.
  - unfold FetchAccounts, state_root. simpl. rewrite Hopen. simpl.
    apply (fetch_loop t' []). by eapply load_installed.
  - destruct (same_content_bal (install t (zip ac as_)) t') as [? Hb'].
    { intros k. symmetry. apply Hs. }
    { by apply install_wf. }
    exists (bal t'). split; [by exists t'|]. intros a Ha. rewrite <- (Hb a). unfold bal.
    by rewrite Hs, install_other by (by rewrite fst_zip by lia).
Qed.

End lemmas.
