(* ===== verification/ChainProps.v ===== *)
(** * Properties of the blockchain

    Agreement of leader and replicas, the branches of [AddBlock], restart from
    disk, account migration, SZHBFT block generation. *)

From S2P Require Import Prelude Params Core Message External Storage Chain Ledger ChainLemmas.

Section props.
Context {PA : Params} {EX : External} {EXO : ExternalOk}.

(** C3. A leader and a replica that hold the same current block and partition map
    reach the same state: block generation always returns; the block is valid for
    both; both accept it, store it as their newest block, and both then hold the
    ledger that executing its transactions gives. *)
Theorem replicas_agree (leader replica : BlockChain) (l : ledger) (now : Time) (miner : Z) :
  roots_collision_free →
  has_ledger leader l → has_ledger replica l → same_view leader replica →
  bc_CurrentBlock leader = bc_CurrentBlock replica →
  pool_locked (bc_Txpool leader) = false → routable leader (TxQueue (bc_Txpool leader)) →
  ∃ b leader', GenerateBlock now miner leader = Ret (b, leader')
    ∧ IsValidBlock leader' b = true ∧ IsValidBlock replica b = true
    ∧ (storable b → ∃ leader'' replica',
        AddBlock b leader' = Ret leader'' ∧ AddBlock b replica = Ret replica'
        ∧ bc_CurrentBlock leader'' = b ∧ bc_CurrentBlock replica' = b
        ∧ top_is (bc_Storage leader'') b ∧ top_is (bc_Storage replica') b
        ∧ has_ledger leader'' (exec_txs (here leader) l (b_Body b))
        ∧ has_ledger replica' (exec_txs (here leader) l (b_Body b))).
Proof.
  intros Hcf Hl1 Hl2 Hv Hcur Hk Hr.
  destruct (GenerateBlock_ok leader now miner l Hl1 Hk Hr)
    as (b & pool' & db' & Hgen & Hq & _ & _ & Hec & Hrep & Hext & txs & Hgust & <-).
  eexists _, _. split; [exact Hgen|]. destruct Hec as [Hpar Hnum _ Htxr _ _ _].
  split; [by apply IsValidBlock_ok|]. split; [apply IsValidBlock_ok; congruence|]. intros Hst.
  assert (routable leader (b_Body b)) as Hrb.
  { intros tx Hin. apply Hr. rewrite <- Hq. apply elem_of_app. by left. }
  destruct (AddBlock_synced (leader <| bc_Txpool := pool' |> <| bc_triedb := db' |>) b db')
    as (leader' & Ha1 & [Hc1 _ _ _ _ Ht1 _] & Hdb1); [done|done| |by intros ???|].
  { unfold sync_trie. simpl. destruct Hrep as (t & Ht & _). by rewrite Ht. }
  destruct (replica_sync leader replica pool' _ b l _ Hcf Hv Hcur Hl1 Hl2 Hrb eq_refl Hgust Hrep)
    as (db2 & Hs2 & Hext2 & Hrep2).
  destruct (AddBlock_synced replica b db2) as (replica' & Ha2 & [Hc2 _ _ _ _ Ht2 _] & Hdb2);
    [unfold fits; by rewrite <- Hcur|done..|].
  exists leader', replica'.
  split_and!; try done; unfold has_ledger, state_root; by rewrite ?Hc1, ?Hc2, ?Hdb1, ?Hdb2.
Qed.

(** C4. [AddBlock] takes a block exactly when its number is the next one and its
    parent is the current block: then it becomes the current block and the newest
    stored block, older roots and blocks stay readable; otherwise nothing at all
    changes.  The state root is no part of the test. *)
Theorem AddBlock_spec (bc : BlockChain) (b : Block) (l : ledger) :
  has_ledger bc l → routable bc (b_Body b) → storable b →
  ∃ bc', AddBlock b bc = Ret bc' ∧
  if decide (fits bc b) then
    bc_CurrentBlock bc' = b ∧ bc_ChainConfig bc' = bc_ChainConfig bc
    ∧ bc_Txpool bc' = bc_Txpool bc ∧ bc_PartitionMap bc' = bc_PartitionMap bc
    ∧ GetNewestBlockHash (bc_Storage bc') = Some (b_Hash b)
    ∧ GetBlock (b_Hash b) (bc_Storage bc') = Ret (Some b)
    ∧ (∀ h, h ≠ b_Hash b → GetBlock h (bc_Storage bc') = GetBlock h (bc_Storage bc))
    ∧ (∀ rt0 l0, represents (bc_triedb bc) rt0 l0 → represents (bc_triedb bc') rt0 l0)
  else bc' = bc.
Proof.
  intros Hl Hr Hst. case_decide as Hf.
  - destruct (sync_trie_ok b bc l Hl Hr) as (db' & Hs & Hext).
    destruct (AddBlock_synced bc b db' Hf Hst Hs Hext) as (bc' & Ha & [? ? ? ? ? (? & ? & ?) ?] & _).
    by exists bc'.
  - exists bc. split; [by apply AddBlock_unfit|done].
Qed.

(** Restart: from an empty disk a node starts on a genesis block over the
    ledger in which every address owns [Init_Balance]; after any accepted block it
    restarts on that block and its ledger, with an empty pool, but with an empty
    partition map: what re-sharding had moved is forgotten. *)
Theorem NewBlockChain_recovers (cc : ChainConfig) (bc bc' : BlockChain) (b : Block) (l l' : ledger)
    (s0 : DB) :
  GetNewestBlockHash s0 = None → (∀ gb, NewGenisisBlock = Ret gb → storable gb) →
  has_ledger bc l → routable bc (b_Body b) → storable b → fits bc b →
  AddBlock b bc = Ret bc' → has_ledger bc' l' →
  (∃ g, NewBlockChain cc (bc_triedb bc) s0 = Ret g
     ∧ has_ledger g (λ _, Init_Balance) ∧ bh_Number (b_Header (bc_CurrentBlock g)) = 0)
  ∧ (∃ r, NewBlockChain cc (bc_triedb bc') (bc_Storage bc') = Ret r
     ∧ bc_CurrentBlock r = b ∧ has_ledger r l'
     ∧ bc_Txpool r = NewTxPool ∧ bc_PartitionMap r = ∅).
Proof.
  intros Hs0 Hgb Hl Hr Hst Hf Ha Hl'. split.
  - by apply NewBlockChain_empty.
  - destruct (sync_trie_ok b bc l Hl Hr) as (db' & Hs & Hext).
    destruct (AddBlock_synced bc b db' Hf Hst Hs Hext) as (bc2 & Ha2 & [Hc _ _ _ _ Ht _] & _).
    rewrite Ha in Ha2. injection Ha2 as <-. by apply NewBlockChain_restart.
Qed.

(** C34. Migration: accounts installed by [AddAccounts] (without repetition, all of
    them of this shard) are what [FetchAccounts] then returns, balances and nonces
    intact; every other address keeps its balance; the block that records it is
    empty and extends the chain. *)
Theorem AddAccounts_FetchAccounts (bc : BlockChain) (l : ledger)
    (ac : list Address) (as_ : list AccountState) :
  has_ledger bc l → BytesToHash (state_root bc) = state_root bc →
  NoDup ac → length ac = length as_ → ac ≠ [] →
  (∀ a, a ∈ ac → returns (Get_PartitionMap bc a) ∧ here bc a = true) →
  ∃ b, fits bc b ∧ b_Body b = [] ∧ (storable b → returns (AddAccounts ac as_ bc))
  ∧ ∀ bc', AddAccounts ac as_ bc = Ret bc' →
    bc_CurrentBlock bc' = b ∧ FetchAccounts ac bc' = Ret (copied <$> as_)
    ∧ ∃ l', has_ledger bc' l' ∧ ∀ a, a ∉ ac → l' a = l a.
Proof. apply AddAccounts_ok. Qed.

(** SZHBFT block generation takes the first [BlockSize] transactions off the
    queue and sorts them: the local block holds, in order, those whose sender and
    recipient are both of this shard, the global block all the others; nothing is
    lost between the two blocks and the queue that is left.  The local block keeps
    the current state root.  Both blocks claim the same height and parent, so a
    chain that has accepted one ignores the other. *)
Theorem GenerateSZBlock_spec (bc : BlockChain) (l : ledger) (now : Time) (miner : Z) :
  has_ledger bc l → pool_locked (bc_Txpool bc) = false → routable bc (TxQueue (bc_Txpool bc)) →
  let q := TxQueue (bc_Txpool bc) in
  let k := Z.to_nat (BlockSize (bc_ChainConfig bc)) in
  ∃ lb gb bc', GenerateSZBlock now miner bc = Ret (lb, gb, bc')
    ∧ TxQueue (bc_Txpool bc') = drop k q ∧ pool_locked (bc_Txpool bc') = false
    ∧ sz_block bc (locals bc (take k q)) lb ∧ sz_block bc (globals bc (take k q)) gb
    ∧ (∀ b, lb = Some b → bh_StateRoot (b_Header b) = state_root bc)
    ∧ (∀ b, gb = Some b → represents (bc_triedb bc') (bh_StateRoot (b_Header b))
                            (exec_txs (here bc) l (globals bc (take k q))))
    ∧ (∀ b1 b2 bc'', lb = Some b1 → gb = Some b2 →
         bc_CurrentBlock bc'' = b2 → AddBlock b1 bc'' = Ret bc'').
Proof.
  intros Hl Hk Hr q k. destruct (GenerateSZBlock_ok bc l now miner Hl Hk Hr) as (lb & gb & db' & E & Hlb & Hg & Hlr & Hgr).
  eexists _, _, _. split; [exact E|]. split_and!; [done..|].
  intros b1 b2 bc'' -> -> Hc. apply AddBlock_unfit. apply (fits_exclusive bc bc'' b2 b1); [| |done].
  - destruct Hg as [_ []]. by split.
  - destruct Hlb as [_ []]. by split.
Qed.

End props.

(** ** Witnesses on the reference instance *)

Module ChainWitness.
Import LedgerProps.
#[local] Existing Instances RefExternal.ext RefExternal.ext_ok params4.

Definition q4 : list Transaction :=
  [pay "a0" "b0" 5; pay "a0" "b1" 7; pay "b0" "a0" 1; pay "b0" "c0" 2].
(** A chain of shard 0 with four queued transactions and blocks of two or of [n]. *)
Definition chain_with (n : Z) : BlockChain :=
  (empty_chain 0) <| bc_Txpool := mkTxPool q4 (Some ∅) false |>
                  <| bc_ChainConfig := mkChainConfig 0 0 0 4 2 n 5000 2000 |>.
Definition block1 : Block :=
  mkBlock (mkBH "g" (trie_Hash trie_NewEmpty) (GetTxTreeRoot []) "" 1 9 0) [] "h1".

Lemma replicas_agree_witness :
  ∃ b leader' leader'' replica',
    GenerateBlock 9 0 (chain_with 2) = Ret (b, leader')
    ∧ len (b_Body b) = 2
    ∧ AddBlock b leader' = Ret leader'' ∧ AddBlock b (empty_chain 0) = Ret replica'
    ∧ bc_CurrentBlock leader'' = b ∧ bc_CurrentBlock replica' = b
    ∧ has_ledger replica' (exec_txs (here (chain_with 2)) (λ _, Init_Balance) (b_Body b)).
Proof.
  destruct (replicas_agree (chain_with 2) (empty_chain 0) (λ _, Init_Balance) 9 0)
    as (b & leader' & Hgen & _ & _ & H).
  - apply RefExternal.trie_collision_free.
  - apply empty_chain_ledger.
  - apply empty_chain_ledger.
  - by split.
  - reflexivity.
  - reflexivity.
  - each_elem; split; eexists; vm_compute; reflexivity.
  - assert (match fst <$> GenerateBlock 9 0 (chain_with 2) with
            | Ret b => bool_decide (storable b ∧ len (b_Body b) = 2) | _ => false end = true) as Hrun
      by (vm_compute; reflexivity).
    rewrite Hgen in Hrun. apply bool_decide_eq_true in Hrun as [Hst Hlen].
    destruct (H Hst) as (l'' & r' & H1 & H2 & H3 & H4 & _ & _ & _ & H5).
    exists b, leader', l'', r'. split; [exact Hgen|]. split; [exact Hlen|].
    split; [exact H1|]. split; [exact H2|]. split; [exact H3|]. split; [exact H4|exact H5].
Defined.

Lemma AddBlock_spec_witness :
  ∃ bc', AddBlock block1 (empty_chain 0) = Ret bc' ∧
  if decide (fits (empty_chain 0) block1) then
    bc_CurrentBlock bc' = block1 ∧ bc_ChainConfig bc' = bc_ChainConfig (empty_chain 0)
    ∧ bc_Txpool bc' = bc_Txpool (empty_chain 0)
    ∧ bc_PartitionMap bc' = bc_PartitionMap (empty_chain 0)
    ∧ GetNewestBlockHash (bc_Storage bc') = Some (b_Hash block1)
    ∧ GetBlock (b_Hash block1) (bc_Storage bc') = Ret (Some block1)
    ∧ (∀ h, h ≠ b_Hash block1 → GetBlock h (bc_Storage bc') = GetBlock h (bc_Storage (empty_chain 0)))
    ∧ (∀ rt0 l0, represents (bc_triedb (empty_chain 0)) rt0 l0 → represents (bc_triedb bc') rt0 l0)
  else bc' = empty_chain 0.
Proof.
  apply (AddBlock_spec (empty_chain 0) block1 (λ _, Init_Balance)).
  - apply empty_chain_ledger.
  - each_elem.
  - by_compute.
Defined.

Lemma NewBlockChain_recovers_witness :
  ∃ bc', AddBlock block1 (empty_chain 0) = Ret bc' ∧
  (∃ g, NewBlockChain (cc 0) [] StorageProps.empty_store = Ret g
     ∧ has_ledger g (λ _, Init_Balance) ∧ bh_Number (b_Header (bc_CurrentBlock g)) = 0)
  ∧ (∃ r, NewBlockChain (cc 0) (bc_triedb bc') (bc_Storage bc') = Ret r
     ∧ bc_CurrentBlock r = block1 ∧ has_ledger r (λ _, Init_Balance)
     ∧ bc_Txpool r = NewTxPool ∧ bc_PartitionMap r = ∅).
Proof.
  destruct (AddBlock_synced (empty_chain 0) block1 (bc_triedb (empty_chain 0)))
    as (bc' & Ha & Had & Hdb); [by_compute|by_compute|reflexivity|by intros ???|].
  exists bc'. split; [exact Ha|].
  apply (NewBlockChain_recovers (cc 0) (empty_chain 0) bc' block1 (λ _, Init_Balance)).
  - reflexivity.
  - intros gb [= <-]. by_compute.
  - apply empty_chain_ledger.
  - each_elem.
  - by_compute.
  - by_compute.
  - exact Ha.
  - unfold has_ledger, state_root. rewrite Hdb, (ad_current _ _ _ Had). apply empty_root_ledger.
Defined.

Definition acc (b : Z) : AccountState := mkAS "" 3 b "" "".

Lemma AddAccounts_FetchAccounts_witness :
  ∃ bc', AddAccounts ["a0"; "b0"]%string [acc 5; acc 6] (empty_chain 0) = Ret bc'
    ∧ FetchAccounts ["a0"; "b0"]%string bc' = Ret [acc 5; acc 6]
    ∧ ∃ l', has_ledger bc' l' ∧ ∀ a, a ∉ ["a0"; "b0"]%string → l' a = Init_Balance.
Proof.
  destruct (AddAccounts_FetchAccounts (empty_chain 0) (λ _, Init_Balance)
    ["a0"; "b0"]%string [acc 5; acc 6]) as (b & _ & _ & _ & H).
  - apply empty_chain_ledger.
  - reflexivity.
  - by_compute.
  - reflexivity.
  - done.
  - each_elem; (split; [eexists|]; vm_compute; reflexivity).
  - destruct (is_Ret_returns (AddAccounts ["a0"; "b0"]%string [acc 5; acc 6] (empty_chain 0)))
      as [bc' E]; [vm_compute; reflexivity|].
    exists bc'. split; [exact E|]. exact (proj2 (H bc' E)).
Defined.

Lemma GenerateSZBlock_spec_witness :
  ∃ lb gb bc', GenerateSZBlock 9 0 (chain_with 3) = Ret (lb, gb, bc')
    ∧ TxQueue (bc_Txpool bc') = [pay "b0" "c0" 2] ∧ pool_locked (bc_Txpool bc') = false
    ∧ sz_block (chain_with 3) [pay "a0" "b0" 5; pay "b0" "a0" 1] lb
    ∧ sz_block (chain_with 3) [pay "a0" "b1" 7] gb
    ∧ (∀ b, lb = Some b → bh_StateRoot (b_Header b) = state_root (chain_with 3)).
Proof.
  destruct (GenerateSZBlock_spec (chain_with 3) (λ _, Init_Balance) 9 0)
    as (lb & gb & bc' & ? & ? & ? & ? & ? & ? & _).
  - apply empty_chain_ledger.
  - reflexivity.
  - each_elem; split; eexists; vm_compute; reflexivity.
  - by exists lb, gb, bc'.
Defined.

(** The state root of a received block is never compared with the one the
    receiver computes: a block with a made-up root passes [IsValidBlock], becomes
    the current block, and the next non-empty block then makes the node panic. *)
Theorem AddBlock_ignores_state_root :
  let bogus := mkBlock (mkBH "g" "made up" (GetTxTreeRoot []) "" 1 9 0) [] "h1" in
  IsValidBlock (empty_chain 0) bogus = true
  ∧ ∃ bc', AddBlock bogus (empty_chain 0) = Ret bc' ∧ bc_CurrentBlock bc' = bogus
    ∧ GetUpdateStatusTrie [pay "a0" "b0" 5] bc' = Panic "trie.New".
Proof.
  intros bogus. split; [reflexivity|].
  destruct (is_Ret_returns (AddBlock bogus (empty_chain 0))) as [bc' E]; [vm_compute; reflexivity|].
  exists bc'. split; [exact E|].
  assert (match AddBlock bogus (empty_chain 0) with
          | Ret bc => bool_decide (bc_CurrentBlock bc = bogus)
              && match GetUpdateStatusTrie [pay "a0" "b0" 5] bc with
                 | Panic w => String.eqb w "trie.New" | _ => false end
          | _ => false end = true) as Hrun by (vm_compute; reflexivity).
  rewrite E in Hrun. apply andb_prop in Hrun as [Hc%bool_decide_eq_true Hp]. split; [exact Hc|].
  destruct (GetUpdateStatusTrie _ bc') as [|w|]; try discriminate.
  by apply String.eqb_eq in Hp as ->.
Qed.

End ChainWitness.
