(* ===== verification/Query.v ===== *)
(** * Queries on the files of a node

    [query/]: after a run, read the blocks and the account states of a node from its
    bolt file and its trie database.  Opening and closing the files is left out: the
    bolt file and the trie database are arguments. *)

From S2P Require Import Prelude Params Core Message External Storage Chain Ledger ChainLemmas ChainProps.

(** [Bucket.ForEach]: the keys and values of a bucket, in the order of the keys. *)
Class BoltScan `{BoltLib} := ForEach : DB → string → list (bytes * bytes).
Class BoltScanOk `{BoltLib} `{!BoltScan} := {
  ForEach_elem db bkt k v : (k, v) ∈ ForEach db bkt ↔ db_Get db bkt k = Some v
}.

(** The reference database, a map from buckets and keys. *)
#[export] Instance ref_scan : @BoltScan RefExternal.bolt := λ (db : gmap (string * string) string) bkt,
  omap (λ '((b, k), v), if String.eqb b bkt then Some (k, v) else None) (map_to_list db).
Lemma ref_scan_ok : @BoltScanOk RefExternal.bolt ref_scan.
Proof.
  split. intros db bkt k v. unfold ForEach, ref_scan. rewrite list_elem_of_omap. simpl. split.
  - intros ([[b k'] v'] & Hx & Hb). destruct (String.eqb_spec b bkt) as [->|]; [|done].
    injection Hb as -> ->. by apply elem_of_map_to_list in Hx.
  - intros Hg. exists ((bkt, k), v). rewrite String.eqb_refl. split; [|done]. by apply elem_of_map_to_list.
Qed.

Section query.
Context {EX : External} {SC : BoltScan}.

(** ** [query_block.go] *)

Definition QueryBlocks (s : DB) : go (list Block) :=
  go_fold (λ blocks kv, res ← DecodeB kv.2; Ret (blocks ++ [res])) [] (ForEach s blockBucket).

(** [None]: the block made by [new(core.Block)], whose header is nil. *)
Definition QueryBlock (Number : Z) (s : DB) : go (option Block) :=
  go_fold (λ block kv,
    res ← DecodeB kv.2;
    Ret (if bh_Number (b_Header res) =? Number then Some res else block)) None (ForEach s blockBucket).

(** Both errors are dropped; [None] is the nil block. *)
Definition QueryNewestBlock (s : DB) : go (option Block) :=
  GetBlock (default "" (GetNewestBlockHash s)) s.

Definition QueryBlockTxs (Number : Z) (s : DB) : go (list Transaction) :=
  block ← QueryBlock Number s; Ret (match block with Some b => b_Body b | None => [] end).

(** ** [query_accountstate.go] *)

(** The state trie of the newest block; [exists_mpt]: [os.Stat] finds the directory. *)
Definition newest_state (exists_mpt : bool) (s : DB) (db : TrieDB) : go Trie :=
  if exists_mpt then
    curb ← QueryNewestBlock s;
    curb ← or_panic "nil pointer dereference" curb;
    or_panic "trie.New" (trie_New (BytesToHash (bh_StateRoot (b_Header curb))) db)
  else Panic "No filepath".

Definition get_state (st : Trie) (address : Address) : go (option AccountState) :=
  match trie_Get st address with
  | None => Ret None
  | Some asenc => Some <$> DecodeAS asenc
  end.

Definition QueryAccountState (exists_mpt : bool) (s : DB) (db : TrieDB) (address : Address)
    : go (option AccountState) :=
  st ← newest_state exists_mpt s db; get_state st address.

Definition QueryAccountStateList (exists_mpt : bool) (s : DB) (db : TrieDB) (addresses : list Address)
    : go (list (option AccountState)) :=
  st ← newest_state exists_mpt s db;
  go_fold (λ ret address, r ← get_state st address; Ret (ret ++ [r])) [] addresses.

(** ** What the queries see *)

Context {EXO : ExternalOk} {SCO : BoltScanOk}.

(** Every block in the bucket can be decoded. *)
Definition readable (s : DB) : Prop := ∀ h, returns (GetBlock h s).

(** The blocks in the store. *)
Definition holds (s : DB) (b : Block) : Prop := ∃ h, GetBlock h s = Ret (Some b).

(** The answer of a query for an account agrees with a balance: no state is the
    initial balance. *)
Definition answers (balance : Z) (r : option AccountState) : Prop :=
  match r with Some s => as_Balance s = balance | None => balance = Init_Balance end.

Lemma GetBlock_entry s h v : db_Get s blockBucket h = Some v → GetBlock h s = Some <$> DecodeB v.
Proof. unfold GetBlock. by intros ->. Qed.

(** Every entry of the bucket is a block of the store. *)
Lemma scan_sound s kv :
  readable s → kv ∈ ForEach s blockBucket → ∃ b, DecodeB kv.2 = Ret b ∧ holds s b.
Proof.
  destruct kv as [k v]. intros Hs Hk%ForEach_elem. destruct (Hs k) as [r Hr].
  rewrite (GetBlock_entry _ _ _ Hk) in Hr. simpl.
  destruct (DecodeB v) as [b| |] eqn:E; [|done..]. exists b. split; [done|].
  exists k. by rewrite (GetBlock_entry _ _ _ Hk), E.
Qed.

(** Every block of the store is an entry of the bucket. *)
Lemma scan_complete s b : holds s b → ∃ kv, kv ∈ ForEach s blockBucket ∧ DecodeB kv.2 = Ret b.
Proof.
  intros [h Hh]. unfold GetBlock in Hh. destruct (db_Get s blockBucket h) as [v|] eqn:E; [|done].
  exists (h, v). split; [by apply ForEach_elem|]. simpl. by destruct (DecodeB v); simplify_eq/=.
Qed.

Lemma QueryBlocks_ok s :
  readable s → ∃ bs, QueryBlocks s = Ret bs ∧ ∀ b, b ∈ bs ↔ holds s b.
Proof.
  intros Hs. unfold QueryBlocks.
  destruct (go_collect (λ kv : bytes * bytes, DecodeB kv.2) (λ kv b, DecodeB kv.2 = Ret b) []
              (ForEach s blockBucket)) as (bs & -> & Hbs).
  { intros kv Hkv. destruct (scan_sound s kv Hs Hkv) as (b & Hb & _). by exists b. }
  exists bs. split; [done|]. intros b. split.
  - intros Hb. apply list_elem_of_lookup in Hb as [i Hi].
    destruct (Forall2_lookup_r _ _ _ _ _ Hbs Hi) as (kv & Hk & Hd).
    apply list_elem_of_lookup_2 in Hk. destruct (scan_sound s kv Hs Hk) as (b' & Hb' & ?). congruence.
  - intros (kv & Hk & Hd)%scan_complete. apply list_elem_of_lookup in Hk as [i Hi].
    destruct (Forall2_lookup_l _ _ _ _ _ Hbs Hi) as (b' & Hb' & Hd').
    apply list_elem_of_lookup_2 in Hb'. congruence.
Qed.

(** The loop of [QueryBlock]: a match, or what it started with. *)
Lemma query_loop Number entries acc :
  (∀ kv, kv ∈ entries → returns (DecodeB kv.2)) →
  ∃ r, go_fold (λ block (kv : bytes * bytes),
         res ← DecodeB kv.2;
         Ret (if bh_Number (b_Header res) =? Number then Some res else block)) acc entries = Ret r
    ∧ ((r = acc ∧ ∀ kv b, kv ∈ entries → DecodeB kv.2 = Ret b → bh_Number (b_Header b) ≠ Number)
       ∨ ∃ b kv, r = Some b ∧ kv ∈ entries ∧ DecodeB kv.2 = Ret b ∧ bh_Number (b_Header b) = Number).
Proof.
  revert acc. induction entries as [|kv entries IH]; intros acc Hd; simpl.
  { exists acc. split; [done|]. left. split; [done|]. by intros kv b ?%elem_of_nil. }
  destruct (Hd kv) as [b Hb]; [by left|]. rewrite Hb. simpl.
  destruct (IH (if bh_Number (b_Header b) =? Number then Some b else acc)) as (r & Hr & Hc).
  { intros kv' Hk. apply Hd. by right. }
  exists r. split; [exact Hr|]. destruct Hc as [[-> Hno]|(b' & kv' & -> & Hin & Hd' & Hn)].
  - destruct (bh_Number (b_Header b) =? Number) eqn:E; z_bool.
    + right. exists b, kv. by split_and!; [|left|..].
    + left. split; [done|]. intros kv' b' [->|Hk]%elem_of_cons Hb'; [congruence|by eapply Hno].
  - right. exists b', kv'. by split_and!; [|right|..].
Qed.

Lemma QueryBlock_ok s n :
  readable s →
  ∃ r, QueryBlock n s = Ret r
  ∧ match r with
    | Some b => holds s b ∧ bh_Number (b_Header b) = n
    | None => ∀ b, holds s b → bh_Number (b_Header b) ≠ n
    end.
Proof.
  intros Hs. destruct (query_loop n (ForEach s blockBucket) None) as (r & Hr & Hc).
  { intros kv Hkv. destruct (scan_sound s kv Hs Hkv) as (b & Hb & _). by exists b. }
  exists r. split; [exact Hr|]. destruct Hc as [[-> Hno]|(b & kv & -> & Hin & Hd & Hn)].
  - intros b (kv & Hin & Hd)%scan_complete. by apply (Hno kv).
  - destruct (scan_sound s kv Hs Hin) as (b' & Hb' & ?). split; [congruence|done].
Qed.

Lemma newest_state_ok s db b l :
  top_is s b → represents db (bh_StateRoot (b_Header b)) l →
  ∃ t, newest_state true s db = Ret t ∧ wf_trie t ∧ bal t ≡ l.
Proof.
  intros (Hn & Hb & _) (t & Ht & Hwf & Hl). exists t. split; [|done].
  unfold newest_state, QueryNewestBlock. rewrite Hn. simpl. unfold stored in Hb. rewrite Hb. simpl. by rewrite Ht.
Qed.

Lemma get_state_ok t l a : wf_trie t → bal t ≡ l → ∃ r, get_state t a = Ret r ∧ answers (l a) r.
Proof.
  intros Hwf Hl. specialize (Hl a). unfold bal in Hl. unfold get_state.
  destruct (trie_Get t a) as [e|] eqn:E.
  - destruct (Hwf a e E) as [st ->]. unfold DecodeAS. rewrite dec_enc in *. by exists (Some st).
  - by exists None.
Qed.

End query.

Module QueryProps.
Section props.
Context {PA : Params} {EX : External} {EXO : ExternalOk} {SC : BoltScan} {SCO : BoltScanOk}.

(** C35. The queries show the node: once a chain has accepted a block, the newest block
    they find in its files is that one, and the state they find for an account has the
    balance of the ledger (no state at all means the initial balance), one by one and in
    a list; they list exactly the blocks that reading by hash can find, and the block of
    a number is one of these with this number, or none when there is none.  Where the
    state directory does not exist the account queries panic. *)
Theorem queries_show_the_node (bc bc' : BlockChain) (b : Block) (l l' : ledger)
    (n : Z) (addrs : list Address) :
  has_ledger bc l → routable bc (b_Body b) → storable b → fits bc b → readable (bc_Storage bc) →
  AddBlock b bc = Ret bc' → has_ledger bc' l' →
  let s := bc_Storage bc' in let db := bc_triedb bc' in
  QueryNewestBlock s = Ret (Some b)
  ∧ (∃ rs, QueryAccountStateList true s db addrs = Ret rs
       ∧ Forall2 (λ a r, QueryAccountState true s db a = Ret r ∧ answers (l' a) r) addrs rs)
  ∧ (∃ bs, QueryBlocks s = Ret bs ∧ ∀ b0, b0 ∈ bs ↔ holds s b0)
  ∧ (∃ r, QueryBlock n s = Ret r
       ∧ QueryBlockTxs n s = Ret (match r with Some b0 => b_Body b0 | None => [] end)
       ∧ match r with
         | Some b0 => holds s b0 ∧ bh_Number (b_Header b0) = n
         | None => ∀ b0, holds s b0 → bh_Number (b_Header b0) ≠ n
         end)
  ∧ (∀ a, ¬ returns (QueryAccountState false s db a)).
Proof.
  intros Hl Hr Hst Hf Hrd Ha Hl' s db.
  destruct (sync_trie_ok b bc l Hl Hr) as (db' & Hs & Hext).
  destruct (AddBlock_synced bc b db' Hf Hst Hs Hext) as (bc2 & Ha2 & [Hc _ _ _ _ Htop Hold] & _).
  assert (bc2 = bc') as -> by congruence.
  assert (readable s) as Hrd'.
  { intros h. destruct (decide (h = b_Hash b)) as [->|Hne].
    - destruct Htop as (_ & Hb & _). by exists (Some b).
    - unfold s. rewrite Hold by done. apply Hrd. }
  unfold has_ledger, state_root in Hl'. rewrite Hc in Hl'.
  destruct (newest_state_ok s db b l' Htop Hl') as (t & Ht & Hwf & Hb). split_and!.
  - destruct Htop as (Hn & Hb' & _). unfold QueryNewestBlock. unfold s. by rewrite Hn.
  - unfold QueryAccountStateList, QueryAccountState. rewrite Ht. simpl.
    destruct (go_collect (get_state t) (λ a r, get_state t a = Ret r ∧ answers (l' a) r) [] addrs)
      as (rs & -> & Hrs); [|by exists rs].
    intros a _. destruct (get_state_ok t l' a Hwf Hb) as (r & ? & ?). by exists r.
  - by apply QueryBlocks_ok.
  - destruct (QueryBlock_ok s n Hrd') as (r & Hq & Hr'). exists r. split; [done|]. split; [|done].
    unfold QueryBlockTxs. by rewrite Hq.
  - intros a [r Hq]. done.
Qed.

End props.

Import LedgerProps ChainWitness.
#[local] Existing Instances RefExternal.ext RefExternal.ext_ok ref_scan ref_scan_ok params4.

(** A node that has accepted its first block. *)
Definition node1 : BlockChain := match AddBlock block1 (empty_chain 0) with Ret bc => bc | _ => empty_chain 0 end.

Lemma queries_show_the_node_witness :
  let s := bc_Storage node1 in let db := bc_triedb node1 in
  QueryNewestBlock s = Ret (Some block1)
  ∧ (∃ rs, QueryAccountStateList true s db ["a0"; "b0"]%string = Ret rs
       ∧ Forall2 (λ a r, QueryAccountState true s db a = Ret r ∧ answers Init_Balance r) ["a0"; "b0"]%string rs)
  ∧ (∃ bs, QueryBlocks s = Ret bs ∧ ∀ b0, b0 ∈ bs ↔ holds s b0)
  ∧ (∃ r, QueryBlock 1 s = Ret r
       ∧ QueryBlockTxs 1 s = Ret (match r with Some b0 => b_Body b0 | None => [] end)
       ∧ match r with
         | Some b0 => holds s b0 ∧ bh_Number (b_Header b0) = 1
         | None => ∀ b0, holds s b0 → bh_Number (b_Header b0) ≠ 1
         end)
  ∧ (∀ a, ¬ returns (QueryAccountState false s db a)).
Proof.
  apply (queries_show_the_node (empty_chain 0) node1 block1 (λ _, Init_Balance) (λ _, Init_Balance)).
  - apply empty_chain_ledger.
  - each_elem.
  - by_compute.
  - by_compute.
  - intros h. by exists None.
  - reflexivity.
  - change (represents (bc_triedb (empty_chain 0)) (trie_Hash trie_NewEmpty) (λ _, Init_Balance)).
    apply empty_root_ledger.
Defined.

End QueryProps.
