(* ===== verification/MerkleProof.v ===== *)
(** * Transaction proofs

    [chain/merkleproof.go]: search of a transaction along the chain, proofs on one
    block, batch proofs, verification.  The proof database is the list of its
    key/value pairs. *)

From S2P Require Import Prelude Params Core Message External Storage Chain Ledger ChainLemmas.

Section merkle.
Context {EX : External}.

Definition cannot_find : string := "cannot find this tx".

Definition not_found (txHash : bytes) (err : string) : TxProofResult :=
  mkTxProof false "" txHash "" 0 [] [] err.

Definition found_proof (txHash : bytes) (block : Block) (p : list (bytes * bytes)) : TxProofResult :=
  mkTxProof true (b_Hash block) txHash (bh_TxRoot (b_Header block)) (bh_Number (b_Header block))
    p.*1 p.*2 "".

(** The height in the message is not modelled ([%d] of a number). *)
Definition TxProofGenerateOnTheBlock (txHash : bytes) (block : Block) : go TxProofResult :=
  bitMapIdxofTx ← ModBytes txHash 2048;
  if negb (bs_Test (bh_Bloom (b_Header block)) bitMapIdxofTx) then Ret (not_found txHash cannot_find)
  else
    let txExist := existsb (λ tx, String.eqb txHash (tx_TxHash tx)) (b_Body block) in
    let transactionTree := tx_trie (b_Body block) in
    if negb txExist then Ret (not_found txHash "this tx cannot be found in this block")
    else if negb (String.eqb (trie_Hash transactionTree) (bh_TxRoot (b_Header block))) then
      Ret (not_found txHash "tx root mismatch")
    else
      match trie_Prove transactionTree txHash with
      | Some p => Ret (found_proof txHash block p)
      | None => Ret (not_found txHash cannot_find)
      end.

(** The walk down the chain; [nowheight] counts the turns left. *)
Fixpoint proof_walk (nowheight : nat) (nowblockHash txHash : bytes) (s : DB) : go TxProofResult :=
  match nowheight with
  | O => Ret (not_found txHash cannot_find)
  | S nowheight =>
      block ← GetBlock nowblockHash s;
      match block with
      | None => Ret (not_found txHash "the block is not existed")
      | Some block =>
          ret ← TxProofGenerateOnTheBlock txHash block;
          if pr_Found ret then Ret ret
          else proof_walk nowheight (bh_ParentBlockHash (b_Header block)) txHash s
      end
  end.

Definition TxProofGenerate (txHash : bytes) (bc : BlockChain) : go TxProofResult :=
  proof_walk (Z.to_nat (bh_Number (b_Header (bc_CurrentBlock bc)))) (b_Hash (bc_CurrentBlock bc))
    txHash (bc_Storage bc).

(** One entry of the batch. *)
Definition batch_proof (block : Block) (transactionTree : Trie) (txHash : bytes) : go TxProofResult :=
  bitMapIdxofTx ← ModBytes txHash 2048;
  if negb (bs_Test (bh_Bloom (b_Header block)) bitMapIdxofTx) then Ret (not_found txHash cannot_find)
  else
    match trie_Prove transactionTree txHash with
    | Some p => Ret (found_proof txHash block p)
    | None => Ret (not_found txHash cannot_find)
    end.

Definition TxProofBatchGenerateOnBlock (txHashes : list bytes) (block : Block)
    : go (list TxProofResult) :=
  let transactionTree := tx_trie (b_Body block) in
  if negb (String.eqb (trie_Hash transactionTree) (bh_TxRoot (b_Header block))) then
    Ret ((λ h, not_found h "tx root mismatch") <$> txHashes)
  else go_fold (λ acc h, r ← batch_proof block transactionTree h; Ret (acc ++ [r])) [] txHashes.

(** [true]: verified.  [txHash] is not used by the code. *)
Definition TxProofVerify (txHash : bytes) (proof : TxProofResult) : go bool :=
  if negb (pr_Found proof) then Ret false
  else if (length (pr_ValueList proof) <? length (pr_KeyList proof))%nat then
    Panic "index out of range"
  else
    match VerifyProof (BytesToHash (pr_TxRoot proof)) (pr_TxHash proof)
            (zip (pr_KeyList proof) (pr_ValueList proof)) with
    | None => Ret false
    | Some _ => Ret true
    end.

(** ** Lemmas *)

Context {EXO : ExternalOk}.

(** The transaction trie holds exactly the hashes of the block. *)
Lemma tx_trie_get txs h :
  is_Some (trie_Get (tx_trie txs) h) ↔ h ∈ tx_TxHash <$> txs.
Proof.
  unfold tx_trie.
  assert (∀ t, is_Some (trie_Get (foldl (λ t tx, trie_Update t (tx_TxHash tx) (String Ascii.zero "")) t txs) h)
    ↔ is_Some (trie_Get t h) ∨ h ∈ tx_TxHash <$> txs) as Hgen.
  { induction txs as [|tx txs IH]; intros t; csimpl; [rewrite elem_of_nil; tauto|].
    rewrite IH, elem_of_cons. destruct (decide (tx_TxHash tx = h)) as [->|Hne].
    - rewrite get_update_eq by done. split; [intros _; right; by left|intros _; left; by eexists].
    - rewrite get_update_ne by done. split; [intros [?|?]; auto|intros [?|[?|?]]; auto; congruence]. }
  rewrite Hgen, get_empty. split; [intros [[]|]; done|by right].
Qed.

(** The bloom filter never rejects a transaction of the block. *)
Lemma bloom_complete txs h bs i :
  GetBloomFilter txs = Ret bs → ModBytes h 2048 = Ret i → h ∈ tx_TxHash <$> txs → bs_Test bs i = true.
Proof.
  intros Hbs Hi. unfold GetBloomFilter in Hbs.
  assert (∀ b0, go_fold (λ bs tx, i ← ModBytes (tx_TxHash tx) 2048; Ret (bs_Set bs i)) b0 txs = Ret bs →
    (bs_Test b0 i = true ∨ h ∈ tx_TxHash <$> txs) → bs_Test bs i = true) as Hgen.
  { clear Hbs. induction txs as [|tx txs IH]; intros b0; cbn [go_fold fmap list_fmap].
    - intros [= ->] [?|?%elem_of_nil]; done.
    - intros (b1 & Hb1 & Hrest)%bind_Ret Hor. apply (IH b1 Hrest).
      apply bind_Ret in Hb1 as (j & Hj & [= <-]). rewrite test_set.
      destruct Hor as [->|[->|?]%elem_of_cons]; [left; apply orb_true_r|left|by right].
      rewrite Hi in Hj. injection Hj as ->. by rewrite Z.eqb_refl. }
  intros Hin. apply (Hgen _ Hbs). by right.
Qed.

(** A block whose header was filled by [next_header]. *)
Record sealed (b : Block) : Prop := {
  se_root : bh_TxRoot (b_Header b) = GetTxTreeRoot (b_Body b);
  se_bloom : GetBloomFilter (b_Body b) = Ret (bh_Bloom (b_Header b))
}.

Lemma index_ok h : ∃ i, ModBytes h 2048 = Ret i.
Proof. destruct (ModBytes_bound h 2048) as (i & ? & _); [lia|]. by exists i. Qed.

Lemma verify_found b h p :
  sealed b → trie_Prove (tx_trie (b_Body b)) h = Some p →
  ∀ h', TxProofVerify h' (found_proof h b p) = Ret (bool_decide (h ∈ tx_TxHash <$> b_Body b)).
Proof.
  intros [Hroot _] Hp h'. unfold TxProofVerify, found_proof; simpl.
  rewrite !length_fmap, Nat.ltb_irrefl, Hroot. unfold GetTxTreeRoot. rewrite BytesToHash_root.
  destruct (prove_verify (tx_trie (b_Body b)) h) as (p' & Hp' & Hv).
  rewrite Hp in Hp'. injection Hp' as <-.
  assert (zip p.*1 p.*2 = p) as -> by apply zip_fst_snd. rewrite Hv. pose proof (tx_trie_get (b_Body b) h).
  destruct (trie_Get (tx_trie (b_Body b)) h); case_bool_decide; naive_solver.
Qed.

Lemma on_block_found b h :
  sealed b → h ∈ tx_TxHash <$> b_Body b →
  ∃ p, trie_Prove (tx_trie (b_Body b)) h = Some p
    ∧ TxProofGenerateOnTheBlock h b = Ret (found_proof h b p).
Proof.
  intros [Hroot Hbl] Hin. unfold TxProofGenerateOnTheBlock.
  destruct (index_ok h) as [i Hi]. rewrite Hi. simpl.
  rewrite (bloom_complete _ _ _ _ Hbl Hi Hin). simpl.
  assert (existsb (λ tx, String.eqb h (tx_TxHash tx)) (b_Body b) = true) as ->.
  { apply existsb_exists. apply list_elem_of_fmap in Hin as (tx & -> & Hin). exists tx.
    split; [by apply list_elem_of_In|apply String.eqb_refl]. }
  simpl. rewrite Hroot. unfold GetTxTreeRoot. rewrite String.eqb_refl. simpl.
  destruct (prove_verify (tx_trie (b_Body b)) h) as (p & Hp & _). rewrite Hp. by exists p.
Qed.

Lemma on_block_not_found b h :
  h ∉ tx_TxHash <$> b_Body b →
  ∃ r, TxProofGenerateOnTheBlock h b = Ret r ∧ pr_Found r = false.
Proof.
  intros Hin. unfold TxProofGenerateOnTheBlock.
  destruct (index_ok h) as [i ->]. simpl. destruct (bs_Test _ i); simpl; [|by eexists].
  assert (existsb (λ tx, String.eqb h (tx_TxHash tx)) (b_Body b) = false) as ->; [|by eexists].
  apply not_true_is_false. intros (tx & Htx & E%String.eqb_eq)%existsb_exists. apply Hin.
  rewrite E. apply list_elem_of_fmap. exists tx. split; [done|]. by apply list_elem_of_In.
Qed.

(** A stored chain, newest first, from the hash [h] down. *)
Fixpoint linked (s : DB) (h : bytes) (bs : list Block) : Prop :=
  match bs with
  | [] => True
  | b :: bs => GetBlock h s = Ret (Some b) ∧ sealed b ∧ linked s (bh_ParentBlockHash (b_Header b)) bs
  end.

(** The hashes of all transactions of a chain. *)
Definition chain_hashes (bs : list Block) : list bytes := bs ≫= λ b, tx_TxHash <$> b_Body b.

Lemma proof_walk_ok s h bs hash :
  linked s hash bs →
  ∃ r, proof_walk (length bs) hash h s = Ret r
    ∧ pr_Found r = bool_decide (h ∈ chain_hashes bs)
    ∧ TxProofVerify h r = Ret (bool_decide (h ∈ chain_hashes bs)).
Proof.
  unfold chain_hashes. revert hash. induction bs as [|b bs IH]; intros hash.
  { intros _. by eexists. }
  intros (Hget & Hs & Hl). cbn [length proof_walk]. rewrite Hget. cbn [mbind go_bind].
  destruct (decide (h ∈ tx_TxHash <$> b_Body b)) as [Hin|Hin].
  - destruct (on_block_found b h Hs Hin) as (p & Hp & ->). eexists. split; [done|].
    rewrite bool_decide_true by (apply elem_of_app; by left). split; [done|].
    rewrite (verify_found b h p Hs Hp). by rewrite bool_decide_true.
  - destruct (on_block_not_found b h Hin) as (r0 & -> & Hf). cbn [mbind go_bind]. rewrite Hf.
    destruct (IH _ Hl) as (r & -> & H1 & H2). exists r. split; [done|].
    rewrite H1, H2. split; [|f_equal]; apply bool_decide_ext;
      (split; [intros ?; apply elem_of_app; by right|by intros [?|?]%elem_of_app]).
Qed.

(** A batch of proofs, one per hash. *)
Lemma batch_ok (b : Block) (hs : list bytes) :
  sealed b →
  ∃ rs, TxProofBatchGenerateOnBlock hs b = Ret rs
    ∧ Forall2 (λ h r, pr_TxHash r = h
        ∧ TxProofVerify h r = Ret (bool_decide (h ∈ tx_TxHash <$> b_Body b))
        ∧ (h ∈ tx_TxHash <$> b_Body b → pr_Found r = true)) hs rs.
Proof.
  intros Hs. unfold TxProofBatchGenerateOnBlock. destruct Hs as [Hroot Hbl] eqn:Es.
  rewrite Hroot. unfold GetTxTreeRoot. rewrite String.eqb_refl. simpl.
  assert (∀ h, ∃ r, batch_proof b (tx_trie (b_Body b)) h = Ret r
    ∧ pr_TxHash r = h ∧ TxProofVerify h r = Ret (bool_decide (h ∈ tx_TxHash <$> b_Body b))
    ∧ (h ∈ tx_TxHash <$> b_Body b → pr_Found r = true)) as Hone.
  { intros h. unfold batch_proof. destruct (index_ok h) as [i Hi]. rewrite Hi. simpl.
    destruct (bs_Test _ i) eqn:Et; simpl.
    - destruct (prove_verify (tx_trie (b_Body b)) h) as (p & Hp & _). rewrite Hp.
      eexists. split; [done|]. split; [done|]. split; [by apply verify_found|done].
    - assert (h ∉ tx_TxHash <$> b_Body b) as Hin.
      { intros Hin. by rewrite (bloom_complete _ _ _ _ Hbl Hi Hin) in Et. }
      eexists. split; [done|]. by rewrite bool_decide_false. }
  destruct (go_collect (batch_proof b (tx_trie (b_Body b))) _ [] hs (λ h _, Hone h)) as (rs & Hrs & Hall).
  by exists rs.
Qed.

End merkle.

Module MerkleProps.
Section props.
Context {EX : External} {EXO : ExternalOk}.

(** Proofs on a block are complete and sound: for a block whose root and
    bloom filter were computed from its body, the search finds a hash exactly when
    the block contains it (the bloom filter has no false negatives), and the proof
    it returns verifies. *)
Theorem proof_on_block_complete (b : Block) (h : bytes) :
  sealed b →
  ∃ r, TxProofGenerateOnTheBlock h b = Ret r
    ∧ pr_Found r = bool_decide (h ∈ tx_TxHash <$> b_Body b)
    ∧ ∀ h', TxProofVerify h' r = Ret (bool_decide (h ∈ tx_TxHash <$> b_Body b)).
Proof.
  intros Hs. destruct (decide (h ∈ tx_TxHash <$> b_Body b)) as [Hin|Hin].
  - destruct (on_block_found b h Hs Hin) as (p & Hp & ->). eexists. split; [done|].
    split; [by rewrite bool_decide_true|]. by apply verify_found.
  - destruct (on_block_not_found b h Hin) as (r & -> & Hf). exists r. rewrite bool_decide_false by done.
    split; [done|]. split; [done|]. intros h'. unfold TxProofVerify. by rewrite Hf.
Qed.

(** C33. Batch proofs: one result per hash, in order, and each verifies exactly
    when the block contains the hash.  (A bloom false positive yields a result
    marked found whose proof is one of absence; verification rejects it.) *)
Theorem batch_proofs_verify (b : Block) (hs : list bytes) :
  sealed b →
  ∃ rs, TxProofBatchGenerateOnBlock hs b = Ret rs
    ∧ Forall2 (λ h r, pr_TxHash r = h
        ∧ TxProofVerify h r = Ret (bool_decide (h ∈ tx_TxHash <$> b_Body b))
        ∧ (h ∈ tx_TxHash <$> b_Body b → pr_Found r = true)) hs rs.
Proof. apply batch_ok. Qed.

(** Search along the chain: on a chain whose blocks are all stored and sealed
    back to height one, [TxProofGenerate] visits every block and finds a
    transaction exactly when some block contains it, with a proof that verifies. *)
Theorem TxProofGenerate_finds (bc : BlockChain) (bs : list Block) (h : bytes) :
  linked (bc_Storage bc) (b_Hash (bc_CurrentBlock bc)) bs →
  bh_Number (b_Header (bc_CurrentBlock bc)) = len bs →
  ∃ r, TxProofGenerate h bc = Ret r
    ∧ pr_Found r = bool_decide (h ∈ chain_hashes bs)
    ∧ TxProofVerify h r = Ret (bool_decide (h ∈ chain_hashes bs)).
Proof.
  intros Hl Hn. unfold TxProofGenerate. rewrite Hn. unfold len. rewrite Nat2Z.id. by apply proof_walk_ok.
Qed.

End props.

Import LedgerProps.
#[local] Existing Instances RefExternal.ext RefExternal.ext_ok params4.

(** A sealed block over three payments, stored on top of shard 0's chain. *)
Definition sealed_block : Block :=
  let txs := [pay "a0" "b0" 5; pay "b0" "b1" 7] in
  mkBlock (mkBH "g" "" (GetTxTreeRoot txs)
             match GetBloomFilter txs with Ret bs => bs | _ => "" end 1 9 0) txs "h1".
Definition sealed_chain : BlockChain :=
  (empty_chain 0) <| bc_CurrentBlock := sealed_block |>
    <| bc_Storage := match Storage.AddBlock sealed_block StorageProps.empty_store with
                     | Ret s => s | _ => StorageProps.empty_store end |>.

Lemma sealed_block_ok : sealed sealed_block.
Proof. split; reflexivity. Qed.

Lemma proof_on_block_complete_witness :
  ∃ r, TxProofGenerateOnTheBlock "a0" sealed_block = Ret r ∧ pr_Found r = true
    ∧ ∀ h', TxProofVerify h' r = Ret true.
Proof. apply (proof_on_block_complete sealed_block "a0" sealed_block_ok). Defined.

Lemma batch_proofs_verify_witness :
  ∃ rs, TxProofBatchGenerateOnBlock ["a0"; "zz"]%string sealed_block = Ret rs
    ∧ Forall2 (λ h r, pr_TxHash r = h
        ∧ TxProofVerify h r = Ret (bool_decide (h ∈ tx_TxHash <$> b_Body sealed_block))
        ∧ (h ∈ tx_TxHash <$> b_Body sealed_block → pr_Found r = true)) ["a0"; "zz"]%string rs.
Proof. apply (batch_proofs_verify sealed_block). apply sealed_block_ok. Defined.

Lemma TxProofGenerate_finds_witness :
  ∃ r, TxProofGenerate "b0" sealed_chain = Ret r ∧ pr_Found r = true
    ∧ TxProofVerify "b0" r = Ret true.
Proof.
  apply (TxProofGenerate_finds sealed_chain [sealed_block] "b0").
  - split; [vm_compute; reflexivity|]. split; [apply sealed_block_ok|exact I].
  - reflexivity.
Defined.

End MerkleProps.
