(* ===== verification/Partition.v ===== *)
(** * Account partitioning: the transaction graph and CLPA

    [partition/graph.go] and [partition/partition_CLPA.go].  Go ranges over maps
    in an unspecified order: the visiting orders of [CLPA_Partition] and
    [Stable_Init_Partition] are arguments, and the sums over [EdgeSet] do not
    depend on the order.  Scores are IEEE doubles ([SpecFloat]).  Counters are Go
    [int]s that count edges and vertices held in memory; they do not wrap. *)

From S2P Require Import Prelude Params.
From Stdlib Require Import SpecFloat FloatOps.

(** ** [graph.go] *)

Abbreviation Vertex := string (only parsing).

Record Graph := mkGraph { VertexSet : gset Vertex; EdgeSet : gmap Vertex (list Vertex) }.
#[export] Instance Graph_eta : Eta Graph := λ r, mkGraph (VertexSet r) (EdgeSet r).

Module Graph.

Definition AddVertex (v : Vertex) (g : Graph) : Graph := g <| VertexSet ::= λ s, {[ v ]} ∪ s |>.

Definition append_edge (u v : Vertex) (es : gmap Vertex (list Vertex)) : gmap Vertex (list Vertex) :=
  <[u := default [] (es !! u) ++ [v]]> es.

Definition AddEdge (u v : Vertex) (g : Graph) : Graph :=
  let g := if decide (u ∈ VertexSet g) then g else AddVertex u g in
  let g := if decide (v ∈ VertexSet g) then g else AddVertex v g in
  g <| EdgeSet ::= λ es, append_edge v u (append_edge u v es) |>.

(** [no_edges]: [src.EdgeSet] is nil, which an empty map does not tell. *)
Definition CopyGraph (no_edges : bool) (src dst : Graph) : Graph :=
  mkGraph (VertexSet src)
    (if no_edges then EdgeSet dst
     else set_to_map (λ v, (v, default [] (EdgeSet src !! v))) (VertexSet src)).

End Graph.

(** ** [partition_CLPA.go]: state *)

Record CLPAState := mkCLPA {
  NetGraph : Graph;
  cs_PartitionMap : gmap Vertex Z;
  Edges2Shard : list Z;
  VertexsNumInShard : list Z;
  WeightPenalty : spec_float;
  MinEdges2Shard : Z;
  MaxIterations : Z;
  CrossShardEdgeNum : Z;
  cs_ShardNum : Z
}.
#[export] Instance CLPAState_eta : Eta CLPAState := λ r,
  mkCLPA (NetGraph r) (cs_PartitionMap r) (Edges2Shard r) (VertexsNumInShard r) (WeightPenalty r)
         (MinEdges2Shard r) (MaxIterations r) (CrossShardEdgeNum r) (cs_ShardNum r).

(** [cs.PartitionMap[v]] as an expression: 0 for a missing key. *)
Definition shard_in (p : gmap Vertex Z) (v : Vertex) : Z := default 0 (p !! v).
(** [cs.NetGraph.EdgeSet[v]]. *)
Definition neighbours (g : Graph) (v : Vertex) : list Vertex := default [] (EdgeSet g !! v).

(** [make([]int, n)], [l[i]], [l[i] += d]. *)
Definition make_ints (n : Z) : go (list Z) :=
  if n <? 0 then Panic "makeslice: len out of range" else Ret (replicate (Z.to_nat n) 0).
Definition get_at (i : Z) (l : list Z) : go Z :=
  if i <? 0 then Panic "index out of range" else or_panic "index out of range" (l !! Z.to_nat i).
Definition add_at (i d : Z) (l : list Z) : go (list Z) :=
  x ← get_at i l; Ret (<[Z.to_nat i := x + d]> l).

(** [if cs.MinEdges2Shard > val { ... }] over the slice, from [math.MaxInt]. *)
Definition min_edges (l : list Z) : Z := foldl (λ m val, if val <? m then val else m) MaxInt l.

Module CLPA.

Definition AddVertex `{Params} (v : Vertex) (cs : CLPAState) : go CLPAState :=
  let cs := cs <| NetGraph ::= Graph.AddVertex v |> in
  s ← match cs_PartitionMap cs !! v with Some val => Ret val | None => Addr2Shard v end;
  ns ← add_at s 1 (VertexsNumInShard cs);
  Ret (cs <| cs_PartitionMap ::= <[v := s]> |> <| VertexsNumInShard := ns |>).

Definition AddEdge `{Params} (u v : Vertex) (cs : CLPAState) : go CLPAState :=
  cs ← (if decide (u ∈ VertexSet (NetGraph cs)) then Ret cs else AddVertex u cs);
  cs ← (if decide (v ∈ VertexSet (NetGraph cs)) then Ret cs else AddVertex v cs);
  Ret (cs <| NetGraph ::= Graph.AddEdge u v |>).

(** Every edge of the adjacency lists, as (owner, neighbour). *)
Definition edges (g : Graph) : list (Vertex * Vertex) :=
  map_to_list (EdgeSet g) ≫= λ '(v, lst), (λ u, (v, u)) <$> lst.

(** The inner loop body on [(Edges2Shard, interEdge)]. *)
Definition count_edge (p : gmap Vertex Z) (acc : list Z * list Z) (e : Vertex * Vertex)
    : go (list Z * list Z) :=
  let '(v, u) := e in
  let vShard := shard_in p v in
  let uShard := shard_in p u in
  if negb (vShard =? uShard) then w ← add_at uShard 1 acc.1; Ret (w, acc.2)
  else i ← add_at uShard 1 acc.2; Ret (acc.1, i).

Definition ComputeEdges2Shard (cs : CLPAState) : go CLPAState :=
  w ← make_ints (cs_ShardNum cs);
  interEdge ← make_ints (cs_ShardNum cs);
  '(w, interEdge) ← go_fold (count_edge (cs_PartitionMap cs)) (w, interEdge) (edges (NetGraph cs));
  let cross := sumZ w `quot` 2 in
  let w := zip_with (λ a b, a + b `quot` 2) w interEdge in
  Ret (cs <| Edges2Shard := w |> <| CrossShardEdgeNum := cross |> <| MinEdges2Shard := min_edges w |>).

(** One neighbour in [changeShardRecompute], on [(Edges2Shard, CrossShardEdgeNum)]. *)
Definition recompute_edge (p : gmap Vertex Z) (new old : Z) (acc : list Z * Z) (u : Vertex)
    : go (list Z * Z) :=
  let neighborShard := shard_in p u in
  if negb (neighborShard =? new) && negb (neighborShard =? old) then
    w ← add_at new 1 acc.1; w ← add_at old (-1) w; Ret (w, acc.2)
  else if neighborShard =? new then
    w ← add_at old (-1) acc.1; Ret (w, acc.2 - 1)
  else
    w ← add_at new 1 acc.1; Ret (w, acc.2 + 1).

Definition changeShardRecompute (v : Vertex) (old : Z) (cs : CLPAState) : go CLPAState :=
  let new := shard_in (cs_PartitionMap cs) v in
  '(w, cross) ← go_fold (recompute_edge (cs_PartitionMap cs) new old)
                  (Edges2Shard cs, CrossShardEdgeNum cs) (neighbours (NetGraph cs) v);
  Ret (cs <| Edges2Shard := w |> <| CrossShardEdgeNum := cross |> <| MinEdges2Shard := min_edges w |>).

Definition Init_CLPAState (wp : spec_float) (mIter sn : Z) (cs : CLPAState) : go CLPAState :=
  ns ← make_ints sn;
  Ret (cs <| WeightPenalty := wp |> <| MaxIterations := mIter |> <| cs_ShardNum := sn |>
          <| VertexsNumInShard := ns |> <| cs_PartitionMap := ∅ |>).

(** [dst] keeps its [CrossShardEdgeNum], and shares the slice [VertexsNumInShard] with
    [src] from here on: what one of them adds to it the other sees. *)
Definition CopyCLPA (no_edges : bool) (src dst : CLPAState) : go CLPAState :=
  w ← make_ints (cs_ShardNum src);
  let n := length w in
  Ret (dst <| NetGraph ::= Graph.CopyGraph no_edges (NetGraph src) |>
           <| cs_PartitionMap := cs_PartitionMap src |>
           <| Edges2Shard := take n (Edges2Shard src) ++ drop (length (Edges2Shard src)) w |>
           <| VertexsNumInShard := VertexsNumInShard src |> <| WeightPenalty := WeightPenalty src |>
           <| MinEdges2Shard := MinEdges2Shard src |> <| MaxIterations := MaxIterations src |>
           <| cs_ShardNum := cs_ShardNum src |>).

(** [v.Addr[len(v.Addr)-8:]] *)
Definition tail8 (addr : Address) : go string :=
  if (String.length addr <? 8)%nat then Panic "slice bounds out of range"
  else Ret (String.substring (String.length addr - 8) 8 addr).

(** One turn of [Init_Partition]: partition map, counts. *)
Definition init_step (sn : Z) (acc : gmap Vertex Z * list Z) (v : Vertex) : go (gmap Vertex Z * list Z) :=
  va ← tail8 v;
  num ← or_panic "strconv.ParseInt" (ParseInt16 va);
  if sn =? 0 then Panic "integer divide by zero"
  else
    let s := Z.rem num sn in
    ns ← add_at s 1 acc.2;
    Ret (<[v := s]> acc.1, ns).

(** [order] is the order in which [VertexSet] is visited. *)
Definition Init_Partition (order : list Vertex) (cs : CLPAState) : go CLPAState :=
  ns ← make_ints (cs_ShardNum cs);
  '(p, ns) ← go_fold (init_step (cs_ShardNum cs)) (∅, ns) order;
  ComputeEdges2Shard (cs <| cs_PartitionMap := p |> <| VertexsNumInShard := ns |>).

(** One turn of [Stable_Init_Partition]: counter, partition map, counts. *)
Definition stable_step (sn : Z) (acc : Z * gmap Vertex Z * list Z) (v : Vertex)
    : go (Z * gmap Vertex Z * list Z) :=
  let '(cnt, p, ns) := acc in
  let s := Z.rem cnt sn in
  ns ← add_at s 1 ns;
  Ret (cnt + 1, <[v := s]> p, ns).

(** [None] is the error; [order] is the order in which [VertexSet] is visited. *)
Definition Stable_Init_Partition (order : list Vertex) (cs : CLPAState) : go (option CLPAState) :=
  if Z.of_nat (size (VertexSet (NetGraph cs))) <? cs_ShardNum cs then Ret None
  else
    ns ← make_ints (cs_ShardNum cs);
    '(_, p, ns) ← go_fold (stable_step (cs_ShardNum cs)) (0, ∅, ns) order;
    Some <$> ComputeEdges2Shard (cs <| cs_PartitionMap := p |> <| VertexsNumInShard := ns |>).

(** *** Scores, in double precision *)

Definition float64 (z : Z) : spec_float := binary_normalize prec emax z 0 false.
Definition f_div (a b : spec_float) : spec_float := SFdiv prec emax a b.
Definition f_mul (a b : spec_float) : spec_float := SFmul prec emax a b.
Definition f_sub (a b : spec_float) : spec_float := SFsub prec emax a b.

Definition getShard_score (v : Vertex) (uShard : Z) (cs : CLPAState) : go spec_float :=
  let v_outdegree := len (neighbours (NetGraph cs) v) in
  let Edgesto_uShard :=
    len (filter (λ item, shard_in (cs_PartitionMap cs) item = uShard) (neighbours (NetGraph cs) v)) in
  e ← get_at uShard (Edges2Shard cs);
  Ret (f_mul (f_div (float64 Edgesto_uShard) (float64 v_outdegree))
             (f_sub (float64 1)
                    (f_div (f_mul (WeightPenalty cs) (float64 e)) (float64 (MinEdges2Shard cs))))).

(** The scan over the neighbours: computed shards, best score, best shard. *)
Definition best_step (v : Vertex) (cs : CLPAState) (acc : gmap Z spec_float * spec_float * Z) (u : Vertex)
    : go (gmap Z spec_float * spec_float * Z) :=
  let '(neighborShardScore, max_score, max_scoreShard) := acc in
  let uShard := shard_in (cs_PartitionMap cs) u in
  match neighborShardScore !! uShard with
  | Some _ => Ret acc
  | None =>
      score ← getShard_score v uShard cs;
      let scores := <[uShard := score]> neighborShardScore in
      if SFltb max_score score then Ret (scores, score, uShard)
      else Ret (scores, max_score, max_scoreShard)
  end.

(** The loop over the vertices works on the state, [res] and [updateTreshold]. *)
Definition clpa_acc : Type := CLPAState * gmap Vertex Z * gmap Vertex Z.

Definition clpa_vertex (acc : clpa_acc) (v : Vertex) : go clpa_acc :=
  let '(cs, res, updateTreshold) := acc in
  if 50 <=? default 0 (updateTreshold !! v) then Ret acc
  else
    let vNowShard := shard_in (cs_PartitionMap cs) v in
    '(_, _, max_scoreShard) ← go_fold (best_step v cs) (∅, float64 (-9999), vNowShard)
                                (neighbours (NetGraph cs) v);
    if vNowShard =? max_scoreShard then Ret acc
    else
      n ← get_at vNowShard (VertexsNumInShard cs);
      if 1 <? n then
        let cs := cs <| cs_PartitionMap ::= <[v := max_scoreShard]> |> in
        ns ← add_at vNowShard (-1) (VertexsNumInShard cs);
        ns ← add_at max_scoreShard 1 ns;
        cs ← changeShardRecompute v vNowShard (cs <| VertexsNumInShard := ns |>);
        Ret (cs, <[v := u64 max_scoreShard]> res,
             <[v := default 0 (updateTreshold !! v) + 1]> updateTreshold)
      else Ret acc.

(** [order iter] is the order in which the iteration visits [VertexSet]. *)
Fixpoint clpa_iters (n : nat) (iter : nat) (order : nat → list Vertex) (acc : clpa_acc) : go clpa_acc :=
  match n with
  | O => Ret acc
  | S n => acc ← go_fold clpa_vertex acc (order iter); clpa_iters n (S iter) order acc
  end.

Definition CLPA_Partition (order : nat → list Vertex) (cs : CLPAState)
    : go (gmap Vertex Z * Z * CLPAState) :=
  cs ← ComputeEdges2Shard cs;
  '(cs, res, _) ← clpa_iters (Z.to_nat (MaxIterations cs)) 0 order (cs, ∅, ∅);
  cs ← ComputeEdges2Shard cs;
  Ret (res, CrossShardEdgeNum cs, cs).

Definition EraseEdges (cs : CLPAState) : CLPAState :=
  cs <| NetGraph ::= λ g, g <| EdgeSet := ∅ |> |>.

End CLPA.
