(* ===== verification/PartitionLemmas.v ===== *)
(** * Lemmas about the transaction graph and CLPA

    Counters are tables indexed by shard; the graph is described by a list [U] of
    undirected edges; [W] and [X] are what the counters of a partition should be. *)

From S2P Require Import Prelude Params Partition.
Import CLPA.

(** ** Tables *)

Definition table (n : Z) (f : Z → Z) : list Z := f <$> seqZ 0 n.

Lemma table_ext n f g : (∀ k, 0 ≤ k < n → f k = g k) → table n f = table n g.
Proof. intros H. apply list_fmap_ext. intros i x Hx%lookup_seqZ. apply H. lia. Qed.

Lemma table_lookup n f i : 0 ≤ i < n → table n f !! Z.to_nat i = Some (f i).
Proof. intros Hi. unfold table. rewrite list_lookup_fmap, lookup_seqZ_lt by lia. simpl. f_equal. f_equal. lia. Qed.

Lemma table_length n f : length (table n f) = Z.to_nat n.
Proof. unfold table. by rewrite length_fmap, length_seqZ. Qed.

Lemma make_ints_table n : 0 ≤ n → make_ints n = Ret (table n (λ _, 0)).
Proof.
  intros Hn. unfold make_ints. destruct (n <? 0) eqn:E; z_bool; [lia|]. f_equal.
  unfold table. rewrite (const_fmap (λ _ : Z, 0) (seqZ 0 n) 0) by done. by rewrite length_seqZ.
Qed.

Lemma get_at_table n f i : 0 ≤ i < n → get_at i (table n f) = Ret (f i).
Proof.
  intros Hi. unfold get_at. destruct (i <? 0) eqn:E; z_bool; [lia|]. by rewrite table_lookup.
Qed.

(** [d] at [i], 0 elsewhere. *)
Definition at_ (i d : Z) (k : Z) : Z := if k =? i then d else 0.

Lemma add_at_table n f i d :
  0 ≤ i < n → add_at i d (table n f) = Ret (table n (λ k, f k + at_ i d k)).
Proof.
  intros Hi. unfold add_at. rewrite get_at_table by done. go_step. f_equal.
  apply list_eq. intros j. rewrite list_lookup_insert. pose proof (table_length n f) as Hlen.
  unfold table, at_ in *. rewrite !list_lookup_fmap. case_decide as Hc.
  - destruct Hc as [<- Hj]. rewrite lookup_seqZ_lt by lia. simpl. rewrite Z2Nat.id by lia.
    by rewrite Z.eqb_refl.
  - destruct (seqZ 0 n !! j) as [x|] eqn:Ex; [|done]. apply lookup_seqZ in Ex as [-> Hj].
    rewrite Z.add_0_l. simpl. rewrite ?Z.add_0_l. destruct (Z.of_nat j =? i) eqn:E; z_bool; [|by rewrite Z.add_0_r]. exfalso. apply Hc. rewrite Hlen. lia.
Qed.

Lemma sumZ_table_at n f i d :
  0 ≤ i < n → sumZ (table n (λ k, f k + at_ i d k)) = sumZ (table n f) + d.
Proof.
  intros Hi. unfold table. rewrite sumZ_add. f_equal.
  trans (sumZ ((λ k, if decide (k = i) then d else 0) <$> seqZ 0 n)).
  - apply sumZ_ext. intros x _. unfold at_. destruct (x =? i) eqn:E; z_bool; case_decide; lia.
  - apply sumZ_indicator; [apply NoDup_seqZ|]. apply elem_of_seqZ. lia.
Qed.

Lemma zip_table (h : Z → Z → Z) n f g :
  zip_with h (table n f) (table n g) = table n (λ k, h (f k) (g k)).
Proof. unfold table. induction (seqZ 0 n) as [|x l IH]; csimpl; [done|]. by rewrite IH. Qed.

(** ** Counting *)

Definition cnt {A} (f : A → bool) (l : list A) : Z := sumZ ((λ x, if f x then 1 else 0) <$> l).

Lemma cnt_cons {A} f (x : A) l : cnt f (x :: l) = (if f x then 1 else 0) + cnt f l.
Proof. done. Qed.
Lemma cnt_app {A} f (l k : list A) : cnt f (l ++ k) = cnt f l + cnt f k.
Proof. unfold cnt. by rewrite fmap_app, sumZ_app. Qed.
Lemma cnt_perm {A} f (l k : list A) : l ≡ₚ k → cnt f l = cnt f k.
Proof. intros H. apply sumZ_perm. by apply fmap_Permutation. Qed.
Lemma cnt_ext {A} f g (l : list A) : (∀ x, x ∈ l → f x = g x) → cnt f l = cnt g l.
Proof. intros H. apply sumZ_ext. intros x Hx. by rewrite H. Qed.
Lemma cnt_fmap {A B} f (h : A → B) l : cnt f (h <$> l) = cnt (λ x, f (h x)) l.
Proof. unfold cnt. by rewrite <- list_fmap_compose. Qed.
Lemma cnt_nonneg {A} f (l : list A) : 0 ≤ cnt f l.
Proof. apply sumZ_nonneg. intros x _. destruct (f x); lia. Qed.

(** Changing a function at one element of a duplicate-free list. *)
Lemma cnt_change {A} `{EqDecision A} (f g : A → bool) x l :
  NoDup l → x ∈ l → (∀ y, y ≠ x → f y = g y) →
  cnt g l = cnt f l + (if g x then 1 else 0) - (if f x then 1 else 0).
Proof.
  intros Hnd Hx Hfg. unfold cnt.
  pose proof (sumZ_indicator x ((if g x then 1 else 0) - (if f x then 1 else 0)) l Hnd Hx) as Hi.
  enough (sumZ ((λ y, if g y then 1 else 0) <$> l)
    = sumZ ((λ y, (if f y then 1 else 0)
                  + (if decide (y = x) then (if g x then 1 else 0) - (if f x then 1 else 0) else 0)) <$> l))
    as -> by (rewrite sumZ_add, Hi; lia).
  apply sumZ_ext. intros y _. case_decide as Hy; [subst; lia|]. rewrite Hfg by done. lia.
Qed.

(** ** Undirected graphs *)

Abbreviation edge := (Vertex * Vertex)%type.
Definition swap_edge (e : edge) : edge := (e.2, e.1).

(** The adjacency lists hold each edge of [U] once in either direction, and no edge
    joins a vertex to itself. *)
Record undirected (g : Graph) (U : list edge) : Prop := {
  ud_edges : edges g ≡ₚ U ++ (swap_edge <$> U);
  ud_loop_free : ∀ e, e ∈ U → e.1 ≠ e.2;
  ud_in : ∀ e, e ∈ U → e.1 ∈ VertexSet g ∧ e.2 ∈ VertexSet g
}.

(** Edges incident to shard [k]; cross-shard edges. *)
Definition W (p : gmap Vertex Z) (U : list edge) (k : Z) : Z :=
  cnt (λ e, (shard_in p e.1 =? k) || (shard_in p e.2 =? k)) U.
Definition X (p : gmap Vertex Z) (U : list edge) : Z :=
  cnt (λ e, negb (shard_in p e.1 =? shard_in p e.2)) U.

(** The other ends of the edges of [U] at [v]. *)
Definition ends (v : Vertex) (U : list edge) : list Vertex :=
  U ≫= λ e, (if decide (e.1 = v) then [e.2] else []) ++ (if decide (e.2 = v) then [e.1] else []).

Definition expand (l : list (Vertex * list Vertex)) : list edge :=
  l ≫= λ '(v, lst), (λ u, (v, u)) <$> lst.

Lemma edges_delete es v :
  expand (map_to_list es) ≡ₚ ((λ u, (v, u)) <$> default [] (es !! v)) ++ expand (map_to_list (delete v es)).
Proof.
  destruct (es !! v) as [l|] eqn:E; simpl.
  - rewrite <- (insert_delete_id es v l E) at 1. unfold expand.
    etrans; [apply bind_Permutation, map_to_list_insert, lookup_delete_eq|]. done.
  - by rewrite delete_id.
Qed.

Lemma edges_append es u v :
  expand (map_to_list (Graph.append_edge u v es)) ≡ₚ (u, v) :: expand (map_to_list es).
Proof.
  unfold Graph.append_edge. rewrite (edges_delete _ u), lookup_insert_eq. simpl.
  rewrite delete_insert_eq, fmap_app, (edges_delete es u). simpl. solve_Permutation.
Qed.


(** The neighbours of [v], from the list of all edges. *)
Lemma neighbours_edges g v :
  neighbours g v ≡ₚ snd <$> filter (λ e, e.1 = v) (edges g).
Proof.
  unfold neighbours, edges. fold (expand (map_to_list (EdgeSet g))).
  rewrite (edges_delete (EdgeSet g) v), filter_app, fmap_app.
  assert (filter (λ e : edge, e.1 = v) ((λ u, (v, u)) <$> default [] (EdgeSet g !! v))
          = (λ u, (v, u)) <$> default [] (EdgeSet g !! v)) as ->.
  { apply filter_all. intros e (u & -> & _)%list_elem_of_fmap. done. }
  assert (filter (λ e : edge, e.1 = v) (expand (map_to_list (delete v (EdgeSet g)))) = []) as ->.
  { apply filter_none. intros e He Hv. apply list_elem_of_bind in He as ([w l] & He & Hw).
    apply elem_of_map_to_list in Hw. apply list_elem_of_fmap in He as (u & -> & _). simpl in Hv. subst.
    by rewrite lookup_delete_eq in Hw. }
  rewrite <- list_fmap_compose. simpl. rewrite (right_id_L [] (++)).
  by rewrite (list_fmap_ext _ id), list_fmap_id by done.
Qed.

Lemma ends_edges v U :
  (∀ e, e ∈ U → e.1 ≠ e.2) →
  ends v U ≡ₚ snd <$> filter (λ e, e.1 = v) (U ++ (swap_edge <$> U)).
Proof.
  intros Hlf. rewrite filter_app, fmap_app. unfold ends.
  induction U as [|e U IH]; [done|]. csimpl. rewrite IH by (intros; apply Hlf; by right).
  rewrite !filter_cons. simpl. specialize (Hlf e ltac:(by left)).
  repeat case_decide; simpl; try done; try solve_Permutation; congruence.
Qed.

Lemma neighbours_ends g U v : undirected g U → neighbours g v ≡ₚ ends v U.
Proof. intros [HE HL _]. rewrite neighbours_edges, HE. symmetry. by apply ends_edges. Qed.

Lemma ends_in v U u : u ∈ ends v U → ∃ e, e ∈ U ∧ (e = (u, v) ∨ e = (v, u)).
Proof.
  intros (e & He & Hin)%list_elem_of_bind. exists e. split; [done|]. destruct e as [a b].
  apply elem_of_app in He as [He|He]; case_decide; simpl in *; subst;
    first [by apply not_elem_of_nil in He|apply list_elem_of_singleton in He as ->; auto].
Qed.

(** ** The loops on tables *)

Definition in_shards (n : Z) (p : gmap Vertex Z) (us : list Vertex) : Prop :=
  ∀ u, u ∈ us → 0 ≤ shard_in p u < n.

(** A directed edge enters shard [k] from another, or lies inside it. *)
Definition enters (p : gmap Vertex Z) (k : Z) (e : edge) : bool :=
  (shard_in p e.2 =? k) && negb (shard_in p e.1 =? shard_in p e.2).
Definition inside (p : gmap Vertex Z) (k : Z) (e : edge) : bool :=
  (shard_in p e.2 =? k) && (shard_in p e.1 =? shard_in p e.2).

Lemma count_edge_table n p f g e :
  0 ≤ shard_in p e.2 < n →
  count_edge p (table n f, table n g) e
  = Ret (table n (λ k, f k + if enters p k e then 1 else 0),
         table n (λ k, g k + if inside p k e then 1 else 0)).
Proof.
  destruct e as [v u]. unfold count_edge, enters, inside; cbn [fst snd]. intros Hu.
  destruct (shard_in p v =? shard_in p u); cbn [negb]; rewrite add_at_table by done; go_step;
    f_equal; f_equal; apply table_ext; intros k _; unfold at_; rewrite ?(Z.eqb_sym k (shard_in p u));
    destruct (shard_in p u =? k); simpl; lia.
Qed.

Lemma count_edges_table n p f g E :
  in_shards n p E.*2 →
  go_fold (count_edge p) (table n f, table n g) E
  = Ret (table n (λ k, f k + cnt (enters p k) E), table n (λ k, g k + cnt (inside p k) E)).
Proof.
  revert f g. induction E as [|[v u] E IH]; intros f g Hin; cbn [go_fold].
  { f_equal. f_equal; apply table_ext; intros; unfold cnt; simpl; lia. }
  rewrite count_edge_table by (apply Hin; left). go_step.
  rewrite IH by (intros ??; apply Hin; by right).
  f_equal. f_equal; apply table_ext; intros k _; rewrite cnt_cons; lia.
Qed.

Lemma sum_enters n p f E :
  in_shards n p E.*2 →
  sumZ (table n (λ k, f k + cnt (enters p k) E))
  = sumZ (table n f) + cnt (λ e, negb (shard_in p e.1 =? shard_in p e.2)) E.
Proof.
  revert f. induction E as [|[v u] E IH]; intros f Hin.
  { unfold cnt; simpl. rewrite Z.add_0_r. f_equal. apply table_ext. intros. lia. }
  assert (0 ≤ shard_in p u < n) as Hu by (apply Hin; left).
  rewrite cnt_cons. cbn [fst snd].
  rewrite (table_ext n _ (λ k, (f k + at_ (shard_in p u)
     (if negb (shard_in p v =? shard_in p u) then 1 else 0) k) + cnt (enters p k) E)).
  - rewrite IH by (intros ??; apply Hin; by right). rewrite sumZ_table_at by done. lia.
  - intros k Hk. rewrite cnt_cons. unfold enters, at_. cbn [fst snd]. rewrite (Z.eqb_sym k).
    destruct (shard_in p u =? k), (shard_in p v =? shard_in p u); simpl; lia.
Qed.

(** Directed counts on a symmetric list of edges. *)
Lemma cnt_sym f U : cnt f (U ++ (swap_edge <$> U)) = cnt f U + cnt (λ e, f (swap_edge e)) U.
Proof. by rewrite cnt_app, cnt_fmap. Qed.

Lemma cnt_add {A} (f g h : A → bool) l :
  (∀ x, x ∈ l → (if h x then 1 else 0) = (if f x then 1 else 0) + (if g x then 1 else 0)) →
  cnt f l + cnt g l = cnt h l.
Proof. intros H. unfold cnt. rewrite <- sumZ_add. apply sumZ_ext. intros x Hx. by rewrite H. Qed.

Lemma W_directed p U k :
  cnt (enters p k) (U ++ (swap_edge <$> U)) + cnt (inside p k) (U ++ (swap_edge <$> U)) `quot` 2 = W p U k.
Proof.
  rewrite !cnt_sym. set (b := cnt (inside p k) U).
  assert (cnt (λ e, inside p k (swap_edge e)) U = b) as ->.
  { apply cnt_ext. intros [a c] _. unfold inside, swap_edge. cbn [fst snd].
    rewrite (Z.eqb_sym (shard_in p c) (shard_in p a)).
    destruct (shard_in p a =? shard_in p c) eqn:E; z_bool; [by rewrite E|by rewrite !andb_false_r]. }
  replace (b + b) with (b * 2) by lia. rewrite Z.quot_mul by lia. unfold b, W.
  erewrite (cnt_add (enters p k) _ (λ e, ((shard_in p e.1 =? k) || (shard_in p e.2 =? k))
      && negb (shard_in p e.1 =? shard_in p e.2))).
  - apply cnt_add. intros [a c] _. unfold inside; cbn [fst snd].
    destruct (shard_in p a =? shard_in p c) eqn:E; z_bool; simpl.
    + rewrite E. destruct (shard_in p c =? k); done.
    + destruct (shard_in p a =? k), (shard_in p c =? k); done.
  - intros [a c] _. unfold enters, swap_edge; cbn [fst snd].
    rewrite (Z.eqb_sym (shard_in p c) (shard_in p a)).
    destruct (shard_in p a =? shard_in p c) eqn:E; simpl; [by rewrite !andb_false_r|].
    rewrite !andb_true_r. z_bool.
    destruct (shard_in p a =? k) eqn:Ea, (shard_in p c =? k) eqn:Ec; z_bool; simpl; congruence || lia.
Qed.

Lemma X_directed p U :
  cnt (λ e, negb (shard_in p e.1 =? shard_in p e.2)) (U ++ (swap_edge <$> U)) `quot` 2 = X p U.
Proof.
  rewrite cnt_sym. unfold X, swap_edge. cbn [fst snd].
  rewrite (cnt_ext (λ e : edge, negb (shard_in p e.2 =? shard_in p e.1))
             (λ e, negb (shard_in p e.1 =? shard_in p e.2))) by (intros; by rewrite Z.eqb_sym).
  set (c := cnt _ _). replace (c + c) with (c * 2) by lia. apply Z.quot_mul. lia.
Qed.

(** What the counters of a partition should be. *)
Definition counted (U : list edge) (cs : CLPAState) : CLPAState :=
  let p := cs_PartitionMap cs in
  let w := table (cs_ShardNum cs) (W p U) in
  cs <| Edges2Shard := w |> <| CrossShardEdgeNum := X p U |> <| MinEdges2Shard := min_edges w |>.

Lemma undirected_in_shards g U n p :
  undirected g U → in_shards n p (elements (VertexSet g)) → in_shards n p (edges g).*2.
Proof.
  intros [HE _ Hin] Hp u Hu. rewrite HE in Hu. apply list_elem_of_fmap in Hu as (e & -> & He).
  apply Hp, elem_of_elements. apply elem_of_app in He as [He|He]; [by apply Hin|].
  apply list_elem_of_fmap in He as (e' & -> & He'). exact (proj1 (Hin e' He')).
Qed.

Lemma ComputeEdges2Shard_ok cs U :
  0 ≤ cs_ShardNum cs → undirected (NetGraph cs) U →
  in_shards (cs_ShardNum cs) (cs_PartitionMap cs) (elements (VertexSet (NetGraph cs))) →
  ComputeEdges2Shard cs = Ret (counted U cs).
Proof.
  intros Hn Hud Hin. unfold ComputeEdges2Shard. rewrite make_ints_table by done. go_step.
  pose proof (undirected_in_shards _ _ _ _ Hud Hin) as Hes.
  rewrite count_edges_table by done. go_step. rewrite sum_enters by done.
  rewrite zip_table. unfold counted.
  assert (sumZ (table (cs_ShardNum cs) (λ _, 0)) = 0) as ->.
  { unfold table. induction (seqZ 0 _); csimpl; lia. }
  destruct Hud as [HE _ _].
  assert ((0 + cnt (λ e, negb (shard_in (cs_PartitionMap cs) e.1 =? shard_in (cs_PartitionMap cs) e.2))
             (edges (NetGraph cs))) `quot` 2 = X (cs_PartitionMap cs) U) as ->.
  { rewrite Z.add_0_l, (cnt_perm _ _ _ HE). apply X_directed. }
  rewrite (table_ext (cs_ShardNum cs) _ (W (cs_PartitionMap cs) U)); [done|].
  intros k _. simpl. rewrite !(cnt_perm _ _ _ HE), !Z.add_0_l. apply W_directed.
Qed.

(** ** Moving one vertex *)

Lemma shard_in_insert p v s u : shard_in (<[v := s]> p) u = if decide (u = v) then s else shard_in p u.
Proof.
  unfold shard_in. destruct (decide (u = v)) as [->|Hne].
  - by rewrite lookup_insert_eq.
  - by rewrite lookup_insert_ne by done.
Qed.

Lemma recompute_edge_table n p new old f c u :
  0 ≤ new < n → 0 ≤ old < n → new ≠ old →
  recompute_edge p new old (table n f, c) u
  = Ret (table n (λ k, f k + at_ new (if shard_in p u =? new then 0 else 1) k
                           - at_ old (if shard_in p u =? old then 0 else 1) k),
         c + (if shard_in p u =? old then 1 else 0) - (if shard_in p u =? new then 1 else 0)).
Proof.
  intros Hnew Hold Hne. unfold recompute_edge. cbn [fst snd].
  destruct (shard_in p u =? new) eqn:En, (shard_in p u =? old) eqn:Eo; z_bool; cbn [negb andb];
    try lia; rewrite !add_at_table by done; go_step; rewrite ?add_at_table by done; go_step;
    (f_equal; f_equal; [apply table_ext; intros k _; unfold at_|]; repeat case_match; lia).
Qed.

Lemma recompute_table n p new old f c us :
  0 ≤ new < n → 0 ≤ old < n → new ≠ old →
  go_fold (recompute_edge p new old) (table n f, c) us
  = Ret (table n (λ k, f k + at_ new (cnt (λ u, negb (shard_in p u =? new)) us) k
                           - at_ old (cnt (λ u, negb (shard_in p u =? old)) us) k),
         c + cnt (λ u, shard_in p u =? old) us - cnt (λ u, shard_in p u =? new) us).
Proof.
  intros Hnew Hold Hne. revert f c. induction us as [|u us IH]; intros f c; cbn [go_fold].
  { f_equal. f_equal; [apply table_ext; intros k _; unfold cnt, at_; simpl; repeat case_match; lia|].
    unfold cnt; simpl; lia. }
  rewrite recompute_edge_table by done. go_step. rewrite IH, !cnt_cons.
  f_equal. f_equal; [|lia]. apply table_ext. intros k _. unfold at_.
  destruct (shard_in p u =? new), (shard_in p u =? old); simpl; repeat case_match; lia.
Qed.

Lemma cnt_ends_cons f v e U :
  cnt f (ends v (e :: U))
  = (if decide (e.1 = v) then if f e.2 then 1 else 0 else 0)
    + (if decide (e.2 = v) then if f e.1 then 1 else 0 else 0) + cnt f (ends v U).
Proof.
  unfold ends. csimpl. rewrite !cnt_app. unfold cnt at 1 2.
  destruct (decide (e.1 = v)), (decide (e.2 = v)); csimpl; lia.
Qed.

Lemma W_move p v new old U k :
  (∀ e, e ∈ U → e.1 ≠ e.2) → shard_in p v = old → new ≠ old →
  let p' := <[v := new]> p in
  W p' U k = W p U k + at_ new (cnt (λ u, negb (shard_in p' u =? new)) (ends v U)) k
                     - at_ old (cnt (λ u, negb (shard_in p' u =? old)) (ends v U)) k.
Proof.
  intros Hlf Hold Hne p'. unfold W. induction U as [|[a b] U IH].
  { unfold cnt, at_. simpl. repeat case_match; lia. }
  rewrite !cnt_cons, IH by (intros; apply Hlf; by right). clear IH.
  specialize (Hlf (a, b) ltac:(by left)). simpl in Hlf.
  rewrite !cnt_ends_cons. cbn [fst snd]. set (c1 := cnt _ (ends v U)). set (c2 := cnt _ (ends v U)).
  set (c0 := cnt _ U). unfold p', at_. rewrite !shard_in_insert.
  destruct (decide (a = v)) as [->|Ha], (decide (b = v)) as [->|Hb]; try congruence; rewrite ?Hold.
  - destruct (shard_in p b =? new) eqn:?, (shard_in p b =? old) eqn:?, (new =? k) eqn:?, (old =? k) eqn:?,
      (shard_in p b =? k) eqn:?, (k =? new) eqn:?, (k =? old) eqn:?; z_bool; cbn [negb orb]; lia.
  - destruct (shard_in p a =? new) eqn:?, (shard_in p a =? old) eqn:?, (new =? k) eqn:?, (old =? k) eqn:?,
      (shard_in p a =? k) eqn:?, (k =? new) eqn:?, (k =? old) eqn:?; z_bool; cbn [negb orb]; lia.
  - cbn [negb orb]. destruct (k =? new), (k =? old); lia.
Qed.

Lemma X_move p v new old U :
  (∀ e, e ∈ U → e.1 ≠ e.2) → shard_in p v = old → new ≠ old →
  let p' := <[v := new]> p in
  X p' U = X p U + cnt (λ u, shard_in p' u =? old) (ends v U) - cnt (λ u, shard_in p' u =? new) (ends v U).
Proof.
  intros Hlf Hold Hne p'. unfold X. induction U as [|[a b] U IH]; [done|].
  rewrite !cnt_cons, IH by (intros; apply Hlf; by right). clear IH.
  specialize (Hlf (a, b) ltac:(by left)). simpl in Hlf.
  rewrite !cnt_ends_cons. cbn [fst snd]. set (c1 := cnt _ (ends v U)). set (c2 := cnt _ (ends v U)).
  set (c0 := cnt _ U). unfold p'. rewrite !shard_in_insert.
  destruct (decide (a = v)) as [->|Ha], (decide (b = v)) as [->|Hb]; try congruence; rewrite ?Hold.
  - destruct (new =? shard_in p b) eqn:?, (old =? shard_in p b) eqn:?, (shard_in p b =? new) eqn:?,
      (shard_in p b =? old) eqn:?; z_bool; cbn [negb]; lia.
  - destruct (shard_in p a =? new) eqn:?, (shard_in p a =? old) eqn:?; z_bool; cbn [negb]; lia.
  - cbn [negb orb]. lia.
Qed.

(** Moving [v] updates the counters incrementally to what they should be. *)
Lemma changeShardRecompute_ok cs U v new old :
  let n := cs_ShardNum cs in
  undirected (NetGraph cs) U → 0 ≤ new < n → 0 ≤ old < n → new ≠ old →
  shard_in (cs_PartitionMap cs) v = old →
  changeShardRecompute v old ((counted U cs) <| cs_PartitionMap ::= <[v := new]> |>)
  = Ret (counted U (cs <| cs_PartitionMap ::= <[v := new]> |>)).
Proof.
  intros n Hud Hnew Hold Hne Hv. unfold changeShardRecompute.
  cbn [counted set_field cs_PartitionMap Edges2Shard CrossShardEdgeNum NetGraph].
  set (p' := <[v := new]> (cs_PartitionMap cs)).
  assert (shard_in p' v = new) as -> by (unfold p'; by rewrite shard_in_insert, decide_True).
  fold n. rewrite recompute_table by done. go_step.
  pose proof (neighbours_ends _ _ v Hud) as Hnb. destruct Hud as [_ Hlf _].
  rewrite !(cnt_perm _ _ _ Hnb).
  pose proof (X_move (cs_PartitionMap cs) v new old U Hlf Hv Hne) as HX. fold p' in HX. cbn zeta in HX.
  rewrite <- HX. rewrite (table_ext n _ (W p' U)); [done|].
  intros k _. symmetry. by apply W_move.
Qed.
