(* ===== verification/PartitionProps.v ===== *)
(** * Properties of the transaction graph and of CLPA *)

From S2P Require Import Prelude Params Partition PartitionLemmas.
From Stdlib Require Import SpecFloat.
Import CLPA.

(** ** Well-formed states *)

Definition population (p : gmap Vertex Z) (g : Graph) (k : Z) : Z :=
  cnt (λ v, shard_in p v =? k) (elements (VertexSet g)).

(** The graph is that of the undirected edges [U], every vertex is in a shard, and
    the vertex counters are right. *)
Record placed (U : list edge) (cs : CLPAState) : Prop := {
  pl_shards : 0 < cs_ShardNum cs < 2 ^ 63;
  pl_graph : undirected (NetGraph cs) U;
  pl_range : ∀ v s, cs_PartitionMap cs !! v = Some s → 0 ≤ s < cs_ShardNum cs;
  pl_counts : VertexsNumInShard cs = table (cs_ShardNum cs) (population (cs_PartitionMap cs) (NetGraph cs))
}.

Lemma pl_shard U cs v : placed U cs → 0 ≤ shard_in (cs_PartitionMap cs) v < cs_ShardNum cs.
Proof.
  intros [Hn _ Hr _]. unfold shard_in. destruct (cs_PartitionMap cs !! v) eqn:E; simpl; [by eapply Hr|lia].
Qed.

Lemma placed_counted U cs : placed U cs → ComputeEdges2Shard cs = Ret (counted U cs).
Proof.
  intros Hp. pose proof (pl_shards _ _ Hp). apply ComputeEdges2Shard_ok; [lia|apply Hp|]. intros v _. by eapply pl_shard.
Qed.

Lemma counted_placed U cs : placed U cs → placed U (counted U cs).
Proof. intros []. by split. Qed.

Lemma counted_idem U cs : counted U (counted U cs) = counted U cs.
Proof. done. Qed.

Lemma population_move p g v new old k :
  v ∈ VertexSet g → shard_in p v = old → new ≠ old →
  population (<[v := new]> p) g k = population p g k + at_ old (-1) k + at_ new 1 k.
Proof.
  intros Hv Hold Hne. unfold population.
  rewrite (cnt_change (λ u, shard_in p u =? k) (λ u, shard_in (<[v := new]> p) u =? k) v).
  - rewrite shard_in_insert, decide_True, Hold by done. unfold at_.
    rewrite (Z.eqb_sym k old), (Z.eqb_sym k new). destruct (old =? k), (new =? k); lia.
  - apply NoDup_elements.
  - by apply elem_of_elements.
  - intros u Hu. by rewrite shard_in_insert, decide_False.
Qed.

(** ** Building the graph *)

Lemma graph_add_edge g U u v :
  undirected g U → u ≠ v → undirected (Graph.AddEdge u v g) ((u, v) :: U).
Proof.
  intros [HE Hlf Hin] Hne.
  assert (∀ w (h : Graph), EdgeSet (if decide (w ∈ VertexSet h) then h else Graph.AddVertex w h) = EdgeSet h
    ∧ ∀ x, x ∈ VertexSet (if decide (w ∈ VertexSet h) then h else Graph.AddVertex w h)
           ↔ x = w ∨ x ∈ VertexSet h) as Hadd.
  { intros w h. case_decide; simpl; [split; [done|naive_solver]|]. split; [done|]. set_solver. }
  unfold Graph.AddEdge. set (g1 := if decide (u ∈ _) then g else _).
  set (g2 := if decide (v ∈ _) then g1 else _).
  destruct (Hadd u g) as [E1 V1], (Hadd v g1) as [E2 V2]. fold g1 in E1, V1. fold g2 in E2, V2.
  split.
  - unfold edges. simpl. fold (expand (map_to_list (Graph.append_edge v u (Graph.append_edge u v (EdgeSet g2))))).
    rewrite !edges_append, E2, E1. fold (edges g). unfold edges in HE. fold (expand (map_to_list (EdgeSet g))) in HE.
    rewrite HE. csimpl. solve_Permutation.
  - intros e [->|He]%elem_of_cons; [done|by apply Hlf].
  - intros e He. simpl. rewrite !V2, !V1. apply elem_of_cons in He as [->|He]; [naive_solver|].
    destruct (Hin e He). auto.
Qed.

Section build.
Context {PA : Params}.

Lemma AddVertex_ok U cs v :
  placed U cs → v ∉ VertexSet (NetGraph cs) → cs_ShardNum cs = ShardNum → returns (Addr2Shard v) →
  ∃ cs', CLPA.AddVertex v cs = Ret cs' ∧ placed U cs' ∧ cs_ShardNum cs' = ShardNum
    ∧ VertexSet (NetGraph cs') = {[ v ]} ∪ VertexSet (NetGraph cs)
    ∧ EdgeSet (NetGraph cs') = EdgeSet (NetGraph cs).
Proof.
  intros Hp Hv Hsn [a Ha]. unfold CLPA.AddVertex. cbn [set_field cs_PartitionMap VertexsNumInShard].
  assert (∃ s, match cs_PartitionMap cs !! v with Some val => Ret val | None => Addr2Shard v end = Ret s
    ∧ 0 ≤ s < cs_ShardNum cs ∧ (cs_PartitionMap cs !! v = Some s ∨ cs_PartitionMap cs !! v = None))
    as (s & -> & Hs & Hpv).
  { destruct (cs_PartitionMap cs !! v) as [s|] eqn:E.
    - exists s. split; [done|]. split; [by eapply pl_range|by left].
    - exists a. split; [done|]. split; [|by right]. rewrite Hsn.
      apply (Addr2Shard_bound v); [|done]. rewrite <- Hsn. apply Hp. }
  go_step. destruct Hp as [Hn [HE Hlf Hin] Hr Hc]. rewrite Hc, add_at_table by done. go_step.
  eexists. split; [done|]. split_and!; try done. split; simpl; [done| | |].
  - split; [done|done|]. intros e He. simpl. destruct (Hin e He). set_solver.
  - intros w t. destruct (decide (v = w)) as [->|]; [rewrite lookup_insert_eq; by intros [= <-]|].
    rewrite lookup_insert_ne by done. apply Hr.
  - apply table_ext. intros k _. unfold population. simpl.
    rewrite (cnt_perm _ (elements ({[v]} ∪ VertexSet (NetGraph cs))) (v :: elements (VertexSet (NetGraph cs))))
      by by apply elements_union_singleton.
    assert (cnt (λ w, shard_in (<[v:=s]> (cs_PartitionMap cs)) w =? k) (elements (VertexSet (NetGraph cs)))
            = cnt (λ w, shard_in (cs_PartitionMap cs) w =? k) (elements (VertexSet (NetGraph cs)))) as E.
    { apply cnt_ext. intros w Hw%elem_of_elements. by rewrite shard_in_insert, decide_False by (by intros ->). }
    rewrite cnt_cons, E, shard_in_insert, decide_True by done. unfold at_. rewrite (Z.eqb_sym k). lia.
Qed.

End build.

(** ** The loops of CLPA *)

Lemma best_step_ok U cs v us :
  placed U cs → Edges2Shard cs = table (cs_ShardNum cs) (W (cs_PartitionMap cs) U) →
  ∀ acc, 0 ≤ acc.2 < cs_ShardNum cs →
  ∃ acc', go_fold (best_step v cs) acc us = Ret acc' ∧ 0 ≤ acc'.2 < cs_ShardNum cs.
Proof.
  intros Hp HE acc Hacc.
  apply (go_fold_total (λ acc : gmap Z spec_float * spec_float * Z, 0 ≤ acc.2 < cs_ShardNum cs)); [|done].
  intros [[scores best] shard] u _ Hs. unfold best_step.
  destruct (scores !! _); [by eexists|]. unfold getShard_score.
  pose proof (pl_shard U cs u Hp) as Hu. rewrite HE, get_at_table by done. go_step.
  destruct (SFltb _ _); by eexists.
Qed.

(** What the loops keep, relative to the state [cs0] at the start. *)
Record clpa_inv (U : list edge) (cs0 : CLPAState) (acc : clpa_acc) : Prop := {
  ci_placed : placed U acc.1.1;
  ci_counted : counted U acc.1.1 = acc.1.1;
  ci_graph : NetGraph acc.1.1 = NetGraph cs0;
  ci_shards : cs_ShardNum acc.1.1 = cs_ShardNum cs0;
  ci_populated : ∀ k, 0 ≤ k < cs_ShardNum cs0 →
    0 < population (cs_PartitionMap cs0) (NetGraph cs0) k →
    0 < population (cs_PartitionMap acc.1.1) (NetGraph cs0) k;
  ci_moved : ∀ a, match acc.1.2 !! a with
    | Some s => cs_PartitionMap acc.1.1 !! a = Some s
    | None => cs_PartitionMap acc.1.1 !! a = cs_PartitionMap cs0 !! a
    end
}.

(** The move of one vertex keeps the invariant. *)
Lemma clpa_move U cs0 cs res thr v new old :
  clpa_inv U cs0 (cs, res, thr) → v ∈ VertexSet (NetGraph cs0) →
  shard_in (cs_PartitionMap cs) v = old → new ≠ old → 0 ≤ new < cs_ShardNum cs →
  1 < population (cs_PartitionMap cs) (NetGraph cs) old →
  ∃ ns cs', add_at old (-1) (VertexsNumInShard cs) ≫= add_at new 1 = Ret ns
    ∧ changeShardRecompute v old ((cs <| cs_PartitionMap ::= <[v := new]> |>) <| VertexsNumInShard := ns |>) = Ret cs'
    ∧ ∀ thr', clpa_inv U cs0 (cs', <[v := u64 new]> res, thr').
Proof.
  intros [Hp Hcnt Hg Hsn Hpop Hmv] Hv Hold Hne Hnew Hone. simpl in *.
  pose proof (pl_shard U cs v Hp) as Hov. rewrite Hold in Hov.
  destruct Hp as [Hn Hud Hr Hc]. rewrite Hc, add_at_table by done. go_step.
  rewrite add_at_table by done. eexists _, _. split; [done|].
  set (ns := table _ _).
  assert (ns = table (cs_ShardNum cs) (population (<[v := new]> (cs_PartitionMap cs)) (NetGraph cs))) as Hns.
  { apply table_ext. intros k _. rewrite (population_move _ _ _ new old) by (done || by rewrite Hg). lia. }
  pose (csn := cs <| VertexsNumInShard := ns |>).
  pose proof (changeShardRecompute_ok csn U v new old Hud Hnew Hov Hne Hold) as Hcr.
  assert ((cs <| cs_PartitionMap ::= <[v := new]> |>) <| VertexsNumInShard := ns |>
    = (counted U csn) <| cs_PartitionMap ::= <[v := new]> |>) as ->.
  { rewrite <- Hcnt at 1. done. }
  split; [exact Hcr|].
  intros thr'. split; simpl; try done.
  - split; [done|done| |done]. simpl. intros w t.
    destruct (decide (v = w)) as [->|]; [rewrite lookup_insert_eq; by intros [= <-]|].
    rewrite lookup_insert_ne by done. apply Hr.
  - intros k Hk Hk0. specialize (Hpop k Hk Hk0).
    rewrite (population_move _ _ _ new old) by done. unfold at_.
    rewrite Hg in Hone. destruct (k =? old) eqn:?, (k =? new) eqn:?; z_bool; subst; lia.
  - intros a. destruct (decide (v = a)) as [->|Ha].
    + rewrite !lookup_insert_eq. f_equal. symmetry. apply u64_id. unfold is_u64. lia.
    + rewrite !lookup_insert_ne by done. apply Hmv.
Qed.

Lemma clpa_vertex_ok U cs0 acc v :
  clpa_inv U cs0 acc → v ∈ VertexSet (NetGraph cs0) →
  ∃ acc', clpa_vertex acc v = Ret acc' ∧ clpa_inv U cs0 acc'.
Proof.
  destruct acc as [[cs res] thr]. intros Hinv Hv. unfold clpa_vertex.
  destruct (50 <=? _); [by eexists|].
  pose proof Hinv as [Hp Hcnt Hg Hsn _ _]. cbn [fst snd] in *.
  set (old := shard_in (cs_PartitionMap cs) v).
  pose proof (pl_shard U cs v Hp) as Hov. fold old in Hov.
  destruct (best_step_ok U cs v (neighbours (NetGraph cs) v) Hp) with (acc := (∅ : gmap Z spec_float, float64 (-9999), old))
    as ([[scores best] new] & -> & Hnew); [by rewrite <- Hcnt at 1|done|]. go_step. cbn [snd] in Hnew.
  destruct (old =? new) eqn:Eon; z_bool; [by eexists|].
  rewrite (pl_counts _ _ Hp), get_at_table by done. go_step.
  destruct (1 <? population _ _ old) eqn:E1; z_bool; [|by eexists].
  destruct (clpa_move U cs0 cs res thr v new old Hinv Hv) as (ns & cs' & Hns & Hcr & Hinv');
    [done|congruence|done|done|].
  change (VertexsNumInShard (cs <| cs_PartitionMap ::= <[v:=new]> |>)) with (VertexsNumInShard cs).
  apply bind_Ret in Hns as (ns1 & -> & Hns2). go_step. rewrite Hns2. go_step. rewrite Hcr. go_step.
  eexists. split; [done|]. apply Hinv'.
Qed.

Lemma clpa_iters_ok U cs0 order n iter acc :
  (∀ i v, v ∈ order i → v ∈ VertexSet (NetGraph cs0)) → clpa_inv U cs0 acc →
  ∃ acc', clpa_iters n iter order acc = Ret acc' ∧ clpa_inv U cs0 acc'.
Proof.
  intros Ho. revert iter acc. induction n as [|n IH]; intros iter acc Hinv; cbn [clpa_iters]; [by eexists|].
  destruct (go_fold_total (clpa_inv U cs0) clpa_vertex acc (order iter)) as (acc1 & -> & H1); [|done|].
  - intros acc1 v Hv H1. apply clpa_vertex_ok; [done|by eapply Ho].
  - go_step. by apply IH.
Qed.

Lemma AddEdge_placed {PA : Params} U cs u v :
  placed U cs → u ≠ v → cs_ShardNum cs = ShardNum → returns (Addr2Shard u) → returns (Addr2Shard v) →
  ∃ cs', CLPA.AddEdge u v cs = Ret cs' ∧ placed ((u, v) :: U) cs' ∧ cs_ShardNum cs' = ShardNum
    ∧ VertexSet (NetGraph cs') = {[ u; v ]} ∪ VertexSet (NetGraph cs).
Proof.
  intros Hp Hne Hsn Hu Hv. unfold CLPA.AddEdge.
  assert (∀ w c, placed U c → cs_ShardNum c = ShardNum → returns (Addr2Shard w) →
    ∃ c', (if decide (w ∈ VertexSet (NetGraph c)) then Ret c else CLPA.AddVertex w c) = Ret c'
      ∧ placed U c' ∧ cs_ShardNum c' = ShardNum
      ∧ VertexSet (NetGraph c') = {[ w ]} ∪ VertexSet (NetGraph c)) as Hadd.
  { intros w c Hc Hcn Hw. case_decide as Hin.
    - exists c. split_and!; try done. clear -Hin. set_solver.
    - destruct (AddVertex_ok U c w Hc Hin Hcn Hw) as (c' & ? & ? & ? & ? & _). by exists c'. }
  destruct (Hadd u cs Hp Hsn Hu) as (c1 & -> & Hp1 & Hn1 & V1). go_step.
  destruct (Hadd v c1 Hp1 Hn1 Hv) as (c2 & -> & Hp2 & Hn2 & V2). go_step.
  assert (VertexSet (Graph.AddEdge u v (NetGraph c2)) = VertexSet (NetGraph c2)) as HV.
  { assert (u ∈ VertexSet (NetGraph c2) ∧ v ∈ VertexSet (NetGraph c2)) as [Hu2 Hv2]
      by (rewrite V2, V1; clear; set_solver).
    unfold Graph.AddEdge. by rewrite (decide_True _ _ Hu2), (decide_True _ _ Hv2). }
  eexists. split; [done|]. destruct Hp2 as [? Hud ? Hc]. split; [|split; [done|]].
  - split; [done|by apply graph_add_edge|done|]. cbn [set_field VertexsNumInShard cs_ShardNum].
    rewrite Hc. apply table_ext. intros k _. unfold population.
    cbn [set_field cs_PartitionMap NetGraph]. by rewrite HV.
  - cbn [set_field NetGraph]. rewrite HV, V2, V1. clear. set_solver.
Qed.

Module PartitionProps.

(** Adding a transaction between two distinct accounts keeps the CLPA state
    well formed: the graph gains exactly that undirected edge, new accounts are
    placed in their address shard, and the per-shard vertex counters stay right. *)
Theorem AddEdge_keeps_placed {PA : Params} (U : list edge) (cs : CLPAState) (u v : Vertex) :
  placed U cs → u ≠ v → cs_ShardNum cs = ShardNum → returns (Addr2Shard u) → returns (Addr2Shard v) →
  ∃ cs', CLPA.AddEdge u v cs = Ret cs' ∧ placed ((u, v) :: U) cs'
    ∧ VertexSet (NetGraph cs') = {[ u; v ]} ∪ VertexSet (NetGraph cs).
Proof.
  intros. destruct (AddEdge_placed U cs u v) as (cs' & ? & ? & _ & ?); [done..|]. by exists cs'.
Qed.

(** The counters mean what they should: on a well-formed state
    [ComputeEdges2Shard] returns, [Edges2Shard[k]] is the number of undirected edges
    with an end in shard [k], and [CrossShardEdgeNum] the number of edges between
    different shards. *)
Theorem ComputeEdges2Shard_counts (U : list edge) (cs : CLPAState) :
  placed U cs →
  let p := cs_PartitionMap cs in
  ∃ cs', ComputeEdges2Shard cs = Ret cs'
    ∧ (∀ k, 0 ≤ k < cs_ShardNum cs →
         get_at k (Edges2Shard cs') = Ret (cnt (λ e, (shard_in p e.1 =? k) || (shard_in p e.2 =? k)) U))
    ∧ CrossShardEdgeNum cs' = cnt (λ e, negb (shard_in p e.1 =? shard_in p e.2)) U.
Proof.
  intros Hp p. rewrite (placed_counted U cs Hp). eexists. split; [done|]. split; [|done].
  intros k Hk. by apply get_at_table.
Qed.

(** C7. The incremental update is the recomputation: when the counters are up to
    date and one account moves to another shard, [changeShardRecompute] leaves the
    very state that [ComputeEdges2Shard] would compute from scratch. *)
Theorem changeShardRecompute_incremental (U : list edge) (cs : CLPAState) (v : Vertex) (new old : Z) :
  placed U cs → ComputeEdges2Shard cs = Ret cs →
  v ∈ VertexSet (NetGraph cs) → shard_in (cs_PartitionMap cs) v = old →
  0 ≤ new < cs_ShardNum cs → new ≠ old →
  changeShardRecompute v old (cs <| cs_PartitionMap ::= <[v := new]> |>)
  = ComputeEdges2Shard (cs <| cs_PartitionMap ::= <[v := new]> |>).
Proof.
  intros Hp Hcur Hv Hold Hnew Hne. pose proof (pl_shard U cs v Hp) as Hov. rewrite Hold in Hov.
  rewrite (placed_counted U cs Hp) in Hcur. injection Hcur as Hcur.
  rewrite <- Hcur at 1. rewrite (changeShardRecompute_ok cs U v new old (pl_graph _ _ Hp) Hnew Hov Hne Hold).
  symmetry. pose proof (pl_shards _ _ Hp). apply ComputeEdges2Shard_ok; [simpl; lia|apply Hp|].
  intros w _. simpl. rewrite shard_in_insert. case_decide; [done|]. by eapply pl_shard.
Qed.


(** *** Witnesses: five accounts in two shards *)

#[local] Existing Instance params4.
Definition wp_half : spec_float := S754_finite false 4503599627370496 (-53).
Definition cs_init : CLPAState :=
  mkCLPA (mkGraph ∅ ∅) ∅ [] [0; 0] wp_half 0 100 0 2.
Definition build (es : list edge) : go CLPAState :=
  go_fold (λ cs e, CLPA.AddEdge e.1 e.2 cs) cs_init es.
Definition es5 : list edge := [("a0", "b1"); ("b1", "c1"); ("c1", "d1"); ("e0", "a0")]%string.
Definition cs5 : CLPAState := match build es5 with Ret cs => cs | _ => cs_init end.

Lemma cs_init_placed : placed [] cs_init.
Proof.
  split; [simpl; lia| |done|reflexivity]. split; [done|by intros e ?%not_elem_of_nil..].
Qed.

Lemma build_placed es cs :
  build es = Ret cs → (∀ e, e ∈ es → e.1 ≠ e.2 ∧ returns (Addr2Shard e.1) ∧ returns (Addr2Shard e.2)) →
  placed (reverse es) cs.
Proof.
  unfold build.
  assert (∀ U c, placed U c → cs_ShardNum c = 2 → go_fold (λ cs e, CLPA.AddEdge e.1 e.2 cs) c es = Ret cs →
    (∀ e, e ∈ es → e.1 ≠ e.2 ∧ returns (Addr2Shard e.1) ∧ returns (Addr2Shard e.2)) →
    placed (reverse es ++ U) cs) as Hgen.
  { induction es as [|[u v] es IH]; intros U c Hc Hn; cbn [go_fold]; [by intros [= <-] _|].
    intros (c1 & H1 & H2)%bind_Ret Hes.
    destruct (Hes (u, v)) as (? & ? & ?); [by left|].
    destruct (AddEdge_placed U c u v) as (c' & E' & Hc' & Hn' & _); [done..|]. simpl in H1.
    rewrite H1 in E'. injection E' as <-. rewrite reverse_cons, <- (assoc_L (++)).
    apply (IH ((u, v) :: U) c1); [done..|]. intros; apply Hes. by right. }
  intros Hb He. rewrite <- (right_id_L [] (++) (reverse es)). apply (Hgen [] cs_init); try done.
  apply cs_init_placed.
Qed.

Lemma cs5_placed : placed (reverse es5) cs5.
Proof.
  apply (build_placed es5); [vm_compute; reflexivity|].
  each_elem; (split; [done|split; eexists; vm_compute; reflexivity]).
Qed.

Lemma AddEdge_keeps_placed_witness :
  ∃ cs', CLPA.AddEdge "e0" "d1" cs5 = Ret cs' ∧ placed (("e0", "d1")%string :: reverse es5) cs'
    ∧ VertexSet (NetGraph cs') = {[ "e0"; "d1" ]}%string ∪ VertexSet (NetGraph cs5).
Proof.
  apply (AddEdge_keeps_placed (reverse es5) cs5 "e0" "d1");
    [apply cs5_placed|done|reflexivity|eexists; vm_compute; reflexivity|eexists; vm_compute; reflexivity].
Defined.

Lemma ComputeEdges2Shard_counts_witness :
  ∃ cs', ComputeEdges2Shard cs5 = Ret cs'
    ∧ (∀ k, 0 ≤ k < 2 → get_at k (Edges2Shard cs')
        = Ret (cnt (λ e, (shard_in (cs_PartitionMap cs5) e.1 =? k)
                         || (shard_in (cs_PartitionMap cs5) e.2 =? k)) (reverse es5)))
    ∧ CrossShardEdgeNum cs' = 1.
Proof. apply (ComputeEdges2Shard_counts (reverse es5) cs5). apply cs5_placed. Defined.

Definition cs5c : CLPAState := counted (reverse es5) cs5.

Lemma changeShardRecompute_incremental_witness :
  changeShardRecompute "b1" 1 (cs5c <| cs_PartitionMap ::= <["b1"%string := 0]> |>)
  = ComputeEdges2Shard (cs5c <| cs_PartitionMap ::= <["b1"%string := 0]> |>).
Proof.
  apply (changeShardRecompute_incremental (reverse es5) cs5c "b1" 0 1).
  - apply counted_placed, cs5_placed.
  - apply (placed_counted (reverse es5) cs5c). apply counted_placed, cs5_placed.
  - by_compute.
  - reflexivity.
  - by_compute.
  - done.
Defined.


End PartitionProps.
