(* ===== verification/PartitionInit.v ===== *)
(** * Initial partitions

    [Init_Partition] and [Stable_Init_Partition] of partition/partition_go, and
    [CopyCLPA]: both give a state on which the theorems of [PartitionProps] hold. *)

From Stdlib Require Import Ascii.
From S2P Require Import Prelude Params Partition PartitionLemmas PartitionProps.
Import CLPA.

Lemma cnt_pos {A} (f : A → bool) x l : x ∈ l → f x = true → 0 < cnt f l.
Proof.
  induction l as [|y l IH]; intros Hx Hf; [by apply elem_of_nil in Hx|]. rewrite cnt_cons. pose proof (cnt_nonneg f l).
  apply elem_of_cons in Hx as [->|Hx]; [rewrite Hf; lia|]. specialize (IH Hx Hf). destruct (f y); lia.
Qed.

(** ** Loops that give every vertex a shard *)

(** The map and the counters after the assignments [l]. *)
Definition assign_map (l : list (Vertex * Z)) (p : gmap Vertex Z) : gmap Vertex Z :=
  foldl (λ p x, <[x.1 := x.2]> p) p l.
Definition assigned (n : Z) (l : list (Vertex * Z)) : list Z := table n (λ k, cnt (λ x, x.2 =? k) l).

Lemma assign_map_lookup l p v s :
  NoDup l.*1 → (v, s) ∈ l → assign_map l p !! v = Some s.
Proof.
  revert p. induction l as [|[w t] l IH]; intros p Hnd Hin; [by apply elem_of_nil in Hin|].
  apply NoDup_cons in Hnd as [Hw Hnd]. simpl. apply elem_of_cons in Hin as [[= <- <-]|Hin]; [|by apply IH].
  assert (∀ l p, v ∉ l.*1 → assign_map l p !! v = p !! v) as Hother.
  { clear. induction l as [|[w t] l IH]; intros p Hv; [done|]. simpl in *.
    apply not_elem_of_cons in Hv as [? ?]. fold (assign_map l (<[w:=t]> p)). rewrite IH by done. by apply lookup_insert_ne. }
  fold (assign_map l (<[v:=s]> p)). rewrite Hother by done. apply lookup_insert_eq.
Qed.

Lemma assign_map_range l p v s :
  assign_map l p !! v = Some s → (v, s) ∈ l ∨ p !! v = Some s.
Proof.
  revert p. induction l as [|[w t] l IH]; intros p H; simpl in *; [by right|].
  apply IH in H as [H|H]; [left; by right|]. destruct (decide (v = w)) as [->|Hne].
  - rewrite lookup_insert_eq in H. injection H as ->. left. by left.
  - rewrite lookup_insert_ne in H by done. by right.
Qed.

(** Assigning every vertex once gives a well-formed state. *)
Lemma assigned_placed U cs l :
  0 < cs_ShardNum cs < 2 ^ 63 → undirected (NetGraph cs) U →
  l.*1 ≡ₚ elements (VertexSet (NetGraph cs)) → (∀ x, x ∈ l → 0 ≤ x.2 < cs_ShardNum cs) →
  placed U (cs <| cs_PartitionMap := assign_map l ∅ |> <| VertexsNumInShard := assigned (cs_ShardNum cs) l |>).
Proof.
  intros Hn Hu Hl Hr. assert (NoDup l.*1) as Hnd by (rewrite Hl; apply NoDup_elements).
  split; simpl; [done|done| |].
  - intros v s [H|H]%assign_map_range; [by apply (Hr (v, s))|by rewrite lookup_empty in H].
  - apply table_ext. intros k _. unfold population. rewrite <- (cnt_perm _ _ _ Hl), cnt_fmap.
    apply cnt_ext. intros [v s] Hin. unfold shard_in. by rewrite (assign_map_lookup l ∅ v s).
Qed.

(** One more assignment. *)
Lemma assigned_snoc n l (v : Vertex) s :
  0 ≤ s < n → add_at s 1 (assigned n l) = Ret (assigned n (l ++ [(v, s)])).
Proof.
  intros Hx. unfold assigned. rewrite add_at_table by done. f_equal. apply table_ext. intros k _.
  rewrite cnt_app, cnt_cons. unfold cnt at 3. simpl. unfold at_. rewrite (Z.eqb_sym k). destruct (s =? k); lia.
Qed.
Lemma assign_map_snoc l v s p : assign_map (l ++ [(v, s)]) p = <[v := s]> (assign_map l p).
Proof. unfold assign_map. by rewrite foldl_app. Qed.

(** [Stable_Init_Partition] deals the vertices round the shards, from number [c]. *)
Fixpoint deal (n c : Z) (order : list Vertex) : list (Vertex * Z) :=
  match order with [] => [] | v :: order => (v, c `mod` n) :: deal n (c + 1) order end.

Lemma deal_keys n c order : (deal n c order).*1 = order.
Proof. revert c. induction order as [|v order IH]; intros c; csimpl; [done|]. by rewrite IH. Qed.
Lemma deal_range n c order x : 0 < n → x ∈ deal n c order → 0 ≤ x.2 < n.
Proof.
  intros Hn. revert c. induction order as [|v order IH]; intros c; [by intros ?%elem_of_nil|].
  intros [->|H]%elem_of_cons; [by apply Z.mod_pos_bound|by eapply IH].
Qed.
Lemma deal_lookup n c order i v : order !! i = Some v → (v, (c + Z.of_nat i) `mod` n) ∈ deal n c order.
Proof.
  revert c i. induction order as [|w order IH]; intros c [|i] H; simpl in *; try done.
  - injection H as ->. rewrite Z.add_0_r. by left.
  - right. replace (c + Z.of_nat (S i)) with (c + 1 + Z.of_nat i) by lia. by apply IH.
Qed.

Lemma stable_loop n c done_ order :
  0 < n → 0 ≤ c →
  go_fold (stable_step n) (c, assign_map done_ ∅, assigned n done_) order
  = Ret (c + len order, assign_map (done_ ++ deal n c order) ∅, assigned n (done_ ++ deal n c order)).
Proof.
  intros Hn. revert c done_. induction order as [|v order IH]; intros c done_ Hc; simpl.
  { by rewrite len_nil, Z.add_0_r, (right_id_L [] (++)). }
  rewrite Z.rem_mod_nonneg by lia. rewrite (assigned_snoc n done_ v) by by apply Z.mod_pos_bound.
  simpl. rewrite <- assign_map_snoc, IH by lia.
  rewrite <- (assoc_L (++)). simpl. by rewrite len_cons, Z.add_assoc.
Qed.

(** [Init_Partition] reads the shard off the address, as [Addr2Shard] does. *)
Lemma tail8_last8 a : (8 <= String.length a)%nat → tail8 a = Ret (last8 a).
Proof.
  intros H. unfold tail8, last8. rewrite (proj2 (Nat.ltb_ge _ _)) by done.
  destruct (8 <? String.length a)%nat eqn:E; [done|]. apply Nat.ltb_ge in E. f_equal.
  replace (String.length a - 8)%nat with 0%nat by lia. replace 8%nat with (String.length a) by lia.
  clear. induction a as [|c a IH]; simpl; [done|]. by rewrite IH.
Qed.

Lemma ParseInt16_unsigned s n : ParseUint16 s = Some n → n < 2 ^ 63 → ParseInt16 s = Some n.
Proof.
  intros H Hn. destruct s as [|c s]; [done|]. unfold ParseInt16.
  destruct (Ascii.eqb_spec c "-"%char) as [->|Hm]; [by vm_compute in H|].
  destruct (Ascii.eqb_spec c "+"%char) as [->|Hp]; [by vm_compute in H|].
  cbn [orb]. rewrite H. simpl. by rewrite (proj2 (Z.ltb_lt _ _)).
Qed.

Lemma init_step_ok {PA : Params} done_ v s :
  0 < ShardNum → (8 <= String.length v)%nat → Addr2Shard v = Ret s →
  init_step ShardNum (assign_map done_ ∅, assigned ShardNum done_) v
  = Ret (assign_map (done_ ++ [(v, s)]) ∅, assigned ShardNum (done_ ++ [(v, s)])).
Proof.
  intros Hn Hv Ha. destruct (Addr2Shard_eq v s Hn Ha) as (num & Hp & ->).
  pose proof (parse_last8_bound v num Hp). unfold init_step. rewrite tail8_last8 by done. simpl.
  rewrite (ParseInt16_unsigned _ _ Hp) by lia. simpl. rewrite (proj2 (Z.eqb_neq _ _)) by lia.
  rewrite Z.rem_mod_nonneg by lia.
  rewrite (assigned_snoc _ done_ v) by (apply Z.mod_pos_bound; lia). simpl.
  by rewrite <- assign_map_snoc.
Qed.

Lemma init_loop {PA : Params} done_ order :
  0 < ShardNum → (∀ v, v ∈ order → (8 <= String.length v)%nat ∧ returns (Addr2Shard v)) →
  ∃ l, go_fold (init_step ShardNum) (assign_map done_ ∅, assigned ShardNum done_) order
       = Ret (assign_map (done_ ++ l) ∅, assigned ShardNum (done_ ++ l))
    ∧ l.*1 = order ∧ ∀ x, x ∈ l → Addr2Shard x.1 = Ret x.2.
Proof.
  intros Hn. revert done_. induction order as [|v order IH]; intros done_ Ho; simpl.
  { exists []. rewrite (right_id_L [] (++)). split_and!; [done..|]. by intros x ?%elem_of_nil. }
  destruct (Ho v) as [Hv [s Hs]]; [by left|]. rewrite (init_step_ok done_ v s) by done. simpl.
  destruct (IH (done_ ++ [(v, s)])) as (l & -> & Hk & Hl); [intros w Hw; apply Ho; by right|].
  exists ((v, s) :: l). rewrite <- (assoc_L (++)). csimpl. rewrite Hk. split_and!; [done..|].
  by intros x [->|Hx]%elem_of_cons; [|apply Hl].
Qed.

(** A copy has the values of the source, up to what is not copied. *)
Lemma CopyGraph_lookup src dst v :
  v ∈ VertexSet src → neighbours (Graph.CopyGraph false src dst) v = neighbours src v.
Proof.
  intros Hv. unfold neighbours, Graph.CopyGraph. simpl.
  enough ((set_to_map (λ v, (v, default [] (EdgeSet src !! v))) (VertexSet src) : gmap Vertex (list Vertex)) !! v
    = Some (default [] (EdgeSet src !! v))) as -> by done.
  apply lookup_set_to_map; [naive_solver|]. by exists v.
Qed.

Lemma counted_fixed U cs : placed U cs → ComputeEdges2Shard (counted U cs) = Ret (counted U cs).
Proof. intros Hp. rewrite (placed_counted U _ (counted_placed U cs Hp)). by rewrite counted_idem. Qed.

Module PartitionInit.

(** The dealt partition: with at least one account for every shard,
    [Stable_Init_Partition] returns, in whatever order Go visits the accounts; the state
    is well formed, its edge counters are up to date, the graph is untouched, and no
    shard is without an account.  With fewer accounts than shards it returns an error. *)
Theorem Stable_Init_Partition_fills (U : list edge) (cs : CLPAState) (order : list Vertex) :
  0 < cs_ShardNum cs < 2 ^ 63 → undirected (NetGraph cs) U →
  order ≡ₚ elements (VertexSet (NetGraph cs)) →
  if decide (cs_ShardNum cs ≤ len order) then
    ∃ cs', Stable_Init_Partition order cs = Ret (Some cs')
      ∧ placed U cs' ∧ ComputeEdges2Shard cs' = Ret cs' ∧ NetGraph cs' = NetGraph cs
      ∧ ∀ k, 0 ≤ k < cs_ShardNum cs → 0 < population (cs_PartitionMap cs') (NetGraph cs) k
  else Stable_Init_Partition order cs = Ret None.
Proof.
  intros Hn Hu Ho. unfold Stable_Init_Partition.
  assert (Z.of_nat (size (VertexSet (NetGraph cs))) = len order) as ->.
  { unfold len, size, set_size. simpl. by rewrite <- Ho. }
  case_decide as Hd.
  2: { by rewrite (proj2 (Z.ltb_lt _ _)) by lia. }
  rewrite (proj2 (Z.ltb_ge _ _)) by done. rewrite make_ints_table by lia. go_step.
  pose proof (stable_loop (cs_ShardNum cs) 0 [] order) as Hloop. cbn [assign_map foldl app] in Hloop.
  change (assigned (cs_ShardNum cs) []) with (table (cs_ShardNum cs) (λ _, 0)) in Hloop.
  rewrite Hloop by lia. go_step. set (l := deal (cs_ShardNum cs) 0 order).
  assert (placed U (cs <| cs_PartitionMap := assign_map l ∅ |> <| VertexsNumInShard := assigned (cs_ShardNum cs) l |>))
    as Hp.
  { apply assigned_placed; [done..|unfold l; by rewrite deal_keys|]. intros x Hx. eapply deal_range; [lia|exact Hx]. }
  change (foldl _ ∅ l) with (assign_map l ∅). rewrite (placed_counted U _ Hp). go_step.
  eexists. split; [done|]. split_and!; [by apply counted_placed|by apply counted_fixed|done|].
  intros k Hk. destruct (lookup_lt_is_Some_2 order (Z.to_nat k)) as [v Hv]; [unfold len in Hd; lia|].
  pose proof (deal_lookup (cs_ShardNum cs) 0 order _ v Hv) as Hin.
  rewrite Z2Nat.id, Z.add_0_l, Z.mod_small in Hin by lia.
  unfold population. simpl. apply (cnt_pos _ v).
  - rewrite <- Ho. by eapply list_elem_of_lookup_2.
  - unfold shard_in. rewrite (assign_map_lookup l ∅ v k); [by rewrite Z.eqb_refl| |done].
    unfold l. rewrite deal_keys, Ho. apply NoDup_elements.
Qed.

(** The partition by address: when all addresses have at least eight digits, all of them
    hexadecimal, [Init_Partition] returns, in whatever order Go visits the accounts; every
    account is where [Addr2Shard] puts it, the state is well formed and its edge counters
    are up to date. *)
Theorem Init_Partition_is_default {PA : Params} (U : list edge) (cs : CLPAState) (order : list Vertex) :
  cs_ShardNum cs = ShardNum → 0 < ShardNum < 2 ^ 63 → undirected (NetGraph cs) U →
  order ≡ₚ elements (VertexSet (NetGraph cs)) →
  (∀ v, v ∈ order → (8 <= String.length v)%nat ∧ returns (Addr2Shard v)) →
  ∃ cs', Init_Partition order cs = Ret cs'
    ∧ placed U cs' ∧ ComputeEdges2Shard cs' = Ret cs' ∧ NetGraph cs' = NetGraph cs
    ∧ ∀ v, v ∈ order → Addr2Shard v = Ret (shard_in (cs_PartitionMap cs') v).
Proof.
  intros Hs Hn Hu Ho Hv. unfold Init_Partition. rewrite Hs, make_ints_table by lia. go_step.
  destruct (init_loop [] order) as (l & Hloop & Hk & Hl); [lia|done|]. cbn [assign_map foldl app] in Hloop.
  change (assigned ShardNum []) with (table ShardNum (λ _, 0)) in Hloop. rewrite Hloop. go_step.
  rewrite <- Hs. assert (placed U (cs <| cs_PartitionMap := assign_map l ∅ |> <| VertexsNumInShard := assigned (cs_ShardNum cs) l |>))
    as Hp.
  { apply assigned_placed; [by rewrite Hs|done|by rewrite Hk|]. intros x Hx. rewrite Hs.
    eapply Addr2Shard_bound; [lia|by apply Hl]. }
  change (foldl _ ∅ l) with (assign_map l ∅). rewrite (placed_counted U _ Hp). eexists. split; [done|].
  split_and!; [by apply counted_placed|by apply counted_fixed|done|].
  intros v Hin. rewrite <- Hk in Hin. apply list_elem_of_fmap in Hin as ([w s] & -> & Hin).
  rewrite (Hl _ Hin). simpl. unfold shard_in. rewrite (assign_map_lookup l ∅ w s); [done| |done].
  rewrite Hk, Ho. apply NoDup_elements.
Qed.

End PartitionInit.
