(* ===== verification/Pbft.v ===== *)
(** * The PBFT node

    [consensus_shard/pbft_all/pbft.go], [messageHandle.go], [view_change.go],
    [toolFuncs.go], [pbftMod_interface.go].

    - A node is one [PbftNode] record; the state of the plugged-in module (the
      source's [ihm] and [ohm] with their shared data) is the parameter [M].
    - Handlers take decoded messages.  The body of a handler is what runs between
      the second [pbftLock.Lock] and its release; [must_wait] is the test before
      [conditionalVarpbftLock.Wait]; the two are put together by the step relation
      of [PbftSteps.v].
    - [*shard.Node] keys are pointers: each decoded message brings a new one, taken
      from the counter [fresh].
    - What is sent is appended to [out] as (address, message); logging, sleeping and
      CSV files are left out; a clock reading is the argument [now].
    - [isCommitBordcast] and [isReply] only ever hold [true]: they are sets. *)

From S2P Require Import Prelude Params Core Message External Storage Chain MerkleProof.

Abbreviation ptr := Z (only parsing).

Record PbftNode `{External} (M : Type) := mkPbft {
  RunningNode : Node;
  pn_ShardID : Z;
  pn_NodeID : Z;
  CurChain : BlockChain;
  pbftChainConfig : ChainConfig;
  ip_nodeTable : gmap Z (gmap Z string);
  node_nums : Z;
  malicious_nums : Z;
  view : Z;
  lastCommitTime : Z;
  viewChangeMap : gmap (Z * Z) (gset Z);
  newViewMap : gmap (Z * Z) (gset Z);
  sequenceID : Z;
  stopSignal : bool;
  requestPool : gmap string (option Request);      (* [None]: a nil pointer *)
  cntPrepareConfirm : gmap string (gset ptr);
  cntCommitConfirm : gmap string (gset ptr);
  isCommitBordcast : gset string;
  isReply : gset string;
  height2Digest : gmap Z string;
  pbftStage : Z;
  sequenceLock : bool;
  askForLock : bool;
  seqIDMap : gmap Z Z;
  pn_mod : M;
  fresh : ptr;
  out : list (string * payload)
}.
Arguments mkPbft {_ _}.
Arguments RunningNode {_ _}. Arguments pn_ShardID {_ _}. Arguments pn_NodeID {_ _}.
Arguments CurChain {_ _}. Arguments pbftChainConfig {_ _}. Arguments ip_nodeTable {_ _}.
Arguments node_nums {_ _}. Arguments malicious_nums {_ _}. Arguments view {_ _}.
Arguments lastCommitTime {_ _}. Arguments viewChangeMap {_ _}. Arguments newViewMap {_ _}.
Arguments sequenceID {_ _}. Arguments stopSignal {_ _}. Arguments requestPool {_ _}.
Arguments cntPrepareConfirm {_ _}. Arguments cntCommitConfirm {_ _}.
Arguments isCommitBordcast {_ _}. Arguments isReply {_ _}. Arguments height2Digest {_ _}.
Arguments pbftStage {_ _}. Arguments sequenceLock {_ _}. Arguments askForLock {_ _}.
Arguments seqIDMap {_ _}. Arguments pn_mod {_ _}. Arguments fresh {_ _}. Arguments out {_ _}.

#[export] Instance PbftNode_eta `{External} M : Eta (PbftNode M) := λ r,
  mkPbft (RunningNode r) (pn_ShardID r) (pn_NodeID r) (CurChain r) (pbftChainConfig r)
    (ip_nodeTable r) (node_nums r) (malicious_nums r) (view r) (lastCommitTime r)
    (viewChangeMap r) (newViewMap r) (sequenceID r) (stopSignal r) (requestPool r)
    (cntPrepareConfirm r) (cntCommitConfirm r) (isCommitBordcast r) (isReply r)
    (height2Digest r) (pbftStage r) (sequenceLock r) (askForLock r) (seqIDMap r)
    (pn_mod r) (fresh r) (out r).

(** ** [pbftMod_interface.go]: what a consensus module provides

    A proposal may have to wait for other shards, polling with [time.Sleep]: its
    second argument lists, for each sleep, the messages from outside the shard that
    the node handles meanwhile. *)

Class ExtraOpInConsensus `{External} (M : Type) := {
  HandleinPropose : Time → list (list payload) → PbftNode M → go (bool * option Request * PbftNode M);
  HandleinPrePrepare : PrePrepare → PbftNode M → go (bool * PbftNode M);
  HandleinPrepare : Prepare → PbftNode M → go (bool * PbftNode M);
  HandleinCommit : Time → Commit → PbftNode M → go (bool * PbftNode M);
  HandleReqestforOldSeq : RequestOldMessage → PbftNode M → go (bool * PbftNode M);
  HandleforSequentialRequest : SendOldMessage → PbftNode M → go (bool * PbftNode M)
}.

Class OpInterShards `{External} (M : Type) := {
  HandleMessageOutsidePBFT : Time → payload → PbftNode M → go (PbftNode M)
}.

Section pbft.
Context {PA : Params} {EX : External} {M : Type}.
Implicit Type p : PbftNode M.

(** ** [toolFuncs.go] *)

Definition set2DMap (isPrePareConfirm : bool) (key : string) (val : ptr) p : PbftNode M :=
  let add (m : gmap string (gset ptr)) := <[key := {[ val ]} ∪ default ∅ (m !! key)]> m in
  if isPrePareConfirm then p <| cntPrepareConfirm ::= add |> else p <| cntCommitConfirm ::= add |>.

(** The addresses of a shard, in the order Go happens to visit the table. *)
Definition getNodeIpsWithinShard (shardID : Z) p : list string :=
  (map_to_list (default ∅ (ip_nodeTable p !! shardID))).*2.
Definition getNeighborNodes p : list string := getNodeIpsWithinShard (pn_ShardID p) p.

(** [p.ip_nodeTable[sid][nid]]: the empty string when missing. *)
Definition ip_of (sid nid : Z) p : string := default "" (m ← ip_nodeTable p !! sid; m !! nid).

(** [json.Marshal] of a request pointer. *)
Definition json_Request_ptr (r : option Request) : bytes :=
  match r with Some r => json_Request r | None => "null" end.
Definition getDigest (r : option Request) : bytes := Sum256 (json_Request_ptr r).

Definition computeTCL (txs : list Transaction) (commitTS : Time) : Z :=
  foldl (λ ret tx, i64 (ret + Milliseconds (Sub commitTS (tx_Time tx)))) 0 txs.

(** [networks.TcpDial] and [networks.Broadcast] of a message. *)
Definition TcpDial (m : payload) (ip : string) p : PbftNode M := p <| out ::= λ o, o ++ [(ip, m)] |>.
Definition Broadcast (sender : string) (receivers : list string) (m : payload) p : PbftNode M :=
  p <| out ::= λ o, o ++ ((λ ip, (ip, m)) <$> filter (λ ip, ip ≠ sender) receivers) |>.
(** Broadcast to the shard, then to oneself. *)
Definition send_all (m : payload) p : PbftNode M :=
  let ip := n_IPaddr (RunningNode p) in
  TcpDial m ip (Broadcast ip (getNeighborNodes p) m p).

(** The shard IDs [0 .. ShardNums-1] without one's own. *)
Definition other_shards p : list Z :=
  filter (λ sid, sid ≠ pn_ShardID p) (seqZ 0 (ShardNums (pbftChainConfig p))).

Definition clear_relay p : go (PbftNode M) :=
  pool ← ClearRelayPool (bc_Txpool (CurChain p));
  Ret (p <| CurChain ::= λ bc, bc <| bc_Txpool := pool |> |>).

Definition RelayMsgSend p : go (PbftNode M) :=
  if negb (RelayWithMerkleProof =? 0) then Panic "Parameter Error: RelayWithMerkleProof should be 0"
  else
    let send p sid :=
      TcpDial (MRelay (mkRelay (relay_of (bc_Txpool (CurChain p)) sid) (pn_ShardID p) (sequenceID p)))
              (ip_of sid 0 p) p in
    clear_relay (foldl send p (other_shards p)).

Definition RelayWithProofSend (block : Block) p : go (PbftNode M) :=
  if negb (RelayWithMerkleProof =? 1) then Panic "Parameter Error: RelayWithMerkleProof should be 1"
  else
    let send p sid :=
      let txs := relay_of (bc_Txpool (CurChain p)) sid in
      txProofs ← TxProofBatchGenerateOnBlock (tx_TxHash <$> txs) block;
      Ret (TcpDial (MRelayWithProof (mkRelayWithProof txs txProofs (pn_ShardID p) (sequenceID p)))
                   (ip_of sid 0 p) p) in
    p ← go_fold send p (other_shards p); clear_relay p.

(** The list keeps its length; the survivors are moved to the front; the result is
    [list[:-removedCnt]]. *)
Definition DeleteElementsInList (l elements : list Transaction) : go (list Transaction) :=
  let hashes : list bytes := tx_TxHash <$> elements in
  let removed := filter (λ tx, tx_TxHash tx ∈ hashes) l in
  let removedCnt := len removed in
  if - removedCnt <? 0 then Panic "slice bounds out of range"
  else Ret (take (Z.to_nat (- removedCnt)) l).

(** ** [pbft.go]: a new node *)

Definition NewPbftNode (shardID nodeID : Z) (pcc : ChainConfig) (now : Time)
    (IPmap_nodeTable : gmap Z (gmap Z string)) (chain : BlockChain) (m : M) : PbftNode M :=
  let ip := default "" (t ← IPmap_nodeTable !! shardID; t !! nodeID) in
  mkPbft (mkNode nodeID shardID ip) shardID nodeID chain pcc IPmap_nodeTable
    (Nodes_perShard pcc) (u64 (Nodes_perShard pcc - 1) `div` 3)
    0 (UnixMilli (now + 5 * 1000000000)) ∅ ∅
    (u64 (bh_Number (b_Header (bc_CurrentBlock chain)) + 1)) false
    ∅ ∅ ∅ ∅ ∅ ∅ 1 false false ∅ m 0 [].

(** ** [messageHandle.go] *)

(** [p.view.Load()] as the [uint64] it is compared with. *)
Definition is_leader p : bool := u64 (view p) =? pn_NodeID p.

(** The condition on which a handler for stage [k] waits; [curView] is the view it
    has read on entry. *)
Definition must_wait (k seq curView : Z) p : bool :=
  (pbftStage p <? k) && (sequenceID p <=? seq) && (view p =? curView).

Definition quorum p : Z := 2 * malicious_nums p + 1.

(** A mutex that is not held can be locked; a held one can be unlocked. *)
Definition lock_seq p : go (PbftNode M) :=
  if sequenceLock p then Blocked "sequenceLock" else Ret (p <| sequenceLock := true |>).
Definition unlock_seq p : go (PbftNode M) :=
  if sequenceLock p then Ret (p <| sequenceLock := false |>)
  else Panic "sync: unlock of unlocked mutex".

Definition store_request (r : option Request) (seq : Z) p : PbftNode M :=
  p <| requestPool ::= <[getDigest r := r]> |> <| height2Digest ::= <[seq := getDigest r]> |>.

Context {MI : ExtraOpInConsensus M}.

(** The leader's turn, after the signal that a new round begins. *)
Definition propose_round (now : Time) (polls : list (list payload)) p : go (PbftNode M) :=
  if negb (is_leader p) then Ret p
  else
    p ← lock_seq p;
    '(isLocal, r, p) ← HandleinPropose now polls p;
    match isLocal, r with
    | false, Some _ =>
        unlock_seq (p <| pbftStage := 1 |> <| lastCommitTime := UnixMilli now |>)
    | _, _ =>
        '(r, p) ← match r with
                  | Some r => Ret (r, p)
                  | None =>
                      '(block, bc) ← GenerateBlock now (i32 (pn_NodeID p)) (CurChain p);
                      Ret (mkRequest BlockRequest (enc block) now, p <| CurChain := bc |>)
                  end;
        let digest := getDigest (Some r) in
        let p := p <| requestPool ::= <[digest := Some r]> |>
                   <| height2Digest ::= <[sequenceID p := digest]> |> in
        let p := send_all (MPrePrepare (mkPrePrepare (Some r) digest (sequenceID p))) p in
        Ret (p <| pbftStage := 2 |>)
    end.

Definition handlePrePrepare (curView : Z) (ppmsg : PrePrepare) p : go (PbftNode M) :=
  if (pp_SeqID ppmsg <? sequenceID p) || negb (view p =? curView) then Ret p
  else if negb (String.eqb (getDigest (pp_RequestMsg ppmsg)) (pp_Digest ppmsg)) then Ret p
  else if sequenceID p <? pp_SeqID ppmsg then
    Ret (store_request (pp_RequestMsg ppmsg) (pp_SeqID ppmsg) p)
  else
    '(flag, p) ← HandleinPrePrepare ppmsg p;
    let p := store_request (pp_RequestMsg ppmsg) (pp_SeqID ppmsg) p in
    if (flag : bool) then
      let p := send_all (MPrepare (mkPrepare (pp_Digest ppmsg) (pp_SeqID ppmsg) (RunningNode p))) p in
      Ret (p <| pbftStage ::= λ s, i32 (s + 1) |>)
    else Ret p.

(** The votes counted for a digest. *)
Definition prepares (d : bytes) p : Z := Z.of_nat (size (default ∅ (cntPrepareConfirm p !! d))).
Definition commits (d : bytes) p : Z := Z.of_nat (size (default ∅ (cntCommitConfirm p !! d))).

(** A new pointer for the sender of the message. *)
Definition vote (isPrePareConfirm : bool) (d : bytes) p : PbftNode M :=
  (set2DMap isPrePareConfirm d (fresh p) p) <| fresh ::= Z.succ |>.

Definition handlePrepare (curView : Z) (pmsg : Prepare) p : go (PbftNode M) :=
  if (p_SeqID pmsg <? sequenceID p) || negb (view p =? curView) then Ret p
  else
    match requestPool p !! p_Digest pmsg with
    | None => Ret p
    | Some _ =>
        if sequenceID p <? p_SeqID pmsg then Ret p
        else
          '(_, p) ← HandleinPrepare pmsg p;
          let p := vote true (p_Digest pmsg) p in
          if (quorum p <=? prepares (p_Digest pmsg) p)
             && negb (bool_decide (p_Digest pmsg ∈ isCommitBordcast p)) then
            let p := send_all (MCommit (mkCommit (p_Digest pmsg) (p_SeqID pmsg) (RunningNode p))) p in
            Ret (p <| isCommitBordcast ::= λ s, {[ p_Digest pmsg ]} ∪ s |>
                   <| pbftStage ::= λ s, i32 (s + 1) |>)
          else Ret p
    end.

(** The request for what is missing; the mutex [askForLock] is taken. *)
Definition ask_old (cmsg : Commit) p : go (PbftNode M) :=
  let p := p <| isReply ::= λ s, {[ c_Digest cmsg ]} ∪ s |> in
  if askForLock p then Blocked "askForLock"
  else
    let v := u64 (view p) in
    let sn := mkNode v (pn_ShardID p) (ip_of (pn_ShardID p) v p) in
    let orequest := mkRequestOld (u64 (sequenceID p + 1)) (c_SeqID cmsg) sn (RunningNode p) in
    Ret (TcpDial (MRequestOld orequest) (n_IPaddr sn) (p <| askForLock := true |>)).

(** The execution of a committed request. *)
Definition execute (now : Time) (cmsg : Commit) p : go (PbftNode M) :=
  '(_, p) ← HandleinCommit now cmsg p;
  Ret (p <| isReply ::= λ s, {[ c_Digest cmsg ]} ∪ s |> <| sequenceID ::= λ s, u64 (s + 1) |>).

Definition handleCommit (now : Time) (curView : Z) (cmsg : Commit) p : go (PbftNode M) :=
  if (c_SeqID cmsg <? sequenceID p) || negb (view p =? curView) then Ret p
  else
    let p := vote false (c_Digest cmsg) p in
    if (quorum p <=? commits (c_Digest cmsg) p)
       && negb (bool_decide (c_Digest cmsg ∈ isReply p)) then
      p ← match requestPool p !! c_Digest cmsg with
          | None => ask_old cmsg p
          | Some _ => execute now cmsg p
          end;
      let p := p <| pbftStage := 1 |> <| lastCommitTime := UnixMilli now |> in
      if is_leader p then unlock_seq p else Ret p
    else Ret p.

(** The requests from [height] up, as far as they are known without a gap. *)
Fixpoint old_requests (n : nat) (height : Z) p : list (option Request) :=
  match n with
  | O => []
  | S n =>
      match height2Digest p !! height with
      | None => []
      | Some d =>
          match requestPool p !! d with
          | None => []
          | Some r => r :: old_requests n (height + 1) p
          end
      end
  end.

Definition handleRequestOldSeq (rom : RequestOldMessage) p : go (PbftNode M) :=
  if negb (is_leader p) then Ret p
  else
    let n := Z.to_nat (ro_SeqEndHeight rom - ro_SeqStartHeight rom + 1) in
    let oldR := old_requests n (ro_SeqStartHeight rom) p in
    '(_, p) ← HandleReqestforOldSeq rom p;
    let sb := mkSendOld (ro_SeqStartHeight rom) (ro_SeqEndHeight rom) oldR (RunningNode p) in
    Ret (TcpDial (MSendOld sb) (n_IPaddr (ro_SenderNode rom)) p).

(** Old requests go into the pool from [beginSeq] up, marked as replied. *)
Fixpoint store_old (beginSeq : Z) (rs : list (option Request)) p : PbftNode M :=
  match rs with
  | [] => p
  | r :: rs =>
      let d := getDigest r in
      store_old (u64 (beginSeq + 1)) rs
        (p <| requestPool ::= <[d := r]> |> <| height2Digest ::= <[beginSeq := d]> |>
           <| isReply ::= λ s, {[ d ]} ∪ s |>)
  end.

(** A pre-prepare that arrived early for the sequence that is now current. *)
Definition resume (p : PbftNode M) : go (PbftNode M) :=
  match d ← height2Digest p !! sequenceID p; requestPool p !! d with
  | None => Ret p
  | Some r =>
      let ppmsg := mkPrePrepare r (getDigest r) (sequenceID p) in
      '(flag, p) ← HandleinPrePrepare ppmsg p;
      if (flag : bool) then
        Ret (Broadcast (n_IPaddr (RunningNode p)) (getNeighborNodes p)
               (MPrepare (mkPrepare (pp_Digest ppmsg) (pp_SeqID ppmsg) (RunningNode p))) p)
      else Ret p
  end.

Definition handleSendOldSeq (som : SendOldMessage) p : go (PbftNode M) :=
  '(_, p) ← HandleforSequentialRequest som p;
  let p := store_old (so_SeqStartHeight som) (so_OldRequest som) p in
  p ← resume (p <| sequenceID := u64 (so_SeqEndHeight som + 1) |>);
  if askForLock p then Ret (p <| askForLock := false |>) else Panic "sync: unlock of unlocked mutex".

(** ** [view_change.go] *)

Definition next_view p : go Z :=
  if i64 (node_nums p) =? 0 then Panic "integer divide by zero"
  else Ret (Z.rem (i32 (view p + 1)) (i64 (node_nums p))).

Definition viewChangePropose p : go (PbftNode M) :=
  let p := p <| pbftStage := 5 |> in
  nv ← next_view p;
  Ret (send_all (MViewChange (mkViewChange (view p) nv (i64 (sequenceID p)) (pn_NodeID p))) p).

(** One turn of the watchdog of [Propose]. *)
Definition watchdog (now : Time) p : go (PbftNode M) :=
  if PbftViewChangeTimeOut <? UnixMilli now - lastCommitTime p then
    viewChangePropose (p <| lastCommitTime := UnixMilli now |>)
  else Ret p.

Definition supporters (m : gmap (Z * Z) (gset Z)) (k : Z * Z) : gset Z := default ∅ (m !! k).
Definition support (k : Z * Z) (who : Z) (m : gmap (Z * Z) (gset Z)) : gmap (Z * Z) (gset Z) :=
  <[k := {[ who ]} ∪ supporters m k]> m.

Definition handleViewChangeMsg (vcmsg : ViewChangeMsg) p : go (PbftNode M) :=
  let vcData := (vc_NextView vcmsg, vc_SeqID vcmsg) in
  let p := p <| viewChangeMap ::= support vcData (vc_FromNode vcmsg) |> in
  if Z.of_nat (size (supporters (viewChangeMap p) vcData)) =? 2 * i64 (malicious_nums p) + 1 then
    nv ← next_view p;
    Ret (send_all (MNewView (mkNewView (view p) nv (i64 (sequenceID p)) (pn_NodeID p))) p)
  else Ret p.

Definition handleNewViewMsg (now : Time) (nvmsg : NewViewMsg) p : go (PbftNode M) :=
  let vcData := (nv_NextView nvmsg, nv_NewSeqID nvmsg) in
  let p := p <| newViewMap ::= support vcData (nv_FromNode nvmsg) |> in
  if Z.of_nat (size (supporters (newViewMap p) vcData)) =? 2 * i64 (malicious_nums p) + 1 then
    Ret (p <| view := i32 (nv_NextView nvmsg) |> <| sequenceID := u64 (nv_NewSeqID nvmsg) |>
           <| pbftStage := 1 |> <| lastCommitTime := UnixMilli now |>)
  else Ret p.

(** [WaitToStop]: the databases and the network are closed, which is not modelled. *)
Definition WaitToStop p : PbftNode M := p <| stopSignal := true |>.

End pbft.
