(* ===== verification/PbftSteps.v ===== *)
(** * PBFT: the step relation of one node, and its safety invariants

    [handlePrePrepare], [handlePrepare] and [handleCommit] run in goroutines: a
    message is taken in, waits while its stage has not come, is woken by any handler
    that ends, and its body then runs under [pbftLock].  The other handlers run at
    any moment; each is one step.  The modules are abstract: [ConsensusLaws] states
    what the node relies on, and the module files discharge it. *)

From S2P Require Import Prelude Params Core Message External Storage Chain MerkleProof Pbft.

(** ** What a module may do *)

(** Messages of the consensus itself, which modules never send. *)
Definition is_vote (m : payload) : bool :=
  match m with MPrepare _ | MCommit _ | MPrePrepare _ | MViewChange _ | MNewView _ => true | _ => false end.

Section laws.
Context `{External} {M : Type}.

(** [p'] differs from [p] in the chain, the module, the request pool and the seq-ID
    map at most; it has sent no message of the consensus. *)
Record module_step (p p' : PbftNode M) : Prop := {
  ms_node : RunningNode p' = RunningNode p;
  ms_shard : pn_ShardID p' = pn_ShardID p;
  ms_id : pn_NodeID p' = pn_NodeID p;
  ms_nums : node_nums p' = node_nums p;
  ms_table : ip_nodeTable p' = ip_nodeTable p;
  ms_malicious : malicious_nums p' = malicious_nums p;
  ms_view : view p' = view p;
  ms_prepares : cntPrepareConfirm p' = cntPrepareConfirm p;
  ms_commits : cntCommitConfirm p' = cntCommitConfirm p;
  ms_broadcast : isCommitBordcast p' = isCommitBordcast p;
  ms_reply : isReply p' = isReply p;
  ms_stage : pbftStage p' = pbftStage p;
  ms_seqlock : sequenceLock p' = sequenceLock p;
  ms_asklock : askForLock p' = askForLock p;
  ms_fresh : fresh p' = fresh p;
  ms_out : ∃ o, out p' = out p ++ o ∧ Forall (λ m, is_vote m.2 = false) o
}.

#[export] Instance module_step_preorder : PreOrder module_step.
Proof.
  split.
  - intros p. split; try done. exists []. by rewrite (right_id_L [] (++)).
  - intros p1 p2 p3 [] [? ? ? ? ? ? ? ? ? ? ? ? ? ? ? (o2 & E2 & F2)].
    destruct ms_out0 as (o1 & E1 & F1). split; try congruence.
    exists (o1 ++ o2). rewrite E2, E1, (assoc_L (++)). split; [done|by apply Forall_app].
Qed.

(** A run of an operation [op] that returns [r] with state [p']. *)
Definition runs {R} (op : PbftNode M → go (R * PbftNode M)) (Q : PbftNode M → PbftNode M → Prop) : Prop :=
  ∀ p r p', op p = Ret (r, p') → Q p p'.

Class ConsensusLaws `{!ExtraOpInConsensus M} := {
  law_propose now polls : runs (HandleinPropose now polls) (λ p p', module_step p p'
    ∧ sequenceID p' = sequenceID p ∧ requestPool p' = requestPool p ∧ height2Digest p' = height2Digest p);
  law_preprepare m : runs (HandleinPrePrepare m) (λ p p', module_step p p'
    ∧ sequenceID p' = sequenceID p ∧ height2Digest p' = height2Digest p
    ∧ (requestPool p' = requestPool p ∨ requestPool p' = <[pp_Digest m := pp_RequestMsg m]> (requestPool p)));
  law_prepare m : runs (HandleinPrepare m) (λ p p', module_step p p'
    ∧ sequenceID p' = sequenceID p ∧ requestPool p' = requestPool p ∧ height2Digest p' = height2Digest p);
  law_commit now m : runs (HandleinCommit now m) (λ p p', module_step p p'
    ∧ sequenceID p' = sequenceID p ∧ requestPool p' = requestPool p ∧ height2Digest p' = height2Digest p);
  law_oldreq m : runs (HandleReqestforOldSeq m) (λ p p', module_step p p'
    ∧ sequenceID p' = sequenceID p ∧ requestPool p' = requestPool p ∧ height2Digest p' = height2Digest p);
  law_sequential m : runs (HandleforSequentialRequest m) (λ p p', module_step p p'
    ∧ requestPool p' = requestPool p ∧ height2Digest p' = height2Digest p)
}.

Class InterShardLaws `{!OpInterShards M} := {
  law_outside now m p p' : HandleMessageOutsidePBFT now m p = Ret p' → module_step p p'
    ∧ sequenceID p' = sequenceID p ∧ requestPool p' = requestPool p ∧ height2Digest p' = height2Digest p
}.

End laws.
Arguments ConsensusLaws {_} M {_}.
Arguments InterShardLaws {_} M {_}.

(** ** The step relation *)

Inductive cmessage : Type := CPre (m : PrePrepare) | CPrep (m : Prepare) | CCom (m : Commit).

Section steps.
Context {PA : Params} {EX : External} {M : Type}
  {MI : ExtraOpInConsensus M} {MO : OpInterShards M}.
Implicit Type p : PbftNode M.

Definition seq_of (m : cmessage) : Z :=
  match m with CPre m => pp_SeqID m | CPrep m => p_SeqID m | CCom m => c_SeqID m end.
Definition stage_of (m : cmessage) : Z := match m with CPre _ => 1 | CPrep _ => 2 | CCom _ => 3 end.

Definition handler_body (now : Time) (curView : Z) (m : cmessage) p : go (PbftNode M) :=
  match m with
  | CPre m => handlePrePrepare curView m p
  | CPrep m => handlePrepare curView m p
  | CCom m => handleCommit now curView m p
  end.

(** The digest that the body of a commit handler executes, if it executes one. *)
Definition executes (curView : Z) (m : cmessage) p : option bytes :=
  match m with
  | CCom c =>
      let d := c_Digest c in
      if bool_decide (sequenceID p ≤ c_SeqID c ∧ view p = curView
          ∧ quorum p ≤ commits d (vote false d p) ∧ (d ∉ isReply p) ∧ is_Some (requestPool p !! d))
      then Some d else None
  | _ => None
  end.

(** The rest of what a node does, one step each. *)
Inductive other_step : PbftNode M → PbftNode M → Prop :=
| os_propose now polls p p' : propose_round now polls p = Ret p' → other_step p p'
| os_watchdog now p p' : watchdog now p = Ret p' → other_step p p'
| os_viewchange m p p' : handleViewChangeMsg m p = Ret p' → other_step p p'
| os_newview now m p p' : handleNewViewMsg now m p = Ret p' → other_step p p'
| os_requestold m p p' : handleRequestOldSeq m p = Ret p' → other_step p p'
| os_sendold m p p' : handleSendOldSeq m p = Ret p' → other_step p p'
| os_outside now m p p' : HandleMessageOutsidePBFT now m p = Ret p' → other_step p p'
| os_stop p : other_step p (WaitToStop p).

(** A node with the goroutines that wait on the condition variable and those that
    are ready for [pbftLock], each with the view it has read. *)
Record config := mkConfig {
  cf_node : PbftNode M;
  cf_waiting : list (Z * cmessage);
  cf_ready : list (Z * cmessage)
}.

Inductive step : config → option bytes → config → Prop :=
| step_wait p w r m :
    must_wait (stage_of m) (seq_of m) (view p) p = true →
    step (mkConfig p w r) None (mkConfig p (w ++ [(view p, m)]) r)
| step_pass p w r m :
    must_wait (stage_of m) (seq_of m) (view p) p = false →
    step (mkConfig p w r) None (mkConfig p w (r ++ [(view p, m)]))
| step_body now p p' w r1 r2 cv m :
    handler_body now cv m p = Ret p' →
    step (mkConfig p w (r1 ++ (cv, m) :: r2)) (executes cv m p) (mkConfig p' [] (r1 ++ r2 ++ w))
| step_other p p' w r :
    other_step p p' → step (mkConfig p w r) None (mkConfig p' w r).

Inductive run : config → list (option bytes) → config → Prop :=
| run_nil c : run c [] c
| run_cons c1 l c2 ls c3 : step c1 l c2 → run c2 ls c3 → run c1 (l :: ls) c3.

(** ** The invariant *)

(** How many commits for the digest [d] the node has sent to itself. *)
Definition is_commit (d : bytes) (ip : string) (m : string * payload) : bool :=
  match m.2 with MCommit c => String.eqb (c_Digest c) d && String.eqb m.1 ip | _ => false end.
Definition own_commits (d : bytes) p : Z :=
  len (filter (λ m, is_commit d (n_IPaddr (RunningNode p)) m = true) (out p)).

Record pbft_inv p : Prop := {
  pi_fresh_prepare : ∀ d a, a ∈ default ∅ (cntPrepareConfirm p !! d) → a < fresh p;
  pi_fresh_commit : ∀ d a, a ∈ default ∅ (cntCommitConfirm p !! d) → a < fresh p;
  pi_quorum : ∀ d, d ∈ isCommitBordcast p → quorum p ≤ prepares d p;
  pi_commits : ∀ d, own_commits d p = if bool_decide (d ∈ isCommitBordcast p) then 1 else 0;
  pi_sent : ∀ ip c, (ip, MCommit c) ∈ out p → c_Digest c ∈ isCommitBordcast p
}.

(** What only ever grows. *)
Record grows p p' : Prop := {
  gr_node : RunningNode p' = RunningNode p;
  gr_malicious : malicious_nums p' = malicious_nums p;
  gr_prepares : ∀ d, prepares d p ≤ prepares d p';
  gr_commits : ∀ d, commits d p ≤ commits d p';
  gr_broadcast : isCommitBordcast p ⊆ isCommitBordcast p';
  gr_reply : isReply p ⊆ isReply p'
}.
#[export] Instance grows_preorder : PreOrder grows.
Proof.
  split; [by split|]. intros p1 p2 p3 [N1 M1 P1 C1 B1 R1] [N2 M2 P2 C2 B2 R2].
  split; [by rewrite N2|by rewrite M2| | |by etrans|by etrans].
  - intros d. etrans; [apply P1|apply P2].
  - intros d. etrans; [apply C1|apply C2].
Qed.
Lemma grows_quorum p p' : grows p p' → quorum p' = quorum p.
Proof. intros []. unfold quorum. congruence. Qed.

(** Steps that count no vote and send no commit. *)
Record quiet p p' : Prop := {
  qu_node : RunningNode p' = RunningNode p;
  qu_malicious : malicious_nums p' = malicious_nums p;
  qu_prepares : cntPrepareConfirm p' = cntPrepareConfirm p;
  qu_commits : cntCommitConfirm p' = cntCommitConfirm p;
  qu_broadcast : isCommitBordcast p' = isCommitBordcast p;
  qu_reply : isReply p ⊆ isReply p';
  qu_fresh : fresh p' = fresh p;
  qu_out : ∃ o, out p' = out p ++ o ∧ ∀ ip c, (ip, MCommit c) ∉ o
}.
#[export] Instance quiet_preorder : PreOrder quiet.
Proof.
  split.
  - intros p. split; try done. exists []. rewrite (right_id_L [] (++)). split; [done|].
    intros ip c. apply not_elem_of_nil.
  - intros p1 p2 p3 [N1 M1 P1 C1 B1 R1 F1 (o1 & O1 & H1)] [N2 M2 P2 C2 B2 R2 F2 (o2 & O2 & H2)].
    split; [congruence..|by etrans|congruence|]. exists (o1 ++ o2).
    rewrite O2, O1, (assoc_L (++)). split; [done|]. intros ip c [?|?]%elem_of_app; [by eapply H1|by eapply H2].
Qed.

Lemma module_quiet p p' : module_step p p' → quiet p p'.
Proof.
  intros []. split; try done; [by rewrite ms_reply0|]. destruct ms_out0 as (o & Ho & Hall).
  exists o. split; [done|]. intros ip c Hin. rewrite Forall_forall in Hall. by specialize (Hall _ Hin).
Qed.

(** A change of the other fields. *)
Lemma quiet_same p p' :
  RunningNode p' = RunningNode p → malicious_nums p' = malicious_nums p →
  cntPrepareConfirm p' = cntPrepareConfirm p → cntCommitConfirm p' = cntCommitConfirm p →
  isCommitBordcast p' = isCommitBordcast p → isReply p ⊆ isReply p' → fresh p' = fresh p →
  out p' = out p → quiet p p'.
Proof.
  intros. split; try done. exists []. rewrite (right_id_L [] (++)). split; [done|].
  intros ip c. apply not_elem_of_nil.
Qed.

Lemma quiet_send_all p m : (∀ c, m ≠ MCommit c) → quiet p (send_all m p).
Proof.
  intros Hm. unfold send_all, TcpDial, Broadcast. split; try done. simpl. eexists.
  split; [by rewrite <- (assoc_L (++))|]. intros ip c Hin. apply elem_of_app in Hin as [Hin|Hin].
  - apply list_elem_of_fmap in Hin as (? & [= _ E] & _). by eapply Hm.
  - apply list_elem_of_singleton in Hin as [= _ E]. by eapply Hm.
Qed.

Lemma quiet_dial p m ip : (∀ c, m ≠ MCommit c) → quiet p (TcpDial m ip p).
Proof.
  intros Hm. split; try done. eexists. split; [done|]. intros ip' c Hin.
  apply list_elem_of_singleton in Hin as [= _ E]. by eapply Hm.
Qed.

Lemma quiet_broadcast p m s rs : (∀ c, m ≠ MCommit c) → quiet p (Broadcast s rs m p).
Proof.
  intros Hm. split; try done. eexists. split; [done|]. intros ip' c Hin.
  apply list_elem_of_fmap in Hin as (? & [= _ E] & _). by eapply Hm.
Qed.

Lemma quiet_grows p p' : quiet p p' → grows p p'.
Proof. intros [N M' P C B R F O]. split; try done; try (intros d; unfold prepares, commits; by rewrite ?P, ?C). by rewrite B. Qed.

Lemma own_commits_quiet p p' d : quiet p p' → own_commits d p' = own_commits d p.
Proof.
  intros [N _ _ _ _ _ _ (o & O & H1)]. unfold own_commits. rewrite N, O, filter_app, len_app.
  rewrite (filter_none _ o); [by rewrite len_nil, Z.add_0_r|].
  intros [ip m] Hin Hc. destruct m; try discriminate Hc. by eapply H1.
Qed.

Lemma quiet_inv p p' : quiet p p' → pbft_inv p → pbft_inv p'.
Proof.
  intros Hq [I1 I2 I3 I4 I5]. pose proof (quiet_grows p p' Hq) as Hg.
  pose proof (grows_quorum p p' Hg) as Hqr.
  pose proof (own_commits_quiet p p') as Hown. destruct Hq as [N M' P C B R F (o & O & H1)] eqn:Eq.
  split.
  - intros d a. rewrite P, F. apply I1.
  - intros d a. rewrite C, F. apply I2.
  - intros d. rewrite B, Hqr. unfold prepares. rewrite P. apply I3.
  - intros d. rewrite B, Hown by done. apply I4.
  - intros ip c. rewrite O, B. intros [Hin|Hin]%elem_of_app; [by eapply I5|by apply H1 in Hin].
Qed.

(** Counting a vote: the pointer is new, so the count goes up by one. *)
Lemma vote_size (m : gmap string (gset ptr)) (d d' : bytes) (a : ptr) :
  (∀ b, b ∈ default ∅ (m !! d) → b < a) →
  size (default ∅ (<[d := {[a]} ∪ default ∅ (m !! d)]> m !! d'))
  = (size (default ∅ (m !! d')) + if decide (d = d') then 1 else 0)%nat.
Proof.
  intros Ha. destruct (decide (d = d')) as [->|Hne].
  - rewrite lookup_insert_eq. simpl. rewrite size_union, size_singleton; [lia|].
    apply disjoint_singleton_l. intros Hin. apply Ha in Hin. lia.
  - rewrite lookup_insert_ne by done. lia.
Qed.

Lemma vote_counts p b d :
  pbft_inv p →
  let p' := vote b d p in
  grows p p' ∧ pbft_inv p'
  ∧ (if b then prepares d p' = prepares d p + 1 else commits d p' = commits d p + 1).
Proof.
  intros [I1 I2 I3 I4 I5] p'.
  assert (∀ d', prepares d' p' = prepares d' p + (if b then if decide (d = d') then 1 else 0 else 0)
    ∧ commits d' p' = commits d' p + (if b then 0 else if decide (d = d') then 1 else 0)) as Hcnt.
  { intros d'. unfold prepares, commits, p', vote, set2DMap. destruct b; simpl; (split; [|try lia]); try lia.
    - rewrite vote_size by apply I1. case_decide; lia.
    - rewrite vote_size by apply I2. case_decide; lia. }
  assert (grows p p') as Hg.
  { split; [by destruct b|by destruct b| | |by destruct b|by destruct b].
    - intros d'. destruct (Hcnt d') as [-> _]. destruct b; try case_decide; lia.
    - intros d'. destruct (Hcnt d') as [_ ->]. destruct b; try case_decide; lia. }
  split; [done|]. split; [split|].
  - intros d' a. unfold p', vote, set2DMap. destruct b; simpl; intros Ha; [|apply I1 in Ha; lia].
    destruct (decide (d = d')) as [->|Hne]; [rewrite lookup_insert_eq in Ha; simpl in Ha|rewrite lookup_insert_ne in Ha by done].
    + apply elem_of_union in Ha as [->%elem_of_singleton|Ha]; [lia|apply I1 in Ha; lia].
    + apply I1 in Ha. lia.
  - intros d' a. unfold p', vote, set2DMap. destruct b; simpl; intros Ha; [apply I2 in Ha; lia|].
    destruct (decide (d = d')) as [->|Hne]; [rewrite lookup_insert_eq in Ha; simpl in Ha|rewrite lookup_insert_ne in Ha by done].
    + apply elem_of_union in Ha as [->%elem_of_singleton|Ha]; [lia|apply I2 in Ha; lia].
    + apply I2 in Ha. lia.
  - intros d' Hd. rewrite (grows_quorum _ _ Hg). etrans; [|apply (gr_prepares _ _ Hg)].
    apply I3. destruct b; done.
  - intros d'. unfold p'. destruct b; apply I4.
  - intros ip c. unfold p'. destruct b; apply I5.
  - destruct (Hcnt d) as [H1 H2]. rewrite H1, H2. destruct b; by rewrite decide_True.
Qed.

Definition broadcast_commit (c : Commit) p : PbftNode M :=
  (send_all (MCommit c) p) <| isCommitBordcast ::= λ s, {[ c_Digest c ]} ∪ s |>
    <| pbftStage ::= λ s, i32 (s + 1) |>.

Lemma own_commits_send c p d :
  own_commits d (send_all (MCommit c) p)
  = own_commits d p + if decide (c_Digest c = d) then 1 else 0.
Proof.
  unfold own_commits, send_all, TcpDial, Broadcast. simpl. rewrite !filter_app, !len_app.
  set (ip := n_IPaddr (RunningNode p)). set (others := _ <$> filter _ (getNeighborNodes p)).
  assert (filter (λ m, is_commit d ip m = true) others = []) as ->.
  { apply filter_none. intros m Hin. apply list_elem_of_fmap in Hin as (ip' & -> & Hin).
    apply list_elem_of_filter in Hin as [Hne _]. unfold is_commit. simpl.
    destruct (String.eqb_spec ip' ip); [done|]. by rewrite andb_false_r. }
  assert (len (filter (λ m, is_commit d ip m = true) [(ip, MCommit c)])
          = if decide (c_Digest c = d) then 1 else 0) as ->.
  { unfold is_commit. cbn [fst snd filter list_filter]. rewrite String.eqb_refl, andb_true_r.
    destruct (String.eqb_spec (c_Digest c) d); by repeat case_decide. }
  rewrite len_nil. lia.
Qed.

Lemma broadcast_commit_inv p c :
  pbft_inv p → quorum p ≤ prepares (c_Digest c) p → c_Digest c ∉ isCommitBordcast p →
  grows p (broadcast_commit c p) ∧ pbft_inv (broadcast_commit c p).
Proof.
  intros [I1 I2 I3 I4 I5] Hq Hd. split.
  { split; try done. unfold broadcast_commit. simpl. apply union_subseteq_r. }
  split; [done|done| | |].
  - intros d Hin. unfold broadcast_commit in Hin. simpl in Hin.
    apply elem_of_union in Hin as [->%elem_of_singleton|Hin]; [done|by apply I3].
  - intros d. trans (own_commits d (send_all (MCommit c) p)); [done|]. rewrite own_commits_send, I4.
    unfold broadcast_commit. simpl. destruct (decide (c_Digest c = d)) as [<-|Hne].
    + rewrite bool_decide_false, bool_decide_true by (done || set_solver). done.
    + rewrite Z.add_0_r.
      assert (bool_decide (d ∈ {[c_Digest c]} ∪ isCommitBordcast p) = bool_decide (d ∈ isCommitBordcast p)) as ->
        by (apply bool_decide_ext; clear -Hne; set_solver). done.
  - intros ip c' Hin. unfold broadcast_commit in *. simpl in *.
    apply elem_of_app in Hin as [[Hin|Hin]%elem_of_app|Hin].
    + apply elem_of_union. right. by eapply I5.
    + apply list_elem_of_fmap in Hin as (? & [= _ ->] & _). apply elem_of_union. left. set_solver.
    + apply list_elem_of_singleton in Hin as [= _ ->]. apply elem_of_union. left. set_solver.
Qed.

End steps.
