(* ===== verification/PbftProps.v ===== *)
(** * PBFT: what every handler keeps, and the safety theorems *)

From S2P Require Import Prelude Params Core Message External Storage Chain Ledger MerkleProof Pbft PbftSteps.

Section handlers.
Context {PA : Params} {EX : External} {M : Type}
  {MI : ExtraOpInConsensus M} {MO : OpInterShards M} {LI : ConsensusLaws M} {LO : InterShardLaws M}.
Implicit Type p : PbftNode M.

(** ** Quiet handlers *)

Lemma quiet_then p q p' : quiet p q → quiet q p' → quiet p p'.
Proof. by etrans. Qed.

(** Peel the updates of fields that [quiet] does not look at. *)
Ltac quiet_field :=
  repeat match goal with
  | |- quiet _ ?q => reflexivity
  | H : quiet ?p ?q |- quiet ?p ?q => exact H
  | |- quiet ?p (set_field _ _ ?q) => apply (quiet_then p q); [|apply quiet_same; done]
  end.

Lemma lock_seq_quiet p p' : lock_seq p = Ret p' → quiet p p'.
Proof. unfold lock_seq. destruct (sequenceLock p); intros [= <-]. quiet_field. Qed.
Lemma unlock_seq_quiet p p' : unlock_seq p = Ret p' → quiet p p'.
Proof. unfold unlock_seq. destruct (sequenceLock p); intros [= <-]. quiet_field. Qed.

Lemma send_quiet p p' m : (∀ c, m ≠ MCommit c) → quiet p p' → quiet p (send_all m p').
Proof. intros Hm Hq. etrans; [exact Hq|by apply quiet_send_all]. Qed.

Lemma propose_round_quiet now polls p p' : propose_round now polls p = Ret p' → quiet p p'.
Proof.
  unfold propose_round. destruct (negb (is_leader p)); [by intros [= <-]|].
  intros (p1 & H1 & H)%bind_Ret. apply lock_seq_quiet in H1.
  apply bind_Ret in H as ([[isLocal r] p2] & H2 & H).
  pose proof (law_propose now polls _ _ _ H2) as (Hm & _ & _ & _).
  assert (quiet p p2) as Hq by (etrans; [exact H1|by apply module_quiet]). clear H1 H2 Hm.
  assert (∀ (r : Request) p3, quiet p p3 → ∀ p',
    Ret ((send_all (MPrePrepare (mkPrePrepare (Some r) (getDigest (Some r)) (sequenceID p3)))
        (p3 <| requestPool ::= <[getDigest (Some r):=Some r]> |>
            <| height2Digest ::= <[sequenceID p3 := getDigest (Some r)]> |>)) <| pbftStage := 2 |>)
    = Ret p' → quiet p p') as Hsend.
  { intros r0 p3 Hq3 p'' [= <-]. quiet_field. apply send_quiet; [done|]. quiet_field. }
  revert H. destruct isLocal, r as [r|]; go_step.
  - intros H. by apply (Hsend r p2).
  - intros ([r p3] & ([b bc] & _ & [= <- <-])%bind_Ret & H)%bind_Ret. revert H.
    apply (Hsend (mkRequest BlockRequest (enc b) now) (p2 <| CurChain := bc |>)).
    quiet_field.
  - intros H%unlock_seq_quiet. eapply quiet_then; [|exact H]. quiet_field.
  - intros ([r p3] & ([b bc] & _ & [= <- <-])%bind_Ret & H)%bind_Ret. revert H.
    apply (Hsend (mkRequest BlockRequest (enc b) now) (p2 <| CurChain := bc |>)).
    quiet_field.
Qed.

Lemma handlePrePrepare_quiet cv m p p' : handlePrePrepare cv m p = Ret p' → quiet p p'.
Proof.
  unfold handlePrePrepare. destruct (_ || _); [by intros [= <-]|].
  destruct (negb (String.eqb _ _)); [by intros [= <-]|].
  destruct (sequenceID p <? pp_SeqID m); [intros [= <-]; unfold store_request; quiet_field|].
  intros ([flag p1] & H1 & H)%bind_Ret. pose proof (law_preprepare m _ _ _ H1) as (Hm & _).
  apply module_quiet in Hm. destruct flag; injection H as <-.
  - quiet_field. apply send_quiet; [done|]. unfold store_request. quiet_field.
  - unfold store_request. quiet_field.
Qed.

Lemma viewChangePropose_quiet p p' : viewChangePropose p = Ret p' → quiet p p'.
Proof.
  intros (nv & _ & [= <-])%bind_Ret. apply send_quiet; [done|quiet_field].
Qed.

Lemma watchdog_quiet now p p' : watchdog now p = Ret p' → quiet p p'.
Proof.
  unfold watchdog. destruct (_ <? _); [|by intros [= <-]].
  intros H%viewChangePropose_quiet. eapply quiet_then; [|exact H]. quiet_field.
Qed.

Lemma handleViewChangeMsg_quiet m p p' : handleViewChangeMsg m p = Ret p' → quiet p p'.
Proof.
  unfold handleViewChangeMsg. destruct (_ =? _).
  - intros (nv & _ & [= <-])%bind_Ret. apply send_quiet; [done|quiet_field].
  - intros [= <-]. quiet_field.
Qed.

Lemma handleNewViewMsg_quiet now m p p' : handleNewViewMsg now m p = Ret p' → quiet p p'.
Proof. unfold handleNewViewMsg. destruct (_ =? _); intros [= <-]; quiet_field. Qed.

Lemma handleRequestOldSeq_quiet m p p' : handleRequestOldSeq m p = Ret p' → quiet p p'.
Proof.
  unfold handleRequestOldSeq. destruct (negb _); [by intros [= <-]|].
  intros ([r p1] & H1 & [= <-])%bind_Ret. pose proof (law_oldreq m _ _ _ H1) as (Hm & _).
  etrans; [by apply module_quiet|]. by apply quiet_dial.
Qed.

Lemma store_old_quiet b rs p : quiet p (store_old b rs p).
Proof.
  revert b p. induction rs as [|r rs IH]; intros b p; [done|]. cbn [store_old].
  eapply quiet_then; [|apply IH]. apply quiet_same; try done. apply union_subseteq_r.
Qed.

Lemma resume_quiet p p' : resume p = Ret p' → quiet p p'.
Proof.
  unfold resume. destruct (_ ≫= _) as [r|]; [|by intros [= <-]].
  intros ([flag p1] & H1 & H)%bind_Ret. pose proof (law_preprepare _ _ _ _ H1) as (Hm & _).
  apply module_quiet in Hm. destruct flag; injection H as <-; [|exact Hm].
  etrans; [exact Hm|]. by apply quiet_broadcast.
Qed.

Lemma handleSendOldSeq_quiet m p p' : handleSendOldSeq m p = Ret p' → quiet p p'.
Proof.
  intros ([r p1] & H1 & H)%bind_Ret. pose proof (law_sequential m _ _ _ H1) as (Hm & _).
  apply bind_Ret in H as (p2 & H2 & H). destruct (askForLock p2); [|done]. injection H as <-.
  quiet_field. eapply quiet_then; [by apply module_quiet|].
  eapply quiet_then; [apply store_old_quiet|].
  apply resume_quiet in H2. eapply quiet_then; [|exact H2]. quiet_field.
Qed.

Lemma other_step_quiet p p' : other_step p p' → quiet p p'.
Proof.
  destruct 1 as [now p p' H|now p p' H|m p p' H|now m p p' H|m p p' H|m p p' H|now m p p' H|p].
  - by eapply propose_round_quiet.
  - by eapply watchdog_quiet.
  - by eapply handleViewChangeMsg_quiet.
  - by eapply handleNewViewMsg_quiet.
  - by eapply handleRequestOldSeq_quiet.
  - by eapply handleSendOldSeq_quiet.
  - apply module_quiet. by eapply law_outside.
  - unfold WaitToStop. quiet_field.
Qed.

(** ** Prepare and commit *)

Definition good p p' : Prop := grows p p' ∧ (pbft_inv p → pbft_inv p').

Lemma quiet_good p p' : quiet p p' → good p p'.
Proof. intros Hq. split; [by apply quiet_grows|by apply quiet_inv]. Qed.

Lemma handlePrepare_ok cv m p p' :
  pbft_inv p → handlePrepare cv m p = Ret p' → grows p p' ∧ pbft_inv p'.
Proof.
  intros Hinv. unfold handlePrepare. destruct (_ || _); [by intros [= <-]|].
  destruct (requestPool p !! _); [|by intros [= <-]].
  destruct (_ <? _); [by intros [= <-]|].
  intros ([r p1] & H1 & H)%bind_Ret. pose proof (law_prepare m _ _ _ H1) as (Hm & _).
  apply module_quiet, quiet_good in Hm as [Hg1 Hi1].
  destruct (vote_counts p1 true (p_Digest m) (Hi1 Hinv)) as (Hg2 & Hi2 & _).
  set (p2 := vote true (p_Digest m) p1) in *.
  destruct ((quorum p2 <=? prepares (p_Digest m) p2) && _) eqn:E; injection H as <-.
  - apply andb_prop in E as [Eq Eb]. z_bool.
    destruct (broadcast_commit_inv p2 (mkCommit (p_Digest m) (p_SeqID m) (RunningNode p2)))
      as [Hg3 Hi3]; [done|done|done|].
    split; [|exact Hi3]. etrans; [exact Hg1|]. etrans; [exact Hg2|exact Hg3].
  - split; [|done]. by etrans.
Qed.

(** What the body of the commit handler does, with the digest it executes. *)
Lemma handleCommit_ok now cv m p p' :
  pbft_inv p → handleCommit now cv m p = Ret p' →
  grows p p' ∧ pbft_inv p'
  ∧ match executes cv (CCom m) p with
    | Some d => d = c_Digest m ∧ (d ∉ isReply p) ∧ d ∈ isReply p' ∧ quorum p' ≤ commits d p'
    | None => True
    end.
Proof.
  intros Hinv. unfold handleCommit, executes.
  destruct ((c_SeqID m <? sequenceID p) || negb (view p =? cv)) eqn:Estale.
  { intros [= <-]. split; [done|]. split; [done|]. rewrite bool_decide_false; [done|].
    intros (Hs & Hv & _). rewrite Hv, Z.eqb_refl in Estale. simpl in Estale.
    rewrite orb_false_r in Estale. z_bool. lia. }
  destruct (vote_counts p false (c_Digest m) Hinv) as (Hg1 & Hi1 & _).
  set (d := c_Digest m) in *. set (p1 := vote false d p) in *.
  change (requestPool p1) with (requestPool p). change (isReply p1) with (isReply p).
  destruct ((quorum p1 <=? commits d p1) && negb (bool_decide (d ∈ isReply p))) eqn:E.
  2:{ intros [= <-]. split; [done|]. split; [done|]. rewrite bool_decide_false; [done|].
      intros (_ & _ & Hq & Hd & _). rewrite bool_decide_false in E by done. simpl in E.
      rewrite andb_true_r in E. z_bool. unfold quorum in *. simpl in *. lia. }
  apply andb_prop in E as [Eq Ed]. z_bool.
  intros (p2 & H2 & H)%bind_Ret.
  assert (quiet p1 p2 ∧ d ∈ isReply p2) as [Hq2 Hd2].
  { destruct (requestPool p !! d).
    - apply bind_Ret in H2 as ([r p3] & H3 & [= <-]).
      pose proof (law_commit now m _ _ _ H3) as (Hm & _). apply module_quiet in Hm.
      split; [|simpl; clear; set_solver]. eapply quiet_then; [exact Hm|].
      apply quiet_same; try done. apply union_subseteq_r.
    - unfold ask_old in H2. cbn [askForLock set_field] in H2. destruct (askForLock p1); [done|]. injection H2 as <-.
      split; [|simpl; clear; set_solver].
      eapply quiet_then; [|by apply quiet_dial]. apply quiet_same; try done. apply union_subseteq_r. }
  assert (quiet p2 p') as Hq3.
  { revert H. destruct (is_leader _); [intros H%unlock_seq_quiet|intros [= <-]; quiet_field].
    eapply quiet_then; [|exact H]. quiet_field. }
  assert (quiet p1 p') as Hq by (etrans; [exact Hq2|exact Hq3]).
  pose proof (quiet_grows _ _ Hq) as Hg. split; [by etrans|]. split; [by eapply quiet_inv|].
  case_bool_decide as Hx; [|done]. split; [done|]. split; [done|].
  split; [by apply (qu_reply _ _ Hq3)|].
  rewrite (grows_quorum _ _ Hg). etrans; [exact Eq|apply (gr_commits _ _ Hg)].
Qed.

Lemma step_ok c l c' :
  step c l c' → pbft_inv (cf_node c) →
  grows (cf_node c) (cf_node c') ∧ pbft_inv (cf_node c')
  ∧ match l with
    | Some d => (d ∉ isReply (cf_node c)) ∧ d ∈ isReply (cf_node c')
        ∧ quorum (cf_node c') ≤ commits d (cf_node c')
    | None => True
    end.
Proof.
  destruct 1 as [p w r m Hw|p w r m Hw|now p p' w r1 r2 cv m Hb|p p' w r Ho]; simpl; intros Hinv; try done.
  - destruct m as [m|m|m]; simpl in Hb.
    + apply handlePrePrepare_quiet in Hb. split; [by apply quiet_grows|]. split; [by eapply quiet_inv|done].
    + destruct (handlePrepare_ok _ _ _ _ Hinv Hb). done.
    + destruct (handleCommit_ok _ _ _ _ _ Hinv Hb) as (? & ? & Hx). split; [done|]. split; [done|].
      destruct (executes cv (CCom m) p); [|done]. naive_solver.
  - apply other_step_quiet in Ho. split; [by apply quiet_grows|]. split; [by eapply quiet_inv|done].
Qed.

Lemma run_ok c ls c' :
  run c ls c' → pbft_inv (cf_node c) →
  grows (cf_node c) (cf_node c') ∧ pbft_inv (cf_node c')
  ∧ NoDup (omap id ls)
  ∧ (∀ d, d ∈ omap id ls → (d ∉ isReply (cf_node c)) ∧ d ∈ isReply (cf_node c')
       ∧ quorum (cf_node c') ≤ commits d (cf_node c')).
Proof.
  induction 1 as [c|c1 l c2 ls c3 Hs Hr IH]; intros Hinv.
  { split; [done|]. split; [done|]. split; [constructor|]. intros d ?%not_elem_of_nil. done. }
  destruct (step_ok _ _ _ Hs Hinv) as (Hg1 & Hi1 & Hl).
  destruct (IH Hi1) as (Hg2 & Hi2 & Hnd & Hall).
  split; [by etrans|]. split; [done|].
  assert (∀ d, d ∈ omap id ls → (d ∉ isReply (cf_node c1)) ∧ d ∈ isReply (cf_node c3)
       ∧ quorum (cf_node c3) ≤ commits d (cf_node c3)) as Hrest.
  { intros d Hd. destruct (Hall d Hd) as (Hn & ? & ?). split; [|done].
    intros Hin. apply Hn. by apply (gr_reply _ _ Hg1). }
  destruct l as [d|]; simpl; [|done]. destruct Hl as (Hn & Hd & Hq). split.
  - constructor; [|done]. intros Hin. by apply Hall in Hin as [? _].
  - intros d' [->|Hd']%elem_of_cons; [|by apply Hrest]. split; [done|].
    split; [by apply (gr_reply _ _ Hg2)|].
    rewrite (grows_quorum _ _ Hg2). etrans; [exact Hq|apply (gr_commits _ _ Hg2)].
Qed.

(** A node that has just been started. *)
Lemma NewPbftNode_inv sid nid pcc now tbl chain (m : M) :
  pbft_inv (NewPbftNode sid nid pcc now tbl chain m).
Proof.
  split; simpl.
  - intros d a. rewrite lookup_empty. by intros ?%not_elem_of_empty.
  - intros d a. rewrite lookup_empty. by intros ?%not_elem_of_empty.
  - intros d Hd. by apply not_elem_of_empty in Hd.
  - intros d. by rewrite bool_decide_false by (apply not_elem_of_empty).
  - intros ip c Hin. by apply not_elem_of_nil in Hin.
Qed.

End handlers.

(** ** The smallest module: it accepts everything and does nothing *)

Module NullModule.
Section null.
Context {EX : External}.

Definition keep (p : PbftNode unit) : go (bool * PbftNode unit) := Ret (true, p).

#[export] Instance ops : ExtraOpInConsensus unit := {|
  HandleinPropose now _ p := Ret (true, Some (mkRequest BlockRequest "" now), p);
  HandleinPrePrepare _ := keep;
  HandleinPrepare _ := keep;
  HandleinCommit _ _ := keep;
  HandleReqestforOldSeq _ := keep;
  HandleforSequentialRequest _ := keep |}.
#[export] Instance ops_out : OpInterShards unit := {| HandleMessageOutsidePBFT _ _ p := Ret p |}.

#[export] Instance laws : ConsensusLaws unit.
Proof. split; intros; intros p r p'; cbn; unfold keep; intros [= <- <-]; split_and!; auto; reflexivity. Qed.
#[export] Instance laws_out : InterShardLaws unit.
Proof. split; intros now m p p'; cbn; intros [= <-]; split_and!; auto; reflexivity. Qed.

End null.
End NullModule.

(** ** Quorums *)

(** Two vote sets among [n] nodes. *)
Lemma quorum_overlap (n q : Z) (Q1 Q2 : gset Z) :
  0 ≤ n → Q1 ⊆ list_to_set (seqZ 0 n) → Q2 ⊆ list_to_set (seqZ 0 n) →
  q ≤ Z.of_nat (size Q1) → q ≤ Z.of_nat (size Q2) → 2 * q - n ≤ Z.of_nat (size (Q1 ∩ Q2)).
Proof.
  intros Hn H1 H2 Hq1 Hq2.
  assert (Z.of_nat (size (Q1 ∪ Q2)) ≤ n) as Hu.
  { assert (size (Q1 ∪ Q2) ≤ size (list_to_set (C:=gset Z) (seqZ 0 n)))%nat as Hle.
    { apply subseteq_size. by apply union_least. }
    rewrite size_list_to_set, length_seqZ in Hle by apply NoDup_seqZ. lia. }
  pose proof (size_union_alt Q1 Q2) as Hs.
  assert (size Q2 = size (Q2 ∖ Q1) + size (Q1 ∩ Q2))%nat as Hd.
  { rewrite <- size_union by set_solver. f_equal. apply set_eq. intros x.
    rewrite elem_of_union, elem_of_difference, elem_of_intersection.
    destruct (decide (x ∈ Q1)); naive_solver. }
  lia.
Qed.

(** The state after supporters [S] have been heard for [(nv, seq)]. *)
Definition new_view_heard {EX : External} {M : Type} (p0 : PbftNode M) (nv seq : Z)
    (q : PbftNode M) (S : gset Z) : Prop :=
  malicious_nums q = malicious_nums p0 ∧ supporters (newViewMap q) (nv, seq) = S
  ∧ if Z.of_nat (size S) <? quorum p0 then view q = view p0 ∧ sequenceID q = sequenceID p0
    else view q = i32 nv ∧ sequenceID q = u64 seq ∧ pbftStage q = 1.

Lemma size_add_one (x : Z) (S : gset Z) :
  (size ({[x]} ∪ S) = size S ∨ size ({[x]} ∪ S) = size S + 1)%nat.
Proof.
  destruct (decide (x ∈ S)).
  - left. f_equal. apply set_eq. set_solver.
  - right. rewrite size_union, size_singleton by set_solver. lia.
Qed.

Lemma new_view_one {EX : External} {M : Type} now (p0 q : PbftNode M) nv seq S m :
  0 ≤ malicious_nums p0 < 2 ^ 62 → new_view_heard p0 nv seq q S →
  nv_NextView m = nv → nv_NewSeqID m = seq →
  ∃ q', handleNewViewMsg now m q = Ret q' ∧ new_view_heard p0 nv seq q' ({[nv_FromNode m]} ∪ S).
Proof.
  intros Hf (Hqf & HqS & Hq) Hv Hs. unfold handleNewViewMsg. rewrite Hv, Hs. cbn [newViewMap set_field].
  assert (supporters (support (nv, seq) (nv_FromNode m) (newViewMap q)) (nv, seq)
          = {[nv_FromNode m]} ∪ S) as HS.
  { unfold supporters at 1, support. rewrite lookup_insert_eq. simpl. by rewrite HqS. }
  rewrite HS. cbn [malicious_nums set_field]. rewrite Hqf, i64_id by (unfold is_i64; lia).
  destruct (Z.of_nat _ =? _) eqn:E; z_bool; eexists; (split; [done|]); (split; [done|]); (split; [done|]).
  - rewrite (proj2 (Z.ltb_ge _ _)); [done|]. unfold quorum. lia.
  - destruct (size_add_one (nv_FromNode m) S) as [Hz|Hz]; rewrite Hz in *; [done|].
    unfold quorum in *. destruct (Z.of_nat (size S) <? _) eqn:E1, (Z.of_nat (size S + 1) <? _) eqn:E2;
      z_bool; try done; lia.
Qed.

Lemma new_view_fold {EX : External} {M : Type} now (p0 : PbftNode M) nv seq ms q S :
  0 ≤ malicious_nums p0 < 2 ^ 62 → new_view_heard p0 nv seq q S →
  (∀ m, m ∈ ms → nv_NextView m = nv ∧ nv_NewSeqID m = seq) →
  ∃ q', go_fold (λ p m, handleNewViewMsg now m p) q ms = Ret q'
    ∧ new_view_heard p0 nv seq q' (S ∪ list_to_set (nv_FromNode <$> ms)).
Proof.
  intros Hf. revert q S. induction ms as [|m ms IH]; intros q S Hq Hms; cbn [go_fold].
  { exists q. split; [done|]. simpl. by rewrite (right_id_L ∅ (∪)). }
  destruct (Hms m) as [Hv Hs]; [by left|].
  destruct (new_view_one now p0 q nv seq S m Hf Hq Hv Hs) as (q1 & -> & H1). go_step.
  destruct (IH q1 _ H1) as (q' & -> & HP); [intros; apply Hms; by right|].
  exists q'. split; [done|]. simpl. by rewrite (assoc_L (∪)), (comm_L (∪) S).
Qed.

Module PbftProps.


(** Quorum size: with [malicious_nums = (N-1)/3] and quorums of 2f+1, two
    quorums of a shard of N = 3f+1 nodes share at least f+1 nodes. *)
Theorem quorums_intersect {EX : External} sid nid pcc now tbl chain (Q1 Q2 : gset Z) :
  let N := Nodes_perShard pcc in
  let p := NewPbftNode sid nid pcc now tbl chain tt in
  0 < N < 2 ^ 63 → N `mod` 3 = 1 →
  Q1 ⊆ list_to_set (seqZ 0 N) → Q2 ⊆ list_to_set (seqZ 0 N) →
  quorum p ≤ Z.of_nat (size Q1) → quorum p ≤ Z.of_nat (size Q2) →
  malicious_nums p + 1 ≤ Z.of_nat (size (Q1 ∩ Q2)).
Proof.
  intros N p Hn H3 H1 H2 Hq1 Hq2.
  pose proof (quorum_overlap N (quorum p) Q1 Q2 ltac:(lia) H1 H2 Hq1 Hq2) as Ho.
  assert (malicious_nums p = (N - 1) `div` 3) as Hm.
  { simpl. rewrite u64_id; [done|]. unfold is_u64. lia. }
  unfold quorum in Ho. rewrite Hm in *. pose proof (Z.div_mod N 3 ltac:(lia)).
  assert ((N - 1) `div` 3 = N `div` 3) as Hd by (symmetry; apply (Z.div_unique_pos _ 3 _ 0); lia).
  lia.
Qed.

(** The code accepts shard sizes that are not 3f+1, and for them the quorum is
    too small: in a shard of 6 nodes (f = 1), [{0,1,2}] and [{3,4,5}] are both
    quorums and have no node in common. *)
Theorem quorums_disjoint_in_shard_of_6 {EX : External} sid nid pcc now tbl chain :
  Nodes_perShard pcc = 6 →
  let p := NewPbftNode sid nid pcc now tbl chain tt in
  malicious_nums p = 1
  ∧ quorum p ≤ Z.of_nat (size ({[0; 1; 2]} : gset Z))
  ∧ quorum p ≤ Z.of_nat (size ({[3; 4; 5]} : gset Z))
  ∧ ({[0; 1; 2]} : gset Z) ∩ {[3; 4; 5]} = ∅.
Proof.
  intros Hn p. assert (malicious_nums p = 1) as Hm by (simpl; by rewrite Hn).
  split; [done|]. unfold quorum. rewrite Hm. split; [done|]. split; [done|]. apply set_eq. set_solver.
Qed.

(** The new-view threshold: from no support for a (view, sequence) pair, after
    any list of new-view messages for it the node is still in its old view while
    fewer than 2f+1 distinct nodes have sent one, and has adopted the view and the
    sequence number once 2f+1 have. *)
Theorem new_view_threshold {EX : External} {M : Type} (now : Time) (p : PbftNode M)
    (ms : list NewViewMsg) (nv seq : Z) :
  0 ≤ malicious_nums p < 2 ^ 62 →
  supporters (newViewMap p) (nv, seq) = ∅ →
  (∀ m, m ∈ ms → nv_NextView m = nv ∧ nv_NewSeqID m = seq) →
  let senders : gset Z := list_to_set (nv_FromNode <$> ms) in
  ∃ p', go_fold (λ p m, handleNewViewMsg now m p) p ms = Ret p'
    ∧ supporters (newViewMap p') (nv, seq) = senders
    ∧ if Z.of_nat (size senders) <? quorum p
      then view p' = view p ∧ sequenceID p' = sequenceID p
      else view p' = i32 nv ∧ sequenceID p' = u64 seq ∧ pbftStage p' = 1.
Proof.
  intros Hf Hs Hms senders.
  destruct (new_view_fold now p nv seq ms p ∅ Hf) as (p' & Hp' & _ & HS & Hq); [|done|].
  - split; [done|]. split; [done|]. rewrite size_empty.
    by rewrite (proj2 (Z.ltb_lt _ _)) by (unfold quorum; lia).
  - exists p'. rewrite (left_id_L ∅ (∪)) in HS, Hq. done.
Qed.

(** *** Witnesses: a follower of a shard of four *)

Import LedgerProps NullModule.
#[local] Existing Instances RefExternal.ext RefExternal.ext_ok params4.

Definition table4 : gmap Z (gmap Z string) :=
  {[ 0 := list_to_map [(0, "n0"); (1, "n1"); (2, "n2"); (3, "n3")] ]}%string.
Definition follower : PbftNode unit := NewPbftNode 0 1 (cc 0) 9 table4 (empty_chain 0) tt.

Definition request : option Request := Some (mkRequest BlockRequest "block" 9).
Definition dig : bytes := getDigest request.
Definition pre : cmessage := CPre (mkPrePrepare request dig 1).
Definition prep (n : Z) : cmessage := CPrep (mkPrepare dig 1 (mkNode n 0 "")).
Definition com (n : Z) : cmessage := CCom (mkCommit dig 1 (mkNode n 0 "")).

(** Deliver messages one by one, none of them early. *)
Definition deliver (p : PbftNode unit) (m : cmessage) : PbftNode unit :=
  match handler_body 9 (view p) m p with Ret p' => p' | _ => p end.
Fixpoint delivers (p : PbftNode unit) (ms : list cmessage) : list (option bytes) :=
  match ms with
  | [] => []
  | m :: ms => None :: executes (view p) m p :: delivers (deliver p m) ms
  end.
Fixpoint on_time (p : PbftNode unit) (ms : list cmessage) : bool :=
  match ms with
  | [] => true
  | m :: ms => negb (must_wait (stage_of m) (seq_of m) (view p) p)
      && is_Ret (handler_body 9 (view p) m p) && on_time (deliver p m) ms
  end.

Lemma deliver_run p ms :
  on_time p ms = true →
  run (mkConfig p [] []) (delivers p ms) (mkConfig (foldl deliver p ms) [] []).
Proof.
  revert p. induction ms as [|m ms IH]; intros p; [constructor|]. cbn [on_time delivers foldl].
  intros [[Hw%negb_true_iff Hb%is_Ret_returns]%andb_prop Hms]%andb_prop. destruct Hb as [p' Hb].
  eapply run_cons; [by apply step_pass|]. cbn [app].
  eapply run_cons; [apply (step_body 9 p p' [] [] [] (view p) m Hb)|].
  assert (deliver p m = p') as E by (unfold deliver; by rewrite Hb). rewrite E in *. by apply IH.
Qed.

(** A full round: pre-prepare, three prepares, three commits of distinct nodes. *)
Definition full_round : list cmessage := [pre; prep 0; prep 2; prep 3; com 0; com 2; com 3].

Lemma full_round_executes :
  omap id (delivers follower full_round) = [dig] ∧ on_time follower full_round = true.
Proof. split; vm_compute; reflexivity. Qed.


Lemma quorums_intersect_witness :
  2 ≤ Z.of_nat (size (({[0; 1; 2]} : gset Z) ∩ {[1; 2; 3]})).
Proof.
  apply (quorums_intersect 0 1 (cc 0) 9 table4 (empty_chain 0) {[0; 1; 2]} {[1; 2; 3]});
    by_compute.
Defined.

Lemma quorums_disjoint_in_shard_of_6_witness :
  let p := NewPbftNode 0 1 (mkChainConfig 0 0 0 6 2 100 5000 2000) 9 table4 (empty_chain 0) tt in
  malicious_nums p = 1
  ∧ quorum p ≤ Z.of_nat (size ({[0; 1; 2]} : gset Z))
  ∧ quorum p ≤ Z.of_nat (size ({[3; 4; 5]} : gset Z))
  ∧ ({[0; 1; 2]} : gset Z) ∩ {[3; 4; 5]} = ∅.
Proof.
  apply (quorums_disjoint_in_shard_of_6 0 1 (mkChainConfig 0 0 0 6 2 100 5000 2000) 9 table4 (empty_chain 0)).
  reflexivity.
Defined.

Lemma new_view_threshold_witness :
  let ms := (λ n, mkNewView 0 1 7 n) <$> [0; 2; 2; 3] in
  ∃ p', go_fold (λ p m, handleNewViewMsg 9 m p) follower ms = Ret p'
    ∧ supporters (newViewMap p') (1, 7) = list_to_set (nv_FromNode <$> ms)
    ∧ if Z.of_nat (size (list_to_set (nv_FromNode <$> ms) : gset Z)) <? quorum follower
      then view p' = view follower ∧ sequenceID p' = sequenceID follower
      else view p' = 1 ∧ sequenceID p' = 7 ∧ pbftStage p' = 1.
Proof.
  apply (new_view_threshold 9 follower ((λ n, mkNewView 0 1 7 n) <$> [0; 2; 2; 3]) 1 7).
  - by_compute.
  - reflexivity.
  - intros x Hx. apply list_elem_of_fmap in Hx as (n & -> & _). split; reflexivity.
Defined.

(** Votes are counted per message, not per node: each decoded message carries a
    new [*shard.Node], and the vote maps are keyed by that pointer, so one node that
    repeats its prepare and its commit three times makes a follower of four execute
    the request, with no vote of any other node. *)
Theorem repeated_votes_count :
  let ms := [pre; prep 2; prep 2; prep 2; com 2; com 2; com 2] in
  run (mkConfig follower [] []) (delivers follower ms) (mkConfig (foldl deliver follower ms) [] [])
  ∧ omap id (delivers follower ms) = [dig]
  ∧ sequenceID (foldl deliver follower ms) = sequenceID follower + 1.
Proof.
  split; [apply deliver_run; vm_compute; reflexivity|]. split; vm_compute; reflexivity.
Qed.

(** A repeated new-view message moves a node back: [== 2f+1] holds at every
    message while the supporters are exactly 2f+1, so after the node has adopted
    sequence 1 and executed the round for it, the repetition sets the sequence
    number from 2 back to 1. *)
Theorem repeated_new_view_rewinds :
  let nv n := handleNewViewMsg 9 (mkNewView 0 0 1 n) in
  match go_fold (λ p n, nv n p) follower [0; 2; 3] with
  | Ret p =>
      let p' := foldl deliver p full_round in
      sequenceID p = 1 ∧ sequenceID p' = 2 ∧ sequenceID <$> nv 3 p' = Ret 1
  | _ => False
  end.
Proof. vm_compute. split_and!; reflexivity. Qed.

End PbftProps.
