(* ===== verification/BlockOps.v ===== *)
(** * What the consensus modules share

    [pbftInside_module.go], [pbftInside_moduleBroker.go], [pbftInside_moduleCLPA.go]
    and their outside counterparts repeat the same code on blocks; it is modelled
    once here, for any module state [M], and the module files put it together.

    The transactions of a committed block are pointers: setting [Relayed] changes
    the block body, the relay pool and the report at once.  The loop below returns
    the changed body, which also becomes the body of the current block when that
    block was accepted.  [PrintBlockChain], logs and CSV lines are left out; the
    pool lock that the CSV line takes is kept. *)

From S2P Require Import Prelude Params Core Message External Storage Chain MerkleProof Pbft.

Section block_ops.
Context {PA : Params} {EX : External} {M : Type}.
Implicit Type p : PbftNode M.

(** ** Proposing and checking blocks *)

Definition propose_block (now : Time) p : go (bool * option Request * PbftNode M) :=
  '(block, bc) ← GenerateBlock now (i32 (pn_NodeID p)) (CurChain p);
  Ret (true, Some (mkRequest BlockRequest (enc block) now), p <| CurChain := bc |>).

(** A nil pointer is dereferenced by a panic. *)
Definition deref {A} (o : option A) : go A := or_panic "nil pointer dereference" o.

Definition pool_request (ppmsg : PrePrepare) p : PbftNode M :=
  p <| requestPool ::= <[pp_Digest ppmsg := pp_RequestMsg ppmsg]> |>.

Definition check_block (ppmsg : PrePrepare) p : go (bool * PbftNode M) :=
  r ← deref (pp_RequestMsg ppmsg);
  block ← DecodeB (r_Content r);
  if negb (IsValidBlock (CurChain p) block) then Ret (false, p)
  else Ret (true, pool_request ppmsg p).

(** [p.requestPool[digest]] dereferenced: nil for a missing key. *)
Definition pooled (d : bytes) p : go Request := deref (mjoin (requestPool p !! d)).

Definition add_block (block : Block) p : go (PbftNode M) :=
  bc ← AddBlock block (CurChain p); Ret (p <| CurChain := bc |>).

(** ** Sorting a committed block, for relaying *)

Record sorted := mkSorted {
  so_body : list Transaction;
  so_inner : list Transaction;
  so_relay1 : list Transaction;
  so_relay2 : list Transaction;
  so_pool : TxPool
}.
#[export] Instance sorted_eta : Eta sorted := λ s,
  mkSorted (so_body s) (so_inner s) (so_relay1 s) (so_relay2 s) (so_pool s).

Definition sort_body_tx (bc : BlockChain) (shard : Z) (s : sorted) (tx : Transaction) : go sorted :=
  ssid ← Get_PartitionMap bc (tx_Sender tx);
  rsid ← Get_PartitionMap bc (tx_Recipient tx);
  if negb (tx_Relayed tx) && negb (ssid =? shard) then Panic "incorrect tx"
  else if tx_Relayed tx && negb (rsid =? shard) then Panic "incorrect tx"
  else if negb (rsid =? shard) then
    let tx := tx <| tx_Relayed := true |> in
    pool ← AddRelayTx tx rsid (so_pool s);
    Ret (s <| so_body ::= λ l, l ++ [tx] |> <| so_relay1 ::= λ l, l ++ [tx] |> <| so_pool := pool |>)
  else
    let s := s <| so_body ::= λ l, l ++ [tx] |> in
    if tx_Relayed tx then Ret (s <| so_relay2 ::= λ l, l ++ [tx] |>)
    else Ret (s <| so_inner ::= λ l, l ++ [tx] |>).

(** From a new, empty relay pool. *)
Definition sort_body (bc : BlockChain) (shard : Z) (body : list Transaction) : go sorted :=
  go_fold (sort_body_tx bc shard)
    (mkSorted [] [] [] [] ((bc_Txpool bc) <| RelayPool := Some ∅ |>)) body.

(** The supervisor is told what was executed. *)
Definition send_report (bim : BlockInfoMsg) p : PbftNode M :=
  TcpDial (MBlockInfo bim) (ip_of SupervisorShard 0 p) p.

(** The lines around [writeCSVline]. *)
Definition csv_lock p : go (PbftNode M) :=
  pool ← GetLocked (bc_Txpool (CurChain p));
  pool ← GetUnlocked pool;
  Ret (p <| CurChain ::= λ bc, bc <| bc_Txpool := pool |> |>).

(** The leader's part of [HandleinCommit]; [accepted]: the block became the current
    one.  [epoch] is reported only. *)
Definition relay_block (now : Time) (epoch : Z) (r : Request) (block : Block) (accepted : bool) p
    : go (PbftNode M) :=
  s ← sort_body (CurChain p) (pn_ShardID p) (b_Body block);
  let block := block <| b_Body := so_body s |> in
  let p := p <| CurChain ::= λ bc, bc <| bc_Txpool := so_pool s |> |> in
  let p := if accepted then p <| CurChain ::= λ bc, bc <| bc_CurrentBlock := block |> |> else p in
  p ← (if RelayWithMerkleProof =? 1 then RelayWithProofSend block p else RelayMsgSend p);
  csv_lock (send_report
    (mkBlockInfo (len (b_Body block)) (so_inner s) epoch (r_ReqTime r) now (pn_ShardID p)
       (so_relay1 s) (so_relay2 s) [] []) p).

(** The commit of a block request in the modules that relay. *)
Definition commit_relay_block (now : Time) (epoch : Z) (r : Request) p : go (bool * PbftNode M) :=
  block ← DecodeB (r_Content r);
  let accepted := bool_decide (fits (CurChain p) block) in
  p ← add_block block p;
  if is_leader p then
    p ← relay_block now epoch r block accepted p; Ret (true, p)
  else Ret (true, p).

(** ** Old requests *)

(** [for height := first; height <= last; height++] over [rs[height-first]]; with
    [last = 2^64 - 1] the counter wraps round and the index runs over. *)
Definition each_height (f : PbftNode M → option Request → go (PbftNode M))
    (first last : Z) (rs : list (option Request)) p : go (PbftNode M) :=
  if last <? first then Ret p
  else
    p ← go_fold f p (take (Z.to_nat (last - first + 1)) rs);
    if (len rs <? last - first + 1) || (last =? 2 ^ 64 - 1) then Panic "index out of range" else Ret p.

(** A block request adds its block; [other] handles the other types. *)
Definition add_request (other : Request → PbftNode M → go (PbftNode M)) p (r : option Request)
    : go (PbftNode M) :=
  r ← deref r;
  if String.eqb (r_RequestType r) BlockRequest then
    b ← DecodeB (r_Content r); add_block b p
  else other r p.

Definition catch_up (other : Request → PbftNode M → go (PbftNode M)) (som : SendOldMessage) p
    : go (bool * PbftNode M) :=
  p ← each_height (add_request other) (so_SeqStartHeight som) (so_SeqEndHeight som) (so_OldRequest som) p;
  Ret (true, p <| sequenceID := u64 (so_SeqEndHeight som + 1) |>).

(** ** Messages of other shards *)

Definition add_to_pool (now : Time) (txs : list Transaction) p : go (PbftNode M) :=
  bc ← SendTx2Pool now txs (CurChain p); Ret (p <| CurChain := bc |>).

Definition handleRelay (now : Time) (relay : Relay) p : go (PbftNode M) :=
  p ← add_to_pool now (rl_Txs relay) p;
  Ret (p <| seqIDMap ::= <[rl_SenderShardID relay := rl_SenderSeq relay]> |>).

(** The loop over the proofs stops at the first that fails. *)
Fixpoint all_correct (txs : list Transaction) (proofs : list TxProofResult) : go bool :=
  match txs with
  | [] => Ret true
  | tx :: txs =>
      match proofs with
      | [] => Panic "index out of range"
      | pr :: proofs =>
          ok ← TxProofVerify (tx_TxHash tx) pr;
          if (ok : bool) then all_correct txs proofs else Ret false
      end
  end.

Definition handleRelayWithProof (now : Time) (rwp : RelayWithProof) p : go (PbftNode M) :=
  isAllCorrect ← all_correct (rp_Txs rwp) (rp_TxProofs rwp);
  p ← (if isAllCorrect : bool then add_to_pool now (rp_Txs rwp) p else Ret p);
  Ret (p <| seqIDMap ::= <[rp_SenderShardID rwp := rp_SenderSeq rwp]> |>).

Definition handleInjectTx (now : Time) (it : InjectTxs) p : go (PbftNode M) :=
  add_to_pool now (it_Txs it) p.

End block_ops.

#[global] Arguments sort_body : simpl never.
#[global] Arguments catch_up : simpl never.
