(* ===== verification/Relay.v ===== *)
(** * The relay module

    [pbftInside_module.go] and [pbftOutside_module.go]: one block per consensus
    round; the leader relays the cross-shard transactions of a committed block. *)

From S2P Require Import Prelude Params Core Message External Storage Chain MerkleProof Pbft BlockOps.

(** The module has no state of its own. *)
Variant relay_module : Type := RawRelay.

Module Relay.
Section relay.
Context {PA : Params} {EX : External}.
Implicit Type p : PbftNode relay_module.

Definition HandleinPropose (now : Time) (polls : list (list payload)) p := propose_block now p.
Definition HandleinPrePrepare (ppmsg : PrePrepare) p := check_block ppmsg p.
Definition HandleinPrepare (pmsg : Prepare) p : go (bool * PbftNode relay_module) := Ret (true, p).
Definition HandleinCommit (now : Time) (cmsg : Commit) p : go (bool * PbftNode relay_module) :=
  r ← pooled (c_Digest cmsg) p; commit_relay_block now 0 r p.
Definition HandleReqestforOldSeq (rom : RequestOldMessage) p : go (bool * PbftNode relay_module) :=
  Ret (true, p).
(** Requests that are no blocks are skipped. *)
Definition HandleforSequentialRequest (som : SendOldMessage) p : go (bool * PbftNode relay_module) :=
  if negb (i64 (so_SeqEndHeight som - so_SeqStartHeight som + 1) =? len (so_OldRequest som)) then Ret (true, p)
  else catch_up (λ _ p, Ret p) som p.

Definition HandleMessageOutsidePBFT (now : Time) (m : payload) p : go (PbftNode relay_module) :=
  match m with
  | MRelay m => handleRelay now m p
  | MRelayWithProof m => handleRelayWithProof now m p
  | MInject m => handleInjectTx now m p
  | _ => Ret p
  end.

End relay.
End Relay.

#[export] Instance relay_inside `{Params} `{External} : ExtraOpInConsensus relay_module := {|
  Pbft.HandleinPropose := Relay.HandleinPropose;
  Pbft.HandleinPrePrepare := Relay.HandleinPrePrepare;
  Pbft.HandleinPrepare := Relay.HandleinPrepare;
  Pbft.HandleinCommit := Relay.HandleinCommit;
  Pbft.HandleReqestforOldSeq := Relay.HandleReqestforOldSeq;
  Pbft.HandleforSequentialRequest := Relay.HandleforSequentialRequest |}.
#[export] Instance relay_outside `{Params} `{External} : OpInterShards relay_module := {|
  Pbft.HandleMessageOutsidePBFT := Relay.HandleMessageOutsidePBFT |}.
