(* ===== verification/Broker.v ===== *)
(** * The broker module

    [pbftInside_moduleBroker.go] and [pbftOutside_moduleBroker.go]: cross-shard
    transactions were split by the supervisor into two halves through a broker; the
    leader sorts a committed block into the halves and tells the other shards its
    sequence number. *)

From S2P Require Import Prelude Params Core Message External Storage Chain MerkleProof Pbft BlockOps.

Variant broker_module : Type := RawBroker.

Module Broker.
Section broker.
Context {PA : Params} {EX : External}.
Implicit Type p : PbftNode broker_module.

Variant broker_class : Type := InnerShardTx | Broker1Tx | Broker2Tx.
#[export] Instance broker_class_eq_dec : EqDecision broker_class.
Proof. solve_decision. Defined.

Definition classify (tx : Transaction) : broker_class :=
  let isInnerShardTx := match tx_RawTxHash tx with None => true | Some _ => false end in
  let isBroker1Tx := negb isInnerShardTx && String.eqb (tx_Sender tx) (tx_OriginalSender tx) in
  let isBroker2Tx := negb isInnerShardTx && String.eqb (tx_Recipient tx) (tx_FinalRecipient tx) in
  if isBroker2Tx then Broker2Tx else if isBroker1Tx then Broker1Tx else InnerShardTx.

Definition of_class (c : broker_class) (txs : list Transaction) : list Transaction :=
  filter (λ tx, classify tx = c) txs.

(** The sequence number goes to the first node of every other shard. *)
Definition send_seqid {M} (n : PbftNode M) : PbftNode M :=
  foldl (λ n sid, TcpDial (MSeqIDinfo (mkSeqIDinfo (pn_ShardID n) (sequenceID n))) (ip_of sid 0 n) n)
    n (other_shards n).

Definition HandleinPropose (now : Time) (polls : list (list payload)) p := propose_block now p.
Definition HandleinPrePrepare (ppmsg : PrePrepare) p := check_block ppmsg p.
Definition HandleinPrepare (pmsg : Prepare) p : go (bool * PbftNode broker_module) := Ret (true, p).
Definition HandleinCommit (now : Time) (cmsg : Commit) p : go (bool * PbftNode broker_module) :=
  r ← pooled (c_Digest cmsg) p;
  block ← DecodeB (r_Content r);
  p ← add_block block p;
  if is_leader p then
    let body := b_Body block in
    let p := send_seqid p in
    let bim := mkBlockInfo (len body) (of_class InnerShardTx body) 0 (r_ReqTime r) now
                 (pn_ShardID p) [] [] (of_class Broker1Tx body) (of_class Broker2Tx body) in
    p ← csv_lock (send_report bim p);
    Ret (true, p)
  else Ret (true, p).
Definition HandleReqestforOldSeq (rom : RequestOldMessage) p : go (bool * PbftNode broker_module) :=
  Ret (true, p).
(** The length is compared with [start - end], not with [end - start + 1]. *)
Definition HandleforSequentialRequest (som : SendOldMessage) p : go (bool * PbftNode broker_module) :=
  if negb (i64 (so_SeqStartHeight som - so_SeqEndHeight som) =? len (so_OldRequest som)) then Ret (true, p)
  else catch_up (λ _ p, Ret p) som p.

Definition handleSeqIDinfos {M} (sii : SeqIDinfo) (n : PbftNode M) : PbftNode M :=
  n <| seqIDMap ::= <[si_SenderShardID sii := si_SenderSeq sii]> |>.

Definition HandleMessageOutsidePBFT (now : Time) (m : payload) p : go (PbftNode broker_module) :=
  match m with
  | MSeqIDinfo m => Ret (handleSeqIDinfos m p)
  | MInject m => handleInjectTx now m p
  | _ => Ret p
  end.

End broker.
End Broker.

#[export] Instance broker_inside `{Params} `{External} : ExtraOpInConsensus broker_module := {|
  Pbft.HandleinPropose := Broker.HandleinPropose;
  Pbft.HandleinPrePrepare := Broker.HandleinPrePrepare;
  Pbft.HandleinPrepare := Broker.HandleinPrepare;
  Pbft.HandleinCommit := Broker.HandleinCommit;
  Pbft.HandleReqestforOldSeq := Broker.HandleReqestforOldSeq;
  Pbft.HandleforSequentialRequest := Broker.HandleforSequentialRequest |}.
#[export] Instance broker_outside `{Params} `{External} : OpInterShards broker_module := {|
  Pbft.HandleMessageOutsidePBFT := Broker.HandleMessageOutsidePBFT |}.
