(* ===== verification/Clpa.v ===== *)
(** * The CLPA module: relaying, with account migration

    [pbftInside_moduleCLPA.go], [pbftOutside_moduleCLPA.go],
    [accountTransfer_module.go] and [dataSupport/clpaData_Extra.go].

    On a partition message of the supervisor the leader of each shard: declares
    itself ready and waits until all shards are; sends the accounts that move and
    the queued transactions that follow them; waits for those of the other shards;
    proposes a partition request, whose commit changes the partition map and adds
    the accounts on every node.

    Maps are visited in the order of [map_to_list]; Go leaves it open, and no
    theorem depends on it.  The locks of the record are held inside one access
    each and are left out. *)

From S2P Require Import Prelude Params Core Message External Storage Chain MerkleProof Pbft BlockOps.

(** ** [dataSupport/clpaData_Extra.go] *)

Record Data_supportCLPA := mkCdm {
  ModifiedMap : list (gmap string Z);
  AccountTransferRound : Z;
  ReceivedNewAccountState : gmap string AccountState;
  ReceivedNewTx : list Transaction;
  AccountStateTx : gmap Z AccountStateAndTx;
  PartitionOn : bool;
  PartitionReady : gset Z;
  ReadySeq : gmap Z Z;
  CollectOver : bool
}.
#[export] Instance Data_supportCLPA_eta : Eta Data_supportCLPA := λ r,
  mkCdm (ModifiedMap r) (AccountTransferRound r) (ReceivedNewAccountState r) (ReceivedNewTx r)
    (AccountStateTx r) (PartitionOn r) (PartitionReady r) (ReadySeq r) (CollectOver r).
#[export] Instance AccountStateAndTx_eta : Eta AccountStateAndTx := λ r,
  mkAST (ast_Addrs r) (ast_AccountState r) (ast_Txs r) (ast_FromShard r).

Definition NewCLPADataSupport : Data_supportCLPA := mkCdm [] 0 ∅ [] ∅ false ∅ ∅ false.

Module Clpa.
Section clpa.
Context {PA : Params} {EX : External}.
Abbreviation node := (PbftNode Data_supportCLPA) (only parsing).
Implicit Type p : PbftNode Data_supportCLPA.

Definition with_cdm (f : Data_supportCLPA → Data_supportCLPA) p : node := p <| pn_mod ::= f |>.

(** ** [pbftOutside_moduleCLPA.go] *)

Definition handlePartitionMsg (pm : PartitionModifiedMap) p : node :=
  with_cdm (λ d, d <| ModifiedMap ::= λ l, l ++ [PartitionModified pm] |> <| PartitionOn := true |>) p.

Definition handlePartitionReady (pr : PartitionReadyMsg) p : node :=
  with_cdm (λ d, d <| PartitionReady ::= λ s, {[ pr_FromShard pr ]} ∪ s |>
                   <| ReadySeq ::= <[pr_FromShard pr := pr_NowSeqID pr]> |>) p.

Definition handleAccountStateAndTxMsg (at_ : AccountStateAndTx) p : node :=
  let p := with_cdm (λ d, d <| AccountStateTx ::= <[ast_FromShard at_ := at_]> |>) p in
  if Z.of_nat (size (AccountStateTx (pn_mod p))) =? i64 (i64 (ShardNums (pbftChainConfig p)) - 1)
  then with_cdm (λ d, d <| CollectOver := true |>) p else p.

Definition HandleMessageOutsidePBFT (now : Time) (m : payload) p : go node :=
  match m with
  | MRelay m => handleRelay now m p
  | MRelayWithProof m => handleRelayWithProof now m p
  | MInject m => handleInjectTx now m p
  | MPartitionMap m => Ret (handlePartitionMsg m p)
  | MAccountStateAndTx m => Ret (handleAccountStateAndTxMsg m p)
  | MPartitionReady m => Ret (handlePartitionReady m p)
  | _ => Ret p
  end.

(** ** [accountTransfer_module.go] *)

Definition sendPartitionReady p : node :=
  let p := with_cdm (λ d, d <| PartitionReady ::= λ s, {[ pn_ShardID p ]} ∪ s |>) p in
  foldl (λ p sid, TcpDial (MPartitionReady (mkPartitionReady (pn_ShardID p) (sequenceID p))) (ip_of sid 0 p) p)
    p (other_shards p).

(** Every shard is ready, and has sent us all its relays before that. *)
Definition getPartitionReady p : bool :=
  forallb (λ '(sid, val), match ReadySeq (pn_mod p) !! sid with
                          | Some rval => u64 (rval - 1) =? val
                          | None => false
                          end) (map_to_list (seqIDMap p))
  && (Z.of_nat (size (PartitionReady (pn_mod p))) =? i64 (ShardNums (pbftChainConfig p))).

(** [ModifiedMap[i]], and [ModifiedMap[i][key]]. *)
Definition map_at (i : Z) (d : Data_supportCLPA) : go (gmap string Z) :=
  if i <? 0 then Panic "index out of range" else or_panic "index out of range" (ModifiedMap d !! Z.to_nat i).
Definition shard_to (m : gmap string Z) (a : Address) : Z := default 0 (m !! a).

(** The accounts that leave this shard. *)
Definition leaving (m : gmap string Z) p : go (list Address) :=
  go_fold (λ acc '(key, val),
    if val =? pn_ShardID p then Ret acc
    else
      s ← Get_PartitionMap (CurChain p) key;
      if s =? pn_ShardID p then Ret (acc ++ [key]) else Ret acc) [] (map_to_list m).

(** Does the transaction follow an account of the set?  By its sender before the
    first half is executed, by its recipient after. *)
Definition follows (addrSet : list Address) (tx : Transaction) : bool :=
  (bool_decide (tx_Sender tx ∈ addrSet) && negb (tx_Relayed tx))
  || (bool_decide (tx_Recipient tx ∈ addrSet) && tx_Relayed tx).

(** What goes to shard [i], with what stays queued. *)
Definition transfer_to (m : gmap string Z) (shard i : Z) (fetched : list (Address * AccountState))
    (queue : list Transaction) : AccountStateAndTx * list Transaction :=
  let sel := filter (λ x : Address * AccountState, shard_to m x.1 = i) fetched in
  (mkAST sel.*1 sel.*2 (filter (λ tx, follows sel.*1 tx = true) queue) shard,
   filter (λ tx, follows sel.*1 tx = false) queue).

Definition send_transfer (m : gmap string Z) (fetched : list (Address * AccountState)) p (i : Z) : node :=
  let '(ast, rest) := transfer_to m (pn_ShardID p) i fetched (TxQueue (bc_Txpool (CurChain p))) in
  TcpDial (MAccountStateAndTx ast) (ip_of i 0 p)
    (p <| CurChain ::= λ bc, bc <| bc_Txpool ::= λ pool, pool <| TxQueue := rest |> |> |>).

Definition sendAccounts_and_Txs p : go node :=
  m ← map_at (len (ModifiedMap (pn_mod p)) - 1) (pn_mod p);
  accountToFetch ← leaving m p;
  asFetched ← FetchAccounts accountToFetch (CurChain p);
  pool ← GetLocked (bc_Txpool (CurChain p));
  let p := p <| CurChain ::= λ bc, bc <| bc_Txpool := pool |> |> in
  let p := foldl (send_transfer m (zip accountToFetch asFetched)) p (other_shards p) in
  pool ← GetUnlocked (bc_Txpool (CurChain p));
  Ret (p <| CurChain ::= λ bc, bc <| bc_Txpool := pool |> |>).

(** One message of the pool: its accounts, then its transactions. *)
Definition collect (d : Data_supportCLPA) (at_ : AccountStateAndTx) : go Data_supportCLPA :=
  if (length (ast_AccountState at_) <? length (ast_Addrs at_))%nat then Panic "index out of range"
  else Ret (d <| ReceivedNewAccountState ::= λ r,
                   foldl (λ r x, <[x.1 := x.2]> r) r (zip (ast_Addrs at_) (ast_AccountState at_)) |>
              <| ReceivedNewTx ::= λ l, l ++ ast_Txs at_ |>).

(** The account a received transaction belongs to must now be ours. *)
Definition check_tx (shard : Z) (m : gmap string Z) (tx : Transaction) : bool :=
  if tx_Relayed tx then shard_to m (tx_Recipient tx) =? shard else shard_to m (tx_Sender tx) =? shard.

(** [AddTxs2Pool] stamps the transactions, which the data record also points to. *)
Definition stamp_cdm (now : Time) (d : Data_supportCLPA) : Data_supportCLPA :=
  d <| ReceivedNewTx ::= fmap (stamp now) |>
    <| AccountStateTx ::= fmap (λ a, a <| ast_Txs ::= fmap (stamp now) |>) |>.

(** The request for what the record holds, whose transactions join the queue. *)
Definition propose_received (now : Time) (d : Data_supportCLPA) p : go (bool * option Request * node) :=
  p ← add_to_pool now (ReceivedNewTx d) (p <| pn_mod := stamp_cdm now d |>);
  m ← map_at (AccountTransferRound d) d;
  let accounts := map_to_list (ReceivedNewAccountState d) in
  let atm := mkATM m accounts.*1 accounts.*2 (u64 (len (ModifiedMap d))) in
  Ret (true, Some (mkRequest PartitionReq (enc atm) now), p).

Definition proposePartition (now : Time) p : go (bool * option Request * node) :=
  d ← go_fold collect (pn_mod p) ((map_to_list (AccountStateTx (pn_mod p))).*2);
  _ ← go_fold (λ _ tx, m ← map_at (AccountTransferRound d) d;
                       if check_tx (pn_ShardID p) m tx then Ret () else Panic "error tx")
        () (ReceivedNewTx d);
  propose_received now d p.

Definition accountTransfer_do (atm : AccountTransferMsg) p : go node :=
  let bc := foldl (λ bc '(key, val), Update_PartitionMap key val bc) (CurChain p)
              (map_to_list (at_ModifiedMap atm)) in
  bc ← AddAccounts (at_Addrs atm) (at_AccountState atm) bc;
  let p := p <| CurChain := bc |> in
  Ret (with_cdm (λ d,
    (if negb (u64 (len (ModifiedMap d)) =? at_ATid atm)
     then d <| ModifiedMap ::= λ l, l ++ [at_ModifiedMap atm] |> else d)
      <| AccountTransferRound := at_ATid atm |> <| AccountStateTx := ∅ |>
      <| ReceivedNewAccountState := ∅ |> <| ReceivedNewTx := [] |> <| PartitionOn := false |>
      <| CollectOver := false |> <| PartitionReady := ∅ |>) p).

(** ** [pbftInside_moduleCLPA.go] *)

(** [for !ready() { time.Sleep(...) }]; [polls]: what is handled in each sleep. *)
Fixpoint wait_for (handle : payload → node → go node) (ready : node → bool) (polls : list (list payload)) p
    : go (list (list payload) * node) :=
  if ready p then Ret (polls, p)
  else
    match polls with
    | [] => Blocked "polling"
    | ms :: polls =>
        p ← go_fold (λ p m, handle m p) p ms; wait_for handle ready polls p
    end.

Definition HandleinPropose (now : Time) (polls : list (list payload)) p : go (bool * option Request * node) :=
  if PartitionOn (pn_mod p) then
    let p := sendPartitionReady p in
    '(polls, p) ← wait_for (HandleMessageOutsidePBFT now) getPartitionReady polls p;
    p ← sendAccounts_and_Txs p;
    '(_, p) ← wait_for (HandleMessageOutsidePBFT now) (λ p, CollectOver (pn_mod p)) polls p;
    proposePartition now p
  else propose_block now p.

Definition HandleinPrePrepare (ppmsg : PrePrepare) p : go (bool * node) :=
  r ← deref (pp_RequestMsg ppmsg);
  if String.eqb (r_RequestType r) PartitionReq then Ret (true, pool_request ppmsg p)
  else check_block ppmsg p.

Definition HandleinPrepare (pmsg : Prepare) p : go (bool * node) := Ret (true, p).

Definition transfer_request (r : Request) p : go node :=
  atm ← or_panic "gob: AccountTransferMsg" (dec (r_Content r)); accountTransfer_do atm p.

Definition HandleinCommit (now : Time) (cmsg : Commit) p : go (bool * node) :=
  r ← pooled (c_Digest cmsg) p;
  if String.eqb (r_RequestType r) PartitionReq then p ← transfer_request r p; Ret (true, p)
  else commit_relay_block now (i64 (AccountTransferRound (pn_mod p))) r p.

Definition HandleReqestforOldSeq (rom : RequestOldMessage) p : go (bool * node) := Ret (true, p).

Definition HandleforSequentialRequest (som : SendOldMessage) p : go (bool * node) :=
  if negb (i64 (so_SeqEndHeight som - so_SeqStartHeight som + 1) =? len (so_OldRequest som)) then Ret (true, p)
  else catch_up transfer_request som p.

End clpa.
End Clpa.

#[export] Instance clpa_inside `{Params} `{External} : ExtraOpInConsensus Data_supportCLPA := {|
  Pbft.HandleinPropose := Clpa.HandleinPropose;
  Pbft.HandleinPrePrepare := Clpa.HandleinPrePrepare;
  Pbft.HandleinPrepare := Clpa.HandleinPrepare;
  Pbft.HandleinCommit := Clpa.HandleinCommit;
  Pbft.HandleReqestforOldSeq := Clpa.HandleReqestforOldSeq;
  Pbft.HandleforSequentialRequest := Clpa.HandleforSequentialRequest |}.
#[export] Instance clpa_outside `{Params} `{External} : OpInterShards Data_supportCLPA := {|
  Pbft.HandleMessageOutsidePBFT := Clpa.HandleMessageOutsidePBFT |}.
