(* ===== verification/ClpaBroker.v ===== *)
(** * The CLPA-broker module: splitting through brokers, with account migration

    [pbftInside_modCLPABroker.go], [pbftOutside_modCLPABroker.go] and
    [accountTransfermod_Broker.go]: blocks are handled as in the broker module, the
    partition map changes as in the CLPA module, and a queued transaction inside the
    shard whose accounts are separated by the new map goes back to the supervisor,
    which splits it.

    What the source repeats from the CLPA and broker modules word for word is named
    here after its definition there.  Maps are visited in the order of
    [map_to_list]; no theorem depends on it. *)

From S2P Require Import Prelude Params Core Message External Storage Chain MerkleProof Pbft BlockOps Broker Clpa.

Module ClpaBroker.
#[local] Existing Instance Broker.broker_class_eq_dec.
Section clpa_broker.
Context {PA : Params} {EX : External}.
Abbreviation node := (PbftNode Data_supportCLPA) (only parsing).
Implicit Type p : PbftNode Data_supportCLPA.

(** ** [pbftOutside_modCLPABroker.go] *)

Definition handleSeqIDinfos (sii : SeqIDinfo) p : node := Broker.handleSeqIDinfos sii p.
Definition handleInjectTx (now : Time) (it : InjectTxs) p : go node := BlockOps.handleInjectTx now it p.
Definition handlePartitionMsg (pm : PartitionModifiedMap) p : node := Clpa.handlePartitionMsg pm p.
Definition handlePartitionReady (pr : PartitionReadyMsg) p : node := Clpa.handlePartitionReady pr p.
Definition handleAccountStateAndTxMsg (at_ : AccountStateAndTx) p : node :=
  Clpa.handleAccountStateAndTxMsg at_ p.

Definition HandleMessageOutsidePBFT (now : Time) (m : payload) p : go node :=
  match m with
  | MSeqIDinfo m => Ret (handleSeqIDinfos m p)
  | MInject m => handleInjectTx now m p
  | MPartitionMap m => Ret (handlePartitionMsg m p)
  | MBrokerAST m => Ret (handleAccountStateAndTxMsg m p)
  | MPartitionReady m => Ret (handlePartitionReady m p)
  | _ => Ret p
  end.

(** ** [accountTransfermod_Broker.go] *)

Definition sendPartitionReady p : node := Clpa.sendPartitionReady p.
Definition getPartitionReady p : bool := Clpa.getPartitionReady p.
Definition getCollectOver p : bool := CollectOver (pn_mod p).

(** What happens to a queued transaction when the accounts of the set leave. *)
Variant fate : Type := Stays | Follows | BecomesCross.
#[export] Instance fate_eq_dec : EqDecision fate.
Proof. solve_decision. Defined.

Definition fate_of (addrSet : list Address) (ptx : Transaction) : fate :=
  let ok1 := bool_decide (tx_Sender ptx ∈ addrSet) in
  let ok2 := bool_decide (tx_Recipient ptx ∈ addrSet) in
  let send (ok : bool) := if ok then Follows else Stays in
  match tx_RawTxHash ptx with
  | None =>
      if tx_HasBroker ptx then (if tx_SenderIsBroker ptx then send ok2 else send ok1)
      else if ok1 || ok2 then BecomesCross else Stays
  | Some _ =>
      if String.eqb (tx_FinalRecipient ptx) (tx_Recipient ptx) then send ok2
      else if String.eqb (tx_OriginalSender ptx) (tx_Sender ptx) then send ok1
      else Stays
  end.

(** What goes to shard [i], what becomes cross-shard, and what stays queued. *)
Definition transfer_to (m : gmap string Z) (shard i : Z) (fetched : list (Address * AccountState))
    (queue : list Transaction) : AccountStateAndTx * list Transaction * list Transaction :=
  let sel := filter (λ x : Address * AccountState, Clpa.shard_to m x.1 = i) fetched in
  let having f := filter (λ tx, fate_of sel.*1 tx = f) queue in
  (mkAST sel.*1 sel.*2 (having Follows) shard, having BecomesCross, having Stays).

(** One round of the loop over the other shards. *)
Definition send_transfer (m : gmap string Z) (fetched : list (Address * AccountState))
    (acc : node * list Transaction) (i : Z) : node * list Transaction :=
  let '(p, txsBeCross) := acc in
  let '(ast, cross, rest) := transfer_to m (pn_ShardID p) i fetched (TxQueue (bc_Txpool (CurChain p))) in
  (TcpDial (MBrokerAST ast) (ip_of i 0 p)
     (p <| CurChain ::= λ bc, bc <| bc_Txpool ::= λ pool, pool <| TxQueue := rest |> |> |>),
   txsBeCross ++ cross).

Definition sendAccounts_and_Txs p : go node :=
  m ← Clpa.map_at (len (ModifiedMap (pn_mod p)) - 1) (pn_mod p);
  accountToFetch ← Clpa.leaving m p;
  asFetched ← FetchAccounts accountToFetch (CurChain p);
  pool ← GetLocked (bc_Txpool (CurChain p));
  let p := p <| CurChain ::= λ bc, bc <| bc_Txpool := pool |> |> in
  let '(p, txsBeCross) := foldl (send_transfer m (zip accountToFetch asFetched)) (p, []) (other_shards p) in
  pool ← GetUnlocked (bc_Txpool (CurChain p));
  let p := p <| CurChain ::= λ bc, bc <| bc_Txpool := pool |> |> in
  Ret (TcpDial (MInner2Cross (mkInner2Cross txsBeCross)) (ip_of SupervisorShard 0 p) p).

(** The received transactions are taken unchecked. *)
Definition proposePartition (now : Time) p : go (bool * option Request * node) :=
  d ← go_fold Clpa.collect (pn_mod p) ((map_to_list (AccountStateTx (pn_mod p))).*2);
  Clpa.propose_received now d p.

Definition accountTransfer_do (atm : AccountTransferMsg) p : go node := Clpa.accountTransfer_do atm p.

(** ** [pbftInside_modCLPABroker.go] *)

Definition HandleinPropose (now : Time) (polls : list (list payload)) p : go (bool * option Request * node) :=
  if PartitionOn (pn_mod p) then
    let p := sendPartitionReady p in
    '(polls, p) ← Clpa.wait_for (HandleMessageOutsidePBFT now) getPartitionReady polls p;
    p ← sendAccounts_and_Txs p;
    '(_, p) ← Clpa.wait_for (HandleMessageOutsidePBFT now) getCollectOver polls p;
    proposePartition now p
  else propose_block now p.

Definition HandleinPrePrepare (ppmsg : PrePrepare) p : go (bool * node) := Clpa.HandleinPrePrepare ppmsg p.
Definition HandleinPrepare (pmsg : Prepare) p : go (bool * node) := Ret (true, p).

(** The first half is recognised by its sender, the second by its recipient. *)
Definition isBroker1Tx (tx : Transaction) : bool := String.eqb (tx_Sender tx) (tx_OriginalSender tx).
Definition isBroker2Tx (tx : Transaction) : bool := String.eqb (tx_Recipient tx) (tx_FinalRecipient tx).
Definition classify (tx : Transaction) : Broker.broker_class :=
  if isBroker2Tx tx then Broker.Broker2Tx else if isBroker1Tx tx then Broker.Broker1Tx else Broker.InnerShardTx.
Definition of_class (c : Broker.broker_class) (txs : list Transaction) : list Transaction :=
  filter (λ tx, classify tx = c) txs.

(** An executed transaction must have its accounts here. *)
Definition check_body_tx (bc : BlockChain) (shard : Z) (tx : Transaction) : go () :=
  ssid ← Get_PartitionMap bc (tx_Sender tx);
  rsid ← Get_PartitionMap bc (tx_Recipient tx);
  let senderIsInshard := ssid =? shard in
  let recipientIsInshard := rsid =? shard in
  if isBroker1Tx tx && negb senderIsInshard then Panic "Err tx1"
  else if isBroker2Tx tx && negb recipientIsInshard then Panic "Err tx2"
  else
    match tx_RawTxHash tx with
    | None =>
        if tx_HasBroker tx then
          if tx_SenderIsBroker tx && negb recipientIsInshard then Panic "err tx 1 - recipient"
          else if negb (tx_SenderIsBroker tx) && negb senderIsInshard then Panic "err tx 1 - sender"
          else Ret ()
        else if negb senderIsInshard || negb recipientIsInshard then Panic "err tx - without broker"
        else Ret ()
    | Some _ => Ret ()
    end.

(** The leader's part of the commit of a block. *)
Definition report_block (now : Time) (r : Request) (block : Block) p : go node :=
  let body := b_Body block in
  _ ← go_fold (λ _ tx, check_body_tx (CurChain p) (pn_ShardID p) tx) () body;
  let p := Broker.send_seqid p in
  let bim := mkBlockInfo (len body) (of_class Broker.InnerShardTx body)
               (i64 (AccountTransferRound (pn_mod p))) (r_ReqTime r) now (pn_ShardID p) [] []
               (of_class Broker.Broker1Tx body) (of_class Broker.Broker2Tx body) in
  csv_lock (send_report bim p).

Definition HandleinCommit (now : Time) (cmsg : Commit) p : go (bool * node) :=
  r ← pooled (c_Digest cmsg) p;
  if String.eqb (r_RequestType r) PartitionReq then
    atm ← or_panic "gob: AccountTransferMsg" (dec (r_Content r));
    p ← accountTransfer_do atm p; Ret (true, p)
  else
    block ← DecodeB (r_Content r);
    p ← add_block block p;
    if is_leader p then p ← report_block now r block p; Ret (true, p)
    else Ret (true, p).

Definition HandleReqestforOldSeq (rom : RequestOldMessage) p : go (bool * node) := Ret (true, p).

Definition HandleforSequentialRequest (som : SendOldMessage) p : go (bool * node) :=
  if negb (i64 (so_SeqEndHeight som - so_SeqStartHeight som + 1) =? len (so_OldRequest som)) then Ret (true, p)
  else catch_up Clpa.transfer_request som p.

End clpa_broker.
End ClpaBroker.

(** The module state is that of the CLPA module; the instances are named, so that
    the two mechanisms are not confused. *)
Definition clpa_broker_inside `{Params} `{External} : ExtraOpInConsensus Data_supportCLPA := {|
  Pbft.HandleinPropose := ClpaBroker.HandleinPropose;
  Pbft.HandleinPrePrepare := ClpaBroker.HandleinPrePrepare;
  Pbft.HandleinPrepare := ClpaBroker.HandleinPrepare;
  Pbft.HandleinCommit := ClpaBroker.HandleinCommit;
  Pbft.HandleReqestforOldSeq := ClpaBroker.HandleReqestforOldSeq;
  Pbft.HandleforSequentialRequest := ClpaBroker.HandleforSequentialRequest |}.
Definition clpa_broker_outside `{Params} `{External} : OpInterShards Data_supportCLPA := {|
  Pbft.HandleMessageOutsidePBFT := ClpaBroker.HandleMessageOutsidePBFT |}.
