(* ===== verification/Szhbft.v ===== *)
(** * The SZHBFT module

    [pbftInside_moduleSZHBFT.go] and [pbftOutside_moduleSZHBFT.go] (of the two versions
    that an unfinished merge left in the second file, the later one): blocks of one
    zone's own transactions go to a ledger of their own, proposals with others are put
    to a vote of the zones.

    - The inside and the outside module each know the node and the zone, so they are
      one record.
    - A nil vote pool is created when it is first written; it is the empty map.
    - A vote is handled in two critical sections under [voteLock], with other votes
      possibly in between: [record_vote] and [settle_vote]. *)

From stdpp Require Import pretty.
From S2P Require Import Prelude Params Core Message External Storage Chain MerkleProof Pbft BlockOps.

Record SZHBFT `{External} := mkSZHBFT {
  LocalChain : BlockChain;
  ZoneID : Z;
  globalVotePool : gmap Z (gmap Z bool)
}.
Arguments mkSZHBFT {_}. Arguments LocalChain {_}. Arguments ZoneID {_}. Arguments globalVotePool {_}.
#[export] Instance SZHBFT_eta `{External} : Eta SZHBFT := λ s,
  mkSZHBFT (LocalChain s) (ZoneID s) (globalVotePool s).

Module Szhbft.
Section szhbft.
Context {PA : Params} {EX : External}.
Implicit Type p : PbftNode SZHBFT.

(** ** Inside the consensus *)

(** Send to the nodes of some shards, in the order in which Go visits the maps. *)
Definition multicast (m : payload) (shards : list Z) p : PbftNode SZHBFT :=
  foldl (λ p sid, foldl (λ p ip, TcpDial m ip p) p (getNodeIpsWithinShard sid p)) p shards.

Definition HandleinPropose (now : Time) (polls : list (list payload)) p
    : go (bool * option Request * PbftNode SZHBFT) :=
  '(localBlock, globalBlock, bc) ← GenerateSZBlock now (i32 (pn_NodeID p)) (CurChain p);
  let p := p <| CurChain := bc |> in
  match localBlock, globalBlock with
  | Some targetBlock, _ => Ret (true, Some (mkRequest BlockRequest (enc targetBlock) now), p)
  | None, Some globalBlock =>
      targetSZs ← GetRelatedShards (CurChain p) globalBlock;
      let prepareMsg := MSZPrepare (mkSZPrepare globalBlock (sequenceID p) (u64 (view p)) now (RunningNode p)) in
      Ret (false, Some (mkRequest BlockRequest "" now), multicast prepareMsg (elements targetSZs) p)
  | None, None => Ret (false, None, p)
  end.

Definition HandleinPrePrepare (ppmsg : PrePrepare) p : go (bool * PbftNode SZHBFT) :=
  match pp_RequestMsg ppmsg with
  | None => Ret (false, p)
  | Some r =>
      block ← DecodeB (r_Content r);
      if negb (IsValidBlock (CurChain p) block) then Ret (false, p)
      else Ret (true, pool_request ppmsg p)
  end.

Definition HandleinPrepare (pmsg : Prepare) p : go (bool * PbftNode SZHBFT) := Ret (true, p).

(** All transactions stay in the shard; the loop stops at the first that does not. *)
Fixpoint isLocalSZBlock (bc : BlockChain) (shard : Z) (body : list Transaction) : go bool :=
  match body with
  | [] => Ret true
  | tx :: body =>
      ssid ← Get_PartitionMap bc (tx_Sender tx);
      rsid ← Get_PartitionMap bc (tx_Recipient tx);
      if negb (ssid =? shard) || negb (rsid =? shard) then Ret false else isLocalSZBlock bc shard body
  end.

(** The block as the next one of the local ledger. *)
Definition relink (lc : BlockChain) (block : Block) : Block :=
  hashed (block <| b_Header ::= λ h, h <| bh_Number := u64 (bh_Number (b_Header (bc_CurrentBlock lc)) + 1) |>
                                        <| bh_ParentBlockHash := b_Hash (bc_CurrentBlock lc) |> |>).

Definition HandleinCommit (now : Time) (cmsg : Commit) p : go (bool * PbftNode SZHBFT) :=
  r ← pooled (c_Digest cmsg) p;
  block ← DecodeB (r_Content r);
  isLocal ← isLocalSZBlock (CurChain p) (pn_ShardID p) (b_Body block);
  if isLocal : bool then
    lc ← AddBlock (relink (LocalChain (pn_mod p)) block) (LocalChain (pn_mod p));
    Ret (true, p <| pn_mod ::= λ s, s <| LocalChain := lc |> |>)
  else commit_relay_block now 0 r p.

Definition HandleReqestforOldSeq (rom : RequestOldMessage) p : go (bool * PbftNode SZHBFT) := Ret (true, p).

(** Requests that are no blocks are skipped. *)
Definition HandleforSequentialRequest (som : SendOldMessage) p : go (bool * PbftNode SZHBFT) :=
  if negb (i64 (so_SeqEndHeight som - so_SeqStartHeight som + 1) =? len (so_OldRequest som)) then Ret (true, p)
  else catch_up (λ _ p, Ret p) som p.

(** ** Messages of other shards *)

Definition handleIntraZoneRelay (now : Time) (relay : Relay) p : go (PbftNode SZHBFT) :=
  p ← add_to_pool now (rl_Txs relay) p;
  Ret (p <| seqIDMap ::= <[rl_SenderShardID relay := rl_SenderSeq relay]> |>).

(** Every proposal of another zone is voted for, unread. *)
Definition handleInterSZonePrepare (now : Time) (msg : InterSZonePrepare) p : PbftNode SZHBFT :=
  let p := p <| lastCommitTime := UnixMilli now |> in
  let voteMsg := mkSZVote (zp_SeqID msg) (zp_View msg) (pn_ShardID p) (pn_NodeID p) true in
  TcpDial (MSZVote voteMsg) (ip_of (n_ShardID (zp_SenderNode msg)) (n_NodeID (zp_SenderNode msg)) p) p.

(** The votes for a sequence number. *)
Definition votes_for (seq : Z) (pool : gmap Z (gmap Z bool)) : gmap Z bool := default ∅ (pool !! seq).

(** First critical section: put the vote into the pool; count those in favour and all. *)
Definition record_vote (vote : InterSZoneVote) p : Z * Z * PbftNode SZHBFT :=
  let p := p <| pn_mod ::= λ s, s <| globalVotePool ::= λ pool,
             <[zv_SeqID vote := <[zv_SenderNodeID vote := zv_Result vote]> (votes_for (zv_SeqID vote) pool)]> pool |> |> in
  let votes := votes_for (zv_SeqID vote) (globalVotePool (pn_mod p)) in
  (Z.of_nat (size (filter (λ v : Z * bool, v.2 = true) votes)), Z.of_nat (size votes), p).

(** [fmt.Sprintf("%d", n)] of a count. *)
Definition decimal (n : Z) : string := pretty (Z.to_N n).

(** Second critical section, with the message that may follow it. *)
Definition settle_vote (vote : InterSZoneVote) (agreeCount totalVotes : Z) p : PbftNode SZHBFT :=
  let f := i64 (malicious_nums p) in
  let thresholdImmediate := i64 (3 * f + 1) in
  let thresholdEIG := i64 (2 * f + 1) in
  let close p := p <| pn_mod ::= λ s, s <| globalVotePool ::= delete (zv_SeqID vote) |> |> in
  let confirm sigs p :=
    multicast (MSZConfirm (mkSZConfirm (bc_CurrentBlock (CurChain p)) (zv_SeqID vote) (zv_View vote) sigs
                 (RunningNode p))) (seqZ 0 (ShardNums (pbftChainConfig p))) p in
  match globalVotePool (pn_mod p) !! zv_SeqID vote with
  | None => p
  | Some _ =>
      if thresholdImmediate <=? agreeCount then confirm "IMMEDIATE_AGREED_SIG" (close p)
      else if (thresholdEIG <=? agreeCount) && (thresholdImmediate <=? totalVotes) then
        confirm ("EIG_STAGE1_SIG_COUNT_" +:+ decimal agreeCount) (close p)
      else p
  end.

Definition handleInterSZoneVote (vote : InterSZoneVote) p : PbftNode SZHBFT :=
  let '(agreeCount, totalVotes, p) := record_vote vote p in settle_vote vote agreeCount totalVotes p.

Definition HandleMessageOutsidePBFT (now : Time) (m : payload) p : go (PbftNode SZHBFT) :=
  match m with
  | MRelay m =>
      if rl_SenderShardID m / 2 =? ZoneID (pn_mod p) then handleIntraZoneRelay now m p else handleRelay now m p
  | MRelayWithProof m => handleRelayWithProof now m p
  | MInject m => handleInjectTx now m p
  | MSZPrepare m => Ret (handleInterSZonePrepare now m p)
  | MSZVote m => Ret (handleInterSZoneVote m p)
  | _ => Ret p
  end.

(** The default case of [NewPbftNode]: the module of a new node, from the two chains. *)
Definition new_module (shardID : Z) (localChain : BlockChain) : SZHBFT := mkSZHBFT localChain shardID ∅.

End szhbft.
End Szhbft.

#[export] Instance szhbft_inside `{Params} `{External} : ExtraOpInConsensus SZHBFT := {|
  Pbft.HandleinPropose := Szhbft.HandleinPropose;
  Pbft.HandleinPrePrepare := Szhbft.HandleinPrePrepare;
  Pbft.HandleinPrepare := Szhbft.HandleinPrepare;
  Pbft.HandleinCommit := Szhbft.HandleinCommit;
  Pbft.HandleReqestforOldSeq := Szhbft.HandleReqestforOldSeq;
  Pbft.HandleforSequentialRequest := Szhbft.HandleforSequentialRequest |}.
#[export] Instance szhbft_outside `{Params} `{External} : OpInterShards SZHBFT := {|
  Pbft.HandleMessageOutsidePBFT := Szhbft.HandleMessageOutsidePBFT |}.
