(* ===== verification/ModuleLaws.v ===== *)
(** * The modules keep to the interface of the node

    [ConsensusLaws] and [InterShardLaws] (PbftSteps.v) for the relay, broker,
    CLPA, CLPA-broker and SZHBFT modules: none of them touches votes, views or stages, sends a message of
    the consensus, or changes the sequence number or the request pool except where
    the node expects it. *)

From S2P Require Import Prelude Params Core Message External Storage Chain MerkleProof Pbft PbftSteps BlockOps Relay Broker Clpa ClpaBroker Szhbft.

Section inert.
Context {PA : Params} {EX : External} {M : Type}.
Implicit Type p : PbftNode M.

(** A module step that also leaves the sequence number and the requests alone. *)
Record inert p p' : Prop := {
  in_step : module_step p p';
  in_seq : sequenceID p' = sequenceID p;
  in_pool : requestPool p' = requestPool p;
  in_height : height2Digest p' = height2Digest p
}.
#[export] Instance inert_preorder : PreOrder inert.
Proof.
  split; [by split|]. intros p1 p2 p3 [M1 S1 R1 H1] [M2 S2 R2 H2].
  split; [by etrans|congruence..].
Qed.

Local Ltac one_field := split; [split; try done; exists []; by rewrite (right_id_L [] (++))|done..].

Lemma inert_chain f p : inert p (p <| CurChain ::= f |>).
Proof. one_field. Qed.
Lemma inert_seqmap f p : inert p (p <| seqIDMap ::= f |>).
Proof. one_field. Qed.
Lemma inert_mod f p : inert p (p <| pn_mod ::= f |>).
Proof. one_field. Qed.
Lemma inert_dial m ip p : is_vote m = false → inert p (TcpDial m ip p).
Proof. intros Hm. split; [|done..]. split; try done. exists [(ip, m)]. split; [done|]. constructor; [exact Hm|constructor]. Qed.

Lemma inert_foldl {A} (f : PbftNode M → A → PbftNode M) p l :
  (∀ p a, inert p (f p a)) → inert p (foldl f p l).
Proof. intros Hf. revert p. induction l as [|a l IH]; intros p; simpl; [done|]. etrans; [apply Hf|apply IH]. Qed.
Lemma inert_go_fold {A} (f : PbftNode M → A → go (PbftNode M)) p l p' :
  (∀ p a p', f p a = Ret p' → inert p p') → go_fold f p l = Ret p' → inert p p'.
Proof.
  intros Hf. apply (go_fold_inv (inert p)); [|done]. intros p1 a p2 _ H1 H2. etrans; [done|by eapply Hf].
Qed.

(** The operations that the modules share. *)

Lemma propose_block_inert now p r p' : propose_block now p = Ret (r, p') → inert p p'.
Proof. intros ([b bc] & _ & [= _ <-])%bind_Ret. apply inert_chain. Qed.

Lemma add_block_inert b p p' : add_block b p = Ret p' → inert p p'.
Proof. intros (bc & _ & [= <-])%bind_Ret. apply inert_chain. Qed.

Lemma add_to_pool_inert now txs p p' : add_to_pool now txs p = Ret p' → inert p p'.
Proof. intros (bc & _ & [= <-])%bind_Ret. apply inert_chain. Qed.

Lemma clear_relay_inert p p' : clear_relay p = Ret p' → inert p p'.
Proof. intros (pool & _ & [= <-])%bind_Ret. apply inert_chain. Qed.

Lemma csv_lock_inert p p' : csv_lock p = Ret p' → inert p p'.
Proof. intros (a & _ & (b & _ & [= <-])%bind_Ret)%bind_Ret. apply inert_chain. Qed.

Lemma RelayMsgSend_inert p p' : RelayMsgSend p = Ret p' → inert p p'.
Proof.
  unfold RelayMsgSend. destruct (negb _); [done|]. intros H%clear_relay_inert. etrans; [|exact H].
  apply inert_foldl. intros. by apply inert_dial.
Qed.

Lemma RelayWithProofSend_inert b p p' : RelayWithProofSend b p = Ret p' → inert p p'.
Proof.
  unfold RelayWithProofSend. destruct (negb _); [done|].
  intros (p1 & H1 & H2%clear_relay_inert)%bind_Ret. etrans; [|exact H2].
  eapply inert_go_fold, H1. intros q sid q' (prs & _ & [= <-])%bind_Ret. by apply inert_dial.
Qed.

Lemma commit_relay_block_inert now epoch r p b p' :
  commit_relay_block now epoch r p = Ret (b, p') → inert p p'.
Proof.
  intros (block & _ & (p1 & H1%add_block_inert & H2)%bind_Ret)%bind_Ret. etrans; [exact H1|].
  destruct (is_leader p1); [|by injection H2 as _ <-].
  apply bind_Ret in H2 as (p2 & H2 & [= _ <-]).
  apply bind_Ret in H2 as (s & _ & (p3 & H3 & H4%csv_lock_inert)%bind_Ret).
  etrans; [|exact H4]. etrans; [|by apply inert_dial].
  set (p4 := if bool_decide _ then _ else _) in H3.
  assert (inert p1 p4) as Hp4.
  { unfold p4. destruct (bool_decide _); [etrans; [|apply inert_chain]|]; apply inert_chain. }
  etrans; [exact Hp4|].
  destruct (RelayWithMerkleProof =? 1); [by eapply RelayWithProofSend_inert|by apply RelayMsgSend_inert].
Qed.

Lemma check_block_law m p b p' : check_block m p = Ret (b, p') →
  module_step p p' ∧ sequenceID p' = sequenceID p ∧ height2Digest p' = height2Digest p
  ∧ (requestPool p' = requestPool p ∨ requestPool p' = <[pp_Digest m := pp_RequestMsg m]> (requestPool p)).
Proof.
  intros (r & _ & (block & _ & H)%bind_Ret)%bind_Ret. destruct (negb _); injection H as _ <-.
  - split; [done|]. auto.
  - split; [|by auto]. split; try done. exists []. by rewrite (right_id_L [] (++)).
Qed.

(** Catching up moves the sequence number, and nothing else of the consensus. *)
Lemma catch_up_law other som p b p' :
  (∀ r p p', other r p = Ret p' → inert p p') → catch_up other som p = Ret (b, p') →
  module_step p p' ∧ requestPool p' = requestPool p ∧ height2Digest p' = height2Digest p.
Proof.
  intros Ho (p1 & H1 & [= _ <-])%bind_Ret.
  assert (inert p p1) as [Hm _ Hr Hh].
  { unfold each_height in H1. destruct (_ <? _); [by injection H1 as <-|].
    apply bind_Ret in H1 as (p2 & H1 & H2). destruct (_ || _); [done|]. injection H2 as <-.
    eapply inert_go_fold, H1. intros q o q' (r & _ & H)%bind_Ret.
    destruct (String.eqb _ _); [|by eapply Ho].
    apply bind_Ret in H as (blk & _ & H). by eapply add_block_inert. }
  split; [|done]. etrans; [exact Hm|]. split; try done. exists []. by rewrite (right_id_L [] (++)).
Qed.

Lemma handleRelay_inert now m p p' : handleRelay now m p = Ret p' → inert p p'.
Proof. intros (p1 & H1%add_to_pool_inert & [= <-])%bind_Ret. etrans; [exact H1|apply inert_seqmap]. Qed.
Lemma handleRelayWithProof_inert now m p p' : handleRelayWithProof now m p = Ret p' → inert p p'.
Proof.
  intros (b & _ & (p1 & H1 & [= <-])%bind_Ret)%bind_Ret. etrans; [|apply inert_seqmap].
  destruct b; [by eapply add_to_pool_inert|by injection H1 as <-].
Qed.
Lemma handleInjectTx_inert now m p p' : handleInjectTx now m p = Ret p' → inert p p'.
Proof. apply add_to_pool_inert. Qed.

Lemma send_seqid_inert p : inert p (Broker.send_seqid p).
Proof. apply inert_foldl. intros. by apply inert_dial. Qed.

Lemma inert_law p p' : inert p p' → module_step p p' ∧ sequenceID p' = sequenceID p
  ∧ requestPool p' = requestPool p ∧ height2Digest p' = height2Digest p.
Proof. by intros []. Qed.

End inert.

Create HintDb module_db.
#[export] Hint Resolve propose_block_inert add_block_inert add_to_pool_inert handleRelay_inert
  handleRelayWithProof_inert handleInjectTx_inert commit_relay_block_inert inert_law : module_db.

(** ** The instances *)

Section instances.
Context {PA : Params} {EX : External}.

#[export] Instance relay_laws : ConsensusLaws relay_module.
Proof.
  split.
  - intros now polls p r p' H. apply inert_law. apply (propose_block_inert now p r p' H).
  - intros m p b p' H. by apply (check_block_law m p b p').
  - intros m p r p' [= _ <-]. by apply inert_law.
  - intros now m p b p' (r & _ & H)%bind_Ret. apply inert_law. by eapply commit_relay_block_inert.
  - intros m p r p' [= _ <-]. by apply inert_law.
  - intros m p b p' H. cbn in H. unfold Relay.HandleforSequentialRequest in H.
    destruct (negb _); [injection H as _ <-; by split_and!|].
    eapply catch_up_law; [|exact H]. by intros ??? [= <-].
Qed.
#[export] Instance relay_laws_out : InterShardLaws relay_module.
Proof.
  split. intros now m p p' H. destruct m; cbn in H; try (injection H as <-; by apply inert_law);
    eauto with module_db.
Qed.

#[export] Instance broker_laws : ConsensusLaws broker_module.
Proof.
  split.
  - intros now polls p r p' H. apply inert_law. apply (propose_block_inert now p r p' H).
  - intros m p b p' H. by apply (check_block_law m p b p').
  - intros m p r p' [= _ <-]. by apply inert_law.
  - intros now m p b p' (r & _ & (blk & _ & (p1 & H1%add_block_inert & H2)%bind_Ret)%bind_Ret)%bind_Ret.
    apply inert_law. etrans; [exact H1|]. destruct (is_leader p1); [|by injection H2 as _ <-].
    apply bind_Ret in H2 as (p2 & H2%csv_lock_inert & [= _ <-]). etrans; [|exact H2].
    etrans; [|by apply inert_dial]. apply send_seqid_inert.
  - intros m p r p' [= _ <-]. by apply inert_law.
  - intros m p b p' H. cbn in H. unfold Broker.HandleforSequentialRequest in H.
    destruct (negb _); [injection H as _ <-; by split_and!|].
    eapply catch_up_law; [|exact H]. by intros ??? [= <-].
Qed.
#[export] Instance broker_laws_out : InterShardLaws broker_module.
Proof.
  split. intros now m p p' H. destruct m; cbn in H; try (injection H as <-; by apply inert_law);
    [eauto with module_db|]. injection H as <-. apply inert_law, inert_seqmap.
Qed.

(** *** CLPA *)

Lemma clpa_outside_inert now m (p p' : PbftNode Data_supportCLPA) :
  Clpa.HandleMessageOutsidePBFT now m p = Ret p' → inert p p'.
Proof.
  intros H. destruct m; cbn in H; try (by injection H as <-); eauto with module_db;
    injection H as <-; try apply inert_mod.
  unfold Clpa.handleAccountStateAndTxMsg. destruct (_ =? _); [etrans; apply inert_mod|apply inert_mod].
Qed.

Lemma wait_for_inert handle ready polls (p : PbftNode Data_supportCLPA) r p' :
  (∀ m p p', handle m p = Ret p' → inert p p') →
  Clpa.wait_for handle ready polls p = Ret (r, p') → inert p p'.
Proof.
  intros Hh. revert p. induction polls as [|ms polls IH]; intros p; cbn; destruct (ready p); try done;
    try (by intros [= _ <-]). intros (p1 & H1 & H2)%bind_Ret. etrans; [|by apply IH].
  eapply inert_go_fold, H1. intros q m q' H. by apply (Hh m).
Qed.

Lemma sendAccounts_inert (p p' : PbftNode Data_supportCLPA) :
  Clpa.sendAccounts_and_Txs p = Ret p' → inert p p'.
Proof.
  intros (m & _ & (l & _ & (asf & _ & (pool & _ & (pool' & _ & [= <-])%bind_Ret)%bind_Ret)%bind_Ret)%bind_Ret)%bind_Ret.
  etrans; [|apply inert_chain]. etrans; [apply inert_chain|].
  apply inert_foldl. intros q i. etrans; [apply inert_chain|by apply inert_dial].
Qed.

Lemma propose_received_inert now d (p : PbftNode Data_supportCLPA) r p' :
  Clpa.propose_received now d p = Ret (r, p') → inert p p'.
Proof.
  intros (p1 & H1%add_to_pool_inert & (m & _ & [= _ <-])%bind_Ret)%bind_Ret. etrans; [apply inert_mod|exact H1].
Qed.

Lemma proposePartition_inert now (p : PbftNode Data_supportCLPA) r p' :
  Clpa.proposePartition now p = Ret (r, p') → inert p p'.
Proof. intros (d & _ & (u & _ & H%propose_received_inert)%bind_Ret)%bind_Ret. exact H. Qed.

Lemma accountTransfer_inert atm (p p' : PbftNode Data_supportCLPA) :
  Clpa.accountTransfer_do atm p = Ret p' → inert p p'.
Proof. intros (bc & _ & [= <-])%bind_Ret. etrans; [apply inert_chain|apply inert_mod]. Qed.

Lemma transfer_request_inert r (p p' : PbftNode Data_supportCLPA) :
  Clpa.transfer_request r p = Ret p' → inert p p'.
Proof. intros (atm & _ & H%accountTransfer_inert)%bind_Ret. done. Qed.

Lemma clpa_propose_inert now polls (p : PbftNode Data_supportCLPA) r p' :
  Clpa.HandleinPropose now polls p = Ret (r, p') → inert p p'.
Proof.
  unfold Clpa.HandleinPropose. destruct (PartitionOn _); [|apply propose_block_inert].
  pose proof (clpa_outside_inert now) as Hh.
  intros ([ps p1] & H1%wait_for_inert & (p2 & H2%sendAccounts_inert
    & ([ps2 p3] & H3%wait_for_inert & H4%proposePartition_inert)%bind_Ret)%bind_Ret)%bind_Ret; [|done..].
  etrans; [|exact H4]. etrans; [|exact H3]. etrans; [|exact H2]. etrans; [|exact H1].
  etrans; [apply inert_mod|]. apply inert_foldl. intros. by apply inert_dial.
Qed.

#[export] Instance clpa_laws : ConsensusLaws Data_supportCLPA.
Proof.
  split.
  - intros now polls p r p' H. apply inert_law. apply (clpa_propose_inert now polls p r p' H).
  - intros m p b p' (r & _ & H)%bind_Ret. destruct (String.eqb _ _); [|by apply (check_block_law m p b p')].
    injection H as _ <-. split; [|by auto]. split; try done. exists []. by rewrite (right_id_L [] (++)).
  - intros m p r p' [= _ <-]. by apply inert_law.
  - intros now m p b p' (r & _ & H)%bind_Ret. apply inert_law.
    destruct (String.eqb _ _); [|by eapply commit_relay_block_inert].
    apply bind_Ret in H as (p1 & H1%transfer_request_inert & [= _ <-]). done.
  - intros m p r p' [= _ <-]. by apply inert_law.
  - intros m p b p' H. cbn in H. unfold Clpa.HandleforSequentialRequest in H.
    destruct (negb _); [injection H as _ <-; by split_and!|].
    eapply catch_up_law; [|exact H]. apply transfer_request_inert.
Qed.
#[export] Instance clpa_laws_out : InterShardLaws Data_supportCLPA.
Proof. split. intros now m p p' H. apply inert_law. apply (clpa_outside_inert now m p p' H). Qed.

(** *** CLPA with brokers *)

Lemma clpa_broker_outside_inert now m (p p' : PbftNode Data_supportCLPA) :
  ClpaBroker.HandleMessageOutsidePBFT now m p = Ret p' → inert p p'.
Proof.
  intros H. destruct m as [| | | | | | | | |mi| |ms| | | |mm|mr|ma|mb| |]; cbn in H; try (by injection H as <-).
  - eauto with module_db.
  - injection H as <-. apply inert_seqmap.
  - by apply (clpa_outside_inert now (MPartitionMap mm)).
  - by apply (clpa_outside_inert now (MPartitionReady mr)).
  - by apply (clpa_outside_inert now (MAccountStateAndTx mb)).
Qed.

Lemma broker_sendAccounts_inert (p p' : PbftNode Data_supportCLPA) :
  ClpaBroker.sendAccounts_and_Txs p = Ret p' → inert p p'.
Proof.
  intros (m & _ & (l & _ & (asf & _ & (pool & _ & H)%bind_Ret)%bind_Ret)%bind_Ret)%bind_Ret.
  cbn zeta in H. set (p0 := p <| CurChain ::= _ |>) in H.
  assert (∀ js acc, inert p acc.1 → inert p (foldl (ClpaBroker.send_transfer m (zip l asf)) acc js).1) as Hl.
  { induction js as [|j js IH]; intros [q cr] Hq; cbn [foldl]; [done|]. apply IH. cbn. etrans; [exact Hq|].
    etrans; [apply inert_chain|by apply inert_dial]. }
  pose proof (Hl (other_shards p0) (p0, []) (inert_chain _ p)) as Hp.
  destruct (foldl (ClpaBroker.send_transfer m (zip l asf)) _ _) as [p1 cr]. apply bind_Ret in H as (pool' & _ & [= <-]).
  etrans; [exact Hp|]. etrans; [apply inert_chain|by apply inert_dial].
Qed.

Lemma broker_proposePartition_inert now (p : PbftNode Data_supportCLPA) r p' :
  ClpaBroker.proposePartition now p = Ret (r, p') → inert p p'.
Proof. intros (d & _ & H%propose_received_inert)%bind_Ret. exact H. Qed.

Lemma clpa_broker_propose_inert now polls (p : PbftNode Data_supportCLPA) r p' :
  ClpaBroker.HandleinPropose now polls p = Ret (r, p') → inert p p'.
Proof.
  unfold ClpaBroker.HandleinPropose. destruct (PartitionOn _); [|apply propose_block_inert].
  pose proof (clpa_broker_outside_inert now) as Hh.
  intros ([ps p1] & H1%wait_for_inert & (p2 & H2%broker_sendAccounts_inert
    & ([ps2 p3] & H3%wait_for_inert & H4%broker_proposePartition_inert)%bind_Ret)%bind_Ret)%bind_Ret; [|done..].
  etrans; [|exact H4]. etrans; [|exact H3]. etrans; [|exact H2]. etrans; [|exact H1].
  etrans; [apply inert_mod|]. apply inert_foldl. intros. by apply inert_dial.
Qed.

Lemma clpa_broker_commit_inert now m (p : PbftNode Data_supportCLPA) b p' :
  ClpaBroker.HandleinCommit now m p = Ret (b, p') → inert p p'.
Proof.
  intros (r & _ & H)%bind_Ret. destruct (String.eqb _ _).
  - by apply bind_Ret in H as (atm & _ & (p1 & H%accountTransfer_inert & [= _ <-])%bind_Ret).
  - apply bind_Ret in H as (blk & _ & (p1 & H1%add_block_inert & H)%bind_Ret). etrans; [exact H1|].
    destruct (is_leader p1); [|by injection H as _ <-].
    apply bind_Ret in H as (p2 & (u & _ & H%csv_lock_inert)%bind_Ret & [= _ <-]). etrans; [|exact H].
    etrans; [|by apply inert_dial]. apply send_seqid_inert.
Qed.

Lemma clpa_broker_laws : @ConsensusLaws _ Data_supportCLPA clpa_broker_inside.
Proof.
  pose proof clpa_laws as CL. split.
  - intros now polls p r p' H. apply inert_law. by apply (clpa_broker_propose_inert now polls p r p').
  - apply CL.
  - intros m p r p' [= _ <-]. by apply inert_law.
  - intros now m p b p' H. apply inert_law. by apply (clpa_broker_commit_inert now m p b p').
  - intros m p r p' [= _ <-]. by apply inert_law.
  - intros m p b p' H. cbn in H. unfold ClpaBroker.HandleforSequentialRequest in H.
    destruct (negb _); [injection H as _ <-; by split_and!|].
    eapply catch_up_law; [|exact H]. apply transfer_request_inert.
Qed.
Lemma clpa_broker_laws_out : @InterShardLaws _ Data_supportCLPA clpa_broker_outside.
Proof. split. intros now m p p' H. apply inert_law. apply (clpa_broker_outside_inert now m p p' H). Qed.

(** *** SZHBFT *)

Lemma inert_time t (p : PbftNode SZHBFT) : inert p (p <| lastCommitTime := t |>).
Proof. split; [split; try done; exists []; by rewrite (right_id_L [] (++))|done..]. Qed.

Lemma multicast_inert m shards (p : PbftNode SZHBFT) :
  is_vote m = false → inert p (Szhbft.multicast m shards p).
Proof. intros Hm. apply inert_foldl. intros q sid. apply inert_foldl. intros. by apply inert_dial. Qed.

Lemma record_vote_inert v (p : PbftNode SZHBFT) : inert p (Szhbft.record_vote v p).2.
Proof. apply inert_mod. Qed.
Lemma settle_vote_inert v a t (p : PbftNode SZHBFT) : inert p (Szhbft.settle_vote v a t p).
Proof.
  unfold Szhbft.settle_vote. destruct (globalVotePool _ !! _); [|done].
  destruct (_ <=? a); [|destruct (_ && _); [|done]]; (etrans; [apply inert_mod|by apply multicast_inert]).
Qed.

Lemma szhbft_outside_inert now m (p p' : PbftNode SZHBFT) :
  Szhbft.HandleMessageOutsidePBFT now m p = Ret p' → inert p p'.
Proof.
  intros H. destruct m; cbn in H; try (by injection H as <-); eauto with module_db.
  - destruct (_ =? _); [|eauto with module_db]. apply bind_Ret in H as (p1 & H1%add_to_pool_inert & [= <-]).
    etrans; [exact H1|apply inert_seqmap].
  - injection H as <-. etrans; [apply (inert_time (UnixMilli now))|by apply inert_dial].
  - injection H as <-. etrans; [apply (record_vote_inert m)|apply settle_vote_inert].
Qed.

Lemma szhbft_propose_inert now polls (p : PbftNode SZHBFT) r p' :
  Szhbft.HandleinPropose now polls p = Ret (r, p') → inert p p'.
Proof.
  intros ([[lb gb] bc] & _ & H)%bind_Ret. destruct lb as [b|]; [injection H as _ <-; apply inert_chain|].
  destruct gb as [b|]; [|injection H as _ <-; apply inert_chain].
  apply bind_Ret in H as (szs & _ & [= _ <-]). etrans; [apply inert_chain|by apply multicast_inert].
Qed.

Lemma szhbft_commit_inert now m (p : PbftNode SZHBFT) b p' :
  Szhbft.HandleinCommit now m p = Ret (b, p') → inert p p'.
Proof.
  intros (r & _ & (blk & _ & (loc & _ & H)%bind_Ret)%bind_Ret)%bind_Ret.
  destruct loc; [|by eapply commit_relay_block_inert].
  apply bind_Ret in H as (lc & _ & [= _ <-]). apply inert_mod.
Qed.

#[export] Instance szhbft_laws : ConsensusLaws SZHBFT.
Proof.
  split.
  - intros now polls p r p' H. apply inert_law. by apply (szhbft_propose_inert now polls p r p').
  - intros m p b p' H. cbn in H. unfold Szhbft.HandleinPrePrepare in H.
    destruct (pp_RequestMsg m) as [r|] eqn:Er; [|injection H as _ <-; by split_and!; auto].
    rewrite <- Er. apply (check_block_law m p b p'). unfold check_block. by rewrite Er.
  - intros m p r p' [= _ <-]. by apply inert_law.
  - intros now m p b p' H. apply inert_law. by apply (szhbft_commit_inert now m p b p').
  - intros m p r p' [= _ <-]. by apply inert_law.
  - intros m p b p' H. cbn in H. unfold Szhbft.HandleforSequentialRequest in H.
    destruct (negb _); [injection H as _ <-; by split_and!|].
    eapply catch_up_law; [|exact H]. by intros ??? [= <-].
Qed.
#[export] Instance szhbft_laws_out : InterShardLaws SZHBFT.
Proof. split. intros now m p p' H. apply inert_law. by apply (szhbft_outside_inert now m p p'). Qed.

End instances.

Module ModuleLaws.

(** C38. Refinement of the module interface: the relay, broker, CLPA, combined and SZHBFT modules
    all satisfy the laws on which the safety of the PBFT node rests, both inside the
    consensus and for messages of other shards. *)
Theorem modules_keep_the_interface {PA : Params} {EX : External} :
  (ConsensusLaws relay_module ∧ InterShardLaws relay_module)
  ∧ (ConsensusLaws broker_module ∧ InterShardLaws broker_module)
  ∧ (ConsensusLaws Data_supportCLPA ∧ InterShardLaws Data_supportCLPA)
  ∧ (@ConsensusLaws _ Data_supportCLPA clpa_broker_inside
     ∧ @InterShardLaws _ Data_supportCLPA clpa_broker_outside)
  ∧ (ConsensusLaws SZHBFT ∧ InterShardLaws SZHBFT).
Proof. split_and!; first [apply _|apply clpa_broker_laws|apply clpa_broker_laws_out]. Qed.

End ModuleLaws.
