(* ===== verification/RelayProps.v ===== *)
(** * The relay protocol: properties

    What a leader relays when it commits a block, what the receiving shard accepts,
    and how a node catches up on old blocks. *)

From S2P Require Import Prelude Params Core Message External Storage Chain Ledger ChainLemmas MerkleProof.
From S2P Require Import Pbft PbftSteps PbftProps BlockOps Relay Broker.

(** ** Specification *)

Section spec.
Context {PA : Params} {EX : External}.

(** The shard of the recipient ([-1]: the address has none). *)
Definition dest (bc : BlockChain) (tx : Transaction) : Z :=
  match Get_PartitionMap bc (tx_Recipient tx) with Ret s => s | _ => -1 end.

(** A relayed transaction carries the flag. *)
Definition mark (tx : Transaction) : Transaction := tx <| tx_Relayed := true |>.
Definition mark_leaving (bc : BlockChain) (shard : Z) (tx : Transaction) : Transaction :=
  if dest bc tx =? shard then tx else mark tx.

Definition goes_to (bc : BlockChain) (sid : Z) (body : list Transaction) : list Transaction :=
  filter (λ tx, dest bc tx = sid) body.
Definition leaves (bc : BlockChain) (shard : Z) (body : list Transaction) : list Transaction :=
  filter (λ tx, dest bc tx ≠ shard) body.
Definition arrives (relayed : bool) (bc : BlockChain) (shard : Z) (body : list Transaction) : list Transaction :=
  filter (λ tx, dest bc tx = shard ∧ tx_Relayed tx = relayed) body.

(** Every transaction of the body belongs on this shard: by its sender before it is
    relayed, by its recipient after. *)
Definition in_place (bc : BlockChain) (shard : Z) (body : list Transaction) : Prop :=
  ∀ tx, tx ∈ body → ∃ s, Get_PartitionMap bc (tx_Sender tx) = Ret s
    ∧ Get_PartitionMap bc (tx_Recipient tx) = Ret (dest bc tx)
    ∧ if tx_Relayed tx then dest bc tx = shard else s = shard.

(** The relay messages of one commit. *)
Definition relay_to {M} (bc : BlockChain) (body : list Transaction) (p : PbftNode M) (sid : Z)
    : string * payload :=
  (ip_of sid 0 p, MRelay (mkRelay (mark <$> goes_to bc sid body) (pn_ShardID p) (sequenceID p))).

End spec.

(** ** Lemmas *)

Section lemmas.
Context {PA : Params} {EX : External}.

Lemma goes_to_app bc sid l k : goes_to bc sid (l ++ k) = goes_to bc sid l ++ goes_to bc sid k.
Proof. apply filter_app. Qed.
Lemma leaves_app bc sid l k : leaves bc sid (l ++ k) = leaves bc sid l ++ leaves bc sid k.
Proof. apply filter_app. Qed.
Lemma arrives_app b bc sid l k : arrives b bc sid (l ++ k) = arrives b bc sid l ++ arrives b bc sid k.
Proof. apply filter_app. Qed.

(** One transaction. *)
Lemma sort_body_one bc shard s tx m :
  in_place bc shard [tx] → pool_locked (so_pool s) = false → RelayPool (so_pool s) = Some m →
  ∃ m', sort_body_tx bc shard s tx = Ret (mkSorted (so_body s ++ [mark_leaving bc shard tx])
      (so_inner s ++ arrives false bc shard [tx]) (so_relay1 s ++ (mark <$> leaves bc shard [tx]))
      (so_relay2 s ++ arrives true bc shard [tx]) ((so_pool s) <| RelayPool := Some m' |>))
    ∧ ∀ sid, sid ≠ shard → default [] (m' !! sid) = default [] (m !! sid) ++ (mark <$> goes_to bc sid [tx]).
Proof.
  intros Hp Hk Hm. destruct (Hp tx) as (a & Ha & Hr & Hpl); [by left|]. unfold sort_body_tx.
  rewrite Ha, Hr. go_step. unfold mark_leaving, leaves, arrives, goes_to. rewrite !filter_cons, !filter_nil.
  destruct s as [sb si s1 s2 [q rp lk]]. simpl in Hk, Hm. subst lk rp.
  destruct (Z.eqb_spec (dest bc tx) shard) as [Hd|Hd].
  - assert (∀ sid, sid ≠ shard →
      default [] (m !! sid) = default [] (m !! sid) ++ (mark <$> (if decide (dest bc tx = sid) then [tx] else []))) as Hsame.
    { intros sid Hne. rewrite decide_False by congruence. simpl. by rewrite app_nil_r. }
    destruct (tx_Relayed tx) eqn:Er; simpl.
    + exists m. split; [|done]. rewrite !decide_False by naive_solver. rewrite decide_True by done.
      cbn. by rewrite !app_nil_r.
    + subst a. rewrite Z.eqb_refl. simpl. exists m. split; [|done].
      rewrite (decide_False (P := _ ≠ _)) by naive_solver. rewrite decide_True by done.
      rewrite decide_False by naive_solver. cbn. by rewrite !app_nil_r.
  - destruct (tx_Relayed tx) eqn:Er; [done|]. subst a. rewrite Z.eqb_refl. simpl.
    unfold AddRelayTx, with_pool_lock. simpl. eexists. split.
    + rewrite (decide_False (P := _ ∧ _)) by naive_solver. rewrite decide_True by done.
      rewrite (decide_False (P := _ ∧ _)) by naive_solver. cbn. by rewrite !app_nil_r.
    + intros sid _. destruct (decide (dest bc tx = sid)) as [<-|Hne].
      * rewrite lookup_insert_eq, filter_cons_True, filter_nil by done. done.
      * rewrite lookup_insert_ne, filter_cons_False, filter_nil by done. by rewrite app_nil_r.
Qed.

Lemma sort_body_ok bc shard body :
  in_place bc shard body → pool_locked (bc_Txpool bc) = false →
  ∃ m, sort_body bc shard body = Ret (mkSorted (mark_leaving bc shard <$> body)
      (arrives false bc shard body) (mark <$> leaves bc shard body) (arrives true bc shard body)
      ((bc_Txpool bc) <| RelayPool := Some m |>))
    ∧ ∀ sid, sid ≠ shard → default [] (m !! sid) = mark <$> goes_to bc sid body.
Proof.
  intros Hp Hk. unfold sort_body. induction body as [|tx body IH] using rev_ind.
  { exists ∅. split; [done|]. intros sid _. by rewrite lookup_empty. }
  destruct IH as (m & E & Hm); [intros t Ht; apply Hp, elem_of_app; by left|].
  rewrite go_fold_app, E. go_step. cbn [go_fold].
  destruct (sort_body_one bc shard (mkSorted (mark_leaving bc shard <$> body)
      (arrives false bc shard body) (mark <$> leaves bc shard body) (arrives true bc shard body)
      ((bc_Txpool bc) <| RelayPool := Some m |>)) tx m) as (m' & -> & Hm'); [|done|done|].
  { intros t Ht. apply Hp, elem_of_app. by right. }
  go_step. exists m'. split.
  - rewrite !arrives_app, leaves_app, !fmap_app. done.
  - intros sid Hne. rewrite Hm', Hm by done. by rewrite goes_to_app, fmap_app.
Qed.

(** A loop that only sends. *)
Lemma foldl_dial {M A} (f : PbftNode M → A → payload) (ip : PbftNode M → A → string) (p : PbftNode M) l :
  (∀ p m i a, f (TcpDial m i p) a = f p a ∧ ip (TcpDial m i p) a = ip p a) →
  foldl (λ p a, TcpDial (f p a) (ip p a) p) p l
  = p <| out ::= λ o, o ++ ((λ a, (ip p a, f p a)) <$> l) |>.
Proof.
  intros Hf. revert p. induction l as [|a l IH]; intros p; simpl.
  - unfold set_field. destruct p; cbn. by rewrite app_nil_r.
  - rewrite IH.
    assert (∀ b, f (TcpDial (f p a) (ip p a) p) b = f p b) as E1 by (intros; apply Hf).
    assert (∀ b, ip (TcpDial (f p a) (ip p a) p) b = ip p b) as E2 by (intros; apply Hf).
    rewrite (list_fmap_ext _ (λ a, (ip p a, f p a)) l) by (intros; by rewrite E1, E2).
    unfold TcpDial, set_field. destruct p; cbn. by rewrite <- (assoc_L (++)).
Qed.

(** The transactions for the shards of a list, and those for none of them. *)
Lemma goes_to_all bc body (l : list Z) :
  NoDup l → (l ≫= λ sid, goes_to bc sid body) ≡ₚ filter (λ tx, dest bc tx ∈ l) body.
Proof.
  induction 1 as [|s l Hs Hl IH]; csimpl.
  { rewrite filter_none; [done|]. intros x _. apply not_elem_of_nil. }
  rewrite IH. clear IH Hl. induction body as [|tx body IHb]; [done|].
  unfold goes_to in *. rewrite !filter_cons.
  destruct (decide (dest bc tx = s)) as [E|E].
  - rewrite decide_False by (by rewrite E). rewrite decide_True by (rewrite E; left).
    simpl. by rewrite IHb.
  - destruct (decide (dest bc tx ∈ l)).
    + rewrite decide_True by (by right). rewrite <- Permutation_middle. by rewrite IHb.
    + rewrite decide_False by (intros [?|?]%elem_of_cons; congruence || done). done.
Qed.

Lemma other_shards_elem {M} (p : PbftNode M) sid :
  sid ∈ other_shards p ↔ sid ≠ pn_ShardID p ∧ 0 ≤ sid < ShardNums (pbftChainConfig p).
Proof. unfold other_shards. rewrite list_elem_of_filter, elem_of_seqZ. lia. Qed.

(** The relay messages together carry every leaving transaction, once. *)
Lemma relayed_perm {M} bc body (p : PbftNode M) :
  (∀ tx, tx ∈ body → 0 ≤ dest bc tx < ShardNums (pbftChainConfig p)) →
  (other_shards p ≫= λ sid, mark <$> goes_to bc sid body) ≡ₚ mark <$> leaves bc (pn_ShardID p) body.
Proof.
  intros Hr. trans (mark <$> (other_shards p ≫= λ sid, goes_to bc sid body)).
  { induction (other_shards p) as [|s l IH]; csimpl; [done|]. by rewrite fmap_app, IH. }
  apply fmap_Permutation. rewrite goes_to_all by (apply NoDup_filter, NoDup_seqZ).
  unfold leaves. induction body as [|tx body IH]; [done|]. rewrite !filter_cons.
  specialize (IH (λ t Ht, Hr t (list_elem_of_further _ _ _ Ht))).
  assert (dest bc tx ∈ other_shards p ↔ dest bc tx ≠ pn_ShardID p) as E.
  { rewrite other_shards_elem. pose proof (Hr tx (list_elem_of_here _ _)). tauto. }
  destruct (decide (dest bc tx ∈ other_shards p)), (decide (dest bc tx ≠ pn_ShardID p)); try tauto.
  by rewrite IH.
Qed.

(** Sending the relays of a pool. *)
Lemma RelayMsgSend_ok {M} (p : PbftNode M) :
  RelayWithMerkleProof = 0 → pool_locked (bc_Txpool (CurChain p)) = false →
  ∃ p', RelayMsgSend p = Ret p'
    ∧ out p' = out p ++ ((λ sid, (ip_of sid 0 p, MRelay (mkRelay (relay_of (bc_Txpool (CurChain p)) sid)
                                     (pn_ShardID p) (sequenceID p)))) <$> other_shards p)
    ∧ CurChain p' = (CurChain p) <| bc_Txpool ::= λ pool, pool <| RelayPool := None |> |>
    ∧ pn_ShardID p' = pn_ShardID p ∧ ip_nodeTable p' = ip_nodeTable p.
Proof.
  intros Hpar Hk. unfold RelayMsgSend. rewrite Hpar. cbn [negb Z.eqb].
  rewrite (foldl_dial (λ p sid, MRelay (mkRelay (relay_of (bc_Txpool (CurChain p)) sid)
    (pn_ShardID p) (sequenceID p))) (λ p sid, ip_of sid 0 p)) by done.
  unfold clear_relay, ClearRelayPool, with_pool_lock. cbn [CurChain set_field]. rewrite Hk. go_step.
  eexists. split; [done|]. by split_and!.
Qed.

Lemma csv_lock_ok {M} (p : PbftNode M) :
  pool_locked (bc_Txpool (CurChain p)) = false →
  ∃ p', csv_lock p = Ret p' ∧ out p' = out p ∧ bc_Txpool (CurChain p') = bc_Txpool (CurChain p)
    ∧ bc_CurrentBlock (CurChain p') = bc_CurrentBlock (CurChain p).
Proof.
  intros Hk. unfold csv_lock, GetLocked, with_pool_lock. rewrite Hk. go_step.
  unfold GetUnlocked. cbn [pool_locked set_field]. go_step. eexists. split; [done|]. split; [done|]. split; [|done].
  destruct (CurChain p) as [? ? ? ? [? ? lk] ?] eqn:E. simpl in Hk. subst lk.
  cbn [CurChain set_field]. rewrite E. done.
Qed.

End lemmas.

Section leader.
Context {PA : Params} {EX : External}.

(** The report to the supervisor about a committed block. *)
Definition relay_report (bc : BlockChain) (shard epoch : Z) (now : Time) (r : Request)
    (body : list Transaction) : BlockInfoMsg :=
  mkBlockInfo (len body) (arrives false bc shard body) epoch (r_ReqTime r) now shard
    (mark <$> leaves bc shard body) (arrives true bc shard body) [] [].

(** The leader's part of a commit, when relays carry no proofs. *)
Lemma relay_block_ok {M} now epoch r block acc (p : PbftNode M) :
  RelayWithMerkleProof = 0 → pool_locked (bc_Txpool (CurChain p)) = false →
  in_place (CurChain p) (pn_ShardID p) (b_Body block) →
  ∃ p', relay_block now epoch r block acc p = Ret p'
    ∧ out p' = out p ++ (relay_to (CurChain p) (b_Body block) p <$> other_shards p)
        ++ [(ip_of SupervisorShard 0 p,
             MBlockInfo (relay_report (CurChain p) (pn_ShardID p) epoch now r (b_Body block)))]
    ∧ bc_Txpool (CurChain p') = (bc_Txpool (CurChain p)) <| RelayPool := None |>.
Proof.
  intros Hpar Hk Hp. unfold relay_block.
  destruct (sort_body_ok _ _ _ Hp Hk) as (m & -> & Hm). go_step. rewrite Hpar. cbn [Z.eqb so_pool so_body].
  set (pool := (bc_Txpool (CurChain p)) <| RelayPool := Some m |>).
  set (p1 := p <| CurChain ::= λ bc, bc <| bc_Txpool := pool |> |>).
  set (blk := block <| b_Body := _ |>).
  set (p2 := if acc then p1 <| CurChain ::= λ bc, bc <| bc_CurrentBlock := blk |> |> else p1).
  assert (bc_Txpool (CurChain p2) = pool ∧ out p2 = out p ∧ pn_ShardID p2 = pn_ShardID p
    ∧ sequenceID p2 = sequenceID p ∧ ip_nodeTable p2 = ip_nodeTable p
    ∧ pbftChainConfig p2 = pbftChainConfig p) as (E1 & E2 & E3 & E4 & E5 & E6) by (by destruct acc).
  destruct (RelayMsgSend_ok p2 Hpar) as (p3 & -> & Ho & Hc & Hs & Ht); [by rewrite E1|]. go_step.
  match goal with |- context [csv_lock ?q] => destruct (csv_lock_ok q) as (p4 & -> & Ho4 & Hp4 & _) end.
  { cbn [CurChain TcpDial send_report set_field]. rewrite Hc. cbn [bc_Txpool set_field]. by rewrite E1. }
  exists p4. split; [done|]. rewrite Ho4, Hp4. split.
  - cbn [out send_report TcpDial set_field]. rewrite Ho, E2, <- (assoc_L (++)). f_equal. f_equal.
    + unfold other_shards. rewrite E3, E6. apply list_fmap_ext. intros i sid Hi.
      apply list_elem_of_lookup_2, list_elem_of_filter in Hi as [Hne _].
      unfold relay_to, ip_of. rewrite ?E1, ?E3, ?E4, ?E5. do 2 f_equal. unfold relay_of, pool. cbn. by rewrite Hm.
    + unfold ip_of, relay_report. rewrite Ht, Hs, ?E3, ?E5. cbn. unfold len. by rewrite length_fmap.
  - cbn [CurChain send_report TcpDial set_field]. rewrite Hc. cbn [bc_Txpool set_field]. by rewrite E1.
Qed.

End leader.

Section receiver.
Context {PA : Params} {EX : External}.

(** The node after [txs] of shard [s], at its sequence [n], were taken in. *)
Definition took_in {M} (now : Time) (txs : list Transaction) (s n : Z) (q : PbftNode M) : PbftNode M :=
  q <| CurChain ::= λ bc, bc <| bc_Txpool ::= λ pool, pool <| TxQueue ::= λ l, l ++ (stamp now <$> txs) |> |> |>
    <| seqIDMap ::= <[s := n]> |>.

Lemma add_to_pool_ok {M} now txs (q : PbftNode M) :
  pool_locked (bc_Txpool (CurChain q)) = false →
  add_to_pool now txs q = Ret (q <| CurChain ::= λ bc, bc <| bc_Txpool ::= λ pool,
    pool <| TxQueue ::= λ l, l ++ (stamp now <$> txs) |> |> |>).
Proof. intros Hk. unfold add_to_pool, SendTx2Pool, AddTxs2Pool, with_pool_lock. by rewrite Hk. Qed.

Lemma all_correct_ok txs proofs :
  Forall2 (λ tx pr, TxProofVerify (tx_TxHash tx) pr = Ret true) txs proofs →
  all_correct txs proofs = Ret true.
Proof. induction 1 as [|tx pr txs prs H _ IH]; [done|]. cbn [all_correct]. by rewrite H. Qed.

Lemma verified_taken_in {M} now txs proofs s n (q : PbftNode M) :
  pool_locked (bc_Txpool (CurChain q)) = false →
  Forall2 (λ tx pr, TxProofVerify (tx_TxHash tx) pr = Ret true) txs proofs →
  handleRelayWithProof now (mkRelayWithProof txs proofs s n) q = Ret (took_in now txs s n q).
Proof.
  intros Hk Hall. unfold handleRelayWithProof. cbn [rp_Txs rp_TxProofs rp_SenderShardID rp_SenderSeq].
  rewrite all_correct_ok by done. go_step. by rewrite add_to_pool_ok.
Qed.

Lemma honest_proofs {EXO : ExternalOk} txs b :
  sealed b → (∀ tx, tx ∈ txs → tx_TxHash tx ∈ tx_TxHash <$> b_Body b) →
  ∃ proofs, TxProofBatchGenerateOnBlock (tx_TxHash <$> txs) b = Ret proofs
    ∧ Forall2 (λ tx pr, TxProofVerify (tx_TxHash tx) pr = Ret true) txs proofs.
Proof.
  intros Hs Hin. destruct (batch_ok b (tx_TxHash <$> txs) Hs) as (prs & E & Hall).
  exists prs. split; [done|]. rewrite Forall2_fmap_l in Hall.
  revert prs E Hall. generalize (TxProofBatchGenerateOnBlock (tx_TxHash <$> txs) b) as res. intros res prs _ Hall.
  induction Hall as [|tx pr txs prs (_ & Hv & _) _ IH]; constructor.
  - rewrite Hv. by rewrite bool_decide_true by (apply Hin; left).
  - apply IH. intros. apply Hin. by right.
Qed.

(** The loop of [RelayWithProofSend]. *)
Lemma proof_send_loop {EXO : ExternalOk} {M} b (p : PbftNode M) l :
  sealed b →
  (∀ sid tx, tx ∈ relay_of (bc_Txpool (CurChain p)) sid → tx_TxHash tx ∈ tx_TxHash <$> b_Body b) →
  ∃ (proofs : Z → list TxProofResult),
    go_fold (λ p sid, let txs := relay_of (bc_Txpool (CurChain p)) sid in
      txProofs ← TxProofBatchGenerateOnBlock (tx_TxHash <$> txs) b;
      Ret (TcpDial (MRelayWithProof (mkRelayWithProof txs txProofs (pn_ShardID p) (sequenceID p)))
             (ip_of sid 0 p) p)) p l
    = Ret (p <| out ::= λ o, o ++ ((λ sid, (ip_of sid 0 p, MRelayWithProof (mkRelayWithProof
        (relay_of (bc_Txpool (CurChain p)) sid) (proofs sid) (pn_ShardID p) (sequenceID p)))) <$> l) |>)
    ∧ ∀ sid, Forall2 (λ tx pr, TxProofVerify (tx_TxHash tx) pr = Ret true)
               (relay_of (bc_Txpool (CurChain p)) sid) (proofs sid).
Proof.
  intros Hs Hin.
  set (proofs := λ sid, match TxProofBatchGenerateOnBlock
    (tx_TxHash <$> relay_of (bc_Txpool (CurChain p)) sid) b with Ret l => l | _ => [] end).
  assert (∀ sid, TxProofBatchGenerateOnBlock (tx_TxHash <$> relay_of (bc_Txpool (CurChain p)) sid) b
                 = Ret (proofs sid)
    ∧ Forall2 (λ tx pr, TxProofVerify (tx_TxHash tx) pr = Ret true)
               (relay_of (bc_Txpool (CurChain p)) sid) (proofs sid)) as Hall.
  { intros sid. destruct (honest_proofs _ b Hs (Hin sid)) as (prs & E & H). unfold proofs. by rewrite E. }
  exists proofs. split; [|intros; apply Hall]. clearbody proofs. revert p Hin Hall.
  induction l as [|sid l IH]; intros p Hin Hall; cbn [go_fold].
  { unfold set_field. destruct p; cbn. by rewrite app_nil_r. }
  rewrite (proj1 (Hall sid)). go_step. rewrite IH by done.
  unfold TcpDial, set_field. destruct p; cbn. by rewrite <- (assoc_L (++)).
Qed.

End receiver.

Section catch_up.
Context {PA : Params} {EX : External}.

(** The old request of a block. *)
Definition block_request (b : Block) (t : Time) : option Request := Some (mkRequest BlockRequest (enc b) t).

Lemma add_requests_ok {M} other (p : PbftNode M) rs (bs : list Block) bc :
  Forall2 (λ r b, ∃ c t, r = Some (mkRequest BlockRequest c t) ∧ dec c = Some b) rs bs →
  go_fold (λ bc b, AddBlock b bc) (CurChain p) bs = Ret bc →
  go_fold (add_request other) p rs = Ret (p <| CurChain := bc |>).
Proof.
  intros Hall. revert p. induction Hall as [|r b rs bs (c & t & -> & Hd) _ IH]; intros p; cbn [go_fold].
  { intros [= <-]. unfold set_field. by destruct p. }
  intros (bc1 & H1 & H2)%bind_Ret.
  assert (add_request other p (Some (mkRequest BlockRequest c t)) = Ret (p <| CurChain := bc1 |>)) as ->.
  { unfold add_request, deref, DecodeB, add_block. go_step. cbn [r_RequestType r_Content].
    rewrite String.eqb_refl, Hd. go_step. by rewrite H1. }
  go_step. rewrite (IH (p <| CurChain := bc1 |>)) by exact H2.
  unfold set_field. by destruct p.
Qed.

Lemma catch_up_ok {M} other (p : PbftNode M) first rs bs bc sn :
  0 ≤ first → first + len rs < 2 ^ 64 → rs ≠ [] →
  Forall2 (λ r b, ∃ c t, r = Some (mkRequest BlockRequest c t) ∧ dec c = Some b) rs bs →
  go_fold (λ bc b, AddBlock b bc) (CurChain p) bs = Ret bc →
  catch_up other (mkSendOld first (first + len rs - 1) rs sn) p
  = Ret (true, p <| CurChain := bc |> <| sequenceID := first + len rs |>).
Proof.
  intros Hf Hl Hne Hall Hbc. unfold catch_up, each_height. cbn [so_SeqStartHeight so_SeqEndHeight so_OldRequest].
  assert (0 < len rs) as Hpos by (destruct rs; [done|rewrite len_cons; pose proof (len_nonneg rs); lia]).
  assert ((first + len rs - 1 <? first) = false) as -> by (apply Z.ltb_ge; lia).
  assert (take (Z.to_nat (first + len rs - 1 - first + 1)) rs = rs) as ->.
  { apply take_ge. unfold len. lia. }
  rewrite (add_requests_ok other p rs bs bc Hall Hbc). go_step.
  assert ((len rs <? first + len rs - 1 - first + 1) || (first + len rs - 1 =? 2 ^ 64 - 1) = false) as ->.
  { apply orb_false_iff. split; [apply Z.ltb_ge|apply Z.eqb_neq]; lia. }
  go_step. rewrite u64_id by (unfold is_u64; lia). by replace (first + len rs - 1 + 1) with (first + len rs) by lia.
Qed.

(** Where the resumption of an early pre-prepare leaves the chain. *)
Record same_chain {M} (p p' : PbftNode M) : Prop := {
  sc_chain : CurChain p' = CurChain p;
  sc_seq : sequenceID p' = sequenceID p;
  sc_ask : askForLock p' = askForLock p
}.

Lemma check_block_chain {M} m (p : PbftNode M) b p' :
  check_block m p = Ret (b, p') → same_chain p p'.
Proof.
  unfold check_block. intros (r & _ & (blk & _ & H)%bind_Ret)%bind_Ret.
  destruct (negb _); injection H as _ <-; by split.
Qed.

Lemma resume_chain {M} `{!ExtraOpInConsensus M} (p p' : PbftNode M) :
  (∀ m q b q', HandleinPrePrepare m q = Ret (b, q') → same_chain q q') →
  resume p = Ret p' → same_chain p p'.
Proof.
  intros Hpp. unfold resume. destruct (_ ≫= _) as [r|]; [|by intros [= <-]].
  intros ([f q] & [E1 E2 E3]%Hpp & H2)%bind_Ret. destruct f; injection H2 as <-; by split.
Qed.

(** Whatever the module makes of an answer, the node then moves to the sequence
    number after it. *)
Lemma handleSendOldSeq_chain {M} `{!ExtraOpInConsensus M} som (p p' : PbftNode M) bc :
  (∀ m q b q', HandleinPrePrepare m q = Ret (b, q') → same_chain q q') →
  (∀ b q, HandleforSequentialRequest som p = Ret (b, q) → CurChain q = bc) →
  handleSendOldSeq som p = Ret p' →
  CurChain p' = bc ∧ sequenceID p' = u64 (so_SeqEndHeight som + 1).
Proof.
  intros Hpp Hq ([b q] & H1%Hq & (q2 & H2 & H3)%bind_Ret)%bind_Ret.
  destruct (askForLock q2); [|discriminate H3]. injection H3 as <-.
  apply resume_chain in H2 as [E1 E2 _]; [|exact Hpp].
  assert (∀ rs n (p : PbftNode M), CurChain (store_old n rs p) = CurChain p) as Hstore.
  { intros rs. induction rs as [|r rs IH]; intros n p0; [done|]. cbn [store_old]. by rewrite IH. }
  cbn [CurChain sequenceID set_field] in *. rewrite E1, E2, Hstore, H1. done.
Qed.

Lemma vote_keeps {M} d (p : PbftNode M) :
  let v := vote false d p in
  isReply v = isReply p ∧ requestPool v = requestPool p ∧ out v = out p ∧ CurChain v = CurChain p
  ∧ sequenceID v = sequenceID p ∧ view v = view p ∧ pn_ShardID v = pn_ShardID p
  ∧ ip_nodeTable v = ip_nodeTable p ∧ RunningNode v = RunningNode p ∧ askForLock v = askForLock p.
Proof. by split_and!. Qed.

Lemma ask_old_sends {M} cmsg (p p' : PbftNode M) :
  ask_old cmsg p = Ret p' →
  let sn := mkNode (u64 (view p)) (pn_ShardID p) (ip_of (pn_ShardID p) (u64 (view p)) p) in
  out p' = out p ++ [(n_IPaddr sn,
    MRequestOld (mkRequestOld (u64 (sequenceID p + 1)) (c_SeqID cmsg) sn (RunningNode p)))]
  ∧ CurChain p' = CurChain p ∧ sequenceID p' = sequenceID p ∧ askForLock p' = true.
Proof. unfold ask_old. destruct (askForLock _); [done|]. intros [= <-]. by split_and!. Qed.

(** What a node asks for when a quorum commits a request it has never seen. *)
Lemma missing_request_asks now cv cmsg (p p1 : PbftNode relay_module) :
  handleCommit now cv cmsg p = Ret p1 →
  requestPool p !! c_Digest cmsg = None → c_Digest cmsg ∉ isReply p → c_Digest cmsg ∈ isReply p1 →
  ∃ sn, out p1 = out p ++ [(n_IPaddr sn,
      MRequestOld (mkRequestOld (u64 (sequenceID p + 1)) (c_SeqID cmsg) sn (RunningNode p)))]
    ∧ CurChain p1 = CurChain p ∧ sequenceID p1 = sequenceID p ∧ askForLock p1 = true
    ∧ sequenceID p ≤ c_SeqID cmsg.
Proof.
  intros H Hp Hr Hr1. unfold handleCommit in H.
  destruct (c_SeqID cmsg <? sequenceID p) eqn:Es; [by injection H as <-|]. z_bool.
  destruct (negb (view p =? cv)); [by injection H as <-|]. cbn [orb] in H.
  destruct (vote_keeps (c_Digest cmsg) p) as (E1 & E2 & E3 & E4 & E5 & E6 & E7 & E8 & E9 & E10).
  set (v := vote false (c_Digest cmsg) p) in *. clearbody v.
  destruct (_ && _); [|by injection H as <-; rewrite E1 in Hr1].
  rewrite E2, Hp in H. apply bind_Ret in H as (p2 & H2 & H).
  destruct (ask_old_sends cmsg v p2 H2) as (F1 & F2 & F3 & F4).
  exists (mkNode (u64 (view p)) (pn_ShardID p) (ip_of (pn_ShardID p) (u64 (view p)) p)).
  assert (ip_of (pn_ShardID p) (u64 (view p)) v = ip_of (pn_ShardID p) (u64 (view p)) p) as Eip
    by (unfold ip_of; by rewrite E8).
  rewrite E3, E5, E6, E7, E9, Eip in F1. rewrite E4 in F2. rewrite E5 in F3.
  destruct (is_leader _) in H.
  - unfold unlock_seq in H. destruct (sequenceLock _) in H; [|discriminate H]. injection H as <-.
    split; [exact F1|]. split; [exact F2|]. split; [exact F3|]. by split.
  - injection H as <-. split; [exact F1|]. split; [exact F2|]. split; [exact F3|]. by split.
Qed.

(** Handling an empty answer to an empty range only moves the sequence number. *)
Lemma empty_answer (e : Z) sn (p : PbftNode relay_module) :
  Relay.HandleforSequentialRequest (mkSendOld (e + 1) e [] sn) p
  = Ret (true, p <| sequenceID := u64 (e + 1) |>).
Proof.
  unfold Relay.HandleforSequentialRequest. cbn [so_SeqStartHeight so_SeqEndHeight so_OldRequest].
  replace (e - (e + 1) + 1) with 0 by lia.
  assert ((i64 0 =? len (@nil (option Request))) = true) as -> by reflexivity.
  unfold catch_up, each_height. cbn [so_SeqStartHeight so_SeqEndHeight so_OldRequest negb].
  assert ((e <? e + 1) = true) as -> by (apply Z.ltb_lt; lia). reflexivity.
Qed.

Lemma empty_range_skips (e : Z) sn (p1 p2 : PbftNode relay_module) :
  handleSendOldSeq (mkSendOld (e + 1) e [] sn) p1 = Ret p2 →
  CurChain p2 = CurChain p1 ∧ sequenceID p2 = u64 (e + 1).
Proof.
  apply handleSendOldSeq_chain.
  - intros m q b q' H. by apply (check_block_chain m q b q').
  - intros b q H. pose proof (eq_trans (eq_sym H) (empty_answer e sn p1)) as Eq. by injection Eq as _ ->.
Qed.

End catch_up.

Section commit.
Context {PA : Params} {EX : External}.

(** Adding a block leaves the pool and the partition map alone. *)
Lemma AddBlock_keeps b bc bc' :
  AddBlock b bc = Ret bc' → bc_PartitionMap bc' = bc_PartitionMap bc ∧ bc_Txpool bc' = bc_Txpool bc.
Proof.
  unfold AddBlock. destruct (negb _); [by intros [= <-]|]. destruct (negb _); [by intros [= <-]|].
  intros (bc1 & H1 & (s & _ & [= <-])%bind_Ret)%bind_Ret.
  destruct (trie_New _ _); [by injection H1 as <-|].
  apply bind_Ret in H1 as ([rt bc2] & H & [= <-]). unfold GetUpdateStatusTrie in H.
  destruct (len _ =? 0); [by injection H as _ <-|].
  apply bind_Ret in H as (st & _ & ([t cnt] & _ & H)%bind_Ret).
  destruct (cnt =? 0); [by injection H as _ <-|]. by apply bind_Ret in H as ([r d] & _ & [= _ <-]).
Qed.

Lemma Get_PartitionMap_map bc bc' a :
  bc_PartitionMap bc' = bc_PartitionMap bc → Get_PartitionMap bc' a = Get_PartitionMap bc a.
Proof. intros E. unfold Get_PartitionMap. by rewrite E. Qed.
Lemma dest_map bc bc' tx :
  bc_PartitionMap bc' = bc_PartitionMap bc → dest bc' tx = dest bc tx.
Proof. intros E. unfold dest. by rewrite (Get_PartitionMap_map _ _ _ E). Qed.

Lemma in_place_map bc bc' shard body :
  bc_PartitionMap bc' = bc_PartitionMap bc → in_place bc shard body → in_place bc' shard body.
Proof.
  intros E H tx Hin. destruct (H tx Hin) as (s & Hs & Hr & Hp). exists s.
  by rewrite !(Get_PartitionMap_map _ _ _ E), (dest_map _ _ _ E).
Qed.

Lemma relay_lists_map bc bc' shard body b :
  bc_PartitionMap bc' = bc_PartitionMap bc →
  goes_to bc' shard body = goes_to bc shard body ∧ leaves bc' shard body = leaves bc shard body
  ∧ arrives b bc' shard body = arrives b bc shard body.
Proof.
  intros E. unfold goes_to, leaves, arrives.
  split_and!; apply list_filter_iff; intros tx; by rewrite (dest_map _ _ _ E).
Qed.

(** The leader's commit of a block, in the relaying modules. *)
Lemma commit_relay_ok {M} now epoch r block (p : PbftNode M) :
  RelayWithMerkleProof = 0 → is_leader p = true → dec (r_Content r) = Some block →
  returns (AddBlock block (CurChain p)) → pool_locked (bc_Txpool (CurChain p)) = false →
  in_place (CurChain p) (pn_ShardID p) (b_Body block) →
  ∃ p', commit_relay_block now epoch r p = Ret (true, p')
    ∧ out p' = out p ++ (relay_to (CurChain p) (b_Body block) p <$> other_shards p)
        ++ [(ip_of SupervisorShard 0 p,
             MBlockInfo (relay_report (CurChain p) (pn_ShardID p) epoch now r (b_Body block)))]
    ∧ bc_Txpool (CurChain p') = (bc_Txpool (CurChain p)) <| RelayPool := None |>.
Proof.
  intros Hpar Hl Hd [bc1 Ha] Hk Hp. unfold commit_relay_block, DecodeB. rewrite Hd. go_step.
  unfold add_block. rewrite Ha. go_step. destruct (AddBlock_keeps _ _ _ Ha) as [Em Et].
  set (p1 := p <| CurChain := bc1 |>). assert (is_leader p1 = true) as -> by exact Hl.
  destruct (relay_block_ok now epoch r block (bool_decide (fits (CurChain p) block)) p1 Hpar)
    as (p' & -> & Ho & Hpool).
  { change (pool_locked (bc_Txpool bc1) = false). by rewrite Et. }
  { by apply (in_place_map (CurChain p) bc1). }
  go_step. exists p'. split; [done|]. split; [|rewrite Hpool; by rewrite <- Et].
  rewrite Ho. change (CurChain p1) with bc1. change (out p1) with (out p). f_equal. f_equal.
  - apply list_fmap_ext. intros _ sid _. unfold relay_to.
    by destruct (relay_lists_map (CurChain p) bc1 sid (b_Body block) true Em) as (-> & _ & _).
  - unfold relay_report. change (pn_ShardID p1) with (pn_ShardID p).
    destruct (relay_lists_map (CurChain p) bc1 (pn_ShardID p) (b_Body block) true Em) as (_ & -> & ->).
    by destruct (relay_lists_map (CurChain p) bc1 (pn_ShardID p) (b_Body block) false Em) as (_ & _ & ->).
Qed.

End commit.

(** ** Properties *)

Module RelayProps.
Section props.
Context {PA : Params} {EX : External} {EXO : ExternalOk}.

(** C5. A leader that commits a block relays every cross-shard transaction exactly
    once: it sends one message to each other shard, with exactly the transactions
    of the block whose recipient is there, in block order and marked as relayed;
    together the messages carry all the transactions that leave the shard; the
    supervisor is told which stayed, left and arrived; the relay pool is emptied. *)
Theorem commit_relays_cross_shard_once (p : PbftNode relay_module) now cmsg r block :
  RelayWithMerkleProof = 0 → is_leader p = true →
  requestPool p !! c_Digest cmsg = Some (Some r) → dec (r_Content r) = Some block →
  returns (AddBlock block (CurChain p)) → pool_locked (bc_Txpool (CurChain p)) = false →
  in_place (CurChain p) (pn_ShardID p) (b_Body block) →
  (∀ tx, tx ∈ b_Body block → 0 ≤ dest (CurChain p) tx < ShardNums (pbftChainConfig p)) →
  ∃ p', Relay.HandleinCommit now cmsg p = Ret (true, p')
    ∧ out p' = out p ++ (relay_to (CurChain p) (b_Body block) p <$> other_shards p)
        ++ [(ip_of SupervisorShard 0 p,
             MBlockInfo (relay_report (CurChain p) (pn_ShardID p) 0 now r (b_Body block)))]
    ∧ (other_shards p ≫= λ sid, mark <$> goes_to (CurChain p) sid (b_Body block))
        ≡ₚ mark <$> leaves (CurChain p) (pn_ShardID p) (b_Body block)
    ∧ bc_Txpool (CurChain p') = (bc_Txpool (CurChain p)) <| RelayPool := None |>.
Proof.
  intros Hpar Hl Hr Hd Ha Hk Hp Hdest.
  destruct (commit_relay_ok now 0 r block p Hpar Hl Hd Ha Hk Hp) as (p' & E & Ho & Hpool).
  exists p'. split; [|split; [exact Ho|split; [by apply relayed_perm|exact Hpool]]].
  unfold Relay.HandleinCommit, pooled. rewrite Hr. exact E.
Qed.

(** C32. Relay with proofs, end to end: when the relayed transactions are in a block
    whose root and bloom filter are its own, the sender returns, and each receiver
    accepts its message: the transactions join its queue and the sender's sequence
    number is noted. *)
Theorem honest_proofs_accepted {M : Type} (p : PbftNode M) (b : Block) :
  RelayWithMerkleProof = 1 → pool_locked (bc_Txpool (CurChain p)) = false → sealed b →
  (∀ sid tx, tx ∈ relay_of (bc_Txpool (CurChain p)) sid → tx_TxHash tx ∈ tx_TxHash <$> b_Body b) →
  ∃ p' proofs, RelayWithProofSend b p = Ret p'
    ∧ (let rwp sid := mkRelayWithProof (relay_of (bc_Txpool (CurChain p)) sid) (proofs sid)
                        (pn_ShardID p) (sequenceID p) in
       out p' = out p ++ ((λ sid, (ip_of sid 0 p, MRelayWithProof (rwp sid))) <$> other_shards p)
       ∧ ∀ sid now (q : PbftNode M), pool_locked (bc_Txpool (CurChain q)) = false →
           handleRelayWithProof now (rwp sid) q
           = Ret (took_in now (relay_of (bc_Txpool (CurChain p)) sid) (pn_ShardID p) (sequenceID p) q)).
Proof.
  intros Hpar Hk Hs Hin. unfold RelayWithProofSend. rewrite Hpar. cbn [negb Z.eqb Pos.eqb].
  destruct (proof_send_loop b p (other_shards p) Hs Hin) as (proofs & E & Hv).
  cbv zeta in E |- *. rewrite E. go_step.
  unfold clear_relay, ClearRelayPool, with_pool_lock. cbn [CurChain set_field]. rewrite Hk. go_step.
  eexists _, proofs. split; [done|]. split; [done|].
  intros sid now q Hq. by apply verified_taken_in.
Qed.

(** C39. The proof of a relayed transaction is bound neither to the transaction nor
    to a block of the sender: one proof that some block contains one hash makes a
    receiver accept any list of transactions whatsoever. *)
Theorem one_proof_for_all (b : Block) (h : bytes) :
  sealed b → h ∈ tx_TxHash <$> b_Body b →
  ∃ pr, ∀ (M : Type) now txs s n (q : PbftNode M), pool_locked (bc_Txpool (CurChain q)) = false →
    handleRelayWithProof now (mkRelayWithProof txs (replicate (length txs) pr) s n) q
    = Ret (took_in now txs s n q).
Proof.
  intros Hs Hh. destruct (on_block_found b h Hs Hh) as (pf & Hp & _). exists (found_proof h b pf).
  intros M now txs s n q Hk. apply verified_taken_in; [done|].
  induction txs as [|tx txs IH]; [constructor|]. simpl. constructor; [|exact IH].
  rewrite (verify_found b h pf Hs Hp). by rewrite bool_decide_true.
Qed.


(** A request that a node commits without having received it is never recovered:
    it asks for the range that starts after it, any leader's answer to that range is
    empty, and the empty answer moves the node to the next sequence number although
    its chain has not changed. *)
Theorem missing_request_is_skipped (p p1 : PbftNode relay_module) now cv cmsg :
  c_SeqID cmsg = sequenceID p → 0 ≤ sequenceID p < 2 ^ 64 - 1 →
  requestPool p !! c_Digest cmsg = None → c_Digest cmsg ∉ isReply p →
  handleCommit now cv cmsg p = Ret p1 → c_Digest cmsg ∈ isReply p1 →
  ∃ ip rom, out p1 = out p ++ [(ip, MRequestOld rom)]
  ∧ ∀ leader leader' : PbftNode relay_module,
      is_leader leader = true → handleRequestOldSeq rom leader = Ret leader' →
      ∃ som, out leader' = out leader ++ [(n_IPaddr (RunningNode p), MSendOld som)]
      ∧ ∀ p2, handleSendOldSeq som p1 = Ret p2 →
          CurChain p2 = CurChain p ∧ sequenceID p2 = sequenceID p + 1.
Proof.
  intros Hs Hb Hp Hr H Hr1.
  destruct (missing_request_asks now cv cmsg p p1 H Hp Hr Hr1) as (sn & Ho & Hc & _ & _ & _).
  eexists _, _. split; [exact Ho|]. rewrite Hs, u64_id by (unfold is_u64; lia).
  intros leader leader' Hlead H2. unfold handleRequestOldSeq in H2. rewrite Hlead in H2.
  cbn [negb ro_SeqStartHeight ro_SeqEndHeight ro_SenderNode] in H2.
  replace (sequenceID p - (sequenceID p + 1) + 1) with 0 in H2 by lia.
  apply bind_Ret in H2 as ([bb l2] & [= _ <-] & [= <-]). eexists. split; [reflexivity|].
  intros p2 (E1 & E2)%empty_range_skips. rewrite E1, E2, Hc. split; [done|].
  apply u64_id. unfold is_u64. lia.
Qed.

End props.

(** *** Witnesses: shard 0 of two shards *)

Import LedgerProps MerkleProps PbftProps.
#[local] Existing Instances RefExternal.ext RefExternal.ext_ok params4.

(** The next block of the empty chain: one payment inside the shard, one leaving. *)
Definition next_block (n : Z) (parent hash : bytes) (txs : list Transaction) : Block :=
  mkBlock (mkBH parent "root" (GetTxTreeRoot txs) "" n 9 0) txs hash.
Definition block1 : Block := next_block 1 "g" "h1" [pay "a0" "b0" 5; pay "a0" "b1" 7].
Definition block2 : Block := next_block 2 "h1" "h2" [].
Definition req_of (b : Block) : Request := mkRequest BlockRequest (enc b) 9.
Definition node_with {M} (m : M) (id : Z) (pool : gmap string (option Request)) : PbftNode M :=
  (NewPbftNode 0 id (cc 0) 9 table4 (empty_chain 0) m) <| requestPool := pool |>.
Definition leader0 : PbftNode relay_module := node_with RawRelay 0 {[ "d1"%string := Some (req_of block1) ]}.
Definition com1 : Commit := mkCommit "d1" 1 (mkNode 2 0 "").

Lemma block1_decodes : dec (enc block1) = Some block1.
Proof. apply ok_gob_b. by_compute. Qed.
Lemma block2_decodes : dec (enc block2) = Some block2.
Proof. apply ok_gob_b. by_compute. Qed.
Lemma block1_added : returns (AddBlock block1 (empty_chain 0)).
Proof. apply is_Ret_returns. vm_compute. reflexivity. Qed.

Lemma commit_relays_cross_shard_once_witness :
  let p := leader0 in
  ∃ p', Relay.HandleinCommit 20 com1 p = Ret (true, p')
    ∧ out p' = out p ++ (relay_to (CurChain p) (b_Body block1) p <$> other_shards p)
        ++ [(ip_of SupervisorShard 0 p,
             MBlockInfo (relay_report (CurChain p) (pn_ShardID p) 0 20 (req_of block1) (b_Body block1)))]
    ∧ (other_shards p ≫= λ sid, mark <$> goes_to (CurChain p) sid (b_Body block1))
        ≡ₚ mark <$> leaves (CurChain p) (pn_ShardID p) (b_Body block1)
    ∧ bc_Txpool (CurChain p') = (bc_Txpool (CurChain p)) <| RelayPool := None |>.
Proof.
  intros p. apply (commit_relays_cross_shard_once p 20 com1 (req_of block1) block1).
  - reflexivity.
  - reflexivity.
  - apply lookup_singleton_eq.
  - exact block1_decodes.
  - exact block1_added.
  - reflexivity.
  - each_elem; exists 0; split_and!; vm_compute; reflexivity.
  - each_elem; vm_compute; split; discriminate || reflexivity.
Defined.

Definition proof_params : Params := {|
  NodesInShard := 4; ShardNum := 2; PbftViewChangeTimeOut := 10000; BlocksizeInBytes := 20000;
  UseBlocksizeInBytes := 0; InjectSpeed := 2000; BrokerNum := 10; RelayWithMerkleProof := 1 |}.
Definition sender0 : PbftNode relay_module :=
  leader0 <| CurChain ::= λ bc, bc <| bc_Txpool ::= λ pool,
    pool <| RelayPool := Some {[ 1 := [pay "b0" "b1" 7] ]} |> |> |>.

Lemma honest_proofs_accepted_witness :
  let p := sender0 in
  ∃ p' proofs, @RelayWithProofSend proof_params _ _ sealed_block p = Ret p'
    ∧ (let rwp sid := mkRelayWithProof (relay_of (bc_Txpool (CurChain p)) sid) (proofs sid)
                        (pn_ShardID p) (sequenceID p) in
       out p' = out p ++ ((λ sid, (ip_of sid 0 p, MRelayWithProof (rwp sid))) <$> other_shards p)
       ∧ ∀ sid now (q : PbftNode relay_module), pool_locked (bc_Txpool (CurChain q)) = false →
           handleRelayWithProof now (rwp sid) q
           = Ret (took_in now (relay_of (bc_Txpool (CurChain p)) sid) (pn_ShardID p) (sequenceID p) q)).
Proof.
  intros p. apply (@honest_proofs_accepted proof_params _ _ _ p sealed_block).
  - reflexivity.
  - reflexivity.
  - exact sealed_block_ok.
  - intros sid tx Hin. destruct (decide (sid = 1)) as [->|Hne].
    + assert (tx ∈ [pay "b0" "b1" 7]) as ->%list_elem_of_singleton by exact Hin. right. left.
    + exfalso. unfold relay_of in Hin. cbn in Hin. rewrite lookup_singleton_ne in Hin by done.
      by apply not_elem_of_nil in Hin.
Defined.

Lemma one_proof_for_all_witness :
  ∃ pr, ∀ (M : Type) now txs s n (q : PbftNode M), pool_locked (bc_Txpool (CurChain q)) = false →
    handleRelayWithProof now (mkRelayWithProof txs (replicate (length txs) pr) s n) q
    = Ret (took_in now txs s n q).
Proof. apply (one_proof_for_all sealed_block "a0" sealed_block_ok). left. Defined.


(** A follower that has the commits of two others for a request it never got. *)
Definition lost : PbftNode relay_module :=
  let p := node_with RawRelay 1 ∅ in
  ret_or p (go_fold (λ p _, handleCommit 9 0 com1 p) p [0; 2]).

Lemma missing_request_is_skipped_witness :
  ∃ ip rom, out (ret_or lost (handleCommit 9 0 com1 lost)) = out lost ++ [(ip, MRequestOld rom)]
  ∧ ∀ leader leader' : PbftNode relay_module,
      is_leader leader = true → handleRequestOldSeq rom leader = Ret leader' →
      ∃ som, out leader' = out leader ++ [(n_IPaddr (RunningNode lost), MSendOld som)]
      ∧ ∀ p2, handleSendOldSeq som (ret_or lost (handleCommit 9 0 com1 lost)) = Ret p2 →
          CurChain p2 = CurChain lost ∧ sequenceID p2 = sequenceID lost + 1.
Proof.
  apply (missing_request_is_skipped lost (ret_or lost (handleCommit 9 0 com1 lost)) 9 0 com1).
  - vm_compute. reflexivity.
  - vm_compute. split; [discriminate|reflexivity].
  - vm_compute. reflexivity.
  - by_compute.
  - apply is_Ret_or. vm_compute. reflexivity.
  - by_compute.
Defined.

End RelayProps.
