(* ===== verification/SzhbftProps.v ===== *)
(** * The SZHBFT module: properties *)

From S2P Require Import Prelude Params Core Message External Storage Chain Ledger ChainLemmas MerkleProof.
From S2P Require Import Pbft BlockOps ChainProps Szhbft.

Section lemmas.
Context {PA : Params} {EX : External}.
Implicit Types (p : PbftNode SZHBFT) (v : InterSZoneVote).
Import Szhbft.

(** ** What a multicast sends *)

Definition copies (m : payload) (shards : list Z) p : list (string * payload) :=
  shards ≫= λ sid, (λ ip, (ip, m)) <$> getNodeIpsWithinShard sid p.
Definition send_also (o : list (string * payload)) p : PbftNode SZHBFT := p <| out ::= λ l, l ++ o |>.

Lemma send_also_nil p : send_also [] p = p.
Proof. destruct p. unfold send_also, set_field. cbn. by rewrite (right_id_L [] (++)). Qed.
Lemma send_also_app o1 o2 p : send_also o2 (send_also o1 p) = send_also (o1 ++ o2) p.
Proof. destruct p. unfold send_also, set_field. cbn. by rewrite (assoc_L (++)). Qed.

Lemma dial_all m ips p : foldl (λ p ip, TcpDial m ip p) p ips = send_also ((λ ip, (ip, m)) <$> ips) p.
Proof.
  revert p. induction ips as [|ip ips IH]; intros p; [by rewrite send_also_nil|]. simpl. rewrite IH.
  change (TcpDial m ip p) with (send_also [(ip, m)] p). by rewrite send_also_app.
Qed.
Lemma multicast_copies m shards p : multicast m shards p = send_also (copies m shards p) p.
Proof.
  unfold multicast. revert p. induction shards as [|sid shards IH]; intros p; [by rewrite send_also_nil|]. simpl.
  rewrite dial_all, IH, send_also_app. done.
Qed.
Lemma copies_same m shards p ip m' : (ip, m') ∈ copies m shards p → m' = m.
Proof. intros (sid & (? & [= _ ->] & _)%list_elem_of_fmap & _)%list_elem_of_bind. done. Qed.

Lemma send_all_out m p ip m' : (ip, m') ∈ out (send_all m p) → (ip, m') ∈ out p ∨ m' = m.
Proof.
  unfold send_all, TcpDial, Broadcast. cbn. rewrite !elem_of_app, list_elem_of_fmap, list_elem_of_singleton.
  naive_solver.
Qed.

(** ** The leader's round *)

Lemma propose_local now polls p b gb bc' :
  is_leader p = true → sequenceLock p = false →
  GenerateSZBlock now (i32 (pn_NodeID p)) (CurChain p) = Ret (Some b, gb, bc') →
  let r := mkRequest BlockRequest (enc b) now in
  propose_round now polls p = Ret (send_all (MPrePrepare (mkPrePrepare (Some r) (getDigest (Some r)) (sequenceID p)))
    (p <| sequenceLock := true |> <| CurChain := bc' |> <| requestPool ::= <[getDigest (Some r) := Some r]> |>
       <| height2Digest ::= <[sequenceID p := getDigest (Some r)]> |>) <| pbftStage := 2 |>).
Proof.
  intros Hlead Hlock E r. unfold propose_round, lock_seq. rewrite Hlead, Hlock. cbn -[GenerateSZBlock].
  unfold HandleinPropose.
  change (GenerateSZBlock now (i32 (pn_NodeID (p <| sequenceLock := true |>))) (CurChain (p <| sequenceLock := true |>)))
    with (GenerateSZBlock now (i32 (pn_NodeID p)) (CurChain p)). by rewrite E.
Qed.

Lemma propose_global now polls p b bc' szs :
  is_leader p = true → sequenceLock p = false →
  GenerateSZBlock now (i32 (pn_NodeID p)) (CurChain p) = Ret (None, Some b, bc') → GetRelatedShards bc' b = Ret szs →
  let m := MSZPrepare (mkSZPrepare b (sequenceID p) (u64 (view p)) now (RunningNode p)) in
  propose_round now polls p = Ret (send_also (copies m (elements szs) p)
    (p <| sequenceLock := true |> <| CurChain := bc' |> <| pbftStage := 1 |> <| lastCommitTime := UnixMilli now |>
       <| sequenceLock := false |>)).
Proof.
  intros Hlead Hlock E Es m. unfold propose_round, lock_seq. rewrite Hlead, Hlock. cbn -[GenerateSZBlock].
  unfold HandleinPropose.
  change (GenerateSZBlock now (i32 (pn_NodeID (p <| sequenceLock := true |>))) (CurChain (p <| sequenceLock := true |>)))
    with (GenerateSZBlock now (i32 (pn_NodeID p)) (CurChain p)). rewrite E. go_step.
  change (CurChain (p <| sequenceLock := true |> <| CurChain := bc' |>)) with bc'. rewrite Es. go_step.
  by rewrite multicast_copies.
Qed.

(** ** Sorting out local blocks *)

Lemma local_block_found bc shard body :
  shard = bc_ShardID bc → (∀ tx, tx ∈ body → is_local bc tx = true) → isLocalSZBlock bc shard body = Ret true.
Proof.
  intros ->. induction body as [|tx body IH]; intros Hl; [done|]. simpl.
  assert (is_local bc tx = true) as [Hs Hr]%andb_true_iff by (apply Hl; left). unfold here in Hs, Hr.
  destruct (Get_PartitionMap bc (tx_Sender tx)); [|done..]. destruct (Get_PartitionMap bc (tx_Recipient tx)); [|done..].
  simpl. rewrite Hs, Hr. apply IH. intros tx' Hin. apply Hl. by right.
Qed.

Lemma relink_fits lc b : fits lc (relink lc b).
Proof. done. Qed.

Lemma related_ok bc b : routable bc (b_Body b) → ∃ s, GetRelatedShards bc b = Ret s.
Proof.
  intros Hr. cut (∃ s, GetRelatedShards bc b = Ret s ∧ True); [naive_solver|].
  apply go_fold_total; [|done]. intros s tx Hin _. destruct (Hr tx Hin) as [[i ->] [o ->]]. simpl. eauto.
Qed.

(** ** Votes *)

(** The node IDs from which a vote, or a vote in favour, has come for [seq]. *)
Definition voters (seq : Z) (vs : list InterSZoneVote) : gset Z :=
  list_to_set (zv_SenderNodeID <$> filter (λ v, zv_SeqID v = seq) vs).
Definition agreeing (seq : Z) (vs : list InterSZoneVote) : gset Z :=
  list_to_set (zv_SenderNodeID <$> filter (λ v, zv_SeqID v = seq ∧ zv_Result v = true) vs).

Lemma elem_voters seq vs nid : nid ∈ voters seq vs ↔ ∃ v, v ∈ vs ∧ zv_SeqID v = seq ∧ zv_SenderNodeID v = nid.
Proof. unfold voters. rewrite elem_of_list_to_set, list_elem_of_fmap. setoid_rewrite list_elem_of_filter. naive_solver. Qed.
Lemma elem_agreeing seq vs nid :
  nid ∈ agreeing seq vs ↔ ∃ v, v ∈ vs ∧ zv_SeqID v = seq ∧ zv_SenderNodeID v = nid ∧ zv_Result v = true.
Proof. unfold agreeing. rewrite elem_of_list_to_set, list_elem_of_fmap. setoid_rewrite list_elem_of_filter. naive_solver. Qed.
Lemma agreeing_voters seq vs : agreeing seq vs ⊆ voters seq vs.
Proof. intros nid. rewrite elem_voters, elem_agreeing. naive_solver. Qed.
Lemma voters_more seq vs v : voters seq vs ⊆ voters seq (vs ++ [v]).
Proof. intros nid. rewrite !elem_voters. intros (v' & ? & ?). exists v'. set_solver. Qed.
Lemma agreeing_more seq vs v : agreeing seq vs ⊆ agreeing seq (vs ++ [v]).
Proof. intros nid. rewrite !elem_agreeing. intros (v' & ? & ?). exists v'. set_solver. Qed.

Definition quorate (f seq : Z) (vs : list InterSZoneVote) : Prop :=
  2 * f + 1 ≤ Z.of_nat (size (agreeing seq vs)) ∧ 3 * f + 1 ≤ Z.of_nat (size (voters seq vs)).
Lemma quorate_more f seq vs v : quorate f seq vs → quorate f seq (vs ++ [v]).
Proof.
  intros []. pose proof (subseteq_size _ _ (agreeing_more seq vs v)). pose proof (subseteq_size _ _ (voters_more seq vs v)).
  split; lia.
Qed.

(** The pool holds votes that came in. *)
Definition pool_from (pool : gmap Z (gmap Z bool)) (vs : list InterSZoneVote) : Prop :=
  ∀ seq nid b, votes_for seq pool !! nid = Some b →
    ∃ v, v ∈ vs ∧ zv_SeqID v = seq ∧ zv_SenderNodeID v = nid ∧ zv_Result v = b.

Lemma pool_counts pool vs seq : pool_from pool vs →
  (size (filter (λ x : Z * bool, x.2 = true) (votes_for seq pool)) ≤ size (agreeing seq vs))%nat
  ∧ (size (votes_for seq pool) ≤ size (voters seq vs))%nat.
Proof.
  intros Hp. split; rewrite <- (size_dom (D := gset Z)); apply subseteq_size; intros nid [b Hb]%elem_of_dom.
  - apply map_lookup_filter_Some in Hb as [Hb E]. simpl in E. subst b. apply elem_agreeing. by apply Hp.
  - apply elem_voters. destruct (Hp seq nid b Hb) as (v & ? & ? & ? & _). by exists v.
Qed.

Lemma pool_insert v pool vs : pool_from pool vs →
  pool_from (<[zv_SeqID v := <[zv_SenderNodeID v := zv_Result v]> (votes_for (zv_SeqID v) pool)]> pool) (vs ++ [v]).
Proof.
  intros Hp seq nid b. unfold votes_for at 1. destruct (decide (seq = zv_SeqID v)) as [->|Hne].
  - rewrite lookup_insert_eq. simpl. destruct (decide (nid = zv_SenderNodeID v)) as [->|Hn].
    + rewrite lookup_insert_eq. intros [= <-]. exists v. set_solver.
    + rewrite lookup_insert_ne by done. intros (v' & ? & ?)%Hp. exists v'. set_solver.
  - rewrite lookup_insert_ne by done. intros (v' & ? & ?)%Hp. exists v'. set_solver.
Qed.
Lemma pool_delete seq pool vs : pool_from pool vs → pool_from (delete seq pool) vs.
Proof.
  intros Hp s nid b. unfold votes_for. destruct (decide (s = seq)) as [->|Hne].
  - by rewrite lookup_delete_eq.
  - rewrite lookup_delete_ne by done. apply Hp.
Qed.

(** Handlers of several votes at once, each in its two halves, with other handlers of the
    node in between, which neither touch the votes nor send a confirmation. *)
Definition aside p p' : Prop :=
  globalVotePool (pn_mod p') = globalVotePool (pn_mod p) ∧ malicious_nums p' = malicious_nums p
  ∧ ∃ o, out p' = out p ++ o ∧ ∀ ip m, (ip, MSZConfirm m) ∉ o.
Inductive race (p0 : PbftNode SZHBFT) : list (InterSZoneVote * Z * Z) → list InterSZoneVote → PbftNode SZHBFT → Prop :=
| race_start : race p0 [] [] p0
| race_record pending vs p v a t p' :
    race p0 pending vs p → record_vote v p = (a, t, p') → race p0 (pending ++ [(v, a, t)]) (vs ++ [v]) p'
| race_settle pending1 pending2 vs p v a t :
    race p0 (pending1 ++ (v, a, t) :: pending2) vs p → race p0 (pending1 ++ pending2) vs (settle_vote v a t p)
| race_aside pending vs p p' : race p0 pending vs p → aside p p' → race p0 pending vs p'.

Record race_ok (f : Z) (pending : list (InterSZoneVote * Z * Z)) (vs : list InterSZoneVote) p : Prop := {
  rc_f : malicious_nums p = f;
  rc_pool : pool_from (globalVotePool (pn_mod p)) vs;
  rc_pending v a t : (v, a, t) ∈ pending →
    a ≤ Z.of_nat (size (agreeing (zv_SeqID v) vs)) ∧ t ≤ Z.of_nat (size (voters (zv_SeqID v) vs));
  rc_out ip m : (ip, MSZConfirm m) ∈ out p → quorate f (zc_SeqID m) vs
}.

Lemma race_ok_record f pending vs p v a t p' :
  race_ok f pending vs p → record_vote v p = (a, t, p') → race_ok f (pending ++ [(v, a, t)]) (vs ++ [v]) p'.
Proof.
  intros [Hf Hp Hpend Hout] Hr. injection Hr as <- <- <-.
  pose proof (pool_insert v _ _ Hp) as Hp'. split; simpl; [done|exact Hp'| |].
  - intros v' a' t' [Hin|[= -> -> ->]%list_elem_of_singleton]%elem_of_app.
    + apply Hpend in Hin as [? ?]. pose proof (subseteq_size _ _ (agreeing_more (zv_SeqID v') vs v)).
      pose proof (subseteq_size _ _ (voters_more (zv_SeqID v') vs v)). lia.
    + destruct (pool_counts _ _ (zv_SeqID v) Hp'). lia.
  - intros ip m Hin%Hout. by apply quorate_more.
Qed.

Lemma race_ok_settle f pending1 pending2 vs p v a t :
  0 ≤ f → 3 * f + 1 < 2 ^ 63 → race_ok f (pending1 ++ (v, a, t) :: pending2) vs p →
  race_ok f (pending1 ++ pending2) vs (settle_vote v a t p).
Proof.
  intros Hf0 Hf1 [Hf Hp Hpend Hout].
  assert (∀ v' a' t', (v', a', t') ∈ pending1 ++ pending2 →
    a' ≤ Z.of_nat (size (agreeing (zv_SeqID v') vs)) ∧ t' ≤ Z.of_nat (size (voters (zv_SeqID v') vs))) as Hpend'.
  { intros v' a' t' Hin. apply Hpend. set_solver. }
  destruct (Hpend v a t) as [Ha Ht]; [set_solver|].
  pose proof (subseteq_size _ _ (agreeing_voters (zv_SeqID v) vs)) as Hsub.
  unfold settle_vote. destruct (globalVotePool (pn_mod p) !! zv_SeqID v); [|by split].
  rewrite Hf, (i64_id f), !i64_id by (unfold is_i64; lia).
  assert (∀ sigs, quorate f (zv_SeqID v) vs → race_ok f (pending1 ++ pending2) vs
    (multicast (MSZConfirm (mkSZConfirm (bc_CurrentBlock (CurChain p)) (zv_SeqID v) (zv_View v) sigs (RunningNode p)))
       (seqZ 0 (ShardNums (pbftChainConfig p))) (p <| pn_mod ::= λ s, s <| globalVotePool ::= delete (zv_SeqID v) |> |>))) as Hok.
  { intros sigs Hq. rewrite multicast_copies. split; simpl; [done|by apply pool_delete|done|].
    intros ip m [Hin|Hin%copies_same]%elem_of_app; [by eapply Hout|]. by injection Hin as ->. }
  destruct (Z.leb_spec (3 * f + 1) a); [apply Hok; split; lia|].
  destruct (Z.leb_spec (2 * f + 1) a), (Z.leb_spec (3 * f + 1) t); simpl; [apply Hok; split; lia|by split..].
Qed.

Lemma race_all_ok p0 pending vs p :
  0 ≤ malicious_nums p0 → 3 * malicious_nums p0 + 1 < 2 ^ 63 →
  globalVotePool (pn_mod p0) = ∅ → (∀ ip m, (ip, MSZConfirm m) ∉ out p0) →
  race p0 pending vs p → race_ok (malicious_nums p0) pending vs p.
Proof.
  intros Hf0 Hf1 Hp0 Ho. induction 1 as [|pending vs p v a t p' _ IH Hr|pending1 pending2 vs p v a t _ IH
    |pending vs p p' _ [Hf Hp Hpend Hout] (E1 & E2 & o & E3 & Hn)].
  - split; [done|rewrite Hp0; intros ???; unfold votes_for; by rewrite lookup_empty|by intros ??? ?%not_elem_of_nil|].
    by intros ip m ?%Ho.
  - by eapply race_ok_record.
  - by apply race_ok_settle.
  - split; [congruence|by rewrite E1|done|]. rewrite E3. intros ip m [Hin|Hin]%elem_of_app; [by eapply Hout|].
    by apply Hn in Hin.
Qed.

(** *** A unanimous round *)

Definition forget (seq : Z) p : PbftNode SZHBFT := p <| pn_mod ::= λ s, s <| globalVotePool ::= delete seq |> |>.
Lemma forget_none seq p : globalVotePool (pn_mod p) !! seq = None → forget seq p = p.
Proof. intros H. destruct p as [? ? ? ? ? ? ? ? ? ? ? ? ? ? ? ? ? ? ? ? ? ? ? ? [? ? pool] ? ?]. unfold forget, set_field. cbn in *. by rewrite delete_id. Qed.

Definition put_vote v p : PbftNode SZHBFT :=
  p <| pn_mod ::= λ s, s <| globalVotePool ::= λ pool,
    <[zv_SeqID v := <[zv_SenderNodeID v := zv_Result v]> (votes_for (zv_SeqID v) pool)]> pool |> |>.
Lemma forget_put v p : forget (zv_SeqID v) (put_vote v p) = forget (zv_SeqID v) p.
Proof. destruct p as [? ? ? ? ? ? ? ? ? ? ? ? ? ? ? ? ? ? ? ? ? ? ? ? [? ? pool] ? ?]. unfold forget, put_vote, set_field. cbn. by rewrite delete_insert_eq. Qed.

(** The confirmation of a unanimous round, sent to every node of every shard. *)
Definition confirmed (seq vw : Z) p : PbftNode SZHBFT :=
  multicast (MSZConfirm (mkSZConfirm (bc_CurrentBlock (CurChain p)) seq vw "IMMEDIATE_AGREED_SIG" (RunningNode p)))
    (seqZ 0 (ShardNums (pbftChainConfig p))) p.

Definition all_agree (m : gmap Z bool) : Prop := map_Forall (λ _ b, b = true) m.

Lemma vote_agreed v p :
  zv_Result v = true → all_agree (votes_for (zv_SeqID v) (globalVotePool (pn_mod p))) →
  zv_SenderNodeID v ∉ dom (votes_for (zv_SeqID v) (globalVotePool (pn_mod p))) →
  0 ≤ malicious_nums p → 3 * malicious_nums p + 1 < 2 ^ 63 →
  let n := Z.of_nat (size (votes_for (zv_SeqID v) (globalVotePool (pn_mod p)))) + 1 in
  handleInterSZoneVote v p =
    if 3 * malicious_nums p + 1 <=? n then confirmed (zv_SeqID v) (zv_View v) (forget (zv_SeqID v) p) else put_vote v p.
Proof.
  intros Hr Hall Hn Hf0 Hf1 n. unfold handleInterSZoneVote, record_vote. fold (put_vote v p).
  set (m := votes_for (zv_SeqID v) (globalVotePool (pn_mod (put_vote v p)))).
  assert (m = <[zv_SenderNodeID v := true]> (votes_for (zv_SeqID v) (globalVotePool (pn_mod p)))) as Hm.
  { unfold m, put_vote. cbn. unfold votes_for at 1. by rewrite lookup_insert_eq, Hr. }
  assert (filter (λ x : Z * bool, x.2 = true) m = m) as ->.
  { apply map_filter_id. intros i b Hb. rewrite Hm in Hb. apply lookup_insert_Some in Hb as [[_ <-]|[_ Hb]]; [done|].
    exact (Hall i b Hb). }
  assert (Z.of_nat (size m) = n) as ->.
  { rewrite Hm, map_size_insert_None by (by apply not_elem_of_dom). unfold n. lia. }
  unfold settle_vote. cbn [pn_mod globalVotePool put_vote set_field]. rewrite lookup_insert_eq.
  change (malicious_nums (put_vote v p)) with (malicious_nums p).
  rewrite (i64_id (malicious_nums p)), !i64_id by (unfold is_i64; lia).
  destruct (Z.leb_spec (3 * malicious_nums p + 1) n).
  - fold (forget (zv_SeqID v) (put_vote v p)). by rewrite forget_put.
  - by rewrite andb_false_r.
Qed.

(** Votes for one sequence number in one view, all in favour, from different node IDs. *)
Record ballot (seq vw : Z) (vs : list InterSZoneVote) : Prop := {
  bl_vote v : v ∈ vs → zv_SeqID v = seq ∧ zv_View v = vw ∧ zv_Result v = true;
  bl_nodup : NoDup (zv_SenderNodeID <$> vs)
}.

Lemma ballot_confirms seq vw vs p :
  ballot seq vw vs → vs ≠ [] → 0 ≤ malicious_nums p → 3 * malicious_nums p + 1 < 2 ^ 63 →
  all_agree (votes_for seq (globalVotePool (pn_mod p))) →
  (∀ v, v ∈ vs → zv_SenderNodeID v ∉ dom (votes_for seq (globalVotePool (pn_mod p)))) →
  Z.of_nat (size (votes_for seq (globalVotePool (pn_mod p)))) + len vs = 3 * malicious_nums p + 1 →
  foldl (λ p v, handleInterSZoneVote v p) p vs = confirmed seq vw (forget seq p).
Proof.
  revert p. induction vs as [|v vs IH]; intros p [Hv Hnd] Hne Hf0 Hf1 Hall Hdis Hsize; [done|]. simpl.
  destruct (Hv v) as (Es & Ew & Er); [by left|]. apply NoDup_cons in Hnd as [Hnew Hnd]. rewrite len_cons in Hsize.
  assert (zv_SenderNodeID v ∉ dom (votes_for seq (globalVotePool (pn_mod p)))) as Hout by (apply Hdis; by left).
  rewrite vote_agreed; rewrite ?Es; [|done..]. destruct vs as [|v2 vs].
  { rewrite Ew. replace (3 * malicious_nums p + 1 <=? _) with true; [done|].
    symmetry. apply Z.leb_le. unfold len in Hsize. simpl in Hsize. lia. }
  rewrite (proj2 (Z.leb_gt _ _)) by (rewrite len_cons in Hsize; pose proof (len_nonneg vs); lia).
  assert (votes_for seq (globalVotePool (pn_mod (put_vote v p)))
    = <[zv_SenderNodeID v := true]> (votes_for seq (globalVotePool (pn_mod p)))) as Hm.
  { unfold put_vote. cbn. unfold votes_for at 1. by rewrite Es, lookup_insert_eq, Er. }
  rewrite IH; rewrite ?Hm.
  - pose proof (forget_put v p) as Hf. rewrite Es in Hf. by rewrite Hf.
  - split; [intros; apply Hv; by right|done].
  - done.
  - done.
  - done.
  - by apply map_Forall_insert_2.
  - intros v' Hin. rewrite dom_insert. intros [E%elem_of_singleton|Hd]%elem_of_union.
    + apply Hnew. rewrite <- E. exact (list_elem_of_fmap_2 zv_SenderNodeID (v2 :: vs) v' Hin).
    + by apply (Hdis v'); [by right|].
  - rewrite map_size_insert_None by (by apply not_elem_of_dom).
    change (malicious_nums (put_vote v p)) with (malicious_nums p). lia.
Qed.
End lemmas.

Module SzhbftProps.


(** C26. What the commit of a block of local transactions (an empty block included) does: the
    block is renumbered and linked to the head of the local ledger, stored there and
    becomes its head; its transactions stay as they are, and they are not executed on the
    local state unless the state root that the main chain gave the block is unknown there.
    The main chain, the pool and everything else of the node are untouched and nothing is
    sent: the supervisor gets no report. *)
Theorem local_commit_extends_local_chain {PA : Params} {EX : External} {EXok : ExternalOk} (p : PbftNode SZHBFT)
    (now : Time) (cmsg : Commit) (r : Request) (b : Block) (l : ledger) :
  requestPool p !! c_Digest cmsg = Some (Some r) → DecodeB (r_Content r) = Ret b →
  pn_ShardID p = bc_ShardID (CurChain p) → (∀ tx, tx ∈ b_Body b → is_local (CurChain p) tx = true) →
  let lc := LocalChain (pn_mod p) in
  has_ledger lc l → routable lc (b_Body b) → storable (Szhbft.relink lc b) →
  ∃ lc', HandleinCommit now cmsg p = Ret (true, p <| pn_mod ::= λ s, s <| LocalChain := lc' |> |>)
    ∧ b_Body (bc_CurrentBlock lc') = b_Body b
    ∧ bh_Number (b_Header (bc_CurrentBlock lc')) = u64 (bh_Number (b_Header (bc_CurrentBlock lc)) + 1)
    ∧ bh_ParentBlockHash (b_Header (bc_CurrentBlock lc')) = b_Hash (bc_CurrentBlock lc)
    ∧ b_Hash (bc_CurrentBlock lc') = BH_Hash (b_Header (bc_CurrentBlock lc'))
    ∧ GetBlock (b_Hash (bc_CurrentBlock lc')) (bc_Storage lc') = Ret (Some (bc_CurrentBlock lc'))
    ∧ (trie_New (BytesToHash (bh_StateRoot (b_Header b))) (bc_triedb lc) ≠ None → bc_triedb lc' = bc_triedb lc).
Proof.
  intros Hreq Hdec Hshard Hlocal lc Hl Hr Hst.
  destruct (sync_trie_ok (Szhbft.relink lc b) lc l Hl Hr) as (db' & Hs & Hext).
  destruct (AddBlock_synced lc (Szhbft.relink lc b) db' (relink_fits lc b) Hst Hs Hext) as (lc' & Ha & [Hc _ _ _ _ (_ & Hget & _) _] & Hdb).
  exists lc'. split.
  { cbn. unfold Szhbft.HandleinCommit, pooled, deref. rewrite Hreq. cbn. rewrite Hdec. go_step.
    rewrite local_block_found by done. go_step. fold lc. by rewrite Ha. }
  rewrite Hc. do 4 (split; [done|]). split; [exact Hget|]. intros Hroot. rewrite Hdb.
  unfold sync_trie in Hs. change (bh_StateRoot (b_Header (Szhbft.relink lc b))) with (bh_StateRoot (b_Header b)) in Hs.
  destruct (trie_New (BytesToHash (bh_StateRoot (b_Header b))) (bc_triedb lc)); [|done]. injection Hs as Hs.
  exact (eq_sym (f_equal bc_triedb Hs)).
Qed.

(** C18. Safety of the vote of the zones, with any number of votes handled at the same time
    and any other handlers of the node in between: whenever a confirmation for a sequence
    number has been sent, votes for it have come from nodes with at least [3f + 1]
    different IDs, [2f + 1] of them in favour.  (IDs, not nodes: the votes of nodes with
    the same ID in different shards count once.) *)
Theorem confirm_needs_votes {PA : Params} {EX : External} (p0 p : PbftNode SZHBFT) pending vs ip m :
  0 ≤ malicious_nums p0 → 3 * malicious_nums p0 + 1 < 2 ^ 63 →
  globalVotePool (pn_mod p0) = ∅ → (∀ ip m, (ip, MSZConfirm m) ∉ out p0) →
  race p0 pending vs p → (ip, MSZConfirm m) ∈ out p →
  2 * malicious_nums p0 + 1 ≤ Z.of_nat (size (agreeing (zc_SeqID m) vs))
  ∧ 3 * malicious_nums p0 + 1 ≤ Z.of_nat (size (voters (zc_SeqID m) vs)).
Proof. intros Hf0 Hf1 Hp Ho Hrace. by apply (rc_out _ _ _ _ (race_all_ok p0 pending vs p Hf0 Hf1 Hp Ho Hrace)). Qed.

(** C27. A unanimous round ends: when the node knows no votes for a sequence number,
    [3f + 1] votes in favour from different node IDs, handled one after the other, lead
    to one confirmation to every node of every shard, and leave the node otherwise as it
    was.  But the round is forgotten with it: the same votes again, or those of another
    shard's nodes, confirm the block once more. *)
Theorem unanimous_round_confirms {PA : Params} {EX : External} (p : PbftNode SZHBFT) seq vw (vs1 vs2 : list InterSZoneVote) :
  ballot seq vw vs1 → ballot seq vw vs2 →
  0 ≤ malicious_nums p → 3 * malicious_nums p + 1 < 2 ^ 63 →
  len vs1 = 3 * malicious_nums p + 1 → len vs2 = 3 * malicious_nums p + 1 →
  globalVotePool (pn_mod p) !! seq = None →
  let round := foldl (λ p v, Szhbft.handleInterSZoneVote v p) in
  round p vs1 = confirmed seq vw p ∧ round (round p vs1) vs2 = confirmed seq vw (confirmed seq vw p).
Proof.
  intros Hb1 Hb2 Hf0 Hf1 Hl1 Hl2 Hnone round.
  assert (∀ q vs, ballot seq vw vs → malicious_nums q = malicious_nums p → len vs = 3 * malicious_nums p + 1 →
    globalVotePool (pn_mod q) !! seq = None → round q vs = confirmed seq vw q) as Hround.
  { intros q vs Hb Hm Hl Hn. unfold round. rewrite (ballot_confirms seq vw); unfold Szhbft.votes_for; rewrite ?Hm, ?Hn; simpl.
    - by rewrite forget_none.
    - done.
    - intros ->. unfold len in Hl. simpl in Hl. lia.
    - done.
    - done.
    - apply map_Forall_empty.
    - intros v _. by rewrite dom_empty_L.
    - rewrite map_size_empty. lia. }
  assert (round p vs1 = confirmed seq vw p) as E1 by by apply Hround. split; [exact E1|]. rewrite E1.
  unfold confirmed at 1 3. rewrite multicast_copies. by apply Hround.
Qed.


(** *** Witnesses: node 0 of shard 0, four nodes per shard *)

Import LedgerProps ChainWitness.
#[local] Existing Instances RefExternal.ext RefExternal.ext_ok params4.

Definition sz_table : gmap Z (gmap Z string) :=
  {[ 0 := list_to_map [(0, "n0"); (1, "n1"); (2, "n2"); (3, "n3")] ]}%string.
Definition sz_node (bc : BlockChain) : PbftNode SZHBFT :=
  NewPbftNode 0 0 (cc 0) 9 sz_table bc (Szhbft.new_module 0 (empty_chain 0)).
Definition cross_only : BlockChain := (chain_with 3) <| bc_Txpool := mkTxPool [pay "a0" "b1" 7] (Some ∅) false |>.


Definition votes (sid : Z) : list InterSZoneVote := (λ nid, mkSZVote 1 0 sid nid true) <$> [0; 1; 2; 3].
Lemma votes_ballot sid : ballot 1 0 (votes sid).
Proof. split; [by intros v (nid & -> & _)%list_elem_of_fmap|]. by_compute. Qed.

Lemma unanimous_round_confirms_witness :
  let p := sz_node (chain_with 3) in
  foldl (λ p v, Szhbft.handleInterSZoneVote v p) p (votes 0) = confirmed 1 0 p
  ∧ foldl (λ p v, Szhbft.handleInterSZoneVote v p) (foldl (λ p v, Szhbft.handleInterSZoneVote v p) p (votes 0)) (votes 1)
    = confirmed 1 0 (confirmed 1 0 p).
Proof.
  apply (unanimous_round_confirms (sz_node (chain_with 3)) 1 0 (votes 0) (votes 1));
    [apply votes_ballot|apply votes_ballot|by_compute|by_compute|reflexivity|reflexivity|reflexivity].
Defined.

Lemma handled_race p0 vs p ws :
  race p0 [] vs p → race p0 [] (vs ++ ws) (foldl (λ p v, Szhbft.handleInterSZoneVote v p) p ws).
Proof.
  revert vs p. induction ws as [|v ws IH]; intros vs p H; [by rewrite (right_id_L [] (++))|].
  rewrite cons_middle, (assoc_L (++)). simpl. apply IH. unfold Szhbft.handleInterSZoneVote.
  destruct (Szhbft.record_vote v p) as [[a t] p'] eqn:E.
  apply (race_settle p0 [] [] (vs ++ [v]) p' v a t). by apply (race_record p0 [] vs p v a t p').
Qed.
Definition the_confirm : InterSZoneConfirm :=
  mkSZConfirm (bc_CurrentBlock (chain_with 3)) 1 0 "IMMEDIATE_AGREED_SIG" (RunningNode (sz_node (chain_with 3))).

Lemma confirm_needs_votes_witness :
  2 * 1 + 1 ≤ Z.of_nat (size (agreeing 1 (votes 0))) ∧ 3 * 1 + 1 ≤ Z.of_nat (size (voters 1 (votes 0))).
Proof.
  apply (confirm_needs_votes (sz_node (chain_with 3))
    (foldl (λ p v, Szhbft.handleInterSZoneVote v p) (sz_node (chain_with 3)) (votes 0)) [] (votes 0) "n3" the_confirm).
  - by_compute.
  - by_compute.
  - reflexivity.
  - intros ip m. apply not_elem_of_nil.
  - apply (handled_race (sz_node (chain_with 3)) [] _ (votes 0)). apply race_start.
  - apply (list_elem_of_lookup_2 _ 0). vm_compute. reflexivity.
Defined.

Definition some_block : Block := mkBlock (mkBH "g" (trie_Hash trie_NewEmpty) (GetTxTreeRoot [pay "a0" "b0" 5]) "" 1 9 0) [pay "a0" "b0" 5] "h1".
Definition some_request : Request := mkRequest BlockRequest (enc some_block) 9.
Definition pooled_node : PbftNode SZHBFT := (sz_node (chain_with 3)) <| requestPool := {[ "d"%string := Some some_request ]} |>.

Lemma local_commit_extends_local_chain_witness :
  ∃ lc', HandleinCommit 9 (mkCommit "d" 1 (mkNode 1 0 "n1")) pooled_node
      = Ret (true, pooled_node <| pn_mod ::= λ s, s <| LocalChain := lc' |> |>)
    ∧ b_Body (bc_CurrentBlock lc') = [pay "a0" "b0" 5] ∧ bh_Number (b_Header (bc_CurrentBlock lc')) = 1
    ∧ bc_triedb lc' = bc_triedb (empty_chain 0).
Proof.
  destruct (local_commit_extends_local_chain pooled_node 9 (mkCommit "d" 1 (mkNode 1 0 "n1")) some_request some_block
    (λ _, Init_Balance)) as (lc' & H1 & H2 & H3 & _ & _ & _ & H4).
  - reflexivity.
  - vm_compute. reflexivity.
  - reflexivity.
  - each_elem; by_compute.
  - apply empty_chain_ledger.
  - each_elem; split; eexists; vm_compute; reflexivity.
  - by_compute.
  - exists lc'. split; [exact H1|]. split; [exact H2|]. split; [exact H3|]. apply H4. vm_compute. discriminate.
Defined.

End SzhbftProps.
