(* ===== verification/BrokerProps.v ===== *)
(** * The broker module: properties *)

From S2P Require Import Prelude Params Core Message External Storage Chain Ledger ChainLemmas MerkleProof.
From S2P Require Import Pbft PbftSteps PbftProps BlockOps Broker Relay RelayProps.
Import Broker.

Section lemmas.
Context {PA : Params} {EX : External}.

(** The three classes of a classifier partition a body. *)
Lemma classifier_partition (c : Transaction → broker_class) body :
  let having k := filter (λ tx, c tx = k) body in
  having InnerShardTx ++ having Broker1Tx ++ having Broker2Tx ≡ₚ body.
Proof.
  cbn zeta. induction body as [|tx body IH]; [done|]. rewrite !filter_cons.
  destruct (c tx); repeat (rewrite decide_True by done || rewrite decide_False by discriminate); simpl.
  - by rewrite IH.
  - rewrite <- Permutation_middle. by rewrite IH.
  - rewrite (assoc_L (++)), <- Permutation_middle, <- (assoc_L (++)). by rewrite IH.
Qed.
Lemma classes_partition body :
  of_class InnerShardTx body ++ of_class Broker1Tx body ++ of_class Broker2Tx body ≡ₚ body.
Proof. exact (classifier_partition classify body). Qed.

Lemma classify_spec tx :
  match classify tx with
  | InnerShardTx => tx_RawTxHash tx = None
      ∨ (tx_Sender tx ≠ tx_OriginalSender tx ∧ tx_Recipient tx ≠ tx_FinalRecipient tx)
  | Broker1Tx => tx_RawTxHash tx ≠ None ∧ tx_Sender tx = tx_OriginalSender tx
      ∧ tx_Recipient tx ≠ tx_FinalRecipient tx
  | Broker2Tx => tx_RawTxHash tx ≠ None ∧ tx_Recipient tx = tx_FinalRecipient tx
  end.
Proof.
  unfold classify. destruct (tx_RawTxHash tx); simpl; [|by left].
  destruct (String.eqb_spec (tx_Recipient tx) (tx_FinalRecipient tx)); [done|].
  destruct (String.eqb_spec (tx_Sender tx) (tx_OriginalSender tx)); [done|]. by right.
Qed.

Lemma send_seqid_ok {M} (p : PbftNode M) :
  send_seqid p = p <| out ::= λ o, o ++ ((λ sid, (ip_of sid 0 p,
    MSeqIDinfo (mkSeqIDinfo (pn_ShardID p) (sequenceID p)))) <$> other_shards p) |>.
Proof.
  apply (foldl_dial (λ p _, MSeqIDinfo (mkSeqIDinfo (pn_ShardID p) (sequenceID p)))
           (λ p sid, ip_of sid 0 p)). done.
Qed.

(** A complete answer has the wrong length for this module. *)
Lemma answer_ignored som (p : PbftNode broker_module) :
  so_SeqStartHeight som ≤ so_SeqEndHeight som < 2 ^ 63 → 0 ≤ so_SeqStartHeight som →
  so_OldRequest som ≠ [] → HandleforSequentialRequest som p = Ret (true, p).
Proof.
  intros Hr H0 Hne. unfold HandleforSequentialRequest. rewrite i64_id by (unfold is_i64; lia).
  destruct (Z.eqb_spec (so_SeqStartHeight som - so_SeqEndHeight som) (len (so_OldRequest som))) as [E|]; [|done].
  destruct (so_OldRequest som) as [|r rs]; [done|]. rewrite len_cons in E. pose proof (len_nonneg rs). lia.
Qed.

End lemmas.

Module BrokerProps.
Section props.
Context {PA : Params} {EX : External}.

(** A leader of the broker mechanism that commits a block tells every other
    shard its sequence number and reports the block to the supervisor in three
    classes that partition it: a second half goes to its final recipient, a first
    half comes from the original sender, and what was never split is neither. *)
Theorem broker_commit_reports (p : PbftNode broker_module) now cmsg r block :
  is_leader p = true → requestPool p !! c_Digest cmsg = Some (Some r) →
  dec (r_Content r) = Some block → returns (AddBlock block (CurChain p)) →
  pool_locked (bc_Txpool (CurChain p)) = false →
  let b := b_Body block in
  ∃ p', HandleinCommit now cmsg p = Ret (true, p')
    ∧ out p' = out p
        ++ ((λ sid, (ip_of sid 0 p, MSeqIDinfo (mkSeqIDinfo (pn_ShardID p) (sequenceID p)))) <$> other_shards p)
        ++ [(ip_of SupervisorShard 0 p, MBlockInfo (mkBlockInfo (len b) (of_class InnerShardTx b) 0
               (r_ReqTime r) now (pn_ShardID p) [] [] (of_class Broker1Tx b) (of_class Broker2Tx b)))]
    ∧ of_class InnerShardTx b ++ of_class Broker1Tx b ++ of_class Broker2Tx b ≡ₚ b
    ∧ (∀ tx, tx ∈ of_class Broker2Tx b ↔
         tx ∈ b ∧ tx_RawTxHash tx ≠ None ∧ tx_Recipient tx = tx_FinalRecipient tx)
    ∧ (∀ tx, tx ∈ of_class Broker1Tx b ↔
         tx ∈ b ∧ tx_RawTxHash tx ≠ None ∧ tx_Sender tx = tx_OriginalSender tx
         ∧ tx_Recipient tx ≠ tx_FinalRecipient tx).
Proof.
  intros Hl Hr Hd [bc1 Ha] Hk b. unfold HandleinCommit, pooled, DecodeB. rewrite Hr. cbn [mjoin option_join deref].
  unfold deref. go_step. rewrite Hd. go_step. unfold add_block. rewrite Ha. go_step.
  set (p1 := p <| CurChain := bc1 |>). assert (is_leader p1 = true) as -> by exact Hl.
  rewrite send_seqid_ok. destruct (AddBlock_keeps _ _ _ Ha) as [_ Et].
  match goal with |- context [csv_lock ?q] => destruct (csv_lock_ok q) as (p2 & -> & Ho & _) end.
  { change (pool_locked (bc_Txpool bc1) = false). by rewrite Et. }
  go_step. exists p2. split; [done|]. split; [|split; [apply classes_partition|split]].
  - rewrite Ho. unfold send_report. cbn [out TcpDial set_field]. by rewrite <- (assoc_L (++)).
  - intros tx. unfold of_class. rewrite list_elem_of_filter. pose proof (classify_spec tx).
    destruct (classify tx); naive_solver.
  - intros tx. unfold of_class. rewrite list_elem_of_filter. pose proof (classify_spec tx).
    destruct (classify tx); naive_solver.
Qed.

(** C40. A node of the broker mechanism never catches up: it ignores every complete
    answer to its request for old blocks (its length test subtracts the wrong way
    round), yet moves to the sequence number after the answer, so its chain stays
    behind for good. *)
Theorem broker_never_catches_up (p p' : PbftNode broker_module) som :
  0 ≤ so_SeqStartHeight som → so_SeqStartHeight som ≤ so_SeqEndHeight som < 2 ^ 63 - 1 →
  len (so_OldRequest som) = so_SeqEndHeight som - so_SeqStartHeight som + 1 →
  HandleforSequentialRequest som p = Ret (true, p)
  ∧ (handleSendOldSeq som p = Ret p' →
     CurChain p' = CurChain p ∧ sequenceID p' = so_SeqEndHeight som + 1).
Proof.
  intros H0 Hr Hlen. assert (so_OldRequest som ≠ []) as Hne.
  { intros E. rewrite E, len_nil in Hlen. lia. }
  assert (HandleforSequentialRequest som p = Ret (true, p)) as E by (apply answer_ignored; [lia|lia|done]).
  split; [exact E|]. intros H. destruct (handleSendOldSeq_chain som p p' (CurChain p)) as [H1 H2]; [| |exact H|].
  - intros m q b q' Hc. by apply (check_block_chain m q b q').
  - intros b q Hq. pose proof (eq_trans (eq_sym Hq) E) as Eq. by injection Eq as _ ->.
  - split; [exact H1|]. rewrite H2. apply u64_id. unfold is_u64. lia.
Qed.

End props.

(** *** Witnesses *)

Import LedgerProps RelayProps.
#[local] Existing Instances RefExternal.ext RefExternal.ext_ok params4.

(** A block of a plain payment and the two halves of one through the broker "c0". *)
Definition broker_block : Block :=
  let half s r := (pay s r 7) <| tx_RawTxHash := Some "raw"%string |> <| tx_HasBroker := true |>
                    <| tx_OriginalSender := "a0" |> <| tx_FinalRecipient := "b1" |> in
  next_block 1 "g" "h1" [pay "a0" "b0" 5; half "a0" "c0"; half "c0" "b1"].
Definition broker_leader : PbftNode broker_module :=
  node_with RawBroker 0 {[ "d1"%string := Some (req_of broker_block) ]}.

Lemma broker_commit_reports_witness :
  let p := broker_leader in let b := b_Body broker_block in
  ∃ p', HandleinCommit 20 com1 p = Ret (true, p')
    ∧ out p' = out p
        ++ ((λ sid, (ip_of sid 0 p, MSeqIDinfo (mkSeqIDinfo (pn_ShardID p) (sequenceID p)))) <$> other_shards p)
        ++ [(ip_of SupervisorShard 0 p, MBlockInfo (mkBlockInfo (len b) (of_class InnerShardTx b) 0
               9 20 (pn_ShardID p) [] [] (of_class Broker1Tx b) (of_class Broker2Tx b)))]
    ∧ of_class InnerShardTx b ++ of_class Broker1Tx b ++ of_class Broker2Tx b ≡ₚ b
    ∧ (∀ tx, tx ∈ of_class Broker2Tx b ↔
         tx ∈ b ∧ tx_RawTxHash tx ≠ None ∧ tx_Recipient tx = tx_FinalRecipient tx)
    ∧ (∀ tx, tx ∈ of_class Broker1Tx b ↔
         tx ∈ b ∧ tx_RawTxHash tx ≠ None ∧ tx_Sender tx = tx_OriginalSender tx
         ∧ tx_Recipient tx ≠ tx_FinalRecipient tx).
Proof.
  intros p b. apply (broker_commit_reports p 20 com1 (req_of broker_block) broker_block).
  - reflexivity.
  - apply lookup_singleton_eq.
  - apply ok_gob_b. by_compute.
  - apply is_Ret_returns. vm_compute. reflexivity.
  - reflexivity.
Defined.

(** A follower that has asked for blocks 1 and 2, and the complete answer. *)
Definition behind : PbftNode broker_module := (node_with RawBroker 1 ∅) <| askForLock := true |>.
Definition answer : SendOldMessage :=
  mkSendOld 1 2 [Some (req_of block1); Some (req_of block2)] (mkNode 0 0 "n0").

Lemma broker_never_catches_up_witness :
  HandleforSequentialRequest answer behind = Ret (true, behind)
  ∧ (handleSendOldSeq answer behind = Ret (ret_or behind (handleSendOldSeq answer behind)) →
     CurChain (ret_or behind (handleSendOldSeq answer behind)) = CurChain behind
     ∧ sequenceID (ret_or behind (handleSendOldSeq answer behind)) = 3).
Proof.
  apply (broker_never_catches_up behind (ret_or behind (handleSendOldSeq answer behind)) answer).
  - vm_compute. discriminate.
  - vm_compute. split; [discriminate|reflexivity].
  - reflexivity.
Defined.

End BrokerProps.
