(* ===== verification/ClpaProps.v ===== *)
(** * The CLPA module: properties

    Re-sharding moves accounts with their balances and the queued transactions that
    follow them, and loses neither. *)

From S2P Require Import Prelude Params Core Message External Storage Chain Ledger ChainLemmas MerkleProof.
From S2P Require Import Pbft PbftSteps PbftProps BlockOps Relay Clpa RelayProps.
Import Clpa.

Section lemmas.
Context {PA : Params} {EX : External} {EXO : ExternalOk}.

(** ** Balances that are fetched *)

Lemma FetchAccounts_balances bc l ac :
  has_ledger bc l →
  ∃ as_, FetchAccounts ac bc = Ret as_ ∧ Forall2 (λ a s, as_Balance s = l a) ac as_.
Proof.
  intros (t & Ht & Hwf & Hb). unfold FetchAccounts. rewrite Ht. go_step.
  destruct (go_collect (load_account t 0) (λ a s, as_Balance s = l a) [] ac) as (as_ & E & Hall); [|by exists as_].
  intros a _. unfold load_account. pose proof (Hb a) as Ha. unfold bal in Ha.
  destruct (trie_Get t a) as [e|] eqn:E.
  - destruct (Hwf a e E) as [s ->]. rewrite dec_enc in Ha. exists s.
    unfold DecodeAS. by rewrite dec_enc.
  - eexists. split; [done|]. by rewrite <- Ha.
Qed.

(** ** The accounts that leave *)

Definition is_leaving (m : gmap string Z) (bc : BlockChain) (shard : Z) (kv : string * Z) : bool :=
  negb (kv.2 =? shard) && match Get_PartitionMap bc kv.1 with Ret s => s =? shard | _ => false end.

Lemma leaving_ok m (p : PbftNode Data_supportCLPA) :
  (∀ k, k ∈ dom m → returns (Get_PartitionMap (CurChain p) k)) →
  leaving m p
  = Ret (filter (λ kv, is_leaving m (CurChain p) (pn_ShardID p) kv = true) (map_to_list m)).*1.
Proof.
  intros Hr. unfold leaving.
  assert (∀ kvs acc, (∀ kv, kv ∈ kvs → returns (Get_PartitionMap (CurChain p) kv.1)) →
    go_fold (λ acc '(key, val), if val =? pn_ShardID p then Ret acc
      else s ← Get_PartitionMap (CurChain p) key;
           if s =? pn_ShardID p then Ret (acc ++ [key]) else Ret acc) acc kvs
    = Ret (acc ++ (filter (λ kv, is_leaving m (CurChain p) (pn_ShardID p) kv = true) kvs).*1)) as Hgen.
  { induction kvs as [|[k v] kvs IH]; intros acc Hk; cbn [go_fold]; [by rewrite filter_nil, app_nil_r|].
    assert (∀ kv, kv ∈ kvs → returns (Get_PartitionMap (CurChain p) kv.1)) as Hk' by (intros; apply Hk; by right).
    destruct (Hk (k, v)) as [s E]; [by left|]. simpl in E. rewrite E. go_step.
    assert (is_leaving m (CurChain p) (pn_ShardID p) (k, v)
            = negb (v =? pn_ShardID p) && (s =? pn_ShardID p)) as Hl by (unfold is_leaving; simpl; by rewrite E).
    rewrite filter_cons. destruct (v =? pn_ShardID p); [|destruct (s =? pn_ShardID p)];
      (rewrite decide_False by (by rewrite Hl)) || (rewrite decide_True by done); go_step; rewrite IH by done;
      [done| |done]. cbn. by rewrite <- (assoc_L (++)). }
  rewrite Hgen; [done|]. intros [k v] Hkv%elem_of_map_to_list. apply Hr, elem_of_dom. by exists v.
Qed.

Lemma leaving_elem m bc shard a :
  a ∈ (filter (λ kv, is_leaving m bc shard kv = true) (map_to_list m)).*1
  ↔ ∃ s, m !! a = Some s ∧ s ≠ shard ∧ Get_PartitionMap bc a = Ret shard.
Proof.
  rewrite list_elem_of_fmap. split.
  - intros ([k v] & -> & [Hl Hin%elem_of_map_to_list]%list_elem_of_filter). exists v.
    apply andb_prop in Hl as [Hv%negb_true_iff%Z.eqb_neq Hg]. simpl in *. split; [done|]. split; [done|].
    destruct (Get_PartitionMap bc k); [|done..]. by apply Z.eqb_eq in Hg as ->.
  - intros (s & Hs & Hne & Hg). exists (a, s). split; [done|].
    apply list_elem_of_filter. split; [|by apply elem_of_map_to_list].
    unfold is_leaving. simpl. rewrite Hg, Z.eqb_refl. by rewrite (proj2 (Z.eqb_neq _ _)).
Qed.

(** ** The transactions that follow them *)

(** The account a transaction waits for. *)
Definition owner (tx : Transaction) : Address := if tx_Relayed tx then tx_Recipient tx else tx_Sender tx.

Lemma follows_owner A tx : follows A tx = bool_decide (owner tx ∈ A).
Proof. unfold follows, owner. destruct (tx_Relayed tx); simpl; by rewrite ?andb_false_r, ?andb_true_r, ?orb_false_r. Qed.

(** Where a queued transaction goes when the accounts [L] move as [m] says. *)
Definition target (m : gmap string Z) (L : list Address) (tx : Transaction) : option Z :=
  if decide (owner tx ∈ L) then Some (shard_to m (owner tx)) else None.

Lemma filter_zip_fst {A B} (P : A → Prop) `{∀ x, Decision (P x)} (l : list A) (k : list B) :
  length l = length k → (filter (λ x : A * B, P x.1) (zip l k)).*1 = filter P l.
Proof.
  revert k. induction l as [|a l IH]; intros [|b k]; simpl; try done. intros [= Hk].
  rewrite !filter_cons. simpl. destruct (decide (P a)); csimpl; by rewrite IH.
Qed.

Lemma follows_target m L i tx :
  follows (filter (λ a, shard_to m a = i) L) tx = bool_decide (target m L tx = Some i).
Proof.
  rewrite follows_owner. apply bool_decide_ext. rewrite list_elem_of_filter. unfold target.
  destruct (decide (owner tx ∈ L)); naive_solver.
Qed.

(** The message for shard [i]. *)
Definition transfer_msg (m : gmap string Z) (shard : Z) (fetched : list (Address * AccountState))
    (q : list Transaction) (i : Z) : AccountStateAndTx :=
  let sel := filter (λ x : Address * AccountState, shard_to m x.1 = i) fetched in
  mkAST sel.*1 sel.*2 (filter (λ tx, target m fetched.*1 tx = Some i) q) shard.

Lemma transfer_to_ok m shard i L S q :
  length L = length S →
  transfer_to m shard i (zip L S) q
  = (transfer_msg m shard (zip L S) q i, filter (λ tx, target m L tx ≠ Some i) q).
Proof.
  intros Hlen. unfold transfer_to, transfer_msg.
  pose proof (filter_zip_fst (λ a, shard_to m a = i) L S Hlen) as E. cbn beta in E.
  rewrite E, fst_zip by lia.
  f_equal; [f_equal|]; apply list_filter_iff; intros tx; rewrite follows_target.
  - apply bool_decide_eq_true.
  - apply bool_decide_eq_false.
Qed.

(** The queue after the messages for the shards [l]. *)
Definition stays (m : gmap string Z) (L : list Address) (l : list Z) (q : list Transaction) : list Transaction :=
  filter (λ tx, target m L tx ∉ Some <$> l) q.

Definition set_queue (q : list Transaction) (p : PbftNode Data_supportCLPA) : PbftNode Data_supportCLPA :=
  p <| CurChain ::= λ bc, bc <| bc_Txpool ::= λ pool, pool <| TxQueue := q |> |> |>.

Lemma set_queue_same (p : PbftNode Data_supportCLPA) :
  p = set_queue (TxQueue (bc_Txpool (CurChain p))) p <| out ::= λ o, o ++ [] |>.
Proof.
  destruct p as [? ? ? bc]. destruct bc as [? ? ? ? pool]. destruct pool. cbv -[app]. by rewrite app_nil_r.
Qed.
Lemma set_queue_twice X Y ip msg l (p : PbftNode Data_supportCLPA) :
  set_queue X (TcpDial msg ip (set_queue Y p)) <| out ::= λ o, o ++ l |>
  = set_queue X p <| out ::= λ o, o ++ ((ip, msg) :: l) |>.
Proof.
  destruct p as [? ? ? bc]. destruct bc as [? ? ? ? pool]. destruct pool. cbv -[app].
  by rewrite <- (assoc_L (++)).
Qed.

Lemma transfer_loop m L S l (p : PbftNode Data_supportCLPA) :
  length L = length S → NoDup l →
  let q := TxQueue (bc_Txpool (CurChain p)) in
  foldl (send_transfer m (zip L S)) p l
  = set_queue (stays m L l q) p
      <| out ::= λ o, o ++ ((λ i, (ip_of i 0 p,
           MAccountStateAndTx (transfer_msg m (pn_ShardID p) (zip L S) q i))) <$> l) |>.
Proof.
  intros Hlen Hl. revert p. induction Hl as [|i l Hi Hl IH]; intros p q; simpl.
  { unfold stays. rewrite filter_all by (intros; apply not_elem_of_nil).
    apply set_queue_same. }
  unfold send_transfer at 2. fold q. rewrite transfer_to_ok by done. rewrite IH.
  set (p1 := TcpDial _ _ _). set (q1 := TxQueue (bc_Txpool (CurChain p1))).
  assert (q1 = filter (λ tx, target m L tx ≠ Some i) q) as Hq1 by done.
  assert (stays m L l q1 = stays m L (i :: l) q) as ->.
  { unfold stays. rewrite Hq1, list_filter_filter. apply list_filter_iff. intros tx.
    rewrite fmap_cons, not_elem_of_cons. tauto. }
  assert (((λ j, (ip_of j 0 p1, MAccountStateAndTx (transfer_msg m (pn_ShardID p1) (zip L S) q1 j))) <$> l)
    = ((λ j, (ip_of j 0 p, MAccountStateAndTx (transfer_msg m (pn_ShardID p) (zip L S) q j))) <$> l)) as ->.
  { apply list_fmap_ext. intros _ j Hj%list_elem_of_lookup_2. change (ip_of j 0 p1) with (ip_of j 0 p).
    change (pn_ShardID p1) with (pn_ShardID p). do 2 f_equal. unfold transfer_msg. f_equal.
    rewrite Hq1, list_filter_filter, fst_zip by lia. apply list_filter_iff. intros tx.
    split; [intros [E _]; exact E|]. intros E. split; [exact E|]. rewrite E. intros [= Eji].
    apply Hi. rewrite <- Eji. exact Hj. }
  apply set_queue_twice.
Qed.

(** Every transaction of a queue goes to one target or stays. *)
Lemma bind_targets {A} (f : A → option Z) (l : list Z) (body : list A) :
  NoDup l →
  (l ≫= λ i, filter (λ x, f x = Some i) body) ++ filter (λ x, f x ∉ Some <$> l) body ≡ₚ body.
Proof.
  induction 1 as [|i l Hi Hl IH]; csimpl.
  { rewrite filter_all; [done|]. intros x _. apply not_elem_of_nil. }
  rewrite <- IH at 3. clear IH. rewrite (Permutation_app_comm (filter _ body)), <- (assoc_L (++)).
  apply Permutation_app_head. induction body as [|x body IH]; [done|]. rewrite !filter_cons.
  destruct (decide (f x = Some i)) as [E|E].
  - rewrite decide_False by (rewrite E; intros H; apply H; left).
    rewrite decide_True; [by rewrite <- IH|]. rewrite E. intros Hin.
    apply list_elem_of_fmap in Hin as (j & [= ->] & Hj). done.
  - destruct (decide (f x ∉ Some <$> l)) as [Hn|Hn].
    + rewrite decide_True by (rewrite not_elem_of_cons; done). rewrite <- Permutation_middle. by rewrite <- IH.
    + rewrite decide_False by (rewrite not_elem_of_cons; tauto). done.
Qed.

Lemma NoDup_leaving m bc shard :
  NoDup (filter (λ kv, is_leaving m bc shard kv = true) (map_to_list m)).*1.
Proof.
  eapply sublist_NoDup; [apply (NoDup_fst_map_to_list m)|]. apply fmap_sublist, sublist_filter.
Qed.

(** What the message for one shard holds. *)
Lemma transfer_msg_ok m shard L S q i l (bal : Address → Z) :
  NoDup L → (∀ a, a ∈ L → is_Some (m !! a)) → Forall2 (λ a s, as_Balance s = bal a) L S → l = zip L S →
  let msg := transfer_msg m shard l q i in
  ast_FromShard msg = shard ∧ NoDup (ast_Addrs msg)
  ∧ (∀ a, a ∈ ast_Addrs msg ↔ a ∈ L ∧ m !! a = Some i)
  ∧ Forall2 (λ a s, as_Balance s = bal a) (ast_Addrs msg) (ast_AccountState msg)
  ∧ (∀ tx, tx ∈ ast_Txs msg → check_tx i m tx = true).
Proof.
  intros Hnd Hm Hall -> msg. assert (length L = length S) as Hlen by (by eapply Forall2_length).
  assert (ast_Addrs msg = filter (λ a, shard_to m a = i) L) as E.
  { unfold msg, transfer_msg. cbn [ast_Addrs]. exact (filter_zip_fst (λ a, shard_to m a = i) L S Hlen). }
  split; [done|]. split; [rewrite E; by apply NoDup_filter|]. split; [|split].
  - intros a. rewrite E. rewrite list_elem_of_filter. unfold shard_to. split.
    + intros [Hs Ha]. destruct (Hm a Ha) as [s Hs']. rewrite Hs' in *. simpl in Hs. by subst s.
    + intros [Ha Hs]. by rewrite Hs.
  - unfold msg, transfer_msg. cbn [ast_Addrs ast_AccountState]. clear Hm Hnd Hlen msg E.
    induction Hall as [|a s L S Has _ IH]; [constructor|]. simpl zip. rewrite filter_cons.
    case_decide; csimpl; [by constructor|done].
  - intros tx. unfold msg, transfer_msg. cbn [ast_Txs]. rewrite fst_zip by lia.
    intros [Ht _]%list_elem_of_filter. unfold target, owner, check_tx in *.
    destruct (decide _) in Ht; [|done]. injection Ht as <-. destruct (tx_Relayed tx); apply Z.eqb_refl.
Qed.

(** ** The receiving side *)

(** The record after the messages [ats] were collected. *)
Definition collected (d : Data_supportCLPA) (ats : list AccountStateAndTx) : Data_supportCLPA :=
  d <| ReceivedNewAccountState := foldl (λ r a, foldl (λ r x, <[x.1 := x.2]> r) r
         (zip (ast_Addrs a) (ast_AccountState a))) (ReceivedNewAccountState d) ats |>
    <| ReceivedNewTx := ReceivedNewTx d ++ (ats ≫= ast_Txs) |>.

Lemma collect_ok d ats :
  (∀ a, a ∈ ats → length (ast_Addrs a) = length (ast_AccountState a)) →
  go_fold collect d ats = Ret (collected d ats).
Proof.
  revert d. induction ats as [|a ats IH]; intros d Hlen; cbn [go_fold].
  { unfold collected, set_field. destruct d; cbn. by rewrite app_nil_r. }
  assert (∃ d', collect d a = Ret d' ∧ collected d (a :: ats) = collected d' ats) as (d' & -> & ->).
  { unfold collect. rewrite (Hlen a) by (by left). rewrite Nat.ltb_irrefl. eexists. split; [done|].
    unfold collected, set_field. destruct d; cbn. by rewrite <- (assoc_L (++)). }
  go_step. apply IH. intros. apply Hlen. by right.
Qed.

Lemma check_loop {A} (f : go A) (g : A → Transaction → bool) m txs u :
  f = Ret m → (∀ tx, tx ∈ txs → g m tx = true) →
  go_fold (λ _ tx, m ← f; if g m tx then Ret () else Panic "error tx") u txs = Ret ().
Proof.
  intros -> Hall. go_step. revert u. induction txs as [|tx txs IH]; intros []; cbn [go_fold]; [done|].
  rewrite (Hall tx) by (by left). go_step. apply IH. intros. apply Hall. by right.
Qed.

(** ** The transfer *)

Lemma update_maps l bc :
  foldl (λ bc '(key, val), Update_PartitionMap key val bc) bc l
  = bc <| bc_PartitionMap := foldl (λ M '(key, val), <[key := val]> M) (bc_PartitionMap bc) l |>.
Proof.
  revert bc. induction l as [|[k v] l IH]; intros bc; cbn [foldl].
  - unfold set_field. by destruct bc.
  - rewrite IH. unfold Update_PartitionMap, set_field. by destruct bc.
Qed.

Lemma insert_all (l : list (string * Z)) (M : gmap string Z) :
  NoDup l.*1 → foldl (λ M '(key, val), <[key := val]> M) M l = list_to_map l ∪ M.
Proof.
  revert M. induction l as [|[k v] l IH]; intros M; csimpl; [by rewrite (left_id_L ∅ (∪))|].
  intros [Hk Hl]%NoDup_cons. rewrite IH by done. apply map_eq. intros a.
  rewrite !lookup_union. destruct (decide (k = a)) as [->|Hne].
  - rewrite !lookup_insert_eq. rewrite (not_elem_of_list_to_map_1 l a Hk). by destruct (M !! a).
  - by rewrite !lookup_insert_ne.
Qed.

Lemma update_all (m : gmap string Z) bc :
  foldl (λ bc '(key, val), Update_PartitionMap key val bc) bc (map_to_list m)
  = bc <| bc_PartitionMap := m ∪ bc_PartitionMap bc |>.
Proof.
  rewrite update_maps, insert_all by apply NoDup_fst_map_to_list. by rewrite list_to_map_to_list.
Qed.

Lemma AddAccounts_maps ac as_ bc bc' :
  AddAccounts ac as_ bc = Ret bc' →
  bc_PartitionMap bc' = bc_PartitionMap bc ∧ bc_Txpool bc' = bc_Txpool bc.
Proof.
  unfold AddAccounts. intros ([rt bc1] & H & (bh & _ & (s & _ & [= <-])%bind_Ret)%bind_Ret)%bind_Ret.
  destruct (len ac =? 0); [by injection H as _ <-|].
  apply bind_Ret in H as (st & _ & (st2 & _ & H)%bind_Ret). destruct (trie_Commit st2) as [rrt [n|]].
  - by apply bind_Ret in H as (d1 & _ & (d2 & _ & [= _ <-])%bind_Ret).
  - by injection H as _ <-.
Qed.

(** Fetched states carry the balances of the ledger. *)
Lemma fetched_ledger bc l ac as_ :
  has_ledger bc l → FetchAccounts ac bc = Ret as_ → Forall2 (λ a s, as_Balance s = l a) ac as_.
Proof. intros Hl E. destruct (FetchAccounts_balances bc l ac Hl) as (as' & E' & H). rewrite E in E'. by injection E' as ->. Qed.

End lemmas.

Module ClpaProps.
Section props.
Context {PA : Params} {EX : External} {EXO : ExternalOk}.


(** Re-sharding, the receiving side: when the collected messages hold as many
    states as addresses and transactions that belong here under the map of the
    round, the leader's proposal carries that map and every received account, and
    the received transactions join the end of its queue. *)
Theorem proposePartition_takes_all (p : PbftNode Data_supportCLPA) (now : Time) (m : gmap string Z) :
  let d := pn_mod p in
  let ats := (map_to_list (AccountStateTx d)).*2 in
  0 ≤ AccountTransferRound d → ModifiedMap d !! Z.to_nat (AccountTransferRound d) = Some m →
  ReceivedNewTx d = [] → ReceivedNewAccountState d = ∅ →
  pool_locked (bc_Txpool (CurChain p)) = false →
  (∀ a, a ∈ ats → length (ast_Addrs a) = length (ast_AccountState a)) →
  (∀ a tx, a ∈ ats → tx ∈ ast_Txs a → check_tx (pn_ShardID p) m tx = true) →
  ∃ p' r atm, proposePartition now p = Ret (true, Some r, p')
    ∧ r_RequestType r = PartitionReq ∧ dec (r_Content r) = Some atm
    ∧ at_ModifiedMap atm = m ∧ at_ATid atm = u64 (len (ModifiedMap d))
    ∧ list_to_map (zip (at_Addrs atm) (at_AccountState atm))
        = ReceivedNewAccountState (collected d ats)
    ∧ TxQueue (bc_Txpool (CurChain p'))
        = TxQueue (bc_Txpool (CurChain p)) ++ (stamp now <$> (ats ≫= ast_Txs)).
Proof.
  intros d ats Hround Hm Htx Has Hk Hlen Hck. unfold proposePartition. fold d. fold ats.
  rewrite (collect_ok d ats Hlen). go_step.
  assert (map_at (AccountTransferRound (collected d ats)) (collected d ats) = Ret m) as Ema.
  { unfold map_at. change (AccountTransferRound (collected d ats)) with (AccountTransferRound d).
    change (ModifiedMap (collected d ats)) with (ModifiedMap d).
    rewrite (proj2 (Z.ltb_ge _ _)) by lia. by rewrite Hm. }
  assert (ReceivedNewTx (collected d ats) = ats ≫= ast_Txs) as Etx.
  { change (ReceivedNewTx d ++ (ats ≫= ast_Txs) = ats ≫= ast_Txs). by rewrite Htx. }
  rewrite (check_loop _ (check_tx (pn_ShardID p)) m _ () Ema).
  2:{ rewrite Etx. intros tx (a & Ha & Hin)%list_elem_of_bind. by eapply Hck. }
  go_step. unfold propose_received. rewrite add_to_pool_ok by exact Hk. go_step. rewrite Ema. go_step.
  eexists _, _, _. split; [reflexivity|]. split; [reflexivity|]. split; [apply dec_enc|].
  split; [reflexivity|]. split; [reflexivity|]. split.
  - cbn [at_Addrs at_AccountState]. rewrite zip_fst_snd. apply list_to_map_to_list.
  - by rewrite <- Etx.
Qed.


End props.

(** *** Witnesses: "a0" moves from shard 0 to shard 1, "b1" the other way *)

Import LedgerProps PbftProps RelayProps.
#[local] Existing Instances RefExternal.ext RefExternal.ext_ok params4.

Definition moves : gmap string Z := {[ "a0"%string := 1; "b1"%string := 0 ]}.
Definition cdm0 : Data_supportCLPA := NewCLPADataSupport <| ModifiedMap := [moves] |> <| PartitionOn := true |>.
Definition source : PbftNode Data_supportCLPA :=
  set_queue [pay "a0" "b0" 5; pay "b0" "a0" 6; mark (pay "b1" "a0" 7)] (node_with cdm0 0 ∅).


(** Shard 1 with the message of shard 0. *)
Definition received : AccountStateAndTx :=
  mkAST ["a0"%string] [mkAS "" 3 77 "" ""] [pay "a0" "b0" 5; mark (pay "b1" "a0" 7)] 0.
Definition target1 : PbftNode Data_supportCLPA :=
  NewPbftNode 1 0 (cc 1) 9 table4 (empty_chain 1) (cdm0 <| AccountStateTx := {[ 0 := received ]} |>).

Lemma proposePartition_takes_all_witness :
  ∃ p' r atm, proposePartition 20 target1 = Ret (true, Some r, p')
    ∧ r_RequestType r = PartitionReq ∧ dec (r_Content r) = Some atm
    ∧ at_ModifiedMap atm = moves ∧ at_ATid atm = 1
    ∧ list_to_map (zip (at_Addrs atm) (at_AccountState atm))
        = ReceivedNewAccountState (collected (pn_mod target1) [received])
    ∧ TxQueue (bc_Txpool (CurChain p')) = [] ++ (stamp 20 <$> ([received] ≫= ast_Txs)).
Proof.
  apply (proposePartition_takes_all target1 20 moves).
  - reflexivity.
  - reflexivity.
  - reflexivity.
  - reflexivity.
  - reflexivity.
  - intros a Ha. assert (a ∈ [received]) as ->%list_elem_of_singleton by exact Ha. reflexivity.
  - intros a tx Ha. assert (a ∈ [received]) as ->%list_elem_of_singleton by exact Ha.
    revert tx. each_elem; reflexivity.
Defined.

Definition transfer1 : AccountTransferMsg := mkATM moves ["a0"%string] [mkAS "" 3 77 "" ""] 1.


End ClpaProps.
