(* ===== verification/ClpaBrokerProps.v ===== *)
(** * The CLPA-broker module: properties

    A queued transaction must wait in the shard that holds its [owners].  Re-sharding
    sends it after its only owner, or back to the supervisor when it has two and one
    leaves; so that, under the new map, whatever is queued can be executed. *)

From S2P Require Import Prelude Params Core Message External Storage Chain Ledger ChainLemmas MerkleProof.
From S2P Require Import Pbft PbftSteps PbftProps BlockOps Broker Clpa ClpaBroker Relay RelayProps BrokerProps ClpaProps.
Import ClpaBroker.
#[local] Existing Instance Broker.broker_class_eq_dec.

(** The accounts whose balances a transaction needs where it is queued. *)
Definition owners (tx : Transaction) : list Address :=
  match tx_RawTxHash tx with
  | None =>
      if tx_HasBroker tx then (if tx_SenderIsBroker tx then [tx_Recipient tx] else [tx_Sender tx])
      else [tx_Sender tx; tx_Recipient tx]
  | Some _ =>
      if String.eqb (tx_FinalRecipient tx) (tx_Recipient tx) then [tx_Recipient tx]
      else if String.eqb (tx_OriginalSender tx) (tx_Sender tx) then [tx_Sender tx] else []
  end.

(** The shard holds all its owners. *)
Definition placed {PA : Params} {EX : External} (bc : BlockChain) (shard : Z) (tx : Transaction) : Prop :=
  ∀ a, a ∈ owners tx → Get_PartitionMap bc a = Ret shard.

#[local] Instance go_eq_dec {A} `{EqDecision A} : EqDecision (go A).
Proof. solve_decision. Defined.
#[local] Instance placed_dec {PA : Params} {EX : External} bc shard tx : Decision (placed bc shard tx).
Proof.
  destruct (decide (Forall (λ a, Get_PartitionMap bc a = Ret shard) (owners tx))) as [H|H];
    [left; exact (proj1 (Forall_forall _ _) H)|right; intros Hp; apply H; exact (proj2 (Forall_forall _ _) Hp)].
Defined.

(** A transaction of the kinds the supervisor sends: whole, or one half of a split. *)
Definition well_formed (tx : Transaction) : Prop :=
  match tx_RawTxHash tx with
  | None => tx_Sender tx ≠ tx_OriginalSender tx ∧ tx_Recipient tx ≠ tx_FinalRecipient tx
  | Some _ => tx_Sender tx = tx_OriginalSender tx ↔ tx_Recipient tx ≠ tx_FinalRecipient tx
  end.

Lemma filter_or_perm {A} (P Q T : A → Prop) `{∀ x, Decision (P x), ∀ x, Decision (Q x), ∀ x, Decision (T x)}
    (l : list A) :
  (∀ x, T x ↔ P x ∨ Q x) → (∀ x, P x → ¬ Q x) → filter P l ++ filter Q l ≡ₚ filter T l.
Proof.
  intros HT HPQ. induction l as [|x l IH]; [done|]. rewrite !filter_cons. specialize (HT x). specialize (HPQ x).
  destruct (decide (P x)).
  - rewrite decide_False, decide_True by tauto. simpl. by rewrite IH.
  - destruct (decide (Q x)).
    + rewrite decide_True by tauto. rewrite <- Permutation_middle. by rewrite IH.
    + by rewrite decide_False by tauto.
Qed.

(** The fate of a transaction depends on its owners. *)
Lemma fate_owners A tx :
  fate_of A tx = match owners tx with
                 | [] => Stays
                 | [a] => if decide (a ∈ A) then Follows else Stays
                 | _ => if decide (Exists (λ a, a ∈ A) (owners tx)) then BecomesCross else Stays
                 end.
Proof.
  unfold fate_of, owners. destruct (tx_RawTxHash tx).
  - destruct (String.eqb _ _); [|destruct (String.eqb _ _); [|done]]; repeat case_decide; case_bool_decide; done.
  - destruct (tx_HasBroker tx); [destruct (tx_SenderIsBroker tx); repeat case_decide; case_bool_decide; done|].
    destruct (decide _) as [He|He]; rewrite Exists_cons, Exists_cons, Exists_nil in He;
      case_bool_decide; try tauto; case_bool_decide; simpl; tauto.
Qed.

Lemma fate_stays A tx : fate_of A tx = Stays ↔ ∀ a, a ∈ owners tx → a ∉ A.
Proof.
  rewrite fate_owners. destruct (owners tx) as [|a [|b l]].
  - split; [intros _ ? []%not_elem_of_nil|done].
  - destruct (decide (a ∈ A)) as [H|H]; split; try done.
    + intros H'. exfalso. apply (H' a); [by left|done].
    + intros _ a' ->%list_elem_of_singleton. done.
  - destruct (decide (Exists (λ a, a ∈ A) (a :: b :: l))) as [H|H]; split; try done.
    + intros H'. apply Exists_exists in H as (c & Hc & Hin). by apply H' in Hin.
    + intros _ c Hc Hin. apply H, Exists_exists. by exists c.
Qed.
Lemma fate_follows A tx : fate_of A tx = Follows ↔ ∃ a, owners tx = [a] ∧ a ∈ A.
Proof. rewrite fate_owners. destruct (owners tx) as [|a [|b l]]; [|case_decide|case_decide]; naive_solver. Qed.
Lemma fate_cross A tx :
  fate_of A tx = BecomesCross ↔
  tx_RawTxHash tx = None ∧ tx_HasBroker tx = false ∧ (tx_Sender tx ∈ A ∨ tx_Recipient tx ∈ A).
Proof.
  unfold fate_of. destruct (tx_RawTxHash tx).
  - destruct (String.eqb _ _); [|destruct (String.eqb _ _)]; repeat case_bool_decide; naive_solver.
  - destruct (tx_HasBroker tx); [destruct (tx_SenderIsBroker tx); repeat case_bool_decide; naive_solver|].
    repeat case_bool_decide; simpl; naive_solver.
Qed.
Lemma cross_or_stays A B tx : fate_of A tx = BecomesCross → fate_of B tx = BecomesCross ∨ fate_of B tx = Stays.
Proof.
  rewrite fate_cross. intros (H1 & H2 & _). unfold fate_of. rewrite H1, H2.
  destruct (_ || _); auto.
Qed.

Section lemmas.
Context {PA : Params} {EX : External} {EXO : ExternalOk}.

(** Of the accounts [L] that leave, those that go to shard [i]. *)
Definition going (m : gmap string Z) (L : list Address) (i : Z) : list Address :=
  filter (λ a, Clpa.shard_to m a = i) L.

Definition stays_for (m : gmap string Z) (L : list Address) (l : list Z) (tx : Transaction) : Prop :=
  Forall (λ i, fate_of (going m L i) tx = Stays) l.
Definition cross_for (m : gmap string Z) (L : list Address) (l : list Z) (tx : Transaction) : Prop :=
  Exists (λ i, fate_of (going m L i) tx = BecomesCross) l.
#[local] Instance stays_for_dec m L l tx : Decision (stays_for m L l tx).
Proof. unfold stays_for. apply _. Defined.
#[local] Instance cross_for_dec m L l tx : Decision (cross_for m L l tx).
Proof. unfold cross_for. apply _. Defined.

(** Only one shard has a claim on a transaction that follows. *)
Lemma follows_one m L i j tx : i ≠ j → fate_of (going m L j) tx = Follows → fate_of (going m L i) tx = Stays.
Proof.
  intros Hij (a & Ha & Hj)%fate_follows. apply fate_stays. rewrite Ha. intros b ->%list_elem_of_singleton Hi.
  unfold going in *. apply list_elem_of_filter in Hi as [Hi _], Hj as [Hj _]. congruence.
Qed.

(** The message for shard [i]. *)
Definition migration_msg (m : gmap string Z) (shard : Z) (fetched : list (Address * AccountState))
    (q : list Transaction) (i : Z) : AccountStateAndTx :=
  let sel := filter (λ x : Address * AccountState, Clpa.shard_to m x.1 = i) fetched in
  mkAST sel.*1 sel.*2 (filter (λ tx, fate_of sel.*1 tx = Follows) q) shard.

Lemma sel_going m L (S : list AccountState) i :
  length L = length S →
  (filter (λ x : Address * AccountState, Clpa.shard_to m x.1 = i) (zip L S)).*1 = going m L i.
Proof. exact (filter_zip_fst (λ a, Clpa.shard_to m a = i) L S). Qed.

(** The messages do not depend on what was sent to other shards before. *)
Lemma migration_msgs_stay m shard L S q i (l : list Z) :
  length L = length S → i ∉ l →
  (λ j, migration_msg m shard (zip L S) (filter (λ tx, fate_of (going m L i) tx = Stays) q) j) <$> l
  = migration_msg m shard (zip L S) q <$> l.
Proof.
  intros Hlen Hi. apply list_fmap_ext. intros _ j Hj%list_elem_of_lookup_2. unfold migration_msg. f_equal.
  rewrite sel_going, list_filter_filter by done. apply list_filter_iff. intros tx. split; [tauto|].
  intros Hf. split; [done|]. apply (follows_one m L i j); [by intros ->|done].
Qed.

Lemma migration_loop m L S (l : list Z) (p : PbftNode Data_supportCLPA) cr :
  length L = length S → NoDup l →
  let q := TxQueue (bc_Txpool (CurChain p)) in
  ∃ X, foldl (send_transfer m (zip L S)) (p, cr) l
    = (set_queue (filter (stays_for m L l) q) p <| out ::= λ o, o ++ ((λ i, (ip_of i 0 p,
         MBrokerAST (migration_msg m (pn_ShardID p) (zip L S) q i))) <$> l) |>, cr ++ X)
    ∧ X ≡ₚ filter (cross_for m L l) q.
Proof.
  intros Hlen Hl. revert p cr. induction Hl as [|i l Hi Hl IH]; intros p cr q; cbn [foldl].
  { exists []. rewrite (filter_all (stays_for m L [])) by (intros; constructor).
    rewrite (filter_none (cross_for m L [])) by (intros ? _ Hx; by apply Exists_nil in Hx).
    split; [|done]. rewrite (right_id_L [] (++)). f_equal. apply set_queue_same. }
  unfold send_transfer at 2, transfer_to. fold q. rewrite sel_going by done.
  set (q1 := filter (λ tx, fate_of _ tx = Stays) q). set (cr1 := filter (λ tx, fate_of _ tx = BecomesCross) q).
  set (p1 := TcpDial _ _ _). destruct (IH p1 (cr ++ cr1)) as (X & -> & HX). exists (cr1 ++ X). split.
  - f_equal; [|by rewrite (assoc_L (++))]. change (TxQueue (bc_Txpool (CurChain p1))) with q1.
    assert (filter (stays_for m L l) q1 = filter (stays_for m L (i :: l)) q) as ->.
    { unfold q1. rewrite list_filter_filter. apply list_filter_iff. intros tx. unfold stays_for.
      rewrite Forall_cons. tauto. }
    etrans; [|apply (set_queue_twice _ q1 (ip_of i 0 p) (MBrokerAST (migration_msg m (pn_ShardID p) (zip L S) q i)))].
    assert (((λ j, (ip_of j 0 p1, MBrokerAST (migration_msg m (pn_ShardID p1) (zip L S) q1 j))) <$> l)
      = ((λ j, (ip_of j 0 p, MBrokerAST (migration_msg m (pn_ShardID p) (zip L S) q j))) <$> l)) as ->.
    { pose proof (migration_msgs_stay m (pn_ShardID p) L S q i l Hlen Hi) as E. fold q1 in E.
      apply list_fmap_ext. intros k j Hj. do 2 f_equal.
      pose proof (f_equal (lookup k) E) as Ek. rewrite !list_lookup_fmap, Hj in Ek. exact (inj Some _ _ Ek). }
    do 2 f_equal. unfold p1, migration_msg. by rewrite sel_going by done.
  - rewrite HX. change (TxQueue (bc_Txpool (CurChain p1))) with q1. unfold cr1, q1.
    rewrite list_filter_filter. apply filter_or_perm; [|intros tx H1 [_ H2]; congruence].
    intros tx. unfold cross_for. rewrite Exists_cons. split; [|tauto]. intros [H|H]; [by left|].
    assert (∃ j, fate_of (going m L j) tx = BecomesCross) as [j Hj] by (apply Exists_exists in H as (j & _ & ?); by exists j).
    destruct (cross_or_stays _ (going m L i) tx Hj); tauto.
Qed.

(** The queue is split: messages, transactions that become cross-shard, the rest. *)
Lemma migration_partition m L (l : list Z) q :
  NoDup l →
  (l ≫= λ i, filter (λ tx, fate_of (going m L i) tx = Follows) q)
    ++ filter (cross_for m L l) q ++ filter (stays_for m L l) q ≡ₚ q.
Proof.
  intros Hl. set (f tx := match owners tx with [a] => if decide (a ∈ L) then Some (Clpa.shard_to m a) else None | _ => None end).
  assert (∀ i tx, fate_of (going m L i) tx = Follows ↔ f tx = Some i) as Hf.
  { intros i tx. rewrite fate_follows. unfold f, going. split.
    - intros (a & -> & [Hs Ha]%list_elem_of_filter). rewrite decide_True by done. by rewrite Hs.
    - destruct (owners tx) as [|a [|]]; try done. case_decide; [|done]. intros [= Hs]. exists a.
      split; [done|]. by apply list_elem_of_filter. }
  etrans; [|apply (bind_targets f l q Hl)]. apply Permutation_app.
  - apply reflexive_eq. apply list_bind_ext; [|done]. intros i. apply list_filter_iff. intros; apply Hf.
  - apply filter_or_perm.
    + intros tx. assert (f tx ∉ Some <$> l ↔ Forall (λ i, fate_of (going m L i) tx ≠ Follows) l) as ->.
      { rewrite Forall_forall, list_elem_of_fmap. setoid_rewrite Hf. naive_solver. }
      unfold cross_for, stays_for. split.
      * intros Ha. destruct (decide (Exists (λ i, fate_of (going m L i) tx = BecomesCross) l)) as [|Hn]; [by left|].
        right. apply not_Exists_Forall in Hn; [|apply _]. rewrite Forall_forall in *. intros i Hi.
        specialize (Ha i Hi). specialize (Hn i Hi). cbn in Hn. by destruct (fate_of _ _).
      * rewrite Exists_exists, !Forall_forall. intros [(j & Hj & Ec)|Hs] i Hi.
        -- destruct (cross_or_stays _ (going m L i) tx Ec) as [E|E]; by rewrite E.
        -- by rewrite Hs.
    + intros tx. unfold cross_for, stays_for. rewrite Exists_exists, Forall_forall. intros (i & Hi & E) Hs.
      specialize (Hs i Hi). congruence.
Qed.

Lemma map_at_last (d : Data_supportCLPA) m :
  last (ModifiedMap d) = Some m → Clpa.map_at (len (ModifiedMap d) - 1) d = Ret m.
Proof.
  rewrite last_lookup. unfold Clpa.map_at. destruct (ModifiedMap d) as [|m0 ms]; [done|].
  rewrite len_cons. pose proof (len_nonneg ms). rewrite (proj2 (Z.ltb_ge _ _)) by lia.
  replace (Z.to_nat (1 + len ms - 1)) with (pred (length (m0 :: ms))) by (unfold len; simpl; lia).
  by intros ->.
Qed.

(** The accounts that the map [m] takes away. *)
Definition leavers (m : gmap string Z) (p : PbftNode Data_supportCLPA) : list Address :=
  (filter (λ kv, is_leaving m (CurChain p) (pn_ShardID p) kv = true) (map_to_list m)).*1.

Lemma going_elem m p i a :
  a ∈ going m (leavers m p) i
  ↔ m !! a = Some i ∧ i ≠ pn_ShardID p ∧ Get_PartitionMap (CurChain p) a = Ret (pn_ShardID p).
Proof.
  unfold going, leavers. rewrite list_elem_of_filter, leaving_elem. unfold Clpa.shard_to. split.
  - intros [Hs (s & Hm & Hne & Hg)]. rewrite Hm in Hs. simpl in Hs. by subst s.
  - intros (Hm & Hne & Hg). rewrite Hm. split; [done|]. by exists i.
Qed.

(** What a migration sends, and what it keeps. *)
Lemma migration_ok (p : PbftNode Data_supportCLPA) l m :
  last (ModifiedMap (pn_mod p)) = Some m → has_ledger (CurChain p) l →
  pool_locked (bc_Txpool (CurChain p)) = false →
  (∀ k, k ∈ dom m → returns (Get_PartitionMap (CurChain p) k)) →
  let L := leavers m p in
  let q := TxQueue (bc_Txpool (CurChain p)) in
  ∃ S X p', sendAccounts_and_Txs p = Ret p'
    ∧ Forall2 (λ a s, as_Balance s = l a) L S ∧ X ≡ₚ filter (cross_for m L (other_shards p)) q
    ∧ out p' = out p
        ++ ((λ i, (ip_of i 0 p, MBrokerAST (migration_msg m (pn_ShardID p) (zip L S) q i))) <$> other_shards p)
        ++ [(ip_of SupervisorShard 0 p, MInner2Cross (mkInner2Cross X))]
    ∧ TxQueue (bc_Txpool (CurChain p')) = filter (stays_for m L (other_shards p)) q
    ∧ pool_locked (bc_Txpool (CurChain p')) = false.
Proof.
  intros Hm Hl Hk Hr L q. unfold sendAccounts_and_Txs.
  rewrite (map_at_last _ m Hm). go_step. rewrite (leaving_ok m p Hr). go_step. fold (leavers m p). fold L.
  destruct (FetchAccounts_balances (CurChain p) l L Hl) as (S & -> & Hall). go_step.
  unfold GetLocked, with_pool_lock. rewrite Hk. go_step.
  set (p1 := p <| CurChain ::= _ |>). pose proof (Forall2_length _ _ _ Hall) as Hlen.
  assert (NoDup (other_shards p1)) as Hnd by apply NoDup_filter, NoDup_seqZ.
  destruct (migration_loop m L S (other_shards p1) p1 [] Hlen Hnd) as (X & -> & HX).
  unfold GetUnlocked. cbn [CurChain bc_Txpool pool_locked set_queue set_field p1 app]. go_step.
  exists S, X. eexists. split; [reflexivity|]. split; [exact Hall|]. split; [exact HX|]. split; [|by split].
  cbn [out TcpDial set_field]. symmetry. apply (assoc_L (++)).
Qed.

Lemma migration_msg_ok m p (S : list AccountState) q (l : Address → Z) i :
  let L := leavers m p in
  Forall2 (λ a s, as_Balance s = l a) L S →
  let msg := migration_msg m (pn_ShardID p) (zip L S) q i in
  ast_FromShard msg = pn_ShardID p ∧ ast_Addrs msg = going m L i
  ∧ Forall2 (λ a s, as_Balance s = l a) (ast_Addrs msg) (ast_AccountState msg)
  ∧ ast_Txs msg = filter (λ tx, fate_of (going m L i) tx = Follows) q.
Proof.
  intros L Hall msg. pose proof (Forall2_length _ _ _ Hall) as Hlen.
  assert (ast_Addrs msg = going m L i) as E by (apply sel_going; done).
  split; [done|]. split; [exact E|]. split; [|by rewrite <- E].
  unfold msg, migration_msg. cbn [ast_Addrs ast_AccountState]. clear E msg Hlen.
  induction Hall as [|a s L' S Has _ IH]; [constructor|]. simpl zip. rewrite filter_cons.
  case_decide; csimpl; [by constructor|done].
Qed.

Lemma placed_chain bc bc' shard tx :
  bc_PartitionMap bc' = bc_PartitionMap bc → placed bc shard tx → placed bc' shard tx.
Proof. intros E Hp a Ha. unfold Get_PartitionMap. rewrite E. by apply Hp. Qed.

Lemma placed_iff bc shard tx s r :
  Get_PartitionMap bc (tx_Sender tx) = Ret s → Get_PartitionMap bc (tx_Recipient tx) = Ret r →
  placed bc shard tx ↔
  match tx_RawTxHash tx with
  | None => if tx_HasBroker tx then (if tx_SenderIsBroker tx then r = shard else s = shard)
            else s = shard ∧ r = shard
  | Some _ => if String.eqb (tx_Recipient tx) (tx_FinalRecipient tx) then r = shard
              else if String.eqb (tx_Sender tx) (tx_OriginalSender tx) then s = shard else True
  end.
Proof.
  intros Hs Hr. unfold placed, owners.
  rewrite (String.eqb_sym (tx_FinalRecipient tx)), (String.eqb_sym (tx_OriginalSender tx)).
  assert (∀ a x, Get_PartitionMap bc a = Ret x → (∀ b, b ∈ [a] → Get_PartitionMap bc b = Ret shard) ↔ x = shard) as H1.
  { intros a x Hx. setoid_rewrite list_elem_of_singleton. split; [intros H|intros -> b ->; done].
    specialize (H a eq_refl). congruence. }
  destruct (tx_RawTxHash tx).
  - destruct (String.eqb _ _); [by apply H1|]. destruct (String.eqb _ _); [by apply H1|].
    split; [done|]. intros _ b []%not_elem_of_nil.
  - destruct (tx_HasBroker tx); [destruct (tx_SenderIsBroker tx); by apply H1|].
    rewrite <- (H1 _ s Hs), <- (H1 _ r Hr). setoid_rewrite elem_of_cons at 1. setoid_rewrite list_elem_of_singleton.
    naive_solver.
Qed.

(** The check of the commit, on the transactions that the supervisor makes. *)
Lemma check_body_ok bc shard tx :
  well_formed tx → returns (Get_PartitionMap bc (tx_Sender tx)) → returns (Get_PartitionMap bc (tx_Recipient tx)) →
  (placed bc shard tx → check_body_tx bc shard tx = Ret ())
  ∧ (¬ placed bc shard tx → ∃ why, check_body_tx bc shard tx = Panic why).
Proof.
  intros Hw [s Hs] [r Hr]. rewrite (placed_iff bc shard tx s r Hs Hr).
  unfold check_body_tx, isBroker1Tx, isBroker2Tx, well_formed in *. rewrite Hs, Hr. go_step.
  destruct (String.eqb_spec (tx_Sender tx) (tx_OriginalSender tx)),
    (String.eqb_spec (tx_Recipient tx) (tx_FinalRecipient tx)); destruct (tx_RawTxHash tx); try tauto;
    try (destruct (tx_HasBroker tx); [destruct (tx_SenderIsBroker tx)|]);
    destruct (Z.eqb_spec s shard), (Z.eqb_spec r shard); cbn [andb negb orb];
    (split; intros; [try done; tauto|first [exfalso; tauto|by eexists]]).
Qed.

Lemma check_bodies bc shard body :
  (∀ tx, tx ∈ body → well_formed tx ∧ returns (Get_PartitionMap bc (tx_Sender tx))
     ∧ returns (Get_PartitionMap bc (tx_Recipient tx))) →
  let check := go_fold (λ _ tx, check_body_tx bc shard tx) () body in
  (Forall (placed bc shard) body → check = Ret ())
  ∧ (¬ Forall (placed bc shard) body → ∃ why, check = Panic why).
Proof.
  induction body as [|tx body IH]; intros Hw; cbn [go_fold]; [split; [done|]; intros []; constructor|].
  destruct (Hw tx) as (H1 & H2 & H3); [by left|].
  destruct (check_body_ok bc shard tx H1 H2 H3) as [Hok Hbad].
  destruct IH as [IH1 IH2]; [intros; apply Hw; by right|]. rewrite Forall_cons. split.
  - intros [Hp Hb]. rewrite Hok by done. go_step. by apply IH1.
  - intros Hn. destruct (decide (placed bc shard tx)) as [Hp|Hp].
    + rewrite Hok by done. go_step. apply IH2. tauto.
    + destruct (Hbad Hp) as [w ->]. by eexists.
Qed.

End lemmas.

Module ClpaBrokerProps.
Section props.
Context {PA : Params} {EX : External} {EXO : ExternalOk}.

(** C15. Re-sharding with brokers, the sending side: each other shard gets one message
    with exactly the accounts that move there from here, their balances, and the
    queued transactions whose one owner moves there; the supervisor gets those that
    lie inside the shard and lose an account; what stays has no owner that moves;
    together they are the queue, nothing lost or duplicated. *)
Theorem migration_splits_the_queue (p : PbftNode Data_supportCLPA) (l : ledger) (m : gmap string Z) :
  last (ModifiedMap (pn_mod p)) = Some m → has_ledger (CurChain p) l →
  pool_locked (bc_Txpool (CurChain p)) = false →
  (∀ k, k ∈ dom m → returns (Get_PartitionMap (CurChain p) k)) →
  let moves_to a i := m !! a = Some i ∧ Get_PartitionMap (CurChain p) a = Ret (pn_ShardID p) in
  ∃ p' (msg : Z → AccountStateAndTx) cross, sendAccounts_and_Txs p = Ret p'
    ∧ out p' = out p ++ ((λ i, (ip_of i 0 p, MBrokerAST (msg i))) <$> other_shards p)
                     ++ [(ip_of SupervisorShard 0 p, MInner2Cross (mkInner2Cross cross))]
    ∧ (∀ i, i ∈ other_shards p →
        ast_FromShard (msg i) = pn_ShardID p
        ∧ (∀ a, a ∈ ast_Addrs (msg i) ↔ moves_to a i)
        ∧ Forall2 (λ a s, as_Balance s = l a) (ast_Addrs (msg i)) (ast_AccountState (msg i))
        ∧ (∀ tx, tx ∈ ast_Txs (msg i) → ∃ a, owners tx = [a] ∧ moves_to a i))
    ∧ (∀ tx, tx ∈ cross → tx_RawTxHash tx = None ∧ tx_HasBroker tx = false
        ∧ ∃ i, i ∈ other_shards p ∧ (moves_to (tx_Sender tx) i ∨ moves_to (tx_Recipient tx) i))
    ∧ (∀ tx a i, tx ∈ TxQueue (bc_Txpool (CurChain p')) → a ∈ owners tx → i ∈ other_shards p → ¬ moves_to a i)
    ∧ (other_shards p ≫= λ i, ast_Txs (msg i)) ++ cross ++ TxQueue (bc_Txpool (CurChain p'))
        ≡ₚ TxQueue (bc_Txpool (CurChain p)).
Proof.
  intros Hm Hl Hk Hr moves_to.
  destruct (migration_ok p l m Hm Hl Hk Hr) as (S & X & p' & E & Hall & HX & Ho & Hq & _).
  set (L := leavers m p) in *. set (q := TxQueue (bc_Txpool (CurChain p))) in *.
  assert (∀ i a, i ∈ other_shards p → a ∈ going m L i ↔ moves_to a i) as Hgo.
  { intros i a Hi%other_shards_elem. unfold L. rewrite going_elem. unfold moves_to. naive_solver. }
  exists p', (migration_msg m (pn_ShardID p) (zip L S) q), X. split; [exact E|]. split; [exact Ho|].
  split; [|split; [|split]].
  - intros i Hi. destruct (migration_msg_ok m p S q l i Hall) as (H1 & H2 & H3 & H4).
    split; [exact H1|]. split; [intros a; unfold L in *; rewrite H2; by apply Hgo|]. split; [exact H3|].
    intros tx Htx. unfold L in *. rewrite H4 in Htx. apply list_elem_of_filter in Htx as [(a & Ha & Hin)%fate_follows _].
    exists a. split; [done|]. by apply Hgo.
  - intros tx Htx. rewrite HX in Htx. apply list_elem_of_filter in Htx as [Hc _].
    apply Exists_exists in Hc as (i & Hi & (H1 & H2 & H3)%fate_cross).
    split; [done|]. split; [done|]. exists i. split; [done|]. by rewrite <- !(Hgo i).
  - intros tx a i Htx Ha Hi Hmv. rewrite Hq in Htx. apply list_elem_of_filter in Htx as [Hs _].
    unfold stays_for in Hs. rewrite Forall_forall in Hs. apply (proj1 (fate_stays _ _) (Hs i Hi) a Ha).
    by apply Hgo.
  - rewrite HX, Hq. assert (NoDup (other_shards p)) as Hnd by apply NoDup_filter, NoDup_seqZ.
    etrans; [|apply (migration_partition m L (other_shards p) q Hnd)].
    apply Permutation_app; [|done]. apply reflexive_eq, list_bind_ext; [|done]. intros i.
    by destruct (migration_msg_ok m p S q l i Hall) as (_ & _ & _ & H4).
Qed.

(** C16. Invariant of re-sharding with brokers: if every queued transaction waits
    where its owners are, then after the account transfer has been committed with the
    new map, the transactions that stayed still do, and those that were sent wait
    where their owners are on every node of the target shard. *)
Theorem migration_keeps_queues_placed (p p' : PbftNode Data_supportCLPA) (l : ledger) (m : gmap string Z) :
  last (ModifiedMap (pn_mod p)) = Some m → has_ledger (CurChain p) l →
  pool_locked (bc_Txpool (CurChain p)) = false →
  (∀ k, k ∈ dom m → returns (Get_PartitionMap (CurChain p) k)) →
  (∀ a i, m !! a = Some i → i = pn_ShardID p ∨ i ∈ other_shards p) →
  (∀ tx, tx ∈ TxQueue (bc_Txpool (CurChain p)) → placed (CurChain p) (pn_ShardID p) tx) →
  sendAccounts_and_Txs p = Ret p' →
  ∃ msg cross, out p' = out p ++ ((λ i, (ip_of i 0 p, MBrokerAST (msg i))) <$> other_shards p)
                     ++ [(ip_of SupervisorShard 0 p, MInner2Cross (mkInner2Cross cross))]
  ∧ ∀ atm n n', at_ModifiedMap atm = m → accountTransfer_do atm n = Ret n' →
    (bc_PartitionMap (CurChain n) = bc_PartitionMap (CurChain p) →
     ∀ tx, tx ∈ TxQueue (bc_Txpool (CurChain p')) → placed (CurChain n') (pn_ShardID p) tx)
    ∧ (∀ i tx, i ∈ other_shards p → tx ∈ ast_Txs (msg i) → placed (CurChain n') i tx).
Proof.
  intros Hm Hl Hk Hr Hrange Hpl E'.
  destruct (migration_ok p l m Hm Hl Hk Hr) as (S & X & p1 & E & Hall & HX & Ho & Hq & _).
  rewrite E in E'. injection E' as <-. set (L := leavers m p) in *. set (q := TxQueue (bc_Txpool (CurChain p))) in *.
  exists (migration_msg m (pn_ShardID p) (zip L S) q), X. split; [exact Ho|].
  intros atm n n' Hatm Ht. unfold accountTransfer_do, Clpa.accountTransfer_do in Ht. rewrite update_all, Hatm in Ht.
  apply bind_Ret in Ht as (bc & Ha & [= <-]). destruct (AddAccounts_maps _ _ _ _ Ha) as [Em _].
  change (bc_PartitionMap bc = m ∪ bc_PartitionMap (CurChain n)) in Em. split.
  - intros En tx Htx a Hown. rewrite Hq in Htx. apply list_elem_of_filter in Htx as [Hs Hin].
    pose proof (Hpl tx Hin a Hown) as Hg. change (Get_PartitionMap bc a = Ret (pn_ShardID p)).
    unfold Get_PartitionMap in *. rewrite Em, En, lookup_union. destruct (m !! a) as [i|] eqn:Ei.
    + rewrite union_Some_l. destruct (Hrange a i Ei) as [->|Hi]; [done|]. exfalso.
      unfold stays_for in Hs. rewrite Forall_forall in Hs. apply (proj1 (fate_stays _ _) (Hs i Hi) a Hown).
      apply other_shards_elem in Hi as Hi'. apply going_elem. unfold Get_PartitionMap. naive_solver.
    + rewrite (left_id_L None (∪)). exact Hg.
  - intros i tx Hi Htx a Hown. destruct (migration_msg_ok m p S q l i Hall) as (_ & _ & _ & H4).
    unfold L in *. rewrite H4 in Htx. apply list_elem_of_filter in Htx as [(b & Hb & Hgo)%fate_follows _].
    rewrite Hb in Hown. apply list_elem_of_singleton in Hown as ->. apply going_elem in Hgo as (Hmb & _).
    change (Get_PartitionMap bc b = Ret i). unfold Get_PartitionMap. by rewrite Em, (lookup_union_Some_l _ _ _ _ Hmb).
Qed.

(** C22. The commit of a block under the combined mechanism: the leader accepts it
    exactly when every transaction of the body has its owners in the shard, and
    panics otherwise; it then tells the other shards its sequence number and reports
    the block in three classes that partition it. *)
Theorem commit_checks_placement (p : PbftNode Data_supportCLPA) now cmsg r block :
  is_leader p = true → requestPool p !! c_Digest cmsg = Some (Some r) → r_RequestType r ≠ PartitionReq →
  dec (r_Content r) = Some block → returns (AddBlock block (CurChain p)) →
  pool_locked (bc_Txpool (CurChain p)) = false →
  (∀ tx, tx ∈ b_Body block → well_formed tx ∧ returns (Get_PartitionMap (CurChain p) (tx_Sender tx))
     ∧ returns (Get_PartitionMap (CurChain p) (tx_Recipient tx))) →
  let b := b_Body block in
  let all_placed := Forall (placed (CurChain p) (pn_ShardID p)) b in
  (all_placed → ∃ p', HandleinCommit now cmsg p = Ret (true, p')
    ∧ out p' = out p
        ++ ((λ sid, (ip_of sid 0 p, MSeqIDinfo (mkSeqIDinfo (pn_ShardID p) (sequenceID p)))) <$> other_shards p)
        ++ [(ip_of SupervisorShard 0 p, MBlockInfo (mkBlockInfo (len b) (of_class Broker.InnerShardTx b)
               (i64 (AccountTransferRound (pn_mod p))) (r_ReqTime r) now (pn_ShardID p) [] []
               (of_class Broker.Broker1Tx b) (of_class Broker.Broker2Tx b)))]
    ∧ of_class Broker.InnerShardTx b ++ of_class Broker.Broker1Tx b ++ of_class Broker.Broker2Tx b ≡ₚ b)
  ∧ (¬ all_placed → ∃ why, HandleinCommit now cmsg p = Panic why).
Proof.
  intros Hl Hr Ht Hd [bc1 Ha] Hk Hw b all_placed. unfold HandleinCommit, pooled, DecodeB. rewrite Hr.
  cbn [mjoin option_join]. unfold deref. go_step. rewrite (proj2 (String.eqb_neq _ _) Ht), Hd. go_step.
  unfold add_block. rewrite Ha. go_step. set (p1 := p <| CurChain := bc1 |>).
  assert (is_leader p1 = true) as -> by exact Hl. unfold report_block. fold b.
  destruct (AddBlock_keeps _ _ _ Ha) as [Em Et].
  assert (∀ a, Get_PartitionMap (CurChain p1) a = Get_PartitionMap (CurChain p) a) as Eg.
  { intros a. unfold Get_PartitionMap. change (bc_PartitionMap (CurChain p1)) with (bc_PartitionMap bc1). by rewrite Em. }
  assert (all_placed ↔ Forall (placed (CurChain p1) (pn_ShardID p1)) b) as Hap.
  { unfold all_placed, placed. by setoid_rewrite Eg. }
  destruct (check_bodies (CurChain p1) (pn_ShardID p1) b) as [Hok Hbad].
  { intros tx Htx. rewrite !Eg. by apply Hw. }
  split.
  - intros Hall. rewrite Hok by (by apply Hap). go_step. rewrite send_seqid_ok.
    match goal with |- context [csv_lock ?q] => destruct (csv_lock_ok q) as (p2 & -> & Ho & _) end.
    { change (pool_locked (bc_Txpool bc1) = false). by rewrite Et. }
    go_step. exists p2. split; [done|]. split.
    + rewrite Ho. unfold send_report. cbn [out TcpDial set_field]. symmetry. apply (assoc_L (++)).
    + exact (classifier_partition classify b).
  - intros Hn. destruct Hbad as [w ->]; [by rewrite <- Hap|]. by exists w.
Qed.

End props.

(** *** Witnesses: "a0" moves from shard 0 to shard 1, "b1" the other way *)

Import LedgerProps PbftProps RelayProps.
#[local] Existing Instances RefExternal.ext RefExternal.ext_ok params4.

Definition half (s r : Address) : Transaction :=
  (pay s r 7) <| tx_RawTxHash := Some "raw"%string |> <| tx_HasBroker := true |>
    <| tx_OriginalSender := "a0" |> <| tx_FinalRecipient := "c0" |>.
(** A payment that the map separates, one that it does not, and the two halves. *)
Definition broker_source : PbftNode Data_supportCLPA :=
  set_queue [pay "a0" "b0" 5; pay "b0" "c0" 6; half "a0" "d0"; half "d0" "c0"] (node_with ClpaProps.cdm0 0 ∅).
Abbreviation moves := ClpaProps.moves.

Lemma moves_total k : k ∈ dom moves → returns (Get_PartitionMap (CurChain broker_source) k).
Proof. intros Hk%elem_of_elements. apply is_Ret_returns. revert k Hk. apply Forall_forall. by_compute. Qed.

Lemma migration_splits_the_queue_witness :
  let p := broker_source in
  let moves_to a i := moves !! a = Some i ∧ Get_PartitionMap (CurChain p) a = Ret (pn_ShardID p) in
  ∃ p' (msg : Z → AccountStateAndTx) cross, sendAccounts_and_Txs p = Ret p'
    ∧ out p' = out p ++ ((λ i, (ip_of i 0 p, MBrokerAST (msg i))) <$> other_shards p)
                     ++ [(ip_of SupervisorShard 0 p, MInner2Cross (mkInner2Cross cross))]
    ∧ (∀ i, i ∈ other_shards p →
        ast_FromShard (msg i) = pn_ShardID p
        ∧ (∀ a, a ∈ ast_Addrs (msg i) ↔ moves_to a i)
        ∧ Forall2 (λ a s, as_Balance s = Init_Balance) (ast_Addrs (msg i)) (ast_AccountState (msg i))
        ∧ (∀ tx, tx ∈ ast_Txs (msg i) → ∃ a, owners tx = [a] ∧ moves_to a i))
    ∧ (∀ tx, tx ∈ cross → tx_RawTxHash tx = None ∧ tx_HasBroker tx = false
        ∧ ∃ i, i ∈ other_shards p ∧ (moves_to (tx_Sender tx) i ∨ moves_to (tx_Recipient tx) i))
    ∧ (∀ tx a i, tx ∈ TxQueue (bc_Txpool (CurChain p')) → a ∈ owners tx → i ∈ other_shards p → ¬ moves_to a i)
    ∧ (other_shards p ≫= λ i, ast_Txs (msg i)) ++ cross ++ TxQueue (bc_Txpool (CurChain p'))
        ≡ₚ TxQueue (bc_Txpool (CurChain p)).
Proof.
  intros p. apply (migration_splits_the_queue p (λ _, Init_Balance) moves).
  - reflexivity.
  - exact (empty_chain_ledger 0).
  - reflexivity.
  - exact moves_total.
Defined.

Definition broker_sent : PbftNode Data_supportCLPA := ret_or broker_source (sendAccounts_and_Txs broker_source).

Lemma migration_keeps_queues_placed_witness :
  let p := broker_source in let p' := broker_sent in
  ∃ msg cross, out p' = out p ++ ((λ i, (ip_of i 0 p, MBrokerAST (msg i))) <$> other_shards p)
                     ++ [(ip_of SupervisorShard 0 p, MInner2Cross (mkInner2Cross cross))]
  ∧ ∀ atm n n', at_ModifiedMap atm = moves → accountTransfer_do atm n = Ret n' →
    (bc_PartitionMap (CurChain n) = bc_PartitionMap (CurChain p) →
     ∀ tx, tx ∈ TxQueue (bc_Txpool (CurChain p')) → placed (CurChain n') (pn_ShardID p) tx)
    ∧ (∀ i tx, i ∈ other_shards p → tx ∈ ast_Txs (msg i) → placed (CurChain n') i tx).
Proof.
  intros p p'. apply (migration_keeps_queues_placed p p' (λ _, Init_Balance) moves).
  - reflexivity.
  - exact (empty_chain_ledger 0).
  - reflexivity.
  - exact moves_total.
  - intros a i Hm. apply elem_of_map_to_list in Hm as Hin. revert Hin. clear.
    assert (∀ x, x ∈ map_to_list moves → x.2 = pn_ShardID p ∨ x.2 ∈ other_shards p) as H.
    { apply Forall_forall. by_compute. }
    intros Hin. exact (H (a, i) Hin).
  - apply Forall_forall. by_compute.
  - apply is_Ret_or. vm_compute. reflexivity.
Defined.

Definition mixed_block : Block := next_block 1 "g" "h1" [pay "a0" "b0" 5; half "a0" "d0"; half "d0" "c0"].
Definition mixed_leader : PbftNode Data_supportCLPA :=
  node_with NewCLPADataSupport 0 {[ "d1"%string := Some (req_of mixed_block) ]}.

Lemma commit_checks_placement_witness :
  let p := mixed_leader in let b := b_Body mixed_block in
  let all_placed := Forall (placed (CurChain p) (pn_ShardID p)) b in
  (all_placed → ∃ p', HandleinCommit 20 com1 p = Ret (true, p')
    ∧ out p' = out p
        ++ ((λ sid, (ip_of sid 0 p, MSeqIDinfo (mkSeqIDinfo (pn_ShardID p) (sequenceID p)))) <$> other_shards p)
        ++ [(ip_of SupervisorShard 0 p, MBlockInfo (mkBlockInfo (len b) (of_class Broker.InnerShardTx b)
               0 9 20 (pn_ShardID p) [] [] (of_class Broker.Broker1Tx b) (of_class Broker.Broker2Tx b)))]
    ∧ of_class Broker.InnerShardTx b ++ of_class Broker.Broker1Tx b ++ of_class Broker.Broker2Tx b ≡ₚ b)
  ∧ (¬ all_placed → ∃ why, HandleinCommit 20 com1 p = Panic why).
Proof.
  intros p b. apply (commit_checks_placement p 20 com1 (req_of mixed_block) mixed_block).
  - reflexivity.
  - apply lookup_singleton_eq.
  - discriminate.
  - apply ok_gob_b. by_compute.
  - apply is_Ret_returns. vm_compute. reflexivity.
  - reflexivity.
  - each_elem; (split; [by_compute|split; eexists; reflexivity]).
Defined.

End ClpaBrokerProps.
