(* ===== verification/Committee.v ===== *)
(** * The supervisor's committees: routing, brokers, re-partitioning

    [supervisor/signal/supervisorStopModule.go], [broker/broker.go],
    [supervisor/committee/committee_relay.go], [committee_broker.go] and
    [committee_clpa.go]: how transactions are injected, how a cross-shard payment is
    split into two halves through a broker, how the graph of executed transactions
    is fed to CLPA.  Reading the CSV file and the loops that wait on the wall clock
    are left out; the file of broker addresses is an argument.  Readings of the
    clock come from [clock], one per call. *)

From S2P Require Import Prelude Params Core Message External Storage Chain MerkleProof Partition.

(** ** [supervisorStopModule.go] *)

Record StopSignal := mkStop { stopGap : Z; stopThreshold : Z }.
#[export] Instance StopSignal_eta : Eta StopSignal := λ s, mkStop (stopGap s) (stopThreshold s).

Definition NewStopSignal (stop_Threshold : Z) : StopSignal := mkStop 0 stop_Threshold.
Definition StopGap_Inc (ss : StopSignal) : StopSignal := ss <| stopGap ::= λ g, i64 (g + 1) |>.
Definition StopGap_Reset (ss : StopSignal) : StopSignal := ss <| stopGap := 0 |>.
Definition GapEnough (ss : StopSignal) : bool := stopThreshold ss <=? stopGap ss.

(** ** Injecting transactions: [txSending] of every committee *)

Section sending.
Context {PA : Params}.
Context (table : gmap Z (gmap Z string)).
(** The shard a transaction is injected into. *)
Context (route : Transaction → go Z).

Definition node0_of (sid : Z) : string := default "" (m ← table !! sid; m !! 0).

(** One message to every shard. *)
Definition flush (sendToShard : gmap Z (list Transaction)) : list (string * payload) :=
  (λ sid, (node0_of sid, MInject (mkInject (default [] (sendToShard !! sid)) sid))) <$> seqZ 0 ShardNum.

(** The loop from index [idx] on, with the transactions still to come. *)
Fixpoint tx_sending (idx : Z) (sendToShard : gmap Z (list Transaction)) (txs : list Transaction)
    : go (list (string * payload)) :=
  '(msgs, sendToShard) ←
    (if 0 <? idx then
       if InjectSpeed =? 0 then Panic "integer divide by zero"
       else if (Z.rem idx InjectSpeed =? 0) || match txs with [] => true | _ => false end
       then Ret (flush sendToShard, ∅) else Ret ([], sendToShard)
     else Ret ([], sendToShard));
  match txs with
  | [] => Ret msgs
  | tx :: txs =>
      sid ← route tx;
      rest ← tx_sending (idx + 1) (<[sid := default [] (sendToShard !! sid) ++ [tx]]> sendToShard) txs;
      Ret (msgs ++ rest)
  end.

Definition txSending (txlist : list Transaction) : go (list (string * payload)) := tx_sending 0 ∅ txlist.

End sending.

(** [uint64(utils.Addr2Shard(key))]. *)
Definition addr_shard `{Params} (key : Address) : go Z := s ← Addr2Shard key; Ret (u64 s).
Definition relay_route `{Params} (tx : Transaction) : go Z := addr_shard (tx_Sender tx).

(** ** [broker.go] *)

Record Broker := mkBroker {
  BrokerRawMegs : gmap string BrokerRawMeg;
  BrokerAddress : list Address;
  RawTx2BrokerTx : gmap string (list bytes)
}.
#[export] Instance Broker_eta : Eta Broker := λ b,
  mkBroker (BrokerRawMegs b) (BrokerAddress b) (RawTx2BrokerTx b).

(** [lines]: the lines of the file; [num] counts down to zero, never from it. *)
Definition initBrokerAddr (num : Z) (lines : list string) : list Address :=
  if num <=? 0 then lines else take (Z.to_nat num) lines.
Definition NewBroker `{Params} (lines : list string) : Broker := mkBroker ∅ (initBrokerAddr BrokerNum lines) ∅.
Definition IsBroker (b : Broker) (address : Address) : bool := bool_decide (address ∈ BrokerAddress b).

(** ** [committee_broker.go] *)

Record BrokerCommittee := mkBCM {
  bcm_broker : Broker;
  brokerConfirm1Pool : gmap string Mag1Confirm;
  brokerConfirm2Pool : gmap string Mag2Confirm;
  bcm_table : gmap Z (gmap Z string);
  bcm_ticks : nat;                                   (* clock readings so far *)
  bcm_out : list (string * payload)
}.
#[export] Instance BrokerCommittee_eta : Eta BrokerCommittee := λ c,
  mkBCM (bcm_broker c) (brokerConfirm1Pool c) (brokerConfirm2Pool c) (bcm_table c) (bcm_ticks c) (bcm_out c).

Section broker_committee.
Context {PA : Params} {EX : External}.
Context (clock : nat → Time).
(** Where the committee takes an account to live: [addr_shard] in the broker committee,
    the partition map of the moment where accounts also migrate. *)
Context (fetch : Address → go Z).

Definition NewBrokerCommitteeMod (lines : list string) (table : gmap Z (gmap Z string)) : BrokerCommittee :=
  mkBCM (NewBroker lines) ∅ ∅ table 0 [].

(** A payment by a broker goes to the recipient's shard. *)
Definition broker_route (b : Broker) (tx : Transaction) : go Z :=
  sendersid ← fetch (tx_Sender tx);
  if IsBroker b (tx_Sender tx) then fetch (tx_Recipient tx) else Ret sendersid.

Definition bcm_txSending (txs : list Transaction) (c : BrokerCommittee) : go BrokerCommittee :=
  msgs ← txSending (bcm_table c) (broker_route (bcm_broker c)) txs;
  Ret (c <| bcm_out ::= λ o, o ++ msgs |>).

(** [core.NewTransaction] at the next reading of the clock, with the fields of a half. *)
Definition half (sender recipient : Address) (ctx : Transaction) (now : Time) : Transaction :=
  (NewTransaction sender recipient (tx_Value ctx) (tx_Nonce ctx) now)
    <| tx_OriginalSender := tx_Sender ctx |> <| tx_FinalRecipient := tx_Recipient ctx |>
    <| tx_RawTxHash := Some (tx_TxHash ctx) |>.
Definition half1 (broker : Address) (ctx : Transaction) (now : Time) : Transaction :=
  half (tx_Sender ctx) broker ctx now.
Definition half2 (broker : Address) (ctx : Transaction) (now : Time) : Transaction :=
  half broker (tx_Recipient ctx) ctx now.

Definition make_type1 (acc : list Transaction * BrokerCommittee) (m : BrokerType1Meg)
    : list Transaction * BrokerCommittee :=
  let '(tx1s, c) := acc in
  let tx1 := half1 (b1_Broker m) (br_Tx (b1_RawMeg m)) (clock (bcm_ticks c)) in
  (tx1s ++ [tx1],
   c <| bcm_ticks ::= S |> <| brokerConfirm1Pool ::= <[tx_TxHash tx1 := mkMag1 (tx_TxHash tx1) (b1_RawMeg m)]> |>).

Definition handleBrokerType1Mes (ms : list BrokerType1Meg) (c : BrokerCommittee) : go BrokerCommittee :=
  let '(tx1s, c) := foldl make_type1 ([], c) ms in bcm_txSending tx1s c.

Definition make_type2 (acc : list Transaction * BrokerCommittee) (m : BrokerType2Meg)
    : list Transaction * BrokerCommittee :=
  let '(tx2s, c) := acc in
  let tx2 := half2 (b2_Broker m) (br_Tx (b2_RawMeg m)) (clock (bcm_ticks c)) in
  (tx2s ++ [tx2],
   c <| bcm_ticks ::= S |> <| brokerConfirm2Pool ::= <[tx_TxHash tx2 := mkMag2 (tx_TxHash tx2) (b2_RawMeg m)]> |>).

Definition handleBrokerType2Mes (ms : list BrokerType2Meg) (c : BrokerCommittee) : go BrokerCommittee :=
  let '(tx2s, c) := foldl make_type2 ([], c) ms in bcm_txSending tx2s c.

Definition getBrokerRawMagDigest (r : BrokerRawMeg) : bytes := Sum256 (json_BrokerRawMeg r).

Definition with_broker (f : Broker → Broker) (c : BrokerCommittee) : BrokerCommittee := c <| bcm_broker ::= f |>.

Definition handleBrokerRawMag (raws : list BrokerRawMeg) (c : BrokerCommittee) : go BrokerCommittee :=
  let store c meg := with_broker (λ b, b <| BrokerRawMegs ::= <[getBrokerRawMagDigest meg := meg]> |>) c in
  handleBrokerType1Mes ((λ meg, mkBrokerType1 meg 0 (br_Broker meg)) <$> raws) (foldl store c raws).

(** [RawTx2BrokerTx[raw] = append(..., hash)]. *)
Definition note_half (raw hash : bytes) (c : BrokerCommittee) : BrokerCommittee :=
  with_broker (λ b, b <| RawTx2BrokerTx ::= λ m, <[raw := default [] (m !! raw) ++ [hash]]> m |>) c.

(** [bcm.broker.BrokerAddress[0]]. *)
Definition first_broker (c : BrokerCommittee) : go Address :=
  or_panic "index out of range" (BrokerAddress (bcm_broker c) !! 0%nat).

Definition confirm1_step (acc : list BrokerType2Meg * BrokerCommittee) (m : Mag1Confirm)
    : go (list BrokerType2Meg * BrokerCommittee) :=
  let '(ms, c) := acc in
  let RawMeg := m1_RawMeg m in
  match BrokerRawMegs (bcm_broker c) !! getBrokerRawMagDigest RawMeg with
  | None => Ret (ms, c)
  | Some _ =>
      let c := note_half (tx_TxHash (br_Tx RawMeg)) (m1_Tx1Hash m) c in
      a ← first_broker c; Ret (ms ++ [mkBrokerType2 RawMeg a], c)
  end.

Definition handleTx1ConfirmMag (ms : list Mag1Confirm) (c : BrokerCommittee) : go BrokerCommittee :=
  '(type2s, c) ← go_fold confirm1_step ([], c) ms; handleBrokerType2Mes type2s c.

Definition handleTx2ConfirmMag (ms : list Mag2Confirm) (c : BrokerCommittee) : BrokerCommittee :=
  foldl (λ c m, note_half (tx_TxHash (br_Tx (m2_RawMeg m))) (m2_Tx2Hash m) c) c ms.

Definition createConfirm (txs : list Transaction) (c : BrokerCommittee) : go BrokerCommittee :=
  let confirm1s := omap (λ tx, brokerConfirm1Pool c !! tx_TxHash tx) txs in
  let confirm2s := omap (λ tx, brokerConfirm2Pool c !! tx_TxHash tx) txs in
  c ← match confirm1s with [] => Ret c | _ => handleTx1ConfirmMag confirm1s c end;
  match confirm2s with [] => Ret c | _ => Ret (handleTx2ConfirmMag confirm2s c) end.

Definition bcm_HandleBlockInfo (b : BlockInfoMsg) (c : BrokerCommittee) : go BrokerCommittee :=
  if bi_BlockBodyLength b =? 0 then Ret c
  else createConfirm (bi_Broker1Txs b ++ bi_Broker2Txs b) c.

(** One transaction of the batch: to be split, or sent as it is. *)
Definition deal_step (c : BrokerCommittee) (acc : list Transaction * list BrokerRawMeg) (tx : Transaction)
    : go (list Transaction * list BrokerRawMeg) :=
  let '(itxs, raws) := acc in
  let b := bcm_broker c in
  rSid ← fetch (tx_Recipient tx);
  sSid ← fetch (tx_Sender tx);
  if negb (rSid =? sSid) && negb (IsBroker b (tx_Recipient tx)) && negb (IsBroker b (tx_Sender tx)) then
    a ← first_broker c; Ret (itxs, raws ++ [mkBrokerRaw tx a 0 0 0 ""])
  else
    let tx := if IsBroker b (tx_Recipient tx) || IsBroker b (tx_Sender tx)
              then tx <| tx_HasBroker := true |> <| tx_SenderIsBroker := IsBroker b (tx_Sender tx) |> else tx in
    Ret (itxs ++ [tx], raws).

Definition dealTxByBroker (txs : list Transaction) (c : BrokerCommittee)
    : go (list Transaction * BrokerCommittee) :=
  '(itxs, raws) ← go_fold (deal_step c) ([], []) txs;
  c ← match raws with [] => Ret c | _ => handleBrokerRawMag raws c end;
  Ret (itxs, c).

(** One batch of [MsgSendingControl]. *)
Definition bcm_send_batch (txlist : list Transaction) (c : BrokerCommittee) : go BrokerCommittee :=
  '(itx, c) ← dealTxByBroker txlist c; bcm_txSending itx c.

End broker_committee.

(** ** [committee_clpa.go] *)

Record CLPACommittee := mkCCM {
  curEpoch : Z;
  clpaGraph : CLPAState;
  modifiedMap : gmap string Z;
  ccm_table : gmap Z (gmap Z string);
  ccm_out : list (string * payload)
}.
#[export] Instance CLPACommittee_eta : Eta CLPACommittee := λ c,
  mkCCM (curEpoch c) (clpaGraph c) (modifiedMap c) (ccm_table c) (ccm_out c).

Section clpa_committee.
Context {PA : Params}.

(** [new(partition.CLPAState)] and [Init_CLPAState(0.5, 100, params.ShardNum)]. *)
Definition zero_graph : CLPAState := mkCLPA (mkGraph ∅ ∅) ∅ [] [] (CLPA.float64 0) 0 0 0 0.
Definition new_graph : go CLPAState :=
  CLPA.Init_CLPAState (CLPA.f_div (CLPA.float64 1) (CLPA.float64 2)) 100 ShardNum zero_graph.

Definition NewCLPACommitteeModule (table : gmap Z (gmap Z string)) : go CLPACommittee :=
  g ← new_graph; Ret (mkCCM 0 g ∅ table []).

Definition fetchModifiedMap (c : CLPACommittee) (key : Address) : go Z :=
  match modifiedMap c !! key with None => addr_shard key | Some val => Ret val end.
Definition clpa_route (c : CLPACommittee) (tx : Transaction) : go Z := fetchModifiedMap c (tx_Sender tx).

Definition ccm_txSending (txs : list Transaction) (c : CLPACommittee) : go CLPACommittee :=
  msgs ← txSending (ccm_table c) (clpa_route c) txs; Ret (c <| ccm_out ::= λ o, o ++ msgs |>).

Definition clpaMapSend (m : gmap string Z) (c : CLPACommittee) : CLPACommittee :=
  c <| ccm_out ::= λ o, o ++ ((λ i, (node0_of (ccm_table c) i, MPartitionMap (mkPartitionMap m))) <$> seqZ 0 ShardNum) |>.

Definition clpaReset (c : CLPACommittee) : go CLPACommittee :=
  g ← new_graph;
  Ret (c <| clpaGraph := g <| cs_PartitionMap := i64 <$> modifiedMap c |> |>).

(** A new partition, between the two uses of [clpaLock]; [order] as in
    [CLPA_Partition]. *)
Definition repartition (order : nat → list Vertex) (c : CLPACommittee) : go CLPACommittee :=
  '(mmap, _, g) ← CLPA.CLPA_Partition order (clpaGraph c);
  let c := clpaMapSend mmap (c <| clpaGraph := g |>) in
  clpaReset (c <| modifiedMap ::= λ m, mmap ∪ m |>).

Definition ccm_HandleBlockInfo (b : BlockInfoMsg) (c : CLPACommittee) : go CLPACommittee :=
  let c := if curEpoch c =? i32 (bi_Epoch b - 1) then c <| curEpoch := i32 (bi_Epoch b) |> else c in
  if bi_BlockBodyLength b =? 0 then Ret c
  else
    g ← go_fold (λ g tx, CLPA.AddEdge (tx_Sender tx) (tx_Recipient tx) g) (clpaGraph c)
          (bi_InnerShardTxs b ++ bi_Relay2Txs b);
    Ret (c <| clpaGraph := g |>).

End clpa_committee.
