(* ===== verification/CommitteeLemmas.v ===== *)
(** * The supervisor's committees: lemmas

    Injection, splitting, the runs of the broker committee, the graph of the CLPA
    committee. *)

From S2P Require Import Prelude Params Core Message External Storage Chain Ledger ChainLemmas MerkleProof.
From S2P Require Import Partition PartitionLemmas PartitionProps Pbft Clpa ClpaProps Committee.

(** ** Injection *)

(** The transactions that a list of messages delivers to shard [sid]. *)
Definition injected_to (sid : Z) (msg : string * payload) : list Transaction :=
  match msg.2 with MInject it => if it_ToShardID it =? sid then it_Txs it else [] | _ => [] end.
Definition delivered (sid : Z) (msgs : list (string * payload)) : list Transaction := msgs ≫= injected_to sid.

Lemma delivered_app sid m1 m2 : delivered sid (m1 ++ m2) = delivered sid m1 ++ delivered sid m2.
Proof. apply bind_app. Qed.

Section inject.
Context {PA : Params} (table : gmap Z (gmap Z string)) (route : Transaction → go Z).

(** A message to the first node of its shard, with at most [InjectSpeed] transactions. *)
Definition inject_msg (msg : string * payload) : Prop :=
  ∃ it, msg = (node0_of table (it_ToShardID it), MInject it)
    ∧ 0 ≤ it_ToShardID it < ShardNum ∧ len (it_Txs it) ≤ InjectSpeed.

Definition to_shard (sid : Z) (txs : list Transaction) : list Transaction :=
  filter (λ tx, match route tx with Ret s => s =? sid | _ => false end = true) txs.

Lemma delivered_flush_from l (s : gmap Z (list Transaction)) sid :
  NoDup l →
  delivered sid ((λ i, (node0_of table i, MInject (mkInject (default [] (s !! i)) i))) <$> l)
  = if decide (sid ∈ l) then default [] (s !! sid) else [].
Proof.
  induction 1 as [|i l Hi Hl IH]; [done|]. rewrite fmap_cons. unfold delivered in *. rewrite bind_cons, IH.
  unfold injected_to. simpl. destruct (Z.eqb_spec i sid) as [->|Hne].
  - rewrite (decide_True _ _ (list_elem_of_here sid l)), decide_False by done. apply app_nil_r.
  - simpl. destruct (decide (sid ∈ l)); [by rewrite decide_True by (by right)|].
    rewrite decide_False; [done|]. intros [->|?]%elem_of_cons; done.
Qed.

Lemma delivered_flush s sid : 0 ≤ sid < ShardNum → delivered sid (flush table s) = default [] (s !! sid).
Proof.
  intros Hs. unfold flush. rewrite delivered_flush_from by apply NoDup_seqZ.
  rewrite decide_True; [done|]. apply elem_of_seqZ. lia.
Qed.

Lemma flush_msgs (s : gmap Z (list Transaction)) :
  (∀ sid, len (default [] (s !! sid)) ≤ InjectSpeed) → Forall inject_msg (flush table s).
Proof.
  intros Hs. unfold flush. apply Forall_fmap, Forall_forall. intros i Hi%elem_of_seqZ. unfold inject_msg. simpl.
  exists (mkInject (default [] (s !! i)) i). split; [reflexivity|]. simpl. split; [lia|apply Hs].
Qed.

(** How many transactions wait for one shard at index [idx]. *)
Definition waiting_bound (idx : Z) : Z :=
  if idx <=? 0 then 0 else if Z.rem idx InjectSpeed =? 0 then InjectSpeed else Z.rem idx InjectSpeed.

Lemma waiting_step idx : 0 < InjectSpeed → 0 ≤ idx → Z.rem idx InjectSpeed + 1 ≤ waiting_bound (idx + 1).
Proof.
  intros HI Hi. unfold waiting_bound. destruct (Z.leb_spec (idx + 1) 0); [lia|].
  rewrite !Z.rem_mod_nonneg by lia. pose proof (Z.mod_pos_bound idx InjectSpeed HI).
  destruct (Z.eq_dec (idx `mod` InjectSpeed) (InjectSpeed - 1)) as [E|E].
  - rewrite <- Z.add_mod_idemp_l, E by lia. replace (InjectSpeed - 1 + 1) with InjectSpeed by lia.
    rewrite Z.mod_same by lia. simpl. lia.
  - assert ((idx + 1) `mod` InjectSpeed = idx `mod` InjectSpeed + 1) as ->.
    { rewrite <- Z.add_mod_idemp_l by lia. apply Z.mod_small. lia. }
    destruct (Z.eqb_spec (idx `mod` InjectSpeed + 1) 0); lia.
Qed.

Lemma waiting_le idx : 0 < InjectSpeed → 0 ≤ idx → waiting_bound idx ≤ InjectSpeed.
Proof.
  intros HI Hi. unfold waiting_bound. destruct (Z.leb_spec idx 0); [lia|]. destruct (_ =? 0); [lia|].
  rewrite Z.rem_mod_nonneg by lia. pose proof (Z.mod_pos_bound idx InjectSpeed HI). lia.
Qed.

(** The head of the loop: what is sent, and what still waits. *)
Lemma flush_step idx (s : gmap Z (list Transaction)) (last : bool) :
  0 < InjectSpeed → 0 ≤ idx → (∀ sid, len (default [] (s !! sid)) ≤ waiting_bound idx) →
  ∃ msgs s',
    (if 0 <? idx then
       if InjectSpeed =? 0 then Panic "integer divide by zero"
       else if (Z.rem idx InjectSpeed =? 0) || last then Ret (flush table s, ∅) else Ret ([], s)
     else Ret ([], s)) = Ret (msgs, s')
    ∧ Forall inject_msg msgs
    ∧ (∀ sid, 0 ≤ sid < ShardNum → default [] (s !! sid) = delivered sid msgs ++ default [] (s' !! sid))
    ∧ (∀ sid, len (default [] (s' !! sid)) ≤ Z.rem idx InjectSpeed)
    ∧ (last = true → ∀ sid : Z, default [] (s' !! sid) = []).
Proof.
  intros HI Hi Hs. destruct (Z.eqb_spec InjectSpeed 0); [lia|].
  assert (0 ≤ Z.rem idx InjectSpeed) by (rewrite Z.rem_mod_nonneg by lia; apply Z.mod_pos_bound; lia).
  destruct (Z.ltb_spec 0 idx) as [Hpos|].
  - destruct (_ || last) eqn:E.
    + eexists _, _. split; [reflexivity|]. split; [apply flush_msgs; intros sid; specialize (Hs sid);
        pose proof (waiting_le idx HI Hi); lia|].
      split; [intros sid Hsid; by rewrite delivered_flush, lookup_empty, app_nil_r|].
      split; [intros sid; by rewrite lookup_empty|done].
    + apply orb_false_elim in E as [E ->]. eexists _, _. split; [reflexivity|]. split; [constructor|].
      split; [done|]. split; [|done]. intros sid. specialize (Hs sid). unfold waiting_bound in Hs.
      rewrite E in Hs. destruct (Z.leb_spec idx 0); lia.
  - assert (idx = 0) as -> by lia.
    assert (∀ sid, default [] (s !! sid) = []) as Hnil.
    { intros sid. specialize (Hs sid). change (waiting_bound 0) with 0 in Hs.
      destruct (default [] (s !! sid)) as [|x l]; [done|]. rewrite len_cons in Hs. pose proof (len_nonneg l). lia. }
    eexists _, _. split; [reflexivity|]. split; [constructor|]. split; [done|]. split; [|done].
    intros sid. by rewrite Hnil, len_nil.
Qed.

Lemma tx_sending_ok idx s txs :
  0 < InjectSpeed → 0 ≤ idx → (∀ sid, len (default [] (s !! sid)) ≤ waiting_bound idx) →
  (∀ tx, tx ∈ txs → returns (route tx)) →
  ∃ msgs, tx_sending table route idx s txs = Ret msgs ∧ Forall inject_msg msgs
    ∧ ∀ sid, 0 ≤ sid < ShardNum → delivered sid msgs = default [] (s !! sid) ++ to_shard sid txs.
Proof.
  intros HI. revert idx s. induction txs as [|tx txs IH]; intros idx s Hi Hs Hr; cbn [tx_sending].
  - destruct (flush_step idx s true HI Hi Hs) as (msgs & s' & -> & Hm & Hd & _ & Hnil). go_step.
    exists msgs. split; [done|]. split; [done|]. intros sid Hsid.
    rewrite (Hd sid Hsid), (Hnil eq_refl). change (to_shard sid []) with (@nil Transaction). by rewrite !app_nil_r.
  - destruct (flush_step idx s false HI Hi Hs) as (msgs & s' & -> & Hm & Hd & Hw & _). go_step.
    destruct (Hr tx) as [sid0 Hsid0]; [by left|]. rewrite Hsid0. go_step.
    destruct (IH (idx + 1) (<[sid0 := default [] (s' !! sid0) ++ [tx]]> s')) as (rest & -> & Hm' & Hd').
    { lia. }
    { intros sid. pose proof (waiting_step idx HI Hi). specialize (Hw sid).
      destruct (decide (sid0 = sid)) as [->|Hne].
      - rewrite lookup_insert_eq. cbn [from_option id]. rewrite len_app, len_cons, len_nil. lia.
      - rewrite lookup_insert_ne by done. lia. }
    { intros; apply Hr. by right. }
    go_step. eexists. split; [reflexivity|]. split; [by apply Forall_app|]. intros sid Hsid.
    rewrite delivered_app, (Hd sid Hsid), (Hd' sid Hsid), <- (assoc_L (++)). f_equal.
    unfold to_shard. rewrite filter_cons, Hsid0. destruct (decide (sid0 = sid)) as [->|Hne].
    + rewrite lookup_insert_eq, Z.eqb_refl. cbn [from_option id]. by rewrite <- (assoc_L (++)).
    + rewrite lookup_insert_ne by done. rewrite decide_False; [done|]. intros ?%Z.eqb_eq. done.
Qed.

Lemma txSending_ok txs :
  0 < InjectSpeed → (∀ tx, tx ∈ txs → returns (route tx)) →
  ∃ msgs, txSending table route txs = Ret msgs ∧ Forall inject_msg msgs
    ∧ ∀ sid, 0 ≤ sid < ShardNum → delivered sid msgs = to_shard sid txs.
Proof.
  intros HI Hr. destruct (tx_sending_ok 0 ∅ txs HI) as (msgs & E & Hm & Hd); [lia|by intros; rewrite lookup_empty|done|].
  exists msgs. split; [exact E|]. split; [exact Hm|]. intros sid Hsid. by rewrite (Hd sid Hsid), lookup_empty.
Qed.

End inject.

(** Nothing is sent that was not in the list. *)
Lemma tx_sending_sub `{Params} table route txs : ∀ idx s msgs msg t,
  tx_sending table route idx s txs = Ret msgs → msg ∈ msgs →
  t ∈ (match msg.2 with MInject it => it_Txs it | _ => [] end) →
  t ∈ txs ∨ ∃ sid : Z, t ∈ default [] (s !! sid).
Proof.
  assert (∀ s msg t, msg ∈ flush table s → t ∈ (match msg.2 with MInject it => it_Txs it | _ => [] end) →
    ∃ sid : Z, t ∈ default [] (s !! sid)) as Hflush.
  { intros s msg t (sid & -> & _)%list_elem_of_fmap. simpl. eauto. }
  induction txs as [|tx txs IH]; intros idx s msgs msg t; cbn [tx_sending];
    intros ([m s'] & Hhead & Hrest)%bind_Ret Hmsg Ht;
    (assert ((m = flush table s ∧ s' = ∅) ∨ (m = [] ∧ s' = s)) as Hms
      by (split_match_in Hhead; injection Hhead as <- <-; auto)).
  - injection Hrest as <-. right. destruct Hms as [[-> ->]|[-> _]]; [by eapply Hflush|by apply not_elem_of_nil in Hmsg].
  - apply bind_Ret in Hrest as (sid & _ & (rest & Hr & Hrest)%bind_Ret). injection Hrest as <-.
    apply elem_of_app in Hmsg as [Hmsg|Hmsg].
    { right. destruct Hms as [[-> ->]|[-> _]]; [by eapply Hflush|by apply not_elem_of_nil in Hmsg]. }
    destruct (IH _ _ _ _ _ Hr Hmsg Ht) as [Hin|[sid' Hin]]; [left; by right|].
    destruct (decide (sid = sid')) as [->|Hne].
    + rewrite lookup_insert_eq in Hin. simpl in Hin. apply elem_of_app in Hin as [Hin|Hin]; [|apply list_elem_of_singleton in Hin as ->; left; by left].
      right. destruct Hms as [[_ ->]|[_ ->]]; [|eauto]. rewrite lookup_empty in Hin. by apply not_elem_of_nil in Hin.
    + rewrite lookup_insert_ne in Hin by done. right. destruct Hms as [[_ ->]|[_ ->]]; [|eauto].
      rewrite lookup_empty in Hin. by apply not_elem_of_nil in Hin.
Qed.

(** Every injected transaction is in a message to the shard of its route. *)
Lemma tx_sending_routed `{Params} table route txs : ∀ idx s msgs ip it t,
  (∀ (sid : Z) t, t ∈ default [] (s !! sid) → route t = Ret sid) →
  tx_sending table route idx s txs = Ret msgs → (ip, MInject it) ∈ msgs → t ∈ it_Txs it →
  route t = Ret (it_ToShardID it).
Proof.
  assert (∀ s ip it t, (∀ (sid : Z) t, t ∈ default [] (s !! sid) → route t = Ret sid) →
    (ip, MInject it) ∈ flush table s → t ∈ it_Txs it → route t = Ret (it_ToShardID it)) as Hflush.
  { intros s ip it t Hs (sid & [= -> ->] & _)%list_elem_of_fmap. simpl. apply Hs. }
  induction txs as [|tx txs IH]; intros idx s msgs ip it t Hs; cbn [tx_sending];
    intros ([m s'] & Hhead & Hrest)%bind_Ret Hmsg Ht;
    (assert ((m = flush table s ∧ s' = ∅) ∨ (m = [] ∧ s' = s)) as Hms
      by (split_match_in Hhead; injection Hhead as <- <-; auto)).
  - injection Hrest as <-. destruct Hms as [[-> ->]|[-> _]]; [by eapply Hflush|by apply not_elem_of_nil in Hmsg].
  - apply bind_Ret in Hrest as (sid & Er & (rest & Hr & [= <-])%bind_Ret).
    apply elem_of_app in Hmsg as [Hmsg|Hmsg].
    { destruct Hms as [[-> ->]|[-> _]]; [by eapply Hflush|by apply not_elem_of_nil in Hmsg]. }
    refine (IH _ _ _ _ _ _ _ Hr Hmsg Ht). intros sid' t' Ht'.
    assert (∀ t, t ∈ default [] (s' !! sid') → route t = Ret sid') as Hs'.
    { destruct Hms as [[_ ->]|[_ ->]]; [intros ?; rewrite lookup_empty; by intros ?%not_elem_of_nil|apply Hs]. }
    destruct (decide (sid = sid')) as [<-|Hne]; [|rewrite lookup_insert_ne in Ht' by done; by apply Hs'].
    rewrite lookup_insert_eq in Ht'. simpl in Ht'.
    apply elem_of_app in Ht' as [Ht'| ->%list_elem_of_singleton]; [by apply Hs'|exact Er].
Qed.

(** ** Splitting a batch *)

Section broker.
Context {PA : Params} {EX : External} (clock : nat → Time) (fetch : Address → go Z).
Implicit Type c : BrokerCommittee.
Implicit Type bs : list Address.

Definition brokers c : list Address := BrokerAddress (bcm_broker c).
Definition among bs (a : Address) : bool := bool_decide (a ∈ bs).

(** Is the payment split, and how is it sent if not? *)
Definition crosses bs (tx : Transaction) : bool :=
  match fetch (tx_Recipient tx), fetch (tx_Sender tx) with
  | Ret r, Ret s => negb (r =? s) && negb (among bs (tx_Recipient tx)) && negb (among bs (tx_Sender tx))
  | _, _ => false
  end.
Definition broker_marked bs (tx : Transaction) : Transaction :=
  if among bs (tx_Recipient tx) || among bs (tx_Sender tx)
  then tx <| tx_HasBroker := true |> <| tx_SenderIsBroker := among bs (tx_Sender tx) |> else tx.
Definition raw_of (a : Address) (tx : Transaction) : BrokerRawMeg := mkBrokerRaw tx a 0 0 0 "".
Definition direct_txs bs (txs : list Transaction) : list Transaction :=
  broker_marked bs <$> filter (λ tx, crosses bs tx = false) txs.
Definition split_txs bs (txs : list Transaction) : list Transaction :=
  filter (λ tx, crosses bs tx = true) txs.

(** The shard a transaction goes to: the recipient's if a broker pays. *)
Definition routed bs (tx : Transaction) : go Z :=
  s ← fetch (tx_Sender tx); if among bs (tx_Sender tx) then fetch (tx_Recipient tx) else Ret s.

Definition has_shards (tx : Transaction) : Prop :=
  returns (fetch (tx_Sender tx)) ∧ returns (fetch (tx_Recipient tx)).

(** One step returns exactly when the addresses have shards, and a broker exists if one is needed. *)
Lemma deal_step_Ret c itxs raws tx acc' :
  deal_step fetch c (itxs, raws) tx = Ret acc' ↔
  has_shards tx ∧
  if crosses (brokers c) tx
  then ∃ a, brokers c !! 0%nat = Some a ∧ acc' = (itxs, raws ++ [raw_of a tx])
  else acc' = (itxs ++ [broker_marked (brokers c) tx], raws).
Proof.
  unfold deal_step, has_shards, crosses.
  destruct (fetch (tx_Recipient tx)) as [r| |]; [|split; [done|intros [[_ [? ?]] _]; done]..].
  destruct (fetch (tx_Sender tx)) as [s| |]; [|split; [done|intros [[[? ?] _] _]; done]..].
  go_step. change (IsBroker (bcm_broker c)) with (among (brokers c)).
  assert (returns (Ret s) ∧ returns (Ret r)) as Hsr by (split; by eexists).
  destruct (_ && _ && _).
  - unfold first_broker. fold (brokers c). destruct (brokers c !! 0%nat) as [a|]; simpl; [|naive_solver].
    split; [intros [= <-]; split; [done|by exists a]|]. intros [_ (a' & [= <-] & ->)]. done.
  - split; [intros [= <-]; done|]. by intros [_ ->].
Qed.

Lemma deal_loop c txs acc :
  (∀ tx, tx ∈ txs → has_shards tx) → is_Some (brokers c !! 0%nat) →
  go_fold (deal_step fetch c) acc txs
  = Ret (acc.1 ++ direct_txs (brokers c) txs,
         acc.2 ++ (raw_of (default "" (brokers c !! 0%nat)) <$> split_txs (brokers c) txs)).
Proof.
  intros Htx [a Ha]. rewrite Ha. cbn [from_option id]. revert acc.
  induction txs as [|tx txs IH]; intros [itxs raws]; cbn [go_fold].
  { unfold direct_txs, split_txs. simpl. by rewrite !app_nil_r. }
  unfold direct_txs, split_txs. rewrite !filter_cons.
  assert (∃ acc', deal_step fetch c (itxs, raws) tx = Ret acc' ∧
    acc' = if crosses (brokers c) tx then (itxs, raws ++ [raw_of a tx])
           else (itxs ++ [broker_marked (brokers c) tx], raws)) as (acc' & -> & ->).
  { eexists. rewrite deal_step_Ret. split; [|reflexivity]. split; [apply Htx; by left|].
    destruct (crosses _ _); [by exists a|done]. }
  go_step. rewrite IH by (intros; apply Htx; by right). unfold direct_txs, split_txs.
  destruct (crosses (brokers c) tx); simpl; by rewrite <- (assoc_L (++)).
Qed.

(** *** The two loops that make halves *)

Definition halves1 (k : nat) (ms : list BrokerType1Meg) : list Transaction :=
  imap (λ i m, half1 (b1_Broker m) (br_Tx (b1_RawMeg m)) (clock (k + i))) ms.
Definition halves2 (k : nat) (ms : list BrokerType2Meg) : list Transaction :=
  imap (λ i m, half2 (b2_Broker m) (br_Tx (b2_RawMeg m)) (clock (k + i))) ms.

(** [c'] differs from [c] in the clock and in the confirmations of type 1. *)
Record made1 c c' (ms : list BrokerType1Meg) (ts : list Transaction) : Prop := {
  md1_broker : bcm_broker c' = bcm_broker c;
  md1_table : bcm_table c' = bcm_table c;
  md1_out : bcm_out c' = bcm_out c;
  md1_new : ∀ h m, brokerConfirm1Pool c' !! h = Some m → brokerConfirm1Pool c !! h = Some m
    ∨ ∃ m1 now, m1 ∈ ms ∧ h = tx_TxHash (half1 (b1_Broker m1) (br_Tx (b1_RawMeg m1)) now)
        ∧ m = mkMag1 h (b1_RawMeg m1);
  md1_all : ∀ h, is_Some (brokerConfirm1Pool c !! h) ∨ h ∈ tx_TxHash <$> ts →
    is_Some (brokerConfirm1Pool c' !! h)
}.

Lemma make_type1_loop ms acc c :
  ∃ c', foldl (make_type1 clock) (acc, c) ms = (acc ++ halves1 (bcm_ticks c) ms, c')
    ∧ made1 c c' ms (halves1 (bcm_ticks c) ms).
Proof.
  revert acc c. induction ms as [|m ms IH]; intros acc c; simpl.
  { exists c. rewrite app_nil_r. split; [done|]. split; try done; [by auto|]. by intros h [?|?%not_elem_of_nil]. }
  set (t := half1 _ _ (clock (bcm_ticks c))). set (c1 := _ <| brokerConfirm1Pool ::= _ |>).
  destruct (IH (acc ++ [t]) c1) as (c' & -> & [H1 H2 H3 H4 H5]). exists c'.
  assert (halves1 (bcm_ticks c) (m :: ms) = t :: halves1 (bcm_ticks c1) ms) as ->.
  { unfold halves1. simpl. rewrite Nat.add_0_r. f_equal. apply imap_ext. intros i x _. simpl. by rewrite Nat.add_succ_r. }
  rewrite <- (assoc_L (++)). split; [done|]. split; [done..| |].
  - intros h m' Hm'. destruct (H4 h m' Hm') as [Hc|(m1 & now & Hin & ? & ?)].
    + unfold c1 in Hc. simpl in Hc. destruct (decide (tx_TxHash t = h)) as [<-|Hne].
      * rewrite lookup_insert_eq in Hc. injection Hc as <-. right. exists m. eexists. split; [by left|]. done.
      * rewrite lookup_insert_ne in Hc by done. by left.
    + right. exists m1, now. split; [by right|done].
  - intros h Hh. apply H5. destruct Hh as [Hh|Hh].
    + left. unfold c1. simpl. destruct (decide (tx_TxHash t = h)) as [<-|Hne];
        [rewrite lookup_insert_eq; by eexists|by rewrite lookup_insert_ne].
    + apply elem_of_cons in Hh as [->|Hh]; [|by right]. left. unfold c1. simpl. rewrite lookup_insert_eq. by eexists.
Qed.

Record made2 c c' : Prop := {
  md2_broker : bcm_broker c' = bcm_broker c;
  md2_table : bcm_table c' = bcm_table c;
  md2_out : bcm_out c' = bcm_out c;
  md2_pool : brokerConfirm1Pool c' = brokerConfirm1Pool c
}.

Lemma make_type2_loop ms acc c :
  ∃ c', foldl (make_type2 clock) (acc, c) ms = (acc ++ halves2 (bcm_ticks c) ms, c') ∧ made2 c c'.
Proof.
  revert acc c. induction ms as [|m ms IH]; intros acc c; simpl.
  { exists c. rewrite app_nil_r. by split. }
  set (t := half2 _ _ (clock (bcm_ticks c))). set (c1 := _ <| brokerConfirm2Pool ::= _ |>).
  destruct (IH (acc ++ [t]) c1) as (c' & -> & [H1 H2 H3 H4]). exists c'.
  assert (halves2 (bcm_ticks c) (m :: ms) = t :: halves2 (bcm_ticks c1) ms) as ->.
  { unfold halves2. simpl. rewrite Nat.add_0_r. f_equal. apply imap_ext. intros i x _. simpl. by rewrite Nat.add_succ_r. }
  rewrite <- (assoc_L (++)). by split.
Qed.

(** *** Raw messages *)

Definition store_raw c (meg : BrokerRawMeg) : BrokerCommittee :=
  with_broker (λ b, b <| BrokerRawMegs ::= <[getBrokerRawMagDigest meg := meg]> |>) c.
Definition type1_of (meg : BrokerRawMeg) : BrokerType1Meg := mkBrokerType1 meg 0 (br_Broker meg).

Lemma handleBrokerRawMag_eq raws c :
  handleBrokerRawMag clock fetch raws c = handleBrokerType1Mes clock fetch (type1_of <$> raws) (foldl store_raw c raws).
Proof. done. Qed.

Definition registered c (r : BrokerRawMeg) : Prop :=
  is_Some (BrokerRawMegs (bcm_broker c) !! getBrokerRawMagDigest r).

Record stored c c' (raws : list BrokerRawMeg) : Prop := {
  sd_brokers : brokers c' = brokers c;
  sd_pool1 : brokerConfirm1Pool c' = brokerConfirm1Pool c;
  sd_out : bcm_out c' = bcm_out c;
  sd_table : bcm_table c' = bcm_table c;
  sd_ticks : bcm_ticks c' = bcm_ticks c;
  sd_all : ∀ r, registered c r ∨ r ∈ raws → registered c' r
}.

Lemma stored_kept raws c : stored c (foldl store_raw c raws) raws.
Proof.
  revert c. induction raws as [|r raws IH]; intros c; simpl.
  { split; try done. by intros r [?|?%not_elem_of_nil]. }
  destruct (IH (store_raw c r)) as [H1 H2 H3 H4 H5 H6]. split; [by rewrite H1|by rewrite H2|by rewrite H3|by rewrite H4|by rewrite H5|].
  intros r' Hr'. apply H6. destruct Hr' as [Hr'|[->|?]%elem_of_cons]; [left|left|by right];
    unfold registered, store_raw; simpl.
  - destruct (decide (getBrokerRawMagDigest r = getBrokerRawMagDigest r')) as [->|];
      [rewrite lookup_insert_eq; by eexists|by rewrite lookup_insert_ne].
  - rewrite lookup_insert_eq. by eexists.
Qed.

End broker.

(** ** Runs of the committee

    [routes] are the maps of accounts to shards that the committee may use: the fixed
    one of the broker committee, or every one where accounts migrate. *)

Section runs.
Context {PA : Params} {EX : External} (clock : nat → Time) (routes : (Address → go Z) → Prop).
Implicit Type c : BrokerCommittee.
Implicit Type bs : list Address.

(** The transactions that a message injects. *)
Definition txs_of (msg : string * payload) : list Transaction :=
  match msg.2 with MInject it => it_Txs it | _ => [] end.

(** [reach lines table c D R]: [c] after dealing the transactions [D] and being
    told of the transactions [R] by the shards' block reports, in any order; it may
    also send other messages. *)
Inductive reach (lines : list string) (table : gmap Z (gmap Z string))
    : BrokerCommittee → list Transaction → list Transaction → Prop :=
| reach_new : reach lines table (NewBrokerCommitteeMod lines table) [] []
| reach_deal fetch c D R txs c' :
    routes fetch → reach lines table c D R → bcm_send_batch clock fetch txs c = Ret c' →
    reach lines table c' (D ++ txs) R
| reach_report fetch c D R b c' :
    routes fetch → reach lines table c D R → bcm_HandleBlockInfo clock fetch b c = Ret c' →
    reach lines table c' D (R ++ bi_Broker1Txs b ++ bi_Broker2Txs b)
| reach_other c D R o :
    reach lines table c D R → (∀ msg, msg ∈ o → txs_of msg = []) →
    reach lines table (c <| bcm_out ::= λ l, l ++ o |>) D R.

(** The reasons to inject a transaction. *)
Definition reported_half1 (R : list Transaction) (a : Address) (tx : Transaction) : Prop :=
  ∃ r now, r ∈ R ∧ tx_TxHash r = tx_TxHash (half1 a tx now).
Inductive justified bs (D R : list Transaction) (t : Transaction) : Prop :=
| just_direct fetch tx : routes fetch → tx ∈ D → crosses fetch bs tx = false → t = broker_marked bs tx → justified bs D R t
| just_half1 fetch tx a now : routes fetch → tx ∈ D → crosses fetch bs tx = true → bs !! 0%nat = Some a →
    t = half1 a tx now → justified bs D R t
| just_half2 fetch tx a now : routes fetch → tx ∈ D → crosses fetch bs tx = true → bs !! 0%nat = Some a →
    t = half2 a tx now → reported_half1 R a tx → justified bs D R t.

Lemma justified_mono bs D D' R R' t : D ⊆ D' → R ⊆ R' → justified bs D R t → justified bs D' R' t.
Proof.
  intros HD HR [f tx Hf Ht Hc ->|f tx a now Hf Ht Hc Ha ->|f tx a now Hf Ht Hc Ha -> (r & n & Hr & E)].
  - eapply just_direct; eauto.
  - eapply just_half1; eauto.
  - eapply just_half2; eauto. exists r, n. eauto.
Qed.

(** A raw message of the committee. *)
Definition raw_ok bs (D : list Transaction) (r : BrokerRawMeg) : Prop :=
  ∃ fetch tx a, routes fetch ∧ r = raw_of a tx ∧ tx ∈ D ∧ crosses fetch bs tx = true ∧ bs !! 0%nat = Some a.

Record run_inv bs (D R : list Transaction) c : Prop := {
  ri_brokers : brokers c = bs;
  ri_pool : ∀ h m, brokerConfirm1Pool c !! h = Some m → raw_ok bs D (m1_RawMeg m)
    ∧ ∃ now, h = tx_TxHash (half1 (br_Broker (m1_RawMeg m)) (br_Tx (m1_RawMeg m)) now);
  ri_out : ∀ msg t, msg ∈ bcm_out c → t ∈ txs_of msg → justified bs D R t
}.

Lemma raw_ok_mono bs D D' r : D ⊆ D' → raw_ok bs D r → raw_ok bs D' r.
Proof. intros HD (f & tx & a & ? & -> & ? & ?). exists f, tx, a. auto. Qed.

Lemma run_inv_mono bs D D' R R' c : D ⊆ D' → R ⊆ R' → run_inv bs D R c → run_inv bs D' R' c.
Proof.
  intros HD HR [H1 H2 H3]. split; [done| |].
  - intros h m Hm. destruct (H2 h m Hm). split; [by eapply raw_ok_mono|done].
  - intros msg t Hm Ht. eapply justified_mono; [done..|]. by eapply H3.
Qed.

Lemma txSending_inv fetch bs D R txs c c' :
  run_inv bs D R c → (∀ t, t ∈ txs → justified bs D R t) → bcm_txSending fetch txs c = Ret c' → run_inv bs D R c'.
Proof.
  intros [H1 H2 H3] Ht (msgs & Hm & Hc)%bind_Ret. injection Hc as <-. split; [done|done|].
  intros msg t Hin Htx. simpl in Hin. apply elem_of_app in Hin as [Hin|Hin]; [by eapply H3|].
  apply Ht. destruct (tx_sending_sub _ _ _ _ _ _ _ _ Hm Hin Htx) as [?|[sid Hs]]; [done|].
  rewrite lookup_empty in Hs. by apply not_elem_of_nil in Hs.
Qed.

Lemma type1_inv fetch bs D R ms c c' :
  run_inv bs D R c → (∀ m, m ∈ ms → raw_ok bs D (b1_RawMeg m) ∧ b1_Broker m = br_Broker (b1_RawMeg m)) →
  handleBrokerType1Mes clock fetch ms c = Ret c' → run_inv bs D R c'.
Proof.
  intros [H1 H2 H3] Hms. unfold handleBrokerType1Mes.
  destruct (make_type1_loop clock ms [] c) as (c1 & -> & [M1 _ M3 M4 _]). apply txSending_inv.
  - split; [by unfold brokers; rewrite M1| |by rewrite M3].
    intros h m Hm. destruct (M4 h m Hm) as [?|(m1 & now & Hin & -> & ->)]; [by apply H2|]. simpl.
    destruct (Hms m1 Hin) as [? Hb]. split; [done|]. exists now. by rewrite <- Hb.
  - intros t (i & m & -> & Hi)%elem_of_lookup_imap. apply list_elem_of_lookup_2 in Hi.
    destruct (Hms m Hi) as [(f & tx & a & ? & E & ? & ? & ?) Hb]. rewrite Hb, E. simpl. eapply just_half1; eauto.
Qed.

(** What the loop over a batch collects. *)
Lemma deal_facts fetch c txs itxs raws :
  go_fold (deal_step fetch c) ([], []) txs = Ret (itxs, raws) →
  (∀ t, t ∈ itxs → ∃ tx, tx ∈ txs ∧ has_shards fetch tx ∧ crosses fetch (brokers c) tx = false
      ∧ t = broker_marked (brokers c) tx)
  ∧ ∀ r, r ∈ raws → ∃ tx a, r = raw_of a tx ∧ tx ∈ txs ∧ crosses fetch (brokers c) tx = true
      ∧ brokers c !! 0%nat = Some a.
Proof.
  apply (go_fold_inv (λ acc : list Transaction * list BrokerRawMeg,
    (∀ t, t ∈ acc.1 → ∃ tx, tx ∈ txs ∧ has_shards fetch tx ∧ crosses fetch (brokers c) tx = false
      ∧ t = broker_marked (brokers c) tx)
    ∧ ∀ r, r ∈ acc.2 → ∃ tx a, r = raw_of a tx ∧ tx ∈ txs ∧ crosses fetch (brokers c) tx = true
      ∧ brokers c !! 0%nat = Some a)); [|by split; intros ? ?%not_elem_of_nil].
  intros [its rs] tx acc' Htx [Hi Hr] (Hs & Hc)%deal_step_Ret.
  destruct (crosses fetch (brokers c) tx) eqn:Ec; [destruct Hc as (a & Ha & ->)|subst acc']; simpl.
  - split; [done|]. intros r [?| ->%list_elem_of_singleton]%elem_of_app; [by apply Hr|]. by exists tx, a.
  - split; [|done]. intros t [?| ->%list_elem_of_singleton]%elem_of_app; [by apply Hi|]. by exists tx.
Qed.

Lemma deal_inv fetch bs D R txs c c' :
  routes fetch → run_inv bs D R c → bcm_send_batch clock fetch txs c = Ret c' → run_inv bs (D ++ txs) R c'.
Proof.
  intros Hf Hinv. assert (brokers c = bs) as Hbs by apply Hinv.
  intros ([itx c1] & Hdeal & Hsend)%bind_Ret.
  apply bind_Ret in Hdeal as ([itxs raws] & Hloop & (c2 & Hraw & E)%bind_Ret). injection E as <- <-.
  apply deal_facts in Hloop as [Hi Hr]. rewrite Hbs in Hi, Hr.
  assert (txs ⊆ D ++ txs) as Hsub by set_solver.
  assert (run_inv bs (D ++ txs) R c) as Hc by (eapply run_inv_mono; [| |exact Hinv]; set_solver).
  eapply txSending_inv; [|intros t Ht|exact Hsend].
  - destruct raws as [|r raws]; [by injection Hraw as <-|].
    rewrite handleBrokerRawMag_eq in Hraw. eapply type1_inv; [| |exact Hraw].
    + destruct (stored_kept (r :: raws) c) as [K1 K2 K3 _ _ _]. destruct Hc as [H1 H2 H3].
      split; [by rewrite K1|by rewrite K2|by rewrite K3].
    + intros m (r' & -> & Hin)%list_elem_of_fmap. split; [|done]. eapply raw_ok_mono; [exact Hsub|].
      destruct (Hr r' Hin) as (tx & a & ? & ? & ? & ?). by exists fetch, tx, a.
  - destruct (Hi t Ht) as (tx & ? & _ & ? & ->). eapply just_direct; eauto.
Qed.

(** Noting the hash of a half touches nothing else. *)
Record noted c c' : Prop := {
  nt_brokers : brokers c' = brokers c;
  nt_raws : BrokerRawMegs (bcm_broker c') = BrokerRawMegs (bcm_broker c);
  nt_pool1 : brokerConfirm1Pool c' = brokerConfirm1Pool c;
  nt_out : bcm_out c' = bcm_out c;
  nt_table : bcm_table c' = bcm_table c;
  nt_ticks : bcm_ticks c' = bcm_ticks c
}.

Lemma noted_refl c : noted c c.
Proof. by split. Qed.
Lemma noted_trans c1 c2 c3 : noted c1 c2 → noted c2 c3 → noted c1 c3.
Proof. intros [] []. split; congruence. Qed.
Lemma note_half_noted r h c : noted c (note_half r h c).
Proof. by split. Qed.

Lemma tx2_noted ms c : noted c (handleTx2ConfirmMag ms c).
Proof.
  unfold handleTx2ConfirmMag. revert c. induction ms as [|m ms IH]; intros c; [apply noted_refl|]. simpl.
  eapply noted_trans; [|apply IH]. apply note_half_noted.
Qed.

Definition confirmed (m : Mag1Confirm) c : BrokerCommittee :=
  note_half (tx_TxHash (br_Tx (m1_RawMeg m))) (m1_Tx1Hash m) c.

Lemma confirm1_step_Ret acc c m acc' :
  confirm1_step (acc, c) m = Ret acc' ↔
  (¬ registered c (m1_RawMeg m) ∧ acc' = (acc, c))
  ∨ (registered c (m1_RawMeg m) ∧ ∃ a, brokers c !! 0%nat = Some a
      ∧ acc' = (acc ++ [mkBrokerType2 (m1_RawMeg m) a], confirmed m c)).
Proof.
  unfold confirm1_step, registered. destruct (_ !! getBrokerRawMagDigest (m1_RawMeg m)) as [r|].
  2:{ split; [intros [= <-]; left; split; [by intros []|done]|]. intros [[_ ->]|[[] _]]; done. }
  fold (confirmed m c). unfold first_broker. change (BrokerAddress (bcm_broker (confirmed m c))) with (brokers c).
  split.
  - intros (a & Ha & E)%bind_Ret. apply or_panic_Ret in Ha. injection E as <-. right. split; [by eexists|]. by exists a.
  - intros [[[] _]|(_ & a & Ha & ->)]; [by eexists|]. by rewrite Ha.
Qed.

Lemma confirm1_loop ms c acc :
  (∀ m, m ∈ ms → registered c (m1_RawMeg m)) → is_Some (brokers c !! 0%nat) →
  ∃ c', go_fold confirm1_step (acc, c) ms
        = Ret (acc ++ ((λ m, mkBrokerType2 (m1_RawMeg m) (default "" (brokers c !! 0%nat))) <$> ms), c')
    ∧ noted c c'.
Proof.
  intros Hr [a Ha]. rewrite Ha. cbn [from_option id]. revert acc c Hr Ha.
  induction ms as [|m ms IH]; intros acc c Hr Ha; cbn [go_fold].
  { exists c. rewrite app_nil_r. split; [done|apply noted_refl]. }
  rewrite (proj2 (confirm1_step_Ret acc c m (acc ++ [mkBrokerType2 (m1_RawMeg m) a], confirmed m c))).
  2:{ right. split; [apply Hr; by left|]. by exists a. }
  go_step. destruct (IH (acc ++ [mkBrokerType2 (m1_RawMeg m) a]) (confirmed m c)) as (c' & E & Hn');
    [intros; apply Hr; by right|exact Ha|].
  exists c'. split; [|eapply noted_trans; [apply note_half_noted|exact Hn']].
  rewrite E, <- (assoc_L (++)). done.
Qed.

(** *** The report step *)

Definition confirms1 c (txs : list Transaction) : list Mag1Confirm :=
  omap (λ tx, brokerConfirm1Pool c !! tx_TxHash tx) txs.

Lemma noted_inv bs D R c c' : noted c c' → run_inv bs D R c → run_inv bs D R c'.
Proof. intros [N1 _ N3 N4 _ _] [H1 H2 H3]. split; [congruence|by rewrite N3|by rewrite N4]. Qed.

(** What a step injects: transactions with [P], each at the shard it is routed to. *)
Definition sends (fetch : Address → go Z) c c' (P : Transaction → Prop) : Prop :=
  ∃ msgs, bcm_out c' = bcm_out c ++ msgs
    ∧ ∀ ip it t, (ip, MInject it) ∈ msgs → t ∈ it_Txs it → P t ∧ routed fetch (brokers c) t = Ret (it_ToShardID it).

Lemma sends_refl fetch c P : sends fetch c c P.
Proof. exists []. rewrite app_nil_r. split; [done|]. by intros ??? ?%not_elem_of_nil. Qed.

Lemma txSending_sends fetch txs c c' (P : Transaction → Prop) :
  (∀ t, t ∈ txs → P t) → bcm_txSending fetch txs c = Ret c' →
  sends fetch c c' P ∧ bcm_broker c' = bcm_broker c ∧ brokerConfirm1Pool c' = brokerConfirm1Pool c.
Proof.
  intros HP (msgs & Hm & [= <-])%bind_Ret. split; [|done]. exists msgs. split; [done|]. intros ip it t Hin Ht.
  assert (routed fetch (brokers c) t = Ret (it_ToShardID it)) as Hr.
  { refine (tx_sending_routed _ (broker_route fetch (bcm_broker c)) _ _ _ _ _ _ _ _ Hm Hin Ht).
    intros sid t' Ht'. rewrite lookup_empty in Ht'. by apply not_elem_of_nil in Ht'. }
  split; [|exact Hr]. apply HP. destruct (tx_sending_sub _ _ _ _ _ _ (ip, MInject it) t Hm Hin Ht) as [?|[sid Hs]]; [done|].
  rewrite lookup_empty in Hs. by apply not_elem_of_nil in Hs.
Qed.

(** What a batch becomes: transactions sent as they are, and first halves. *)
Definition dealt fetch bs (txs : list Transaction) (t : Transaction) : Prop :=
  ∃ tx, tx ∈ txs ∧
    ((has_shards fetch tx ∧ crosses fetch bs tx = false ∧ t = broker_marked bs tx)
     ∨ ∃ a now, crosses fetch bs tx = true ∧ bs !! 0%nat = Some a ∧ t = half1 a tx now).

Lemma batch_sends fetch txs c c' :
  bcm_send_batch clock fetch txs c = Ret c' → sends fetch c c' (dealt fetch (brokers c) txs).
Proof.
  intros ([itx c1] & ([itxs raws] & Hloop & (c2 & Hraw & [= <- <-])%bind_Ret)%bind_Ret & Hsend)%bind_Ret.
  apply deal_facts in Hloop as [Hi Hr]. set (P := dealt fetch (brokers c) txs).
  assert (sends fetch c c2 P ∧ brokers c2 = brokers c) as [(m1 & Ho1 & Hm1) Hb2].
  { destruct raws as [|r raws]; [injection Hraw as <-; split; [apply sends_refl|done]|].
    rewrite handleBrokerRawMag_eq in Hraw. destruct (stored_kept (r :: raws) c) as [K1 _ K3 _ _ _].
    set (c3 := foldl store_raw c _) in *. unfold handleBrokerType1Mes in Hraw.
    destruct (make_type1_loop clock (type1_of <$> r :: raws) [] c3) as (c4 & E & [M1 _ M3 _ _]). rewrite E in Hraw.
    assert (brokers c4 = brokers c) as Hb4 by (unfold brokers at 1; by rewrite M1).
    edestruct (txSending_sends fetch) as ((msgs & Ho & Hm) & Hb & _); [|exact Hraw|].
    2:{ split; [|by unfold brokers at 1; rewrite Hb]. exists msgs. rewrite <- Hb4, <- K3, <- M3. split; [exact Ho|exact Hm]. }
    - intros t (i & m & -> & Hin%list_elem_of_lookup_2)%elem_of_lookup_imap.
      apply list_elem_of_fmap in Hin as (r' & -> & Hin). destruct (Hr r' Hin) as (tx & a & -> & Htx & Hc & Ha).
      exists tx. split; [done|]. right. by eexists a, _. }
  edestruct (txSending_sends fetch) as ((m2 & Ho2 & Hm2) & _); [|exact Hsend|].
  2:{ exists (m1 ++ m2). rewrite Ho2, Ho1, (assoc_L (++)). split; [done|]. rewrite Hb2 in Hm2.
      intros ip it t [?|?]%elem_of_app; eauto. }
  - intros t Ht. destruct (Hi t Ht) as (tx & ? & ? & ? & ->). exists tx. split; [done|]. left. done.
Qed.

(** The second halves that a report pays. *)
Definition paid_half2 bs (D R : list Transaction) (t : Transaction) : Prop :=
  ∃ fetch tx a now, routes fetch ∧ tx ∈ D ∧ crosses fetch bs tx = true ∧ bs !! 0%nat = Some a
    ∧ t = half2 a tx now ∧ reported_half1 R a tx.

Lemma confirm_sends fetch bs D R txs ms c c' :
  run_inv bs D R c →
  (∀ m, m ∈ ms → raw_ok bs D (m1_RawMeg m) ∧ reported_half1 txs (br_Broker (m1_RawMeg m)) (br_Tx (m1_RawMeg m))) →
  handleTx1ConfirmMag clock fetch ms c = Ret c' →
  sends fetch c c' (paid_half2 bs D txs) ∧ brokers c' = bs ∧ brokerConfirm1Pool c' = brokerConfirm1Pool c.
Proof.
  intros Hinv Hms ([t2s c1] & Hloop & Hsend)%bind_Ret.
  assert (noted c c1 ∧ ∀ t2, t2 ∈ t2s → ∃ m, m ∈ ms ∧ b2_RawMeg t2 = m1_RawMeg m ∧ bs !! 0%nat = Some (b2_Broker t2))
    as [[N1 N2 N3 N4 _ _] Ht2].
  { revert Hloop. apply (go_fold_inv (λ acc : list BrokerType2Meg * BrokerCommittee, noted c acc.2 ∧
      ∀ t2, t2 ∈ acc.1 → ∃ m, m ∈ ms ∧ b2_RawMeg t2 = m1_RawMeg m ∧ bs !! 0%nat = Some (b2_Broker t2)));
      [|split; [apply noted_refl|by intros ? ?%not_elem_of_nil]].
    intros [l c3] m acc' Hm [Hn Hl] [[_ ->]|(_ & a & Ha & ->)]%confirm1_step_Ret; [done|]. cbn [fst snd] in *.
    split; [eapply noted_trans; [exact Hn|apply note_half_noted]|].
    intros t2 [?| ->%list_elem_of_singleton]%elem_of_app; [by apply Hl|]. exists m. split; [done|]. split; [done|].
    rewrite <- (ri_brokers _ _ _ _ Hinv), <- (nt_brokers _ _ Hn). exact Ha. }
  unfold handleBrokerType2Mes in Hsend.
  destruct (make_type2_loop clock t2s [] c1) as (c3 & E & [M1 _ M3 M4]). rewrite E in Hsend.
  apply (txSending_sends _ _ _ _ (paid_half2 bs D txs)) in Hsend as ((msgs & Ho & Hm) & Hb & Hp).
  - assert (brokers c3 = brokers c) as Hb3 by (unfold brokers at 1; rewrite M1; exact N1).
    split; [|split; [|congruence]].
    + exists msgs. rewrite <- Hb3, <- N4, <- M3. split; [exact Ho|exact Hm].
    + rewrite <- (ri_brokers _ _ _ _ Hinv), <- Hb3. unfold brokers. by rewrite Hb.
  - intros t Ht. apply elem_of_lookup_imap in Ht as (i & t2 & -> & Hi%list_elem_of_lookup_2).
    destruct (Ht2 t2 Hi) as (m & Hm & -> & Ha). destruct (Hms m Hm) as [(f & tx & a & Hf & Eraw & HD & Hc & Ha') Hrep].
    rewrite Eraw in *. simpl in *. assert (b2_Broker t2 = a) as -> by congruence.
    exists f, tx, a, (clock (bcm_ticks c1 + i)). by split_and!.
Qed.

Lemma report_sends fetch bs D R b c c' :
  run_inv bs D R c → bcm_HandleBlockInfo clock fetch b c = Ret c' →
  sends fetch c c' (paid_half2 bs D (bi_Broker1Txs b ++ bi_Broker2Txs b))
  ∧ brokers c' = bs ∧ brokerConfirm1Pool c' = brokerConfirm1Pool c.
Proof.
  set (txs := bi_Broker1Txs b ++ bi_Broker2Txs b). intros Hinv. pose proof (ri_brokers _ _ _ _ Hinv) as Hbs.
  assert (∀ c2, noted c2 c' → sends fetch c c2 (paid_half2 bs D txs) ∧ brokers c2 = bs
    ∧ brokerConfirm1Pool c2 = brokerConfirm1Pool c → sends fetch c c' (paid_half2 bs D txs) ∧ brokers c' = bs
    ∧ brokerConfirm1Pool c' = brokerConfirm1Pool c) as Hnoted.
  { intros c2 [N1 _ N3 N4 _ _] (Hs & H2 & H3). unfold sends. rewrite N1, N3, N4. done. }
  unfold bcm_HandleBlockInfo. destruct (_ =? 0); [intros [= <-]; split; [apply sends_refl|done]|].
  unfold createConfirm. fold txs. fold (confirms1 c txs). intros (c2 & H1 & H2)%bind_Ret.
  apply (Hnoted c2); [destruct (omap _ txs) as [|m2 l]; injection H2 as <-; [apply noted_refl|apply (tx2_noted (m2 :: l))]|].
  destruct (confirms1 c txs) as [|m0 ms] eqn:Em.
  { injection H1 as <-. split; [apply sends_refl|done]. }
  rewrite <- Em in H1. assert (handleTx1ConfirmMag clock fetch (confirms1 c txs) c = Ret c2) as H1' by (rewrite Em in *; exact H1).
  eapply confirm_sends; [exact Hinv| |exact H1'].
  intros m (tx & Htx & Hm)%list_elem_of_omap. destruct (ri_pool _ _ _ _ Hinv _ _ Hm) as [? [now E]].
  split; [done|]. by exists tx, now.
Qed.

Lemma report_inv fetch bs D R b c c' :
  run_inv bs D R c → bcm_HandleBlockInfo clock fetch b c = Ret c' →
  run_inv bs D (R ++ bi_Broker1Txs b ++ bi_Broker2Txs b) c'.
Proof.
  intros Hinv H. destruct (report_sends fetch bs D R b c c' Hinv H) as ((msgs & Ho & Hm) & Hb & Hp).
  set (txs := bi_Broker1Txs b ++ bi_Broker2Txs b) in *.
  destruct (run_inv_mono bs D D R (R ++ txs) c) as [_ I2 I3]; [done|set_solver|exact Hinv|].
  split; [exact Hb|by rewrite Hp|]. intros [ip [| | | | | | | | |it| | | | | | | | | | |]] t Hin Ht; try (by apply not_elem_of_nil in Ht).
  rewrite Ho in Hin. apply elem_of_app in Hin as [Hin|Hin]; [by eapply I3|].
  destruct (Hm ip it t Hin Ht) as [(f & tx & a & now & Hf & HD & Hc & Ha & -> & (r & n & Hr & E)) _].
  eapply just_half2; eauto. exists r, n. split; [set_solver|done].
Qed.

Lemma reach_inv lines table c D R :
  reach lines table c D R → run_inv (initBrokerAddr BrokerNum lines) D R c.
Proof.
  induction 1 as [|f c D R txs c' Hf _ IH Hd|f c D R b c' Hf _ IH Hr|c D R o _ [I1 I2 I3] Ho].
  - split; [done|by intros h m; simpl; rewrite lookup_empty|by intros msg t ?%not_elem_of_nil].
  - by eapply deal_inv.
  - by eapply report_inv.
  - split; [exact I1|exact I2|]. intros msg t [Hm|Hm]%elem_of_app Ht; [by eapply I3|].
    rewrite (Ho msg Hm) in Ht. by apply not_elem_of_nil in Ht.
Qed.

End runs.

Section calls.
Context {PA : Params} {EX : External} (clock : nat → Time) (fetch : Address → go Z).
Implicit Type c : BrokerCommittee.
Implicit Type bs : list Address.

(** *** What one call injects *)


Lemma routed_ok bs tx : has_shards fetch tx → returns (routed fetch bs tx).
Proof. intros [[s Es] [r Er]]. unfold routed. rewrite Es, Er. go_step. destruct (among _ _); by eexists. Qed.

Lemma bcm_txSending_ok c txs :
  0 < InjectSpeed → (∀ t, t ∈ txs → returns (routed fetch (brokers c) t)) →
  ∃ msgs, bcm_txSending fetch txs c = Ret (c <| bcm_out ::= λ o, o ++ msgs |>)
    ∧ ∀ sid, 0 ≤ sid < ShardNum → delivered sid msgs = to_shard (routed fetch (brokers c)) sid txs.
Proof.
  intros HI Hr. unfold bcm_txSending.
  change (broker_route fetch (bcm_broker c)) with (routed fetch (brokers c)).
  destruct (txSending_ok (bcm_table c) (routed fetch (brokers c)) txs HI Hr) as (msgs & -> & _ & Hd). by exists msgs.
Qed.

(** The first halves of [txs], through the broker [a]. *)
Definition firsts (a : Address) (k : nat) (txs : list Transaction) : list Transaction :=
  imap (λ i tx, half1 a tx (clock (k + i))) txs.
(** The second halves of the payments behind the confirmations [ms]. *)
Definition seconds (a : Address) (k : nat) (ms : list Mag1Confirm) : list Transaction :=
  imap (λ i m, half2 a (br_Tx (m1_RawMeg m)) (clock (k + i))) ms.

Lemma halves1_firsts a k txs : halves1 clock k (type1_of <$> (raw_of a <$> txs)) = firsts a k txs.
Proof. unfold halves1, firsts. rewrite !imap_fmap. done. Qed.
Lemma halves2_seconds a k ms : halves2 clock k ((λ m, mkBrokerType2 (m1_RawMeg m) a) <$> ms) = seconds a k ms.
Proof. unfold halves2, seconds. rewrite imap_fmap. done. Qed.

Lemma halves1_routed bs k a txs t :
  (∀ tx, tx ∈ txs → has_shards fetch tx ∧ among bs (tx_Sender tx) = false) → t ∈ firsts a k txs → returns (routed fetch bs t).
Proof.
  intros Htx (i & tx & -> & Hi%list_elem_of_lookup_2)%elem_of_lookup_imap.
  destruct (Htx tx Hi) as [[[s Es] _] Hb]. unfold routed. simpl. rewrite Es. go_step. rewrite Hb. by eexists.
Qed.

Lemma crosses_spec bs tx : crosses fetch bs tx = true → has_shards fetch tx ∧ among bs (tx_Sender tx) = false.
Proof.
  unfold crosses, has_shards. destruct (fetch (tx_Recipient tx)); [|done..].
  destruct (fetch (tx_Sender tx)); [|done..].
  rewrite !andb_true_iff, !negb_true_iff. intros [_ ?]. split; [by split; eexists|done].
Qed.

Lemma marked_shards bs tx : has_shards fetch tx → has_shards fetch (broker_marked bs tx).
Proof. unfold broker_marked. by destruct (_ || _). Qed.

Lemma type1_mes_ok c ms :
  0 < InjectSpeed → (∀ t, t ∈ halves1 clock (bcm_ticks c) ms → returns (routed fetch (brokers c) t)) →
  ∃ c' msgs, handleBrokerType1Mes clock fetch ms c = Ret c' ∧ bcm_out c' = bcm_out c ++ msgs
    ∧ bcm_broker c' = bcm_broker c ∧ bcm_table c' = bcm_table c
    ∧ (∀ sid, 0 ≤ sid < ShardNum → delivered sid msgs = to_shard (routed fetch (brokers c)) sid (halves1 clock (bcm_ticks c) ms))
    ∧ (∀ t, t ∈ halves1 clock (bcm_ticks c) ms → is_Some (brokerConfirm1Pool c' !! tx_TxHash t)).
Proof.
  intros HI Hr. unfold handleBrokerType1Mes.
  destruct (make_type1_loop clock ms [] c) as (c1 & -> & [M1 M2 M3 _ M5]). cbn [app] in *.
  assert (brokers c1 = brokers c) as Hb by (unfold brokers; by rewrite M1).
  destruct (bcm_txSending_ok c1 (halves1 clock (bcm_ticks c) ms) HI) as (msgs & E & Hd); [by rewrite Hb|].
  exists (c1 <| bcm_out ::= λ o, o ++ msgs |>), msgs. split; [exact E|]. simpl. rewrite M3, Hb in *.
  do 3 (split; [done|]). split; [exact Hd|]. intros t Ht. apply M5. right. apply list_elem_of_fmap. eauto.
Qed.

Lemma deal_ok c txs a :
  0 < InjectSpeed → brokers c !! 0%nat = Some a → (∀ tx, tx ∈ txs → has_shards fetch tx) →
  let bs := brokers c in let s := split_txs fetch bs txs in
  ∃ c' msgs, dealTxByBroker clock fetch txs c = Ret (direct_txs fetch bs txs, c') ∧ bcm_out c' = bcm_out c ++ msgs
    ∧ brokers c' = bs ∧ bcm_table c' = bcm_table c
    ∧ (∀ sid, 0 ≤ sid < ShardNum → delivered sid msgs = to_shard (routed fetch bs) sid (firsts a (bcm_ticks c) s))
    ∧ (∀ t, t ∈ firsts a (bcm_ticks c) s → is_Some (brokerConfirm1Pool c' !! tx_TxHash t))
    ∧ (∀ tx, tx ∈ s → registered c' (raw_of a tx)).
Proof.
  intros HI Ha Htx bs s. unfold dealTxByBroker.
  rewrite (deal_loop fetch c txs ([], []) Htx) by (rewrite Ha; by eexists). rewrite Ha. cbn [from_option id app fst snd].
  go_step. fold bs s. rewrite handleBrokerRawMag_eq.
  destruct (stored_kept (raw_of a <$> s) c) as [S1 S2 S3 S4 S5 S6]. set (c1 := foldl store_raw c _) in *.
  destruct (type1_mes_ok c1 (type1_of <$> (raw_of a <$> s)) HI) as (c2 & msgs & E & Ho & Hb & Ht & Hd & Hp).
  { rewrite S1, S5, halves1_firsts. intros t. apply halves1_routed. intros tx [Hc _]%list_elem_of_filter. by apply crosses_spec. }
  rewrite S1, S5, halves1_firsts in *.
  destruct s as [|t0 s'] eqn:Es.
  { exists c, []. split; [done|]. rewrite app_nil_r. do 3 (split; [done|]). split; [by intros|].
    split; intros ? Hin; by apply not_elem_of_nil in Hin. }
  exists c2, msgs. rewrite E. split; [done|]. rewrite Ho, S3. split; [done|].
  split; [unfold brokers; rewrite Hb; exact S1|]. split; [congruence|]. split; [exact Hd|]. split; [exact Hp|].
  intros tx Hin. unfold registered. rewrite Hb. apply S6. right. apply list_elem_of_fmap. eauto.
Qed.

Lemma report_ok c b a :
  let ms := confirms1 c (bi_Broker1Txs b ++ bi_Broker2Txs b) in
  0 < InjectSpeed → bi_BlockBodyLength b ≠ 0 → brokers c !! 0%nat = Some a → returns (fetch a) →
  (∀ m, m ∈ ms → registered c (m1_RawMeg m) ∧ returns (fetch (tx_Recipient (br_Tx (m1_RawMeg m))))) →
  ∃ c' msgs, bcm_HandleBlockInfo clock fetch b c = Ret c' ∧ bcm_out c' = bcm_out c ++ msgs
    ∧ (∀ sid, 0 ≤ sid < ShardNum → delivered sid msgs = to_shard (routed fetch (brokers c)) sid (seconds a (bcm_ticks c) ms))
    ∧ brokers c' = brokers c ∧ brokerConfirm1Pool c' = brokerConfirm1Pool c
    ∧ (∀ r, registered c' r ↔ registered c r).
Proof.
  intros ms HI Hb Ha [sa Hsa] Hms. unfold bcm_HandleBlockInfo. rewrite (proj2 (Z.eqb_neq _ _) Hb).
  set (txs := _ ++ _) in *. unfold createConfirm. fold (confirms1 c txs). fold ms.
  assert (∃ c1 msgs, (match ms with [] => Ret c | _ => handleTx1ConfirmMag clock fetch ms c end) = Ret c1
    ∧ bcm_out c1 = bcm_out c ++ msgs
    ∧ (∀ sid, 0 ≤ sid < ShardNum → delivered sid msgs = to_shard (routed fetch (brokers c)) sid (seconds a (bcm_ticks c) ms))
    ∧ brokers c1 = brokers c ∧ brokerConfirm1Pool c1 = brokerConfirm1Pool c
    ∧ (∀ r, registered c1 r ↔ registered c r)) as (c1 & msgs & -> & Ho & Hd & Hbr & Hp & Hrg).
  { destruct (confirm1_loop ms c [] (λ m Hm, proj1 (Hms m Hm))) as (c1 & Hloop & [N1 N2 N3 N4 N5 N6]);
      [rewrite Ha; by eexists|]. rewrite Ha in Hloop. cbn [from_option id app] in Hloop.
    destruct ms as [|m0 ms'] eqn:Em.
    { exists c, []. rewrite app_nil_r. split; [done|]. split; [done|]. split; [by intros|done]. }
    rewrite <- Em in *. unfold handleTx1ConfirmMag. rewrite Hloop. go_step. unfold handleBrokerType2Mes.
    destruct (make_type2_loop clock ((λ m, mkBrokerType2 (m1_RawMeg m) a) <$> ms) [] c1) as (c2 & -> & [M1 M2 M3 M4]).
    cbn [app]. rewrite N6, halves2_seconds.
    assert (brokers c2 = brokers c) as Hb2 by (unfold brokers at 1; rewrite M1; exact N1).
    destruct (bcm_txSending_ok c2 (seconds a (bcm_ticks c) ms) HI) as (msgs & E & Hd).
    { rewrite Hb2. intros t (i & m & -> & Hi%list_elem_of_lookup_2)%elem_of_lookup_imap. apply routed_ok.
      split; [by exists sa|by apply Hms]. }
    exists (c2 <| bcm_out ::= λ o, o ++ msgs |>), msgs. rewrite Hb2 in Hd. split; [exact E|]. simpl. rewrite M3, N4, M4, N3.
    do 2 (split; [done|]). split; [exact Hb2|]. split; [done|]. intros r. unfold registered. simpl. by rewrite M1, N2. }
  go_step. assert (∃ c', (match omap (λ tx, brokerConfirm2Pool c !! tx_TxHash tx) txs with [] => Ret c1
      | _ => Ret (handleTx2ConfirmMag (omap (λ tx, brokerConfirm2Pool c !! tx_TxHash tx) txs) c1) end) = Ret c'
      ∧ noted c1 c') as (c' & -> & [N1 N2 N3 N4 _ _]).
  { destruct (omap _ txs); eexists; (split; [reflexivity|]); [apply noted_refl|apply tx2_noted]. }
  exists c', msgs. rewrite N1, N3, N4. split; [done|]. do 4 (split; [done|]). intros r. rewrite <- Hrg. unfold registered. by rewrite N2.
Qed.

(** *** The halves on the ledgers *)

Lemma here_addr (bc : BlockChain) a k :
  bc_PartitionMap bc = ∅ → Addr2Shard a = Ret k → is_u64 k →
  Get_PartitionMap bc a = Ret k ∧ here bc a = (k =? bc_ShardID bc).
Proof.
  intros He Ha Hk. assert (Get_PartitionMap bc a = Ret k) as E.
  { unfold Get_PartitionMap. by rewrite He, lookup_empty, Ha; simpl; rewrite u64_id. }
  split; [done|]. unfold here. by rewrite E.
Qed.

(** One transaction without flags: what it does to a total. *)
Lemma plain_total (h : Address → bool) A l tx :
  NoDup A → tx_Sender tx ∈ A → tx_Recipient tx ∈ A → tx_Relayed tx = false → tx_HasBroker tx = false →
  tx_Value tx ≤ l (tx_Sender tx) →
  total A (exec_tx h l tx) = total A l
    + ((if h (tx_Recipient tx) then tx_Value tx else 0) - (if h (tx_Sender tx) then tx_Value tx else 0)).
Proof.
  intros HA Hs Hr Hrel Hb Hv. rewrite exec_tx_total by done. unfold rejected, debits, credits.
  rewrite Hrel, Hb, !orb_false_r. simpl. destruct (Z.ltb_spec (l (tx_Sender tx)) (tx_Value tx)); [lia|].
  by rewrite andb_false_r.
Qed.

End calls.

(** ** The graph committee *)

Section clpa.
Context {PA : Params} {EX : External}.
Implicit Type c : CLPACommittee.

Definition edges_of (txs : list Transaction) : list edge := (λ tx, (tx_Sender tx, tx_Recipient tx)) <$> txs.

Lemma add_edges U txs g :
  placed U g → cs_ShardNum g = ShardNum →
  (∀ tx, tx ∈ txs → tx_Sender tx ≠ tx_Recipient tx
     ∧ returns (Addr2Shard (tx_Sender tx)) ∧ returns (Addr2Shard (tx_Recipient tx))) →
  ∃ g', go_fold (λ g tx, CLPA.AddEdge (tx_Sender tx) (tx_Recipient tx) g) g txs = Ret g'
    ∧ placed (reverse (edges_of txs) ++ U) g' ∧ cs_ShardNum g' = ShardNum.
Proof.
  revert U g. induction txs as [|tx txs IH]; intros U g Hp Hn Htx; cbn [go_fold]; [by exists g|].
  destruct (Htx tx) as (Hne & Hs & Hr); [by left|].
  destruct (AddEdge_placed U g (tx_Sender tx) (tx_Recipient tx)) as (g1 & -> & Hp1 & Hn1 & _); [done..|]. go_step.
  destruct (IH _ g1 Hp1 Hn1) as (g' & -> & Hp' & Hn'); [intros; apply Htx; by right|].
  exists g'. split; [done|]. split; [|done]. unfold edges_of. rewrite fmap_cons, reverse_cons, <- (assoc_L (++)). exact Hp'.
Qed.

Definition in_shards (m : gmap string Z) : Prop := ∀ a s, m !! a = Some s → 0 ≤ s < ShardNum.

Lemma new_graph_placed (m : gmap string Z) :
  0 < ShardNum < 2 ^ 63 → in_shards m →
  ∃ g, new_graph = Ret g ∧ placed [] (g <| cs_PartitionMap := i64 <$> m |>) ∧ cs_ShardNum g = ShardNum.
Proof.
  intros HS Hm. unfold new_graph, CLPA.Init_CLPAState. rewrite make_ints_table by lia. go_step. eexists. split; [reflexivity|]. split; [|done].
  split; simpl; [done| | |].
  - split; [done|by intros e ?%not_elem_of_nil..].
  - intros v s. rewrite lookup_fmap. destruct (m !! v) as [s'|] eqn:E; [|done]. intros [= <-].
    apply Hm in E as Hs. rewrite i64_id by (unfold is_i64; lia). done.
  - by apply table_ext.
Qed.

(** The committee between two rounds; [U]: the edges of the executed transactions. *)
Record ccm_ok (U : list edge) c : Prop := {
  ck_graph : placed U (clpaGraph c);
  ck_shards : cs_ShardNum (clpaGraph c) = ShardNum;
  ck_map : in_shards (modifiedMap c)
}.

Lemma CLPA_Partition_range U g order :
  placed U g → cs_ShardNum g = ShardNum → (∀ i v, v ∈ order i → v ∈ VertexSet (NetGraph g)) →
  ∃ res cross g', CLPA.CLPA_Partition order g = Ret (res, cross, g') ∧ in_shards res.
Proof.
  intros Hp Hn Ho. unfold CLPA.CLPA_Partition. rewrite (placed_counted U g Hp). go_step.
  destruct (clpa_iters_ok U g order (Z.to_nat (MaxIterations (counted U g))) 0 (counted U g, ∅, ∅) Ho)
    as ([[g1 res] thr] & -> & [Hp1 _ _ Hn1 _ Hmv]).
  { split; simpl; try done. by apply counted_placed. }
  cbn [fst snd] in *. go_step. rewrite (placed_counted U g1 Hp1). go_step.
  eexists _, _, _. split; [reflexivity|]. intros a s Hs. specialize (Hmv a). rewrite Hs in Hmv.
  rewrite <- Hn, <- Hn1. by eapply (pl_range _ _ Hp1).
Qed.

Lemma in_shards_union m m' : in_shards m → in_shards m' → in_shards (m ∪ m').
Proof. intros H H' a s [?|[_ ?]]%lookup_union_Some_raw; [by eapply H|by eapply H']. Qed.

(** The partition map of a node after a transfer. *)
Lemma transfer_map atm (p p' : PbftNode Data_supportCLPA) :
  Clpa.accountTransfer_do atm p = Ret p' →
  bc_PartitionMap (CurChain p') = at_ModifiedMap atm ∪ bc_PartitionMap (CurChain p).
Proof.
  unfold Clpa.accountTransfer_do. rewrite update_all. intros (bc & Hbc & E)%bind_Ret. injection E as <-.
  destruct (AddAccounts_maps _ _ _ _ Hbc) as [Em _]. exact Em.
Qed.

End clpa.

