(* ===== verification/CommitteeProps.v ===== *)
(** * The supervisor's committees: properties *)

From S2P Require Import Prelude Params Core Message External Storage Chain Ledger ChainLemmas MerkleProof.
From S2P Require Import Partition PartitionLemmas PartitionProps Pbft Clpa ClpaProps Committee CommitteeLemmas.

Module CommitteeProps.
Section props.
Context {PA : Params} {EX : External} (clock : nat → Time).
(** Where the committee takes an account to live. *)
Context (fetch : Address → go Z).

(** Injection loses, duplicates and reorders nothing: with a positive
    [InjectSpeed] and a route for every transaction, the messages that [txSending]
    sends carry to each shard exactly the transactions routed there, in the order
    of the list; each message goes to the first node of a shard and holds at most
    [InjectSpeed] transactions. *)
Theorem txSending_delivers (table : gmap Z (gmap Z string)) (route : Transaction → go Z) (txs : list Transaction) :
  0 < InjectSpeed → (∀ tx, tx ∈ txs → returns (route tx)) →
  ∃ msgs, txSending table route txs = Ret msgs
    ∧ (∀ msg, msg ∈ msgs → ∃ it, msg = (node0_of table (it_ToShardID it), MInject it)
         ∧ 0 ≤ it_ToShardID it < ShardNum ∧ len (it_Txs it) ≤ InjectSpeed)
    ∧ (∀ sid, 0 ≤ sid < ShardNum → delivered sid msgs = to_shard route sid txs).
Proof.
  intros HI Hr. destruct (txSending_ok table route txs HI Hr) as (msgs & E & Hm & Hd).
  exists msgs. split; [exact E|]. split; [|exact Hd]. by apply Forall_forall.
Qed.


(** C11. Atomicity of a split payment, from the supervisor's side: in every run,
    whatever the batches and the blocks reported, and for any maps of accounts to
    shards in [routes], each injected transaction is a dealt one that needed no
    split, the first half of one that did, or its second half, and the latter only
    if a block was reported with the hash of the first. *)
Theorem second_half_needs_the_first (routes : (Address → go Z) → Prop) lines table (c : BrokerCommittee)
    (D R : list Transaction) (ip : string) (it : InjectTxs) (t : Transaction) :
  reach clock routes lines table c D R → (ip, MInject it) ∈ bcm_out c → t ∈ it_Txs it →
  justified routes (initBrokerAddr BrokerNum lines) D R t.
Proof. intros Hc Hm Ht. by eapply (ri_out _ _ _ _ _ (reach_inv clock routes _ _ _ _ _ Hc)). Qed.

(** A report that names first halves on record makes exactly their second
    halves, injected in the recipients' shards.  The records are kept: the same
    report would make the second halves again. *)
Theorem report_pays_second_halves (c : BrokerCommittee) (b : BlockInfoMsg) (a : Address) :
  let ms := confirms1 c (bi_Broker1Txs b ++ bi_Broker2Txs b) in
  0 < InjectSpeed → bi_BlockBodyLength b ≠ 0 → brokers c !! 0%nat = Some a → returns (fetch a) →
  (∀ m, m ∈ ms → registered c (m1_RawMeg m) ∧ returns (fetch (tx_Recipient (br_Tx (m1_RawMeg m))))) →
  ∃ c' msgs, bcm_HandleBlockInfo clock fetch b c = Ret c' ∧ bcm_out c' = bcm_out c ++ msgs
    ∧ (∀ sid, 0 ≤ sid < ShardNum → delivered sid msgs =
         to_shard (λ t, fetch (tx_Recipient t)) sid (seconds clock a (bcm_ticks c) ms))
    ∧ confirms1 c' (bi_Broker1Txs b ++ bi_Broker2Txs b) = ms
    ∧ (∀ r, registered c' r ↔ registered c r).
Proof.
  intros ms HI Hb Ha [sa Hsa] Hms.
  destruct (report_ok clock fetch c b a HI Hb Ha) as (c' & msgs & E & Ho & Hd & _ & Hp & Hr); [by eexists|exact Hms|].
  exists c', msgs. split; [exact E|]. split; [exact Ho|]. split; [|split; [by unfold confirms1; rewrite Hp|exact Hr]].
  intros sid Hsid. rewrite (Hd sid Hsid). unfold to_shard. apply filter_ext_in.
  intros t (i & m & -> & _)%elem_of_lookup_imap. unfold routed. simpl. rewrite Hsa. go_step.
  assert (among (brokers c) a = true) as -> by (apply bool_decide_eq_true_2; by eapply list_elem_of_lookup_2).
  done.
Qed.

(** C30. The halves of a split payment on the two ledgers (no account migrated, both
    payers funded): the sender's shard and the recipient's shard together gain the
    value if the broker's address shard is the sender's, lose it if it is the
    recipient's, and keep their total otherwise: the halves do not carry the flag
    that makes both shards book the broker's side. *)
Theorem halves_mint_or_burn {EXO : ExternalOk} (src dst : BlockChain) (l1 l2 : ledger)
    (a : Address) (tx : Transaction) (A1 A2 : list Address) (k : Z) (now1 now2 : Time) :
  has_ledger src l1 → has_ledger dst l2 →
  bc_PartitionMap src = ∅ → bc_PartitionMap dst = ∅ → bc_ShardID src ≠ bc_ShardID dst →
  Addr2Shard (tx_Sender tx) = Ret (bc_ShardID src) → Addr2Shard (tx_Recipient tx) = Ret (bc_ShardID dst) →
  Addr2Shard a = Ret k → 0 < ShardNum < 2 ^ 63 →
  NoDup A1 → NoDup A2 → tx_Sender tx ∈ A1 → a ∈ A1 → a ∈ A2 → tx_Recipient tx ∈ A2 →
  tx_Value tx ≤ l1 (tx_Sender tx) → tx_Value tx ≤ l2 a →
  ∃ rt1 src' rt2 dst' l1' l2',
    GetUpdateStatusTrie [half1 a tx now1] src = Ret (rt1, src')
    ∧ GetUpdateStatusTrie [half2 a tx now2] dst = Ret (rt2, dst')
    ∧ represents (bc_triedb src') rt1 l1' ∧ represents (bc_triedb dst') rt2 l2'
    ∧ total A1 l1' + total A2 l2' = total A1 l1 + total A2 l2
      + (if k =? bc_ShardID src then tx_Value tx
         else if k =? bc_ShardID dst then - tx_Value tx else 0).
Proof.
  intros Hl1 Hl2 He1 He2 Hne Hs Hr Ha HN HA1 HA2 Hs1 Ha1 Ha2 Hr2 Hv1 Hv2.
  assert (∀ x s, Addr2Shard x = Ret s → is_u64 s) as Hu.
  { intros x s Hx%Addr2Shard_bound; [unfold is_u64; lia|lia]. }
  destruct (here_addr src _ _ He1 Hs (Hu _ _ Hs)) as [Gs Es], (here_addr src _ _ He1 Ha (Hu _ _ Ha)) as [Ga Ea].
  destruct (here_addr dst _ _ He2 Hr (Hu _ _ Hr)) as [Gr Er], (here_addr dst _ _ He2 Ha (Hu _ _ Ha)) as [Gb Eb].
  destruct (status_trie_ok src l1 [half1 a tx now1] Hl1) as (rt1 & db1 & -> & Hrep1 & _).
  { intros t ->%list_elem_of_singleton. split; by eexists. }
  destruct (status_trie_ok dst l2 [half2 a tx now2] Hl2) as (rt2 & db2 & -> & Hrep2 & _).
  { intros t ->%list_elem_of_singleton. split; by eexists. }
  eexists _, _, _, _, _, _. split; [reflexivity|]. split; [reflexivity|]. split; [exact Hrep1|]. split; [exact Hrep2|].
  unfold exec_txs. cbn [foldl]. rewrite (plain_total _ A1 l1 (half1 a tx now1)), (plain_total _ A2 l2 (half2 a tx now2)) by done.
  simpl. rewrite Es, Ea, Er, Eb, !Z.eqb_refl.
  destruct (Z.eqb_spec k (bc_ShardID src)), (Z.eqb_spec k (bc_ShardID dst)); lia.
Qed.

(** The graph committee stays well formed: a block report advances the epoch by
    one step only, and adds to the graph exactly the edges of the transactions that
    were finished by the block (inner and second-half ones), for payments between
    two distinct accounts; a report of an empty block adds none. *)
Theorem block_info_feeds_the_graph (U : list edge) (c : CLPACommittee) (b : BlockInfoMsg) :
  ccm_ok U c →
  (∀ tx, tx ∈ bi_InnerShardTxs b ++ bi_Relay2Txs b → tx_Sender tx ≠ tx_Recipient tx
     ∧ returns (Addr2Shard (tx_Sender tx)) ∧ returns (Addr2Shard (tx_Recipient tx))) →
  ∃ c', ccm_HandleBlockInfo b c = Ret c'
    ∧ ccm_ok (reverse (edges_of (if bi_BlockBodyLength b =? 0 then []
                                 else bi_InnerShardTxs b ++ bi_Relay2Txs b)) ++ U) c'
    ∧ modifiedMap c' = modifiedMap c ∧ ccm_out c' = ccm_out c
    ∧ curEpoch c' = if curEpoch c =? i32 (bi_Epoch b - 1) then i32 (bi_Epoch b) else curEpoch c.
Proof.
  intros [Hg Hn Hm] Htx. unfold ccm_HandleBlockInfo.
  set (c1 := if curEpoch c =? i32 (bi_Epoch b - 1) then c <| curEpoch := i32 (bi_Epoch b) |> else c).
  assert (clpaGraph c1 = clpaGraph c ∧ modifiedMap c1 = modifiedMap c ∧ ccm_out c1 = ccm_out c
    ∧ curEpoch c1 = if curEpoch c =? i32 (bi_Epoch b - 1) then i32 (bi_Epoch b) else curEpoch c)
    as (E1 & E2 & E3 & E4) by (unfold c1; by destruct (_ =? i32 _)).
  clearbody c1. destruct (bi_BlockBodyLength b =? 0).
  { exists c1. split; [done|]. split; [|done]. split; simpl; by rewrite ?E1, ?E2. }
  destruct (add_edges U (bi_InnerShardTxs b ++ bi_Relay2Txs b) (clpaGraph c1)) as (g & -> & Hg' & Hn');
    [by rewrite E1|by rewrite E1|done|]. go_step.
  eexists. split; [reflexivity|]. split; [|done]. split; simpl; [done|done|by rewrite E2].
Qed.

(** C28. Supervisor and shards agree on where an account lives: a new partition
    always terminates, its map is broadcast to every shard, the graph starts afresh
    from the merged map, and any node that had the supervisor's map and commits a
    transfer carrying the broadcast one routes every address as the supervisor does. *)
Theorem repartition_agrees (U : list edge) (c : CLPACommittee) (order : nat → list Vertex) :
  ccm_ok U c → 0 < ShardNum < 2 ^ 63 → (∀ i v, v ∈ order i → v ∈ VertexSet (NetGraph (clpaGraph c))) →
  ∃ mmap c', repartition order c = Ret c' ∧ ccm_ok [] c'
    ∧ ccm_out c' = ccm_out c
        ++ ((λ i, (node0_of (ccm_table c) i, MPartitionMap (mkPartitionMap mmap))) <$> seqZ 0 ShardNum)
    ∧ cs_PartitionMap (clpaGraph c') = modifiedMap c'
    ∧ ∀ (p p' : PbftNode Data_supportCLPA) atm,
        bc_PartitionMap (CurChain p) = modifiedMap c → at_ModifiedMap atm = mmap →
        Clpa.accountTransfer_do atm p = Ret p' →
        ∀ key, fetchModifiedMap c' key = Get_PartitionMap (CurChain p') key.
Proof.
  intros [Hg Hn Hm] HS Ho. unfold repartition.
  destruct (CLPA_Partition_range U (clpaGraph c) order Hg Hn Ho) as (mmap & cross & g' & -> & Hr). go_step.
  assert (in_shards (mmap ∪ modifiedMap c)) as Hu by by apply in_shards_union.
  destruct (new_graph_placed _ HS Hu) as (g & Eg & Hg2 & Hn2). unfold clpaReset. rewrite Eg. go_step.
  exists mmap. eexists. split; [reflexivity|]. split; [by split|]. split; [reflexivity|]. split.
  - simpl. apply map_eq. intros a. rewrite lookup_fmap. destruct ((mmap ∪ modifiedMap c) !! a) as [s|] eqn:E; [|done].
    apply Hu in E. simpl. by rewrite i64_id by (unfold is_i64; lia).
  - intros p p' atm Hp Hatm Hdo key. apply transfer_map in Hdo. unfold fetchModifiedMap, Get_PartitionMap.
    rewrite Hdo, Hp, Hatm. simpl. by destruct ((mmap ∪ modifiedMap c) !! key).
Qed.

End props.

(** *** Witnesses: two shards; the brokers are "c0", of shard 0, and "d1", of shard 1 *)

Import LedgerProps.
#[local] Existing Instances RefExternal.ext RefExternal.ext_ok params4.

Definition tick (n : nat) : Time := Z.of_nat n.
Definition lines2 : list string := ["c0"; "d1"]%string.
Definition table2 : gmap Z (gmap Z string) := {[ 0 := {[ 0 := "ip0"%string ]}; 1 := {[ 0 := "ip1"%string ]} ]}.
Definition batch : list Transaction := [pay "a0" "b1" 5; pay "a0" "b0" 3; pay "c0" "b1" 2].
Definition bcm0 : BrokerCommittee := NewBrokerCommitteeMod lines2 table2.
Definition bcm1 : BrokerCommittee := ret_or bcm0 (bcm_send_batch tick addr_shard batch bcm0).
Definition t1 : Transaction := half1 "c0" (pay "a0" "b1" 5) 0.
Definition report : BlockInfoMsg := mkBlockInfo 1 [] 0 7 8 0 [] [] [t1] [].
Definition bcm2 : BrokerCommittee := ret_or bcm1 (bcm_HandleBlockInfo tick addr_shard report bcm1).

Lemma txSending_delivers_witness :
  ∃ msgs, txSending table2 relay_route batch = Ret msgs
    ∧ (∀ msg, msg ∈ msgs → ∃ it, msg = (node0_of table2 (it_ToShardID it), MInject it)
         ∧ 0 ≤ it_ToShardID it < ShardNum ∧ len (it_Txs it) ≤ InjectSpeed)
    ∧ (∀ sid, 0 ≤ sid < ShardNum → delivered sid msgs = to_shard relay_route sid batch).
Proof. apply (txSending_delivers table2 relay_route batch); [reflexivity|]. each_elem; eexists; vm_compute; reflexivity. Defined.


Lemma bcm2_reach : reach tick (eq addr_shard) lines2 table2 bcm2 ([] ++ batch) ([] ++ [t1] ++ []).
Proof.
  eapply (reach_report tick (eq addr_shard) lines2 table2 addr_shard bcm1 _ _ report); [done|eapply reach_deal; [done|apply reach_new|]|].
  - apply is_Ret_or. vm_compute. reflexivity.
  - apply is_Ret_or. vm_compute. reflexivity.
Qed.

(** The second half went out after the report of the first. *)
Lemma second_half_needs_the_first_witness :
  let t2 := half2 "c0" (pay "a0" "b1" 5) 1 in
  justified (eq addr_shard) (initBrokerAddr BrokerNum lines2) batch [t1] t2.
Proof.
  intros t2. apply (second_half_needs_the_first tick (eq addr_shard) lines2 table2 bcm2 batch [t1] "ip1" (mkInject [t2] 1)).
  - apply bcm2_reach.
  - assert (last (bcm_out bcm2) = Some ("ip1"%string, MInject (mkInject [t2] 1))) as E by (vm_compute; reflexivity).
    apply last_Some in E as [l ->]. apply elem_of_app. right. by left.
  - by left.
Defined.

Lemma report_pays_second_halves_witness :
  let ms := confirms1 bcm1 [t1] in
  br_Tx <$> (m1_RawMeg <$> ms) = [pay "a0" "b1" 5]
  ∧ ∃ c' msgs, bcm_HandleBlockInfo tick addr_shard report bcm1 = Ret c' ∧ bcm_out c' = bcm_out bcm1 ++ msgs
    ∧ (∀ sid, 0 ≤ sid < ShardNum → delivered sid msgs =
         to_shard (λ t, addr_shard (tx_Recipient t)) sid (seconds tick "c0" 1 ms))
    ∧ confirms1 c' [t1] = ms ∧ (∀ r, registered c' r ↔ registered bcm1 r).
Proof.
  split; [vm_compute; reflexivity|]. apply (report_pays_second_halves tick addr_shard bcm1 report "c0").
  - reflexivity.
  - done.
  - vm_compute; reflexivity.
  - eexists; vm_compute; reflexivity.
  - assert (confirms1 bcm1 [t1] = [mkMag1 (tx_TxHash t1) (raw_of "c0" (pay "a0" "b1" 5))]) as E by (vm_compute; reflexivity).
    intros m Hm. assert (m ∈ confirms1 bcm1 [t1]) as Hm' by exact Hm. rewrite E in Hm'.
    apply list_elem_of_singleton in Hm' as ->. split; [|eexists; vm_compute; reflexivity].
    unfold registered. by_compute.
Defined.

(** The broker "c0" has its account in the sender's shard: five units appear. *)
Lemma halves_mint_or_burn_witness :
  let tx := pay "a0" "b1" 5 in
  ∃ rt1 src' rt2 dst' l1' l2',
    GetUpdateStatusTrie [half1 "c0" tx 0] (empty_chain 0) = Ret (rt1, src')
    ∧ GetUpdateStatusTrie [half2 "c0" tx 1] (empty_chain 1) = Ret (rt2, dst')
    ∧ represents (bc_triedb src') rt1 l1' ∧ represents (bc_triedb dst') rt2 l2'
    ∧ total ["a0"; "c0"]%string l1' + total ["c0"; "b1"]%string l2'
      = total ["a0"; "c0"]%string (λ _, Init_Balance) + total ["c0"; "b1"]%string (λ _, Init_Balance) + 5.
Proof.
  intros tx. apply (halves_mint_or_burn (empty_chain 0) (empty_chain 1) (λ _, Init_Balance) (λ _, Init_Balance)
    "c0" tx ["a0"; "c0"]%string ["c0"; "b1"]%string 0 0 1).
  all: try apply empty_chain_ledger; try reflexivity; try (by_compute); try (vm_compute; discriminate).
Defined.

Definition ccm0 : CLPACommittee := mkCCM 0 PartitionProps.cs5 ∅ table2 [].
Lemma ccm0_ok : ccm_ok (reverse PartitionProps.es5) ccm0.
Proof. split; [apply PartitionProps.cs5_placed|reflexivity|by intros a s; simpl; rewrite lookup_empty]. Qed.

Lemma block_info_feeds_the_graph_witness :
  let b := mkBlockInfo 3 [pay "a0" "b0" 3] 1 7 8 0 [pay "a0" "b1" 5] [pay "d1" "c0" 2] [] [] in
  ∃ c', ccm_HandleBlockInfo b ccm0 = Ret c'
    ∧ ccm_ok ([("d1", "c0"); ("a0", "b0")]%string ++ reverse PartitionProps.es5) c'
    ∧ modifiedMap c' = ∅ ∧ ccm_out c' = [] ∧ curEpoch c' = 1.
Proof.
  intros b. apply (block_info_feeds_the_graph (reverse PartitionProps.es5) ccm0 b ccm0_ok).
  change (bi_InnerShardTxs b ++ bi_Relay2Txs b) with [pay "a0" "b0" 3; pay "d1" "c0" 2].
  each_elem; (split; [by_compute|split; eexists; vm_compute; reflexivity]).
Defined.

Lemma repartition_agrees_witness :
  ∃ mmap c', repartition (λ _, elements (VertexSet (NetGraph PartitionProps.cs5))) ccm0 = Ret c' ∧ ccm_ok [] c'
    ∧ ccm_out c' = ((λ i, (node0_of table2 i, MPartitionMap (mkPartitionMap mmap))) <$> seqZ 0 ShardNum)
    ∧ ∀ (p p' : PbftNode Data_supportCLPA) atm,
        bc_PartitionMap (CurChain p) = ∅ → at_ModifiedMap atm = mmap →
        Clpa.accountTransfer_do atm p = Ret p' →
        ∀ key, fetchModifiedMap c' key = Get_PartitionMap (CurChain p') key.
Proof.
  destruct (repartition_agrees (reverse PartitionProps.es5) ccm0 (λ _, elements (VertexSet (NetGraph PartitionProps.cs5))) ccm0_ok)
    as (mmap & c' & E & Hok & Ho & _ & Ha).
  - split; reflexivity.
  - intros _ v. apply elem_of_elements.
  - exists mmap, c'. split; [exact E|]. split; [exact Hok|]. split; [exact Ho|exact Ha].
Defined.

End CommitteeProps.
