(* ===== verification/DataFeed.v ===== *)
(** * The supervisor's input: reading the data set, injecting it, re-partitioning

    [MsgSendingControl] and [data2tx] of supervisor/committee/*.go.  The CSV file is
    the list of its records, each a list of fields.

    - The relay, SZHBFT and broker committees read the file in one loop ([feed]).
    - The CLPA committees also re-partition when their timer is due, and then wait
      until the shards report the new epoch; reports are handled by other goroutines
      meanwhile.  They are a step relation ([control_step]): one record read, one
      report handled, one test of a waiting loop.  Clock readings label the steps. *)

From Stdlib Require Import Ascii.
From S2P Require Import Prelude Params Core Message External Storage Chain MerkleProof Partition Committee.

(** ** One record of the file *)

(** [new(big.Int).SetString(s, 10)]: an optional sign and at least one digit. *)
Fixpoint decimal_digits (acc : Z) (s : string) : option Z :=
  match s with
  | EmptyString => Some acc
  | String c s =>
      let d := Z.of_nat (Ascii.nat_of_ascii c) - 48 in
      if (0 <=? d) && (d <=? 9) then decimal_digits (10 * acc + d) s else None
  end.
Definition SetString10 (s : string) : option Z :=
  match s with
  | EmptyString => None
  | String c s' =>
      let unsigned (s : string) := match s with EmptyString => None | _ => decimal_digits 0 s end in
      if Ascii.eqb c "-"%char then Z.opp <$> unsigned s'
      else if Ascii.eqb c "+"%char then unsigned s'
      else unsigned s
  end.

Definition column (data : list string) (i : nat) : go string := or_panic "index out of range" (data !! i).
Definition drop2 (s : string) : string := String.substring 2 (String.length s - 2) s.

Section data2tx.
Context {EX : External}.

Definition data2tx (now : Time) (data : list string) (nonce : Z) : go (option Transaction) :=
  c6 ← column data 6;
  if negb (String.eqb c6 "0") then Ret None
  else
    c7 ← column data 7;
    if negb (String.eqb c7 "0") then Ret None
    else
      c3 ← column data 3;
      c4 ← column data 4;
      if (16 <? String.length c3)%nat && (16 <? String.length c4)%nat && negb (String.eqb c3 c4) then
        c8 ← column data 8;
        val ← or_panic "new int failed" (SetString10 c8);
        Ret (Some (NewTransaction (drop2 c3) (drop2 c4) val nonce now))
      else Ret None.

(** The copy of the relay committee. *)
Definition data2tx_Szhbft (now : Time) (data : list string) (nonce : Z) : go (option Transaction) :=
  data2tx now data nonce.
End data2tx.

(** ** The reading loop *)

(** The fields of a committee that the loop uses, its [txlist], and the rest [S]. *)
Record Feed (S : Type) := mkFeed {
  nowDataNum : Z;
  fd_txlist : list Transaction;
  fd_Ss : StopSignal;
  fd_com : S
}.
Arguments mkFeed {S}. Arguments nowDataNum {S}. Arguments fd_txlist {S}. Arguments fd_Ss {S}. Arguments fd_com {S}.
#[export] Instance Feed_eta S : Eta (Feed S) := λ f,
  mkFeed (nowDataNum f) (fd_txlist f) (fd_Ss f) (fd_com f).

Section feed.
Context {EX : External} {S : Type}.
Context (dataTotalNum batchDataNum : Z).
(** The clock when the [i]-th record is read, and what is done with a batch. *)
Context (born : nat → Time) (send : list Transaction → S → go S).
Implicit Type f : Feed S.

(** The transaction of the record is taken up, if it has one. *)
Definition take_up (now : Time) (data : list string) f : go (bool * Feed S) :=
  tx ← data2tx now data (u64 (nowDataNum f));
  match tx with
  | Some tx => Ret (true, f <| fd_txlist ::= λ l, l ++ [tx] |> <| nowDataNum ::= λ n, i64 (n + 1) |>)
  | None => Ret (false, f)
  end.

(** The batch is sent when it is full, or the last one. *)
Definition send_full f : go (Feed S) :=
  if (len (fd_txlist f) =? batchDataNum) || (nowDataNum f =? dataTotalNum) then
    s ← send (fd_txlist f) (fd_com f);
    Ret (f <| fd_com := s |> <| fd_txlist := [] |> <| fd_Ss ::= StopGap_Reset |>)
  else Ret f.

(** One turn; the result tells whether the loop ends.  [skip]: a record without a
    transaction is skipped by [continue]. *)
Definition feed_row (skip : bool) (now : Time) (data : list string) f : go (bool * Feed S) :=
  '(ok, f) ← take_up now data f;
  if skip && negb ok then Ret (false, f)
  else f ← send_full f; Ret (nowDataNum f =? dataTotalNum, f).

Fixpoint feed (skip : bool) (i : nat) (rows : list (list string)) f : go (Feed S) :=
  match rows with
  | [] => Ret f
  | data :: rows =>
      '(stop, f) ← feed_row skip (born i) data f;
      if stop : bool then Ret f else feed skip (Datatypes.S i) rows f
  end.

End feed.

(** ** The committees without a timer *)

(** A committee that only routes: its table, and what it sent. *)
Record SendingCommittee := mkSC { sc_table : gmap Z (gmap Z string); sc_out : list (string * payload) }.
#[export] Instance SendingCommittee_eta : Eta SendingCommittee := λ c, mkSC (sc_table c) (sc_out c).

Section plain.
Context {PA : Params} {EX : External} (dataTotalNum batchDataNum : Z) (born : nat → Time).

(** [committee_relay.go] *)
Definition NewRelayCommitteeModule (table : gmap Z (gmap Z string)) (Ss : StopSignal) : Feed SendingCommittee :=
  mkFeed 0 [] Ss (mkSC table []).
Definition rthm_txSending (txs : list Transaction) (c : SendingCommittee) : go SendingCommittee :=
  msgs ← txSending (sc_table c) relay_route txs; Ret (c <| sc_out ::= λ o, o ++ msgs |>).
Definition relay_MsgSendingControl (rows : list (list string)) (f : Feed SendingCommittee) :=
  feed dataTotalNum batchDataNum born rthm_txSending false 0 rows f.
Definition relay_HandleBlockInfo (b : BlockInfoMsg) (c : SendingCommittee) : SendingCommittee := c.
Definition relay_HandleOtherMessage (m : payload) (c : SendingCommittee) : SendingCommittee := c.

(** [committee_szhbft.go], the same code. *)
Definition NewSzhbftCommitteeModule (table : gmap Z (gmap Z string)) (Ss : StopSignal) : Feed SendingCommittee :=
  mkFeed 0 [] Ss (mkSC table []).
Definition szhbft_txSending (txs : list Transaction) (c : SendingCommittee) : go SendingCommittee :=
  rthm_txSending txs c.
Definition szhbft_MsgSendingControl (rows : list (list string)) (f : Feed SendingCommittee) :=
  feed dataTotalNum batchDataNum born szhbft_txSending false 0 rows f.
Definition szhbft_HandleBlockInfo (b : BlockInfoMsg) (c : SendingCommittee) : SendingCommittee := c.
Definition szhbft_HandleOtherMessage (m : payload) (c : SendingCommittee) : SendingCommittee := c.

(** [committee_broker.go] *)
Definition bcm_MsgSendingControl (clock : nat → Time) (rows : list (list string)) (f : Feed BrokerCommittee) :=
  feed dataTotalNum batchDataNum born (bcm_send_batch clock addr_shard) true 0 rows f.
End plain.

(** ** The committees that re-partition *)

(** Where [MsgSendingControl] is: before a record; waiting for the epoch, with what it
    goes back to; in the loop after the last record; at its end. *)
Inductive phase : Type :=
| Reading (rows : list (list string))
| Waiting (next : phase)
| Draining
| Finished.

Record Control (S : Type) := mkControl {
  ct_feed : Feed S;
  clpaCnt : Z;
  clpaLastRunningTime : Time;
  ct_phase : phase
}.
Arguments mkControl {S}. Arguments ct_feed {S}. Arguments clpaCnt {S}. Arguments clpaLastRunningTime {S}. Arguments ct_phase {S}.
#[export] Instance Control_eta S : Eta (Control S) := λ c,
  mkControl (ct_feed c) (clpaCnt c) (clpaLastRunningTime c) (ct_phase c).

(** What the loop asks of a committee: sending a batch, the epoch that the shards have
    reported, a new partition (given the orders in which Go visits its maps), and the
    handler of reports. *)
Record CommitteeOps (S : Type) := mkOps {
  op_send : list Transaction → S → go S;
  op_epoch : S → Z;
  op_repartition : (nat → list Vertex) → S → go S;
  op_report : BlockInfoMsg → S → go S
}.
Arguments op_send {S}. Arguments op_epoch {S}. Arguments op_repartition {S}. Arguments op_report {S}.

Section control.
Context {PA : Params} {EX : External} {S : Type} (ops : CommitteeOps S).
Context (dataTotalNum batchDataNum clpaFreq : Z).
(** The reports that may come in when [n] partitions were sent. *)
Context (admits : Z → BlockInfoMsg → Prop).
Implicit Type c : Control S.

Definition ct_com c : S := fd_com (ct_feed c).

(** [time.Since(last) >= time.Duration(clpaFreq) * time.Second], at [now]. *)
Definition timer_due (now : Time) c : bool := i64 (clpaFreq * 1000000000) <=? Sub now (clpaLastRunningTime c).

(** A new partition, after which the loop waits for its epoch. *)
Definition re_partition (order : nat → list Vertex) (next : phase) c : go (Control S) :=
  s ← op_repartition ops order (ct_com c);
  Ret (c <| clpaCnt ::= λ n, i64 (n + 1) |> <| ct_feed ::= λ f, f <| fd_com := s |> |>
         <| ct_phase := Waiting next |>).

(** One record; [t_new], [t_set], [t_since] are the readings of the clock. *)
Definition control_row (t_new t_set t_since : Time) (order : nat → list Vertex) (data : list string)
    (rows : list (list string)) c : go (Control S) :=
  '(ok, f) ← take_up t_new data (ct_feed c);
  if negb ok then Ret (c <| ct_feed := f |> <| ct_phase := Reading rows |>)
  else
    let full := (len (fd_txlist f) =? batchDataNum) || (nowDataNum f =? dataTotalNum) in
    let last := if full && IsZero (clpaLastRunningTime c) then t_set else clpaLastRunningTime c in
    f ← send_full dataTotalNum batchDataNum (op_send ops) f;
    let next := if nowDataNum f =? dataTotalNum then Draining else Reading rows in
    let c := c <| ct_feed := f |> <| clpaLastRunningTime := last |> in
    if (1 <? ShardNum) && negb (IsZero last) && timer_due t_since c then re_partition order next c
    else Ret (c <| ct_phase := next |>).

(** One turn of the loop that drains: [GapEnough], a sleep, the timer. *)
Definition control_drain (now : Time) (order : nat → list Vertex) c : go (Control S) :=
  if GapEnough (fd_Ss (ct_feed c)) then Ret (c <| ct_phase := Finished |>)
  else if (1 <? ShardNum) && timer_due now c then re_partition order Draining c
  else Ret c.

(** The end of a waiting loop. *)
Definition epoch_reached c : bool := op_epoch ops (ct_com c) =? i32 (clpaCnt c).

(** The supervisor's handling of a report: the stop signal, then the committee. *)
Definition control_report (b : BlockInfoMsg) c : go (Control S) :=
  let count := if bi_BlockBodyLength b =? 0 then StopGap_Inc else StopGap_Reset in
  s ← op_report ops b (ct_com c);
  Ret (c <| ct_feed ::= λ f, f <| fd_Ss ::= count |> <| fd_com := s |> |>).

Inductive control_step : Control S → Control S → Prop :=
| cs_row t_new t_set t_since order data rows c c' :
    ct_phase c = Reading (data :: rows) → control_row t_new t_set t_since order data rows c = Ret c' →
    control_step c c'
| cs_eof c : ct_phase c = Reading [] → control_step c (c <| ct_phase := Draining |>)
| cs_wake now next c :
    ct_phase c = Waiting next → epoch_reached c = true →
    control_step c (c <| clpaLastRunningTime := now |> <| ct_phase := next |>)
| cs_drain now order c c' :
    ct_phase c = Draining → control_drain now order c = Ret c' → control_step c c'
| cs_report b c c' : admits (clpaCnt c) b → control_report b c = Ret c' → control_step c c'.

End control.

(** The CLPA committee. *)
Definition clpa_ops `{Params} : CommitteeOps CLPACommittee :=
  {| op_send := ccm_txSending; op_epoch := curEpoch; op_repartition := repartition; op_report := ccm_HandleBlockInfo |}.
Definition clpa_start `{Params} (table : gmap Z (gmap Z string)) (Ss : StopSignal) (rows : list (list string))
    : go (Control CLPACommittee) :=
  c ← NewCLPACommitteeModule table;
  Ret (mkControl (mkFeed 0 [] Ss c) 0 time_zero (Reading rows)).
