(* ===== verification/DataFeedProps.v ===== *)
(** * The supervisor's input: properties *)

From S2P Require Import Prelude Params Core Message External Storage Chain MerkleProof Partition.
From S2P Require Import Ledger Committee CommitteeLemmas DataFeed.

(** ** The reading loop *)

Section feed.
Context {EX : External} {S : Type}.
Context (dataTotalNum batchDataNum : Z) (born : nat → Time) (send : list Transaction → S → go S).
Implicit Type f : Feed S.

(** The transactions of the records, in order; [n]: how many were taken up before. *)
Fixpoint valid_txs (i : nat) (n : Z) (rows : list (list string)) : go (list Transaction) :=
  match rows with
  | [] => Ret []
  | data :: rows =>
      tx ← data2tx (born i) data (u64 n);
      match tx with
      | Some tx => txs ← valid_txs (Datatypes.S i) (n + 1) rows; Ret (tx :: txs)
      | None => valid_txs (Datatypes.S i) n rows
      end
  end.

(** How the loop cuts them into batches, the first of which starts with [acc]. *)
Fixpoint cut (n : Z) (acc txs : list Transaction) : list (list Transaction) :=
  match txs with
  | [] => []
  | tx :: txs =>
      let acc := acc ++ [tx] in
      if n + 1 =? dataTotalNum then [acc]
      else if len acc =? batchDataNum then acc :: cut (n + 1) [] txs
      else cut (n + 1) acc txs
  end.

Definition send_all (bs : list (list Transaction)) (s : S) : go S := go_fold (λ s b, send b s) s bs.

Lemma feed_cut skip i rows f txs :
  0 < batchDataNum → 0 ≤ nowDataNum f < dataTotalNum → dataTotalNum < 2 ^ 63 → len (fd_txlist f) < batchDataNum →
  valid_txs i (nowDataNum f) rows = Ret txs →
  fd_com <$> feed dataTotalNum batchDataNum born send skip i rows f
  = send_all (cut (nowDataNum f) (fd_txlist f) txs) (fd_com f).
Proof.
  intros HB Hn HT. revert i f txs Hn. induction rows as [|data rows IH]; intros i [n l Ss s] txs Hn Hl Hv;
    cbn [nowDataNum fd_txlist fd_com] in *.
  { injection Hv as <-. done. }
  cbn [valid_txs] in Hv. cbn [feed]. unfold feed_row, take_up. cbn [nowDataNum fd_txlist fd_com].
  apply bind_Ret in Hv as ([tx|] & E & Hv); rewrite E; go_step.
  - apply bind_Ret in Hv as (txs' & Hv & [= <-]). rewrite andb_false_r.
    set (f1 := set_field nowDataNum _ _). assert (f1 = mkFeed (n + 1) (l ++ [tx]) Ss s) as ->.
    { change f1 with (mkFeed (i64 (n + 1)) (l ++ [tx]) Ss s). by rewrite i64_id by (unfold is_i64; lia). }
    unfold send_full. cbn [fd_txlist nowDataNum fd_com cut].
    destruct (Z.eqb_spec (n + 1) dataTotalNum) as [Et|Et].
    + rewrite orb_true_r. unfold send_all. cbn [go_fold]. destruct (send (l ++ [tx]) s) as [s'| |]; go_step; [|done..].
      set (f2 := set_field fd_Ss _ _). change f2 with (mkFeed (n + 1) [] (StopGap_Reset Ss) s').
      cbn [nowDataNum fd_com]. by rewrite (proj2 (Z.eqb_eq _ _) Et).
    + rewrite orb_false_r. destruct (Z.eqb_spec (len (l ++ [tx])) batchDataNum) as [Eb|Eb].
      * unfold send_all. cbn [go_fold]. destruct (send (l ++ [tx]) s) as [s'| |]; go_step; [|done..].
        set (f2 := set_field fd_Ss _ _). change f2 with (mkFeed (n + 1) [] (StopGap_Reset Ss) s').
        cbn [nowDataNum fd_com]. rewrite (proj2 (Z.eqb_neq _ _)) by done.
        by rewrite (IH _ (mkFeed (n + 1) [] (StopGap_Reset Ss) s') txs') by (simpl; rewrite ?len_nil; lia || done).
      * go_step. cbn [nowDataNum]. rewrite (proj2 (Z.eqb_neq _ _)) by done.
        rewrite len_app, len_cons, len_nil in Eb.
        by rewrite (IH _ (mkFeed (n + 1) (l ++ [tx]) Ss s) txs')
          by (simpl; rewrite ?len_app, ?len_cons, ?len_nil; lia || done).
  - destruct skip; cbn [andb negb]; go_step; [by apply IH|]. unfold send_full.
    cbn [fd_txlist nowDataNum]. rewrite !(proj2 (Z.eqb_neq _ _)) by lia. cbn [orb]. go_step. cbn [nowDataNum].
    rewrite (proj2 (Z.eqb_neq _ _)) by lia. by apply IH.
Qed.

(** What the batches hold. *)
Definition injected_prefix (txs : list Transaction) : list Transaction :=
  take (Z.to_nat (if len txs <? dataTotalNum then len txs `div` batchDataNum * batchDataNum else dataTotalNum)) txs.

Lemma concat_cut n acc txs :
  0 < batchDataNum → 0 ≤ n < dataTotalNum → len acc < batchDataNum →
  mjoin (cut n acc txs)
  = if n + len txs <? dataTotalNum
    then take (Z.to_nat ((len acc + len txs) `div` batchDataNum * batchDataNum)) (acc ++ txs)
    else acc ++ take (Z.to_nat (dataTotalNum - n)) txs.
Proof.
  intros HB. revert n acc. induction txs as [|tx txs IH]; intros n acc Hn Hl; cbn [cut].
  { rewrite len_nil, Z.add_0_r, (proj2 (Z.ltb_lt _ _)) by lia. pose proof (len_nonneg acc).
    by rewrite Z.add_0_r, Z.div_small by lia. }
  pose proof (len_nonneg txs). rewrite len_cons, len_app, len_cons, len_nil.
  destruct (Z.eqb_spec (n + 1) dataTotalNum) as [Et|Et].
  { rewrite (proj2 (Z.ltb_ge _ _)) by lia. replace (Z.to_nat (dataTotalNum - n)) with 1%nat by lia. csimpl.
    by rewrite take_0, app_nil_r. }
  replace (Z.to_nat (dataTotalNum - n)) with (Datatypes.S (Z.to_nat (dataTotalNum - (n + 1)))) by lia.
  replace (n + (1 + len txs)) with (n + 1 + len txs) by lia.
  replace (acc ++ tx :: txs) with ((acc ++ [tx]) ++ txs) by (by rewrite <- (assoc_L (++))).
  destruct (Z.eqb_spec (len acc + (1 + 0)) batchDataNum) as [Eb|Eb].
  - csimpl. rewrite IH by (rewrite ?len_nil; lia). rewrite len_nil. cbn [app].
    destruct (_ <? _); [|by rewrite <- (assoc_L (++))].
    replace (len acc + (1 + len txs)) with (len txs + 1 * batchDataNum) by lia.
    rewrite Z.div_add by lia. assert (0 ≤ len txs `div` batchDataNum) by (apply Z.div_pos; lia).
    replace (Z.to_nat ((len txs `div` batchDataNum + 1) * batchDataNum))
      with (length (acc ++ [tx]) + Z.to_nat (len txs `div` batchDataNum * batchDataNum))%nat
      by (rewrite length_app; unfold len in *; simpl; nia).
    by rewrite take_app_add.
  - rewrite IH by (rewrite ?len_app, ?len_cons, ?len_nil; lia). rewrite len_app, len_cons, len_nil.
    destruct (_ <? _); [do 4 f_equal; lia|by rewrite <- (assoc_L (++))].
Qed.

Lemma concat_batches txs :
  0 < batchDataNum → 0 < dataTotalNum → mjoin (cut 0 [] txs) = injected_prefix txs.
Proof.
  intros HB HT. rewrite concat_cut by (rewrite ?len_nil; lia). change (len (@nil Transaction)) with 0. cbn [app].
  unfold injected_prefix. rewrite Z.sub_0_r, ?Z.add_0_l. destruct (len txs <? dataTotalNum); done.
Qed.

End feed.

(** The batches of a committee that only routes. *)
Lemma route_all `{Params} bs c :
  0 < InjectSpeed → (∀ tx, tx ∈ mjoin bs → returns (relay_route tx)) →
  ∃ c', send_all rthm_txSending bs c = Ret c' ∧ sc_table c' = sc_table c
    ∧ ∀ sid, 0 ≤ sid < ShardNum →
        delivered sid (sc_out c') = delivered sid (sc_out c) ++ to_shard relay_route sid (mjoin bs).
Proof.
  intros HI. unfold send_all. revert c. induction bs as [|b bs IH]; intros c Hr; cbn [go_fold].
  { exists c. split; [done|]. split; [done|]. intros sid _. by rewrite app_nil_r. }
  destruct (txSending_ok (sc_table c) relay_route b HI) as (msgs & E & _ & Hd).
  { intros tx Htx. apply Hr. csimpl. apply elem_of_app. by left. }
  assert (rthm_txSending b c = Ret (c <| sc_out ::= λ o, o ++ msgs |>)) as -> by (unfold rthm_txSending; by rewrite E).
  go_step. destruct (IH (c <| sc_out ::= λ o, o ++ msgs |>)) as (c' & -> & Ht & Hd').
  { intros tx Htx. apply Hr. csimpl. apply elem_of_app. by right. }
  exists c'. split; [done|]. split; [exact Ht|]. intros sid Hsid. rewrite (Hd' sid Hsid). simpl.
  rewrite delivered_app, (Hd sid Hsid), <- (assoc_L (++)). f_equal. unfold to_shard. by rewrite filter_app.
Qed.

(** ** Re-partitioning *)

(** What the loop expects of the operations: only reports move the epoch, by one. *)
Class CommitteeLaws {S} (ops : CommitteeOps S) : Prop := {
  law_send txs s s' : op_send ops txs s = Ret s' → op_epoch ops s' = op_epoch ops s;
  law_repartition order s s' : op_repartition ops order s = Ret s' → op_epoch ops s' = op_epoch ops s;
  law_report b s s' : op_report ops b s = Ret s' →
    op_epoch ops s' = if op_epoch ops s =? i32 (bi_Epoch b - 1) then i32 (bi_Epoch b) else op_epoch ops s
}.

(** A node reports the number of partitions it has applied: never more than were sent. *)
Definition honest (n : Z) (b : BlockInfoMsg) : Prop := 0 ≤ bi_Epoch b ≤ n.

Section control.
Context {PA : Params} {EX : External} {S : Type} (ops : CommitteeOps S) `{!CommitteeLaws ops}.
Context (dataTotalNum batchDataNum clpaFreq : Z).
Implicit Type c : Control S.

(** The runs from a fresh committee, with fewer than 2^31 partitions. *)
Inductive control_run : Control S → Prop :=
| run_start f last rows : op_epoch ops (fd_com f) = 0 → control_run (mkControl f 0 last (Reading rows))
| run_step c c' : control_run c → control_step ops dataTotalNum batchDataNum clpaFreq honest c c' →
    clpaCnt c' < 2 ^ 31 → control_run c'.

Definition epoch_of c : Z := op_epoch ops (ct_com c).

Definition is_waiting (ph : phase) : Prop := match ph with Waiting _ => True | _ => False end.

(** Where the loop is, the shards have applied every partition; while it waits, all
    but the last one. *)
Definition in_epoch c : Prop :=
  match ct_phase c with
  | Waiting next => ¬ is_waiting next ∧ (epoch_of c = clpaCnt c ∨ epoch_of c = clpaCnt c - 1)
  | _ => epoch_of c = clpaCnt c
  end.
Definition control_inv c : Prop := in_epoch c ∧ 0 ≤ clpaCnt c < 2 ^ 31.

Lemma take_up_com now data (f : Feed S) r : take_up now data f = Ret r → fd_com r.2 = fd_com f.
Proof. intros ([tx|] & _ & [= <-])%bind_Ret; done. Qed.

Lemma send_full_epoch (f f' : Feed S) :
  send_full dataTotalNum batchDataNum (op_send ops) f = Ret f' → op_epoch ops (fd_com f') = op_epoch ops (fd_com f).
Proof.
  unfold send_full. destruct (_ || _); [|by intros [= <-]]. intros (s & Hs & [= <-])%bind_Ret. by apply law_send in Hs.
Qed.

Lemma re_partition_inv order next c c' :
  ¬ is_waiting next → epoch_of c = clpaCnt c → 0 ≤ clpaCnt c < 2 ^ 31 →
  re_partition ops order next c = Ret c' → clpaCnt c' < 2 ^ 31 → control_inv c'.
Proof.
  intros Hn He Hc (s & Hs & [= <-])%bind_Ret. apply law_repartition in Hs.
  unfold control_inv, in_epoch, epoch_of, ct_com in *. simpl. rewrite i64_id by (unfold is_i64; lia). intros Hc'.
  split; [split; [done|right]|]; lia.
Qed.

Lemma row_inv t1 t2 t3 order data rows c c' :
  epoch_of c = clpaCnt c → 0 ≤ clpaCnt c < 2 ^ 31 →
  control_row ops dataTotalNum batchDataNum clpaFreq t1 t2 t3 order data rows c = Ret c' →
  clpaCnt c' < 2 ^ 31 → control_inv c'.
Proof.
  intros He Hc ([ok f] & Hf%take_up_com & H)%bind_Ret. simpl in Hf. destruct (negb ok).
  { injection H as <-. intros _. split; [|done]. unfold in_epoch, epoch_of, ct_com. simpl. by rewrite Hf. }
  cbn zeta in H. set (last := if _ && IsZero _ then t2 else _) in H. clearbody last.
  apply bind_Ret in H as (f' & Hf'%send_full_epoch & H). rewrite Hf in Hf'.
  set (next := if _ =? _ then Draining else Reading rows) in H.
  set (c1 := c <| ct_feed := f' |> <| clpaLastRunningTime := last |>) in H.
  assert (¬ is_waiting next ∧ epoch_of c1 = clpaCnt c) as [Hn He1].
  { split; [unfold next; destruct (_ =? dataTotalNum); by intros []|]. rewrite <- He. exact Hf'. }
  destruct ((1 <? ShardNum) && _ && _); [by apply (re_partition_inv order next c1)|].
  injection H as <-. intros _. split; [|exact Hc]. unfold in_epoch. change (epoch_of (c1 <| ct_phase := next |>)) with (epoch_of c1).
  simpl. by destruct next.
Qed.

Lemma report_epoch b c c' :
  control_report ops b c = Ret c' →
  clpaCnt c' = clpaCnt c ∧ ct_phase c' = ct_phase c
  ∧ epoch_of c' = if epoch_of c =? i32 (bi_Epoch b - 1) then i32 (bi_Epoch b) else epoch_of c.
Proof. intros (s & Hs%law_report & [= <-])%bind_Ret. done. Qed.

Lemma control_report_inv b c c' :
  control_inv c → honest (clpaCnt c) b → control_report ops b c = Ret c' → control_inv c'.
Proof.
  intros [Hi Hc] Hb (E1 & E2 & E3)%report_epoch. unfold honest in Hb. split; [|by rewrite E1].
  unfold in_epoch in *. rewrite E1, E2, E3. rewrite !i32_id by lia.
  destruct (ct_phase c); try (destruct (Z.eqb_spec (epoch_of c) (bi_Epoch b - 1)); lia).
  destruct Hi as [Hn Hi]. split; [done|]. destruct (Z.eqb_spec (epoch_of c) (bi_Epoch b - 1)); lia.
Qed.

Lemma control_run_inv c : control_run c → control_inv c.
Proof.
  induction 1 as [f last rows H0|c c' _ IH Hs Hc']; [by split|]. destruct IH as [Hi Hc].
  destruct Hs as [t1 t2 t3 order data rows c c' Hp H|c Hp|now next c Hp He|now order c c' Hp H|b c c' Hb H].
  - unfold in_epoch in Hi. rewrite Hp in Hi. by apply (row_inv t1 t2 t3 order data rows c).
  - unfold in_epoch in Hi. rewrite Hp in Hi. split; [exact Hi|done].
  - unfold in_epoch in Hi. rewrite Hp in Hi. destruct Hi as [Hn _]. split; [|done].
    apply Z.eqb_eq in He. rewrite i32_id in He by lia. unfold in_epoch. simpl. by destruct next.
  - unfold in_epoch in Hi. rewrite Hp in Hi. unfold control_drain in H. destruct (GapEnough _).
    { injection H as <-. split; [exact Hi|done]. }
    destruct (_ && _); [|injection H as <-; split; [unfold in_epoch; by rewrite Hp|done]].
    apply (re_partition_inv order Draining c); [intros Hw; exact Hw|done..].
  - eapply control_report_inv; [|exact Hb|exact H]. by split.
Qed.

End control.

#[export] Instance clpa_ops_laws {PA : Params} : CommitteeLaws clpa_ops.
Proof.
  split.
  - by intros txs s s' (msgs & _ & [= <-])%bind_Ret.
  - intros order s s' ([[mmap x] g] & _ & H)%bind_Ret. by apply bind_Ret in H as (g' & _ & [= <-]).
  - intros b s s' H. cbn in *. unfold ccm_HandleBlockInfo in H. destruct (bi_BlockBodyLength b =? 0).
    + injection H as <-. by destruct (_ =? _).
    + apply bind_Ret in H as (g & _ & [= <-]). cbn. by destruct (_ =? _).
Qed.

Module DataFeedProps.
Section props.
Context {PA : Params} {EX : External}.


(** C19. Ordering of injection and re-partition: in every run of a re-partitioning
    committee, whatever the interleaving with the shards' reports, a record is read
    (and a batch injected) or a new partition computed only when some shard has
    reported a block of the epoch of the last partition; while the loop waits, every
    earlier partition has been reported. *)
Theorem no_injection_while_partitioning {S} (ops : CommitteeOps S) `{!CommitteeLaws ops}
    (dataTotalNum batchDataNum clpaFreq : Z) (c : Control S) :
  control_run ops dataTotalNum batchDataNum clpaFreq c →
  let epoch := op_epoch ops (ct_com c) in
  match ct_phase c with
  | Waiting _ => epoch = clpaCnt c ∨ epoch = clpaCnt c - 1
  | _ => epoch = clpaCnt c
  end.
Proof.
  intros Hrun. destruct (control_run_inv ops _ _ _ c Hrun) as [Hi _].
  unfold in_epoch in Hi. destruct (ct_phase c); [exact Hi|apply Hi|exact Hi..].
Qed.

(** Liveness of re-partition: while the loop waits, the report of one block of the
    new epoch, by any shard, lets it go on where it was. *)
Theorem new_epoch_ends_the_wait {S} (ops : CommitteeOps S) `{!CommitteeLaws ops}
    (dataTotalNum batchDataNum clpaFreq : Z) (c c' : Control S) (b : BlockInfoMsg) (next : phase) :
  control_run ops dataTotalNum batchDataNum clpaFreq c → ct_phase c = Waiting next →
  bi_Epoch b = clpaCnt c → control_report ops b c = Ret c' →
  ∀ now, ∃ c'', control_step ops dataTotalNum batchDataNum clpaFreq honest c' c''
    ∧ ct_phase c'' = next ∧ clpaLastRunningTime c'' = now ∧ ct_com c'' = ct_com c'.
Proof.
  intros Hrun Hp Hb Hrep now. destruct (control_run_inv ops _ _ _ c Hrun) as [Hi Hc].
  destruct (report_epoch ops b c c' Hrep) as (E1 & E2 & E3).
  eexists. split; [apply (cs_wake _ _ _ _ _ now next); [by rewrite E2|]|done].
  unfold in_epoch in Hi. rewrite Hp in Hi. destruct Hi as [_ Hi]. unfold epoch_reached. fold (epoch_of ops c').
  rewrite E1, E3, Hb, !i32_id by lia. apply Z.eqb_eq. destruct (Z.eqb_spec (epoch_of ops c) (clpaCnt c - 1)); lia.
Qed.

End props.

(** *** Witnesses *)

Import LedgerProps.
#[local] Existing Instances RefExternal.ext RefExternal.ext_ok params4.

(** A file of four records; the third has no transaction. *)
Definition record (s r v flag : string) : list string :=
  ["1"; "2"; "3"; "0x00000000000000" +:+ s; "0x00000000000000" +:+ r; "6"; flag; "0"; v]%string.
Definition file : list (list string) :=
  [record "a0" "b0" "5" "0"; record "b1" "a0" "7" "0"; record "c0" "b0" "1" "x"; record "c0" "b1" "12" "0"]%string.
Definition tick (n : nat) : Time := Z.of_nat n.
Definition file_txs : list Transaction := ret_or [] (valid_txs tick 0 0 file).
Definition table2 : gmap Z (gmap Z string) := {[ 0 := {[ 0 := "ip0"%string ]}; 1 := {[ 0 := "ip1"%string ]} ]}.


(** The committee after the end of the file: its timer was due, and it waits. *)
Definition ccm_new : CLPACommittee := ret_or (mkCCM 0 zero_graph ∅ table2 []) (NewCLPACommitteeModule table2).
Definition ctl0 : Control CLPACommittee := mkControl (mkFeed 0 [] (NewStopSignal 6) ccm_new) 0 0 (Reading []).
Definition ctl1 : Control CLPACommittee := ctl0 <| ct_phase := Draining |>.
Definition ctl2 : Control CLPACommittee := ret_or ctl1 (control_drain clpa_ops 1 10000000000 (λ _, []) ctl1).
Definition empty_report : BlockInfoMsg := mkBlockInfo 0 [] 1 7 8 0 [] [] [] [].
Definition ctl3 : Control CLPACommittee := ret_or ctl2 (control_report clpa_ops empty_report ctl2).

Lemma ctl2_run : control_run clpa_ops 0 0 1 ctl2.
Proof.
  apply run_step with ctl1; [apply run_step with ctl0|..].
  - apply run_start. vm_compute. reflexivity.
  - apply cs_eof. reflexivity.
  - reflexivity.
  - apply (cs_drain _ _ _ _ _ 10000000000 (λ _, []) ctl1 ctl2); [reflexivity|]. apply is_Ret_or. vm_compute. reflexivity.
  - vm_compute. reflexivity.
Qed.

Lemma no_injection_while_partitioning_witness :
  clpaCnt ctl2 = 1 ∧ (curEpoch (ct_com ctl2) = 1 ∨ curEpoch (ct_com ctl2) = 0).
Proof.
  split; [vm_compute; reflexivity|].
  pose proof (no_injection_while_partitioning clpa_ops 0 0 1 ctl2 ctl2_run) as H. exact H.
Defined.

Lemma new_epoch_ends_the_wait_witness :
  ∃ c'', control_step clpa_ops 0 0 1 honest ctl3 c'' ∧ ct_phase c'' = Draining ∧ clpaLastRunningTime c'' = 77
    ∧ ct_com c'' = ct_com ctl3.
Proof.
  apply (new_epoch_ends_the_wait clpa_ops 0 0 1 ctl2 ctl3 empty_report Draining).
  - exact ctl2_run.
  - vm_compute. reflexivity.
  - vm_compute. reflexivity.
  - apply is_Ret_or. vm_compute. reflexivity.
Defined.

End DataFeedProps.
