(* ===== verification/ClpaBrokerCommittee.v ===== *)
(** * The committee that re-partitions and splits through brokers

    [supervisor/committee/committee_clpa_broker.go].  Its broker half repeats
    [committee_broker.go] with [fetchModifiedMap] in place of the address shard, so
    its state holds a [BrokerCommittee], and each operation is the one of
    Committee.v over the partition map of the moment ([ccb_fetch]).  [clpaLock] and
    [brokerModuleLock] are held inside single accesses and left out. *)

From S2P Require Import Prelude Params Core Message External Storage Chain MerkleProof Partition Committee DataFeed.

Record CLPABrokerCommittee := mkCCB {
  ccb_curEpoch : Z;
  ccb_clpaGraph : CLPAState;
  ccb_modifiedMap : gmap string Z;
  ccb_broker : BrokerCommittee      (* [broker], the two confirmation pools, [IpNodeTable], sends *)
}.
#[export] Instance CLPABrokerCommittee_eta : Eta CLPABrokerCommittee := λ c,
  mkCCB (ccb_curEpoch c) (ccb_clpaGraph c) (ccb_modifiedMap c) (ccb_broker c).

Module ClpaBrokerCommittee.
Section committee.
Context {PA : Params} {EX : External}.
Context (clock : nat → Time).
Implicit Type c : CLPABrokerCommittee.

Definition NewCLPACommitteeMod_Broker (lines : list string) (table : gmap Z (gmap Z string)) : go CLPABrokerCommittee :=
  g ← new_graph; Ret (mkCCB 0 g ∅ (NewBrokerCommitteeMod lines table)).

(** The map that sends an account to its shard. *)
Definition map_fetch (m : gmap string Z) (key : Address) : go Z :=
  match m !! key with None => addr_shard key | Some val => Ret val end.
Definition fetchModifiedMap c (key : Address) : go Z := map_fetch (ccb_modifiedMap c) key.

(** An operation of the broker half. *)
Definition on_broker (op : BrokerCommittee → go BrokerCommittee) c : go CLPABrokerCommittee :=
  b ← op (ccb_broker c); Ret (c <| ccb_broker := b |>).

Definition txSending (txlist : list Transaction) c : go CLPABrokerCommittee :=
  on_broker (bcm_txSending (fetchModifiedMap c) txlist) c.
Definition dealTxByBroker (txs : list Transaction) c : go (list Transaction * CLPABrokerCommittee) :=
  '(itxs, b) ← Committee.dealTxByBroker clock (fetchModifiedMap c) txs (ccb_broker c);
  Ret (itxs, c <| ccb_broker := b |>).
Definition handleBrokerType1Mes (ms : list BrokerType1Meg) c : go CLPABrokerCommittee :=
  on_broker (Committee.handleBrokerType1Mes clock (fetchModifiedMap c) ms) c.
Definition handleBrokerType2Mes (ms : list BrokerType2Meg) c : go CLPABrokerCommittee :=
  on_broker (Committee.handleBrokerType2Mes clock (fetchModifiedMap c) ms) c.
Definition getBrokerRawMagDigest (r : BrokerRawMeg) : bytes := Committee.getBrokerRawMagDigest r.
Definition handleBrokerRawMag (raws : list BrokerRawMeg) c : go CLPABrokerCommittee :=
  on_broker (Committee.handleBrokerRawMag clock (fetchModifiedMap c) raws) c.
Definition handleTx1ConfirmMag (ms : list Mag1Confirm) c : go CLPABrokerCommittee :=
  on_broker (Committee.handleTx1ConfirmMag clock (fetchModifiedMap c) ms) c.
Definition handleTx2ConfirmMag (ms : list Mag2Confirm) c : CLPABrokerCommittee :=
  c <| ccb_broker ::= Committee.handleTx2ConfirmMag ms |>.
Definition createConfirm (txs : list Transaction) c : go CLPABrokerCommittee :=
  on_broker (Committee.createConfirm clock (fetchModifiedMap c) txs) c.

(** A batch, of the data set or of a shard: split what crosses, send the rest. *)
Definition deal_and_send (txs : list Transaction) c : go CLPABrokerCommittee :=
  '(itx, c) ← dealTxByBroker txs c; txSending itx c.

(** The transactions that a re-partition made cross-shard come back here. *)
Definition HandleOtherMessage (m : payload) c : go CLPABrokerCommittee :=
  match m with
  | MInner2Cross itct => deal_and_send (ic_Txs itct) c
  | _ => Ret c
  end.

Definition clpaMapSend (m : gmap string Z) c : CLPABrokerCommittee :=
  c <| ccb_broker ::= λ b, b <| bcm_out ::= λ o, o ++
    ((λ i, (node0_of (bcm_table b) i, MPartitionMap (mkPartitionMap m))) <$> seqZ 0 ShardNum) |> |>.

Definition clpaReset c : go CLPABrokerCommittee :=
  g ← new_graph;
  Ret (c <| ccb_clpaGraph := g <| cs_PartitionMap := i64 <$> ccb_modifiedMap c |> |>).

Definition repartition (order : nat → list Vertex) c : go CLPABrokerCommittee :=
  '(mmap, _, g) ← CLPA.CLPA_Partition order (ccb_clpaGraph c);
  let c := clpaMapSend mmap (c <| ccb_clpaGraph := g |>) in
  clpaReset (c <| ccb_modifiedMap ::= λ m, mmap ∪ m |>).

(** An inner transaction of a broker is no edge; a first half stands for the payment
    that was split. *)
Definition report_edges (b : BlockInfoMsg) : list (Address * Address) :=
  ((λ tx, (tx_Sender tx, tx_Recipient tx)) <$> filter (λ tx, tx_HasBroker tx = false) (bi_InnerShardTxs b))
  ++ ((λ tx, (tx_OriginalSender tx, tx_FinalRecipient tx)) <$> bi_Broker1Txs b).

Definition HandleBlockInfo (b : BlockInfoMsg) c : go CLPABrokerCommittee :=
  let c := if ccb_curEpoch c =? i32 (bi_Epoch b - 1) then c <| ccb_curEpoch := i32 (bi_Epoch b) |> else c in
  if bi_BlockBodyLength b =? 0 then Ret c
  else
    c ← createConfirm (bi_Broker1Txs b ++ bi_Broker2Txs b) c;
    g ← go_fold (λ g e, CLPA.AddEdge e.1 e.2 g) (ccb_clpaGraph c) (report_edges b);
    Ret (c <| ccb_clpaGraph := g |>).

(** [MsgSendingControl] is the step relation of DataFeed.v over these operations. *)
Definition clpa_broker_ops : CommitteeOps CLPABrokerCommittee :=
  {| op_send := deal_and_send; op_epoch := ccb_curEpoch; op_repartition := repartition; op_report := HandleBlockInfo |}.

End committee.
End ClpaBrokerCommittee.
