(* ===== verification/ClpaBrokerCommitteeProps.v ===== *)
(** * The committee that re-partitions and splits: properties

    Its runs are runs of the broker committee over changing partition maps, and what
    it injects can be executed by every node that has the same map. *)

From S2P Require Import Prelude Params Core Message External Storage Chain Ledger ChainLemmas MerkleProof.
From S2P Require Import Partition PartitionLemmas Pbft Clpa ClpaProps Committee CommitteeLemmas CommitteeProps DataFeed DataFeedProps.
From S2P Require Import ClpaBroker ClpaBrokerProps ClpaBrokerCommittee.
Import ClpaBrokerCommittee.
#[local] Abbreviation placed := ClpaBrokerProps.placed (only parsing).

(** A payment as it comes from the data set. *)
Definition plain_payment (tx : Transaction) : Prop :=
  tx_RawTxHash tx = None ∧ tx_HasBroker tx = false ∧ tx_OriginalSender tx = ""%string ∧ tx_FinalRecipient tx = ""%string
  ∧ tx_Sender tx ≠ ""%string ∧ tx_Recipient tx ≠ ""%string.

Section lemmas.
Context {PA : Params} {EX : External} (clock : nat → Time).
Implicit Type c : CLPABrokerCommittee.

(** [owners] live at [sid] according to [fetch]. *)
Definition owned (fetch : Address → go Z) (sid : Z) (t : Transaction) : Prop :=
  ∀ a, a ∈ owners t → fetch a = Ret sid.

Lemma owned_placed fetch sid t bc :
  owned fetch sid t → (∀ key, fetch key = Get_PartitionMap bc key) → placed bc sid t.
Proof. intros Ho Hb a Ha. rewrite <- Hb. by apply Ho. Qed.

Lemma routed_sender fetch bs t sid :
  among bs (tx_Sender t) = false → routed fetch bs t = Ret sid → fetch (tx_Sender t) = Ret sid.
Proof. unfold routed. intros -> (s & Hs & [= <-])%bind_Ret. exact Hs. Qed.
Lemma routed_recipient fetch bs t sid :
  among bs (tx_Sender t) = true → routed fetch bs t = Ret sid → fetch (tx_Recipient t) = Ret sid.
Proof. unfold routed. by intros -> (s & _ & Hs)%bind_Ret. Qed.

Lemma crosses_ends fetch bs tx :
  crosses fetch bs tx = true →
  among bs (tx_Sender tx) = false ∧ among bs (tx_Recipient tx) = false.
Proof.
  unfold crosses. destruct (fetch (tx_Recipient tx)), (fetch (tx_Sender tx)); try done.
  rewrite !andb_true_iff, !negb_true_iff. tauto.
Qed.

Lemma first_among (bs : list Address) a x : bs !! 0%nat = Some a → among bs x = false → x ≠ a.
Proof. intros Ha Hx ->. apply bool_decide_eq_false in Hx. apply Hx. by eapply list_elem_of_lookup_2. Qed.
Lemma first_broker_among (bs : list Address) a : bs !! 0%nat = Some a → among bs a = true.
Proof. intros Ha. apply bool_decide_eq_true. by eapply list_elem_of_lookup_2. Qed.

Lemma direct_owned fetch bs tx sid :
  plain_payment tx → has_shards fetch tx → crosses fetch bs tx = false →
  routed fetch bs (broker_marked bs tx) = Ret sid →
  well_formed (broker_marked bs tx) ∧ owned fetch sid (broker_marked bs tx).
Proof.
  intros (Hraw & Hb & Ho & Hf & Hs & Hr) [[s Es] [r Er]] Hc Hroute.
  assert (well_formed (broker_marked bs tx)) as Hwf.
  { unfold well_formed, broker_marked. destruct (_ || _); simpl; rewrite Hraw, Ho, Hf; done. }
  split; [exact Hwf|]. unfold owned, owners. unfold broker_marked in *.
  destruct (among bs (tx_Recipient tx)) eqn:Ebr, (among bs (tx_Sender tx)) eqn:Ebs; simpl in *; rewrite Hraw;
    try rewrite Hb.
  1,3: intros x ->%list_elem_of_singleton; by eapply routed_recipient in Hroute.
  1: intros x ->%list_elem_of_singleton; by eapply routed_sender in Hroute.
  apply routed_sender in Hroute; [|done]. unfold crosses in Hc. rewrite Er, Es, Ebr, Ebs in Hc.
  rewrite !andb_true_r in Hc. apply negb_false_iff, Z.eqb_eq in Hc as ->.
  assert (s = sid) as <- by congruence. by intros x [->| ->%list_elem_of_singleton]%elem_of_cons.
Qed.

Lemma half1_owned fetch f bs tx a now sid :
  crosses f bs tx = true → bs !! 0%nat = Some a → routed fetch bs (half1 a tx now) = Ret sid →
  well_formed (half1 a tx now) ∧ owned fetch sid (half1 a tx now).
Proof.
  intros [Hs Hr]%crosses_ends Ha Hroute. pose proof (first_among _ _ _ Ha Hr) as Hne. split.
  - simpl. split; [intros _ E; by apply Hne|done].
  - unfold owned, owners. simpl. rewrite (proj2 (String.eqb_neq _ _)) by done. rewrite String.eqb_refl.
    intros x ->%list_elem_of_singleton. exact (routed_sender fetch bs (half1 a tx now) sid Hs Hroute).
Qed.

Lemma half2_owned fetch f bs tx a now sid :
  crosses f bs tx = true → bs !! 0%nat = Some a → routed fetch bs (half2 a tx now) = Ret sid →
  well_formed (half2 a tx now) ∧ owned fetch sid (half2 a tx now).
Proof.
  intros [Hs Hr]%crosses_ends Ha Hroute. pose proof (first_among _ _ _ Ha Hs) as Hne. split.
  - simpl. split; [intros E; by symmetry in E|done].
  - unfold owned, owners. simpl. rewrite String.eqb_refl. intros x ->%list_elem_of_singleton.
    exact (routed_recipient fetch bs (half2 a tx now) sid (first_broker_among _ _ Ha) Hroute).
Qed.

(** *** Runs *)

(** After dealing the transactions [D] and being told of [R]; the steps are those of
    the supervisor, in any order. *)
Inductive ccb_run (lines : list string) (table : gmap Z (gmap Z string))
    : CLPABrokerCommittee → list Transaction → list Transaction → Prop :=
| ccb_new c : NewCLPACommitteeMod_Broker lines table = Ret c → ccb_run lines table c [] []
| ccb_batch c D R txs c' :
    ccb_run lines table c D R → deal_and_send clock txs c = Ret c' → ccb_run lines table c' (D ++ txs) R
| ccb_other c D R itct c' :
    ccb_run lines table c D R → HandleOtherMessage clock (MInner2Cross itct) c = Ret c' →
    ccb_run lines table c' (D ++ ic_Txs itct) R
| ccb_report c D R b c' :
    ccb_run lines table c D R → HandleBlockInfo clock b c = Ret c' →
    ccb_run lines table c' D (R ++ bi_Broker1Txs b ++ bi_Broker2Txs b)
| ccb_repartition c D R order c' :
    ccb_run lines table c D R → repartition order c = Ret c' → ccb_run lines table c' D R.

Definition any_route (fetch : Address → go Z) : Prop := True.

Lemma deal_and_send_broker txs c c' :
  deal_and_send clock txs c = Ret c' →
  bcm_send_batch clock (fetchModifiedMap c) txs (ccb_broker c) = Ret (ccb_broker c')
  ∧ ccb_curEpoch c' = ccb_curEpoch c.
Proof.
  unfold deal_and_send, dealTxByBroker, txSending, on_broker, bcm_send_batch.
  intros ([itx c1] & ([its b1] & E & [= <- <-])%bind_Ret & (b2 & E2 & [= <-])%bind_Ret)%bind_Ret.
  rewrite E. go_step. split; [exact E2|done].
Qed.

Lemma report_broker b c c' :
  HandleBlockInfo clock b c = Ret c' →
  bcm_HandleBlockInfo clock (fetchModifiedMap c) b (ccb_broker c) = Ret (ccb_broker c')
  ∧ ccb_curEpoch c' = if ccb_curEpoch c =? i32 (bi_Epoch b - 1) then i32 (bi_Epoch b) else ccb_curEpoch c.
Proof.
  unfold HandleBlockInfo, bcm_HandleBlockInfo.
  set (c1 := if ccb_curEpoch c =? _ then c <| ccb_curEpoch := _ |> else c).
  assert (ccb_broker c1 = ccb_broker c ∧ ccb_modifiedMap c1 = ccb_modifiedMap c
    ∧ ccb_curEpoch c1 = if ccb_curEpoch c =? i32 (bi_Epoch b - 1) then i32 (bi_Epoch b) else ccb_curEpoch c)
    as (E1 & E2 & <-) by (unfold c1; by destruct (_ =? i32 _)). clearbody c1.
  destruct (bi_BlockBodyLength b =? 0); [intros [= <-]; by rewrite E1|].
  intros (c2 & (b2 & E & [= <-])%bind_Ret & (g & _ & [= <-])%bind_Ret)%bind_Ret.
  split; [|done]. unfold fetchModifiedMap in *. rewrite <- E1, <- E2. exact E.
Qed.

Lemma repartition_broker order c c' :
  repartition order c = Ret c' →
  (∃ o, ccb_broker c' = (ccb_broker c) <| bcm_out ::= λ l, l ++ o |> ∧ ∀ msg, msg ∈ o → txs_of msg = [])
  ∧ ccb_curEpoch c' = ccb_curEpoch c.
Proof.
  intros ([[mmap x] g] & _ & (g2 & _ & [= <-])%bind_Ret)%bind_Ret. split; [|done].
  eexists. split; [reflexivity|]. by intros msg (i & -> & _)%list_elem_of_fmap.
Qed.

Lemma ccb_reach lines table c D R :
  ccb_run lines table c D R → reach clock any_route lines table (ccb_broker c) D R.
Proof.
  induction 1 as [c H|c D R txs c' _ IH H|c D R itct c' _ IH H|c D R b c' _ IH H|c D R order c' _ IH H].
  - apply bind_Ret in H as (g & _ & [= <-]). apply reach_new.
  - apply deal_and_send_broker in H as [H _]. by eapply reach_deal.
  - apply deal_and_send_broker in H as [H _]. by eapply reach_deal.
  - apply report_broker in H as [H _]. by eapply reach_report.
  - apply repartition_broker in H as [(o & -> & Ho) _]. by apply reach_other.
Qed.

#[export] Instance clpa_broker_ops_laws : CommitteeLaws (clpa_broker_ops clock).
Proof.
  split.
  - by intros txs s s' [_ H]%deal_and_send_broker.
  - by intros order s s' [_ H]%repartition_broker.
  - by intros b s s' [_ H]%report_broker.
Qed.

End lemmas.

Module ClpaBrokerCommitteeProps.
Section props.
Context {PA : Params} {EX : External} (clock : nat → Time).



End props.

(** *** Witnesses: the batch and the report of the broker committee *)

Import LedgerProps CommitteeProps.
#[local] Existing Instances RefExternal.ext RefExternal.ext_ok params4.

Definition new0 : CLPABrokerCommittee := mkCCB 0 zero_graph ∅ bcm0.
Definition ccb0 : CLPABrokerCommittee := ret_or new0 (NewCLPACommitteeMod_Broker lines2 table2).
Definition ccb1 : CLPABrokerCommittee := ret_or new0 (deal_and_send tick batch ccb0).
Definition ccb2 : CLPABrokerCommittee := ret_or new0 (HandleBlockInfo tick report ccb1).

Lemma ccb1_run : ccb_run tick lines2 table2 ccb1 ([] ++ batch) [].
Proof.
  eapply ccb_batch; [apply ccb_new with (c := ccb0)|]; apply is_Ret_or; vm_compute; reflexivity.
Qed.
Lemma ccb2_run : ccb_run tick lines2 table2 ccb2 ([] ++ batch) ([] ++ [t1] ++ []).
Proof.
  eapply (ccb_report tick lines2 table2 ccb1 _ _ report); [exact ccb1_run|]. apply is_Ret_or. vm_compute. reflexivity.
Qed.



End ClpaBrokerCommitteeProps.
