(* ===== verification/Measure.v ===== *)
(** * The supervisor's statistics

    [supervisor/measure/*.go].  Four measurements (transactions per second, confirm
    latency, cross-shard ratio, number of transactions), each in a relay, a broker
    and an SZHBFT variant, and the times of every transaction.  The variants of one
    measurement differ in the two lists of a report that they count as first and
    second halves and in the order of some additions; they are instances of one
    definition here.  Counters per epoch are slices that grow with the epochs
    reported; an index beyond them is a panic.

    Floating-point numbers are the IEEE 754 binary64 of Partition.v.  A CSV file is
    the list of its rows; a cell keeps the number and the format it is printed in. *)

From Stdlib Require Import Ascii.
From Stdlib Require Import FloatOps SpecFloat.
From S2P Require Import Prelude Params Core Message External Storage Chain MerkleProof Partition.
Import CLPA.

Definition f_add (a b : spec_float) : spec_float := SFadd prec emax a b.
Definition f_zero : spec_float := float64 0.

(** [d.Seconds()] of a duration in nanoseconds. *)
Definition Seconds (d : Z) : spec_float :=
  f_add (float64 (Z.quot d 1000000000)) (f_div (float64 (Z.rem d 1000000000)) (float64 1000000000)).

(** ** CSV output ([measureTool.go]) *)

Inductive cell : Type :=
| CInt (z : Z)                                (* [strconv.Itoa], [strconv.FormatInt] *)
| CFloat (x : spec_float) (prec : Z)          (* [strconv.FormatFloat(x, 'f', prec, 64)] *)
| CText (s : string).

(** The precision is written ['8'], the code of the character. *)
Definition float_cell (x : spec_float) : cell :=
  CFloat x (Z.of_nat (nat_of_ascii "8")).

(** The file after writing: its header first, if it was empty. *)
Definition WriteMetricsToCSV (file : list (list cell)) (colName : list string) (colVals : list (list cell))
    : list (list cell) :=
  file ++ match file with [] => [CText <$> colName] | _ => [] end ++ colVals.

(** ** Slices per epoch *)

Definition at_epoch {A} (e : Z) (f : A → A) (l : list A) : go (list A) :=
  if e <? 0 then Panic "index out of range"
  else match l !! Z.to_nat e with
       | Some x => Ret (<[Z.to_nat e := f x]> l)
       | None => Panic "index out of range"
       end.
Definition read_at {A} (e : Z) (l : list A) : go A :=
  if e <? 0 then Panic "index out of range" else or_panic "index out of range" (l !! Z.to_nat e).

(** [for epochID < e { l = append(l, z); epochID++ }] *)
Definition grow {A} (epochID e : Z) (z : A) (l : list A) : list A := l ++ replicate (Z.to_nat (e - epochID)) z.
Definition grown (epochID e : Z) : Z := Z.max epochID e.

Definition add_int (n : Z) (x : Z) : Z := i64 (x + n).

(** [for eid := range l { rows = append(rows, line(eid)) }] *)
Definition rows_of {A B} (l : list A) (line : Z → A → go B) : go (list B) :=
  go_ifold (λ eid rows x, r ← line eid x; Ret (rows ++ [r])) 0 [] l.

(** ** [measureInterface.go] *)

Record MeasureModule := mkMeasure {
  mm_state : Type;
  mm_new : mm_state;
  UpdateMeasureRecord : BlockInfoMsg → mm_state → go mm_state;
  HandleExtraMessage : payload → mm_state → mm_state;
  OutputMetricName : string;
  mm_header : list string;
  writeToCSV : mm_state → go (list (list cell));
  (** the rows written, the list and the number returned; the time is [time.Now()] *)
  OutputRecord : Time → mm_state → go (list (list cell) * list spec_float * spec_float)
}.

(** The two lists that count as halves. *)
Definition relay_halves (b : BlockInfoMsg) : list Transaction * list Transaction := (bi_Relay1Txs b, bi_Relay2Txs b).
Definition broker_halves (b : BlockInfoMsg) : list Transaction * list Transaction := (bi_Broker1Txs b, bi_Broker2Txs b).

Definition half_of (n : Z) : spec_float := f_div (float64 n) (float64 2).

(** The three integer counters of every variant. *)
Record Counts := mkCounts { normalTxNum : list Z; tx1Num : list Z; tx2Num : list Z }.
Definition grow_counts (epochID e : Z) (c : Counts) : Counts :=
  mkCounts (grow epochID e 0 (normalTxNum c)) (grow epochID e 0 (tx1Num c)) (grow epochID e 0 (tx2Num c)).
Definition count (e n n1 n2 : Z) (c : Counts) : go Counts :=
  a ← at_epoch e (add_int n) (normalTxNum c);
  b ← at_epoch e (add_int n1) (tx1Num c);
  d ← at_epoch e (add_int n2) (tx2Num c);
  Ret (mkCounts a b d).
Definition count_cells (eid : Z) (c : Counts) : go (list cell) :=
  n ← read_at eid (normalTxNum c); n1 ← read_at eid (tx1Num c); n2 ← read_at eid (tx2Num c);
  Ret [CInt n; CInt n1; CInt n2].

Definition tx_titles (p : string) : list string :=
  ["Normal tx # in this epoch"; p +:+ "1 tx # in this epoch"; p +:+ "2 tx # in this epoch"].

(** ** The number of transactions ([measure_TxNumCount_*.go]) *)

Module TxNumCount.

Record state := mk { epochID : Z; txNum : list spec_float; counts : Counts }.
Definition new : state := mk (-1) [] (mkCounts [] [] []).

(** [total inner n1 n2]: what a report adds. *)
Definition update (halves : BlockInfoMsg → list Transaction * list Transaction)
    (total : Z → Z → Z → spec_float) (b : BlockInfoMsg) (s : state) : go state :=
  if bi_BlockBodyLength b =? 0 then Ret s
  else
    let e := bi_Epoch b in
    let n := len (bi_InnerShardTxs b) in
    let n1 := len (halves b).1 in
    let n2 := len (halves b).2 in
    c ← count e n n1 n2 (grow_counts (epochID s) e (counts s));
    t ← at_epoch e (λ x, f_add x (total n n1 n2)) (grow (epochID s) e f_zero (txNum s));
    Ret (mk (grown (epochID s) e) t c).

Definition csv (s : state) : go (list (list cell)) :=
  rows_of (txNum s) (λ eid x, cs ← count_cells eid (counts s); Ret ([CInt eid; float_cell x] ++ cs)).

Definition output (now : Time) (s : state) : go (list (list cell) * list spec_float * spec_float) :=
  rows ← csv s; Ret (rows, txNum s, foldl f_add f_zero (txNum s)).

Definition header (p : string) : list string := ["EpochID"; "Total tx # in this epoch"]%string ++ tx_titles p.

Definition relay_total (n n1 n2 : Z) : spec_float := f_add (float64 n) (half_of (n1 + n2)).
Definition broker_total (n n1 n2 : Z) : spec_float :=
  f_add (float64 n) (f_div (f_add (float64 n1) (float64 n2)) (float64 2)).

Definition measure halves total (p : string) : MeasureModule :=
  mkMeasure state new (update halves total) (λ _ s, s) "Tx_number" (header p) csv output.

End TxNumCount.

Definition TestTxNumCount_Relay : MeasureModule := TxNumCount.measure relay_halves TxNumCount.relay_total "Relay".
Definition TestTxNumCount_Broker : MeasureModule := TxNumCount.measure broker_halves TxNumCount.broker_total "Broker".
Definition TestTxNumCount_Szhbft : MeasureModule := TxNumCount.measure relay_halves TxNumCount.relay_total "Szhbft".

(** ** The cross-shard ratio ([measure_CrossTxRate_*.go]) *)

Module CrossTxRate.

Record state := mk { epochID : Z; totTxNum : list spec_float; totCrossTxNum : list spec_float; counts : Counts }.
Definition new : state := mk (-1) [] [] (mkCounts [] [] []).

(** [total half inner]: what a report adds to [totTxNum]. *)
Definition update (halves : BlockInfoMsg → list Transaction * list Transaction)
    (total : spec_float → spec_float → spec_float) (b : BlockInfoMsg) (s : state) : go state :=
  if bi_BlockBodyLength b =? 0 then Ret s
  else
    let e := bi_Epoch b in
    let n := len (bi_InnerShardTxs b) in
    let n1 := len (halves b).1 in
    let n2 := len (halves b).2 in
    let half := half_of (n1 + n2) in
    c ← count e n n1 n2 (grow_counts (epochID s) e (counts s));
    x ← at_epoch e (λ x, f_add x half) (grow (epochID s) e f_zero (totCrossTxNum s));
    t ← at_epoch e (λ x, f_add x (total half (float64 n))) (grow (epochID s) e f_zero (totTxNum s));
    Ret (mk (grown (epochID s) e) t x c).

Definition csv (s : state) : go (list (list cell)) :=
  rows_of (totTxNum s) (λ eid t,
    x ← read_at eid (totCrossTxNum s); cs ← count_cells eid (counts s);
    Ret ([CInt eid; float_cell t; float_cell x] ++ cs ++ [float_cell (f_div x t)])).

(** The list ends with the two totals. *)
Definition output (now : Time) (s : state) : go (list (list cell) * list spec_float * spec_float) :=
  rows ← csv s;
  '(ratios, tot, ctx) ← go_ifold (λ eid acc t,
      let '(ratios, tot, ctx) := acc in
      x ← read_at eid (totCrossTxNum s);
      Ret (ratios ++ [f_div x t], f_add tot t, f_add ctx x)) 0 ([], f_zero, f_zero) (totTxNum s);
  Ret (rows, ratios ++ [tot; ctx], f_div ctx tot).

Definition header (p : string) : list string :=
  ["EpochID"; "Total tx # in this epoch"; "CTX # in this epoch"]%string ++ tx_titles p
    ++ ["CTX ratio of this epoch"%string].

Definition measure halves total (p : string) : MeasureModule :=
  mkMeasure state new (update halves total) (λ _ s, s) "CrossTransaction_ratio" (header p) csv output.

End CrossTxRate.

Definition TestCrossTxRate_Relay : MeasureModule := CrossTxRate.measure relay_halves f_add "Relay".
Definition TestCrossTxRate_Broker : MeasureModule :=
  CrossTxRate.measure broker_halves (λ half inner, f_add inner half) "Broker".
Definition TestCrossTxRate_Szhbft : MeasureModule := CrossTxRate.measure relay_halves f_add "Szhbft".

(** ** Transactions per second ([measure_avgTPS_*.go]) *)

Module avgTPS.

Record state := mk {
  epochID : Z; excutedTxNum : list spec_float; counts : Counts; startTime : list Time; endTime : list Time }.
Definition new : state := mk (-1) [] (mkCounts [] [] []) [] [].

Definition earliest (t x : Time) : Time := if IsZero x || After x t then t else x.
Definition latest (t x : Time) : Time := if IsZero x || After t x then t else x.

(** [execute x half inner]: how a report adds to [x]. *)
Definition update (halves : BlockInfoMsg → list Transaction * list Transaction)
    (execute : spec_float → spec_float → spec_float → spec_float) (b : BlockInfoMsg) (s : state) : go state :=
  if bi_BlockBodyLength b =? 0 then Ret s
  else
    let e := bi_Epoch b in
    let n := len (bi_InnerShardTxs b) in
    let n1 := len (halves b).1 in
    let n2 := len (halves b).2 in
    x ← at_epoch e (λ x, execute x (half_of (n1 + n2)) (float64 n)) (grow (epochID s) e f_zero (excutedTxNum s));
    c ← count e n n1 n2 (grow_counts (epochID s) e (counts s));
    st ← at_epoch e (earliest (bi_ProposeTime b)) (grow (epochID s) e time_zero (startTime s));
    en ← at_epoch e (latest (bi_CommitTime b)) (grow (epochID s) e time_zero (endTime s));
    Ret (mk (grown (epochID s) e) x c st en).

(** Start, end, and the rate of one epoch. *)
Definition epoch_rate (s : state) (eid : Z) (ex : spec_float) : go (Time * Time * spec_float) :=
  en ← read_at eid (endTime s); st ← read_at eid (startTime s);
  Ret (st, en, f_div ex (Seconds (Sub en st))).

Definition csv (s : state) : go (list (list cell)) :=
  rows_of (excutedTxNum s) (λ eid ex,
    '(st, en, rate) ← epoch_rate s eid ex;
    cs ← count_cells eid (counts s);
    Ret ([CInt eid; float_cell ex] ++ cs ++ [CInt (UnixMilli st); CInt (UnixMilli en); float_cell rate])).

Definition output (now : Time) (s : state) : go (list (list cell) * list spec_float * spec_float) :=
  rows ← csv s;
  per ← (if epochID s + 1 <? 0 then Panic "makeslice: len out of range"
         else Ret (replicate (Z.to_nat (epochID s + 1)) f_zero));
  '(per, tot, eTime, lTime) ← go_ifold (λ eid acc ex,
      let '(per, tot, eTime, lTime) := acc in
      '(st, en, rate) ← epoch_rate s eid ex;
      per ← at_epoch eid (λ _, rate) per;
      Ret (per, f_add tot ex, if After eTime st then st else eTime, if After en lTime then en else lTime))
    0 (per, f_zero, now, time_zero) (excutedTxNum s);
  Ret (rows, per, f_div tot (Seconds (Sub lTime eTime))).

Definition header (p : string) : list string :=
  ["EpochID"; "Total tx # in this epoch"]%string ++ tx_titles p
    ++ ["Epoch start time"; "Epoch end time"; "Avg. TPS of this epoch"]%string.

Definition measure halves execute (p : string) : MeasureModule :=
  mkMeasure state new (update halves execute) (λ _ s, s) "Average_TPS" (header p) csv output.

Definition relay_execute (x half inner : spec_float) : spec_float := f_add (f_add x half) inner.
Definition broker_execute (x half inner : spec_float) : spec_float := f_add x (f_add inner half).

End avgTPS.

Definition TestModule_avgTPS_Relay : MeasureModule := avgTPS.measure relay_halves avgTPS.relay_execute "Relay".
Definition TestModule_avgTPS_Broker : MeasureModule := avgTPS.measure broker_halves avgTPS.broker_execute "Broker".
Definition TestModule_avgTPS_Szhbft : MeasureModule := avgTPS.measure relay_halves avgTPS.relay_execute "Szhbft".

(** ** The confirm latency ([measure_TCL_*.go]) *)

Module TCL.

(** [tx1CommitLatency], [tx2CommitLatency]: of the two halves; [firstTS]: the map
    [relay1CommitTS], [szhbft1CommitTS] or [brokerTxMap]. *)
Record state := mk {
  epochID : Z;
  totTxLatencyEpoch : list spec_float;
  tx1CommitLatency : list Z;
  tx2CommitLatency : list Z;
  ctxCommitLatency : list Z;
  normalTxCommitLatency : list Z;
  firstTS : gmap string Time;
  counts : Counts;
  txNum : list spec_float
}.
#[export] Instance state_eta : Eta state := λ s,
  mk (epochID s) (totTxLatencyEpoch s) (tx1CommitLatency s) (tx2CommitLatency s) (ctxCommitLatency s)
     (normalTxCommitLatency s) (firstTS s) (counts s) (txNum s).
Definition new : state := mk (-1) [] [] [] [] [] ∅ (mkCounts [] [] []) [].

Definition extend (e : Z) (s : state) : state :=
  mk (grown (epochID s) e) (grow (epochID s) e f_zero (totTxLatencyEpoch s))
     (grow (epochID s) e 0 (tx1CommitLatency s)) (grow (epochID s) e 0 (tx2CommitLatency s))
     (grow (epochID s) e 0 (ctxCommitLatency s)) (grow (epochID s) e 0 (normalTxCommitLatency s))
     (firstTS s) (grow_counts (epochID s) e (counts s)) (grow (epochID s) e f_zero (txNum s)).

(** Adding the time from [t] to [u] to one of the columns. *)
Definition add_tot (e : Z) (u t : Time) (s : state) : go state :=
  l ← at_epoch e (λ x, f_add x (Seconds (Sub u t))) (totTxLatencyEpoch s); Ret (s <| totTxLatencyEpoch := l |>).
Definition add_tx1 (e : Z) (u t : Time) (s : state) : go state :=
  l ← at_epoch e (add_int (Milliseconds (Sub u t))) (tx1CommitLatency s); Ret (s <| tx1CommitLatency := l |>).
Definition add_tx2 (e : Z) (u t : Time) (s : state) : go state :=
  l ← at_epoch e (add_int (Milliseconds (Sub u t))) (tx2CommitLatency s); Ret (s <| tx2CommitLatency := l |>).
Definition add_ctx (e : Z) (u t : Time) (s : state) : go state :=
  l ← at_epoch e (add_int (Milliseconds (Sub u t))) (ctxCommitLatency s); Ret (s <| ctxCommitLatency := l |>).
Definition add_normal (e : Z) (u t : Time) (s : state) : go state :=
  l ← at_epoch e (add_int (Milliseconds (Sub u t))) (normalTxCommitLatency s); Ret (s <| normalTxCommitLatency := l |>).

Definition count_report (halves : BlockInfoMsg → list Transaction * list Transaction) (b : BlockInfoMsg) (s : state)
    : go state :=
  let n := len (bi_InnerShardTxs b) in
  let n1 := len (halves b).1 in
  let n2 := len (halves b).2 in
  c ← count (bi_Epoch b) n n1 n2 (counts s);
  t ← at_epoch (bi_Epoch b) (λ x, f_add x (f_add (float64 n) (half_of (n1 + n2)))) (txNum s);
  Ret (s <| counts := c |> <| txNum := t |>).

Definition normal_step (e : Z) (mTime : Time) (s : state) (ntx : Transaction) : go state :=
  s ← add_tot e mTime (tx_Time ntx) s; add_normal e mTime (tx_Time ntx) s.

(** The relay variant: the commit times of first halves are kept by hash. *)
Definition relay1_step (e : Z) (mTime : Time) (s : state) (r1tx : Transaction) : go state :=
  add_tx1 e mTime (tx_Time r1tx) (s <| firstTS ::= <[tx_TxHash r1tx := mTime]> |>).
Definition relay2_step (e : Z) (mTime : Time) (s : state) (r2tx : Transaction) : go state :=
  s ← add_tot e mTime (tx_Time r2tx) s;
  match firstTS s !! tx_TxHash r2tx with
  | Some r1CommitTime => s ← add_tx2 e mTime r1CommitTime s; add_ctx e mTime (tx_Time r2tx) s
  | None => Ret s
  end.
Definition relay_update (b : BlockInfoMsg) (s : state) : go state :=
  if bi_BlockBodyLength b =? 0 then Ret s
  else
    let e := bi_Epoch b in
    let mTime := bi_CommitTime b in
    s ← count_report relay_halves b (extend e s);
    s ← go_fold (relay1_step e mTime) s (bi_Relay1Txs b);
    s ← go_fold (relay2_step e mTime) s (bi_Relay2Txs b);
    go_fold (normal_step e mTime) s (bi_InnerShardTxs b).

(** The broker variant: the times at which first halves entered the pool are kept by
    the hash of the payment. *)
Definition raw_key (tx : Transaction) : string := default "" (tx_RawTxHash tx).
Definition broker1_step (e : Z) (mTime : Time) (s : state) (b1tx : Transaction) : go state :=
  add_tx1 e mTime (tx_Time b1tx) (s <| firstTS ::= <[raw_key b1tx := tx_Time b1tx]> |>).
Definition broker2_step (e : Z) (mTime : Time) (s : state) (b2tx : Transaction) : go state :=
  s ← (match firstTS s !! raw_key b2tx with
       | Some b1txProposeTime => s ← add_tot e mTime b1txProposeTime s; add_ctx e mTime b1txProposeTime s
       | None => Ret s
       end);
  add_tx2 e mTime (tx_Time b2tx) s.
Definition broker_update (b : BlockInfoMsg) (s : state) : go state :=
  if bi_BlockBodyLength b =? 0 then Ret s
  else
    let e := bi_Epoch b in
    let mTime := bi_CommitTime b in
    s ← count_report broker_halves b (extend e s);
    s ← go_fold (normal_step e mTime) s (bi_InnerShardTxs b);
    s ← go_fold (broker1_step e mTime) s (bi_Broker1Txs b);
    go_fold (broker2_step e mTime) s (bi_Broker2Txs b).

Definition csv (s : state) : go (list (list cell)) :=
  rows_of (txNum s) (λ eid x,
    cs ← count_cells eid (counts s);
    l1 ← read_at eid (tx1CommitLatency s); l2 ← read_at eid (tx2CommitLatency s);
    ln ← read_at eid (normalTxCommitLatency s); lc ← read_at eid (ctxCommitLatency s);
    t ← read_at eid (totTxLatencyEpoch s);
    Ret ([CInt eid; float_cell x] ++ cs ++ [CInt l1; CInt l2; CInt ln; CInt lc; float_cell t])).

Definition output (now : Time) (s : state) : go (list (list cell) * list spec_float * spec_float) :=
  rows ← csv s;
  '(per, lat, tot) ← go_ifold (λ eid acc t,
      let '(per, lat, tot) := acc in
      n ← read_at eid (txNum s);
      Ret (per ++ [f_div t n], f_add lat t, f_add tot n)) 0 ([], f_zero, f_zero) (totTxLatencyEpoch s);
  Ret (rows, per, f_div lat tot).

Definition header (p : string) : list string :=
  let sum (what from to : string) :=
    ("Sum of " +:+ what +:+ " TCL (ms) (Duration: " +:+ p +:+ from +:+ " Tx Propose -> " +:+ p +:+ to +:+ " Tx Commit)")%string in
  ["EpochID"; "Total tx # in this epoch"]%string ++ tx_titles p
    ++ [sum (p +:+ "1") "1" "1"; sum (p +:+ "2") "2" "2"; "Sum of innerShardTx TCL (ms)"; sum "CTX" "1" "2";
        "Sum of All Tx TCL (sec.)"]%string.

Definition measure update (p : string) : MeasureModule :=
  mkMeasure state new update (λ _ s, s) "Transaction_Confirm_Latency" (header p) csv output.

End TCL.

Definition TestModule_TCL_Relay : MeasureModule := TCL.measure TCL.relay_update "Relay".
Definition TestModule_TCL_Broker : MeasureModule := TCL.measure TCL.broker_update "Broker".
Definition TestModule_TCL_Szhbft : MeasureModule := TCL.measure TCL.relay_update "Szhbft".

(** ** The times of every transaction ([measure_TxDetail.go]) *)

Record txMetricDetailTime := mkDetail {
  TxProposeTimestamp : Time; BlockProposeTimestamp : Time; TxCommitTimestamp : Time;
  Relay1CommitTimestamp : Time; Relay2CommitTimestamp : Time;
  Broker1CommitTimestamp : Time; Broker2CommitTimestamp : Time
}.
#[export] Instance txMetricDetailTime_eta : Eta txMetricDetailTime := λ d,
  mkDetail (TxProposeTimestamp d) (BlockProposeTimestamp d) (TxCommitTimestamp d) (Relay1CommitTimestamp d)
    (Relay2CommitTimestamp d) (Broker1CommitTimestamp d) (Broker2CommitTimestamp d).

Module TxDetail.

Definition state : Type := gmap string txMetricDetailTime.
Definition zero_detail : txMetricDetailTime :=
  mkDetail time_zero time_zero time_zero time_zero time_zero time_zero time_zero.

(** The entry of [key], new if there is none, is changed by [f]. *)
Definition touch (key : string) (f : txMetricDetailTime → txMetricDetailTime) (m : state) : state :=
  <[key := f (default zero_detail (m !! key))]> m.

Definition proposed (b : BlockInfoMsg) (tx : Transaction) (d : txMetricDetailTime) : txMetricDetailTime :=
  d <| TxProposeTimestamp := tx_Time tx |> <| BlockProposeTimestamp := bi_ProposeTime b |>.

Definition update (b : BlockInfoMsg) (m : state) : go state :=
  if bi_BlockBodyLength b =? 0 then Ret m
  else
    let t := bi_CommitTime b in
    let m := foldl (λ m tx, touch (tx_TxHash tx) (λ d, (proposed b tx d) <| TxCommitTimestamp := t |>) m)
               m (bi_InnerShardTxs b) in
    let m := foldl (λ m tx, touch (tx_TxHash tx) (λ d, (proposed b tx d) <| Relay1CommitTimestamp := t |>) m)
               m (bi_Relay1Txs b) in
    let m := foldl (λ m tx, touch (tx_TxHash tx)
               (λ d, d <| Relay2CommitTimestamp := t |> <| TxCommitTimestamp := t |>) m) m (bi_Relay2Txs b) in
    let m := foldl (λ m tx, touch (TCL.raw_key tx) (λ d, (proposed b tx d) <| Broker1CommitTimestamp := t |>) m)
               m (bi_Broker1Txs b) in
    Ret (foldl (λ m tx, touch (TCL.raw_key tx)
               (λ d, d <| Broker2CommitTimestamp := t |> <| TxCommitTimestamp := t |>) m) m (bi_Broker2Txs b)).

(** [new(big.Int).SetBytes(key)]. *)
Fixpoint bytes_to_int (acc : Z) (s : string) : Z :=
  match s with
  | EmptyString => acc
  | String c s => bytes_to_int (256 * acc + Z.of_nat (nat_of_ascii c)) s
  end.

Definition timestampToString (t : Time) : cell := if IsZero t then CText "" else CInt (UnixMilli t).

Definition csv (m : state) : go (list (list cell)) :=
  Ret ((λ '(key, d),
    [CInt (bytes_to_int 0 key); timestampToString (TxProposeTimestamp d);
     timestampToString (BlockProposeTimestamp d); timestampToString (TxCommitTimestamp d);
     timestampToString (Relay1CommitTimestamp d); timestampToString (Relay2CommitTimestamp d);
     timestampToString (Broker1CommitTimestamp d); timestampToString (Broker2CommitTimestamp d);
     CInt (Milliseconds (Sub (TxCommitTimestamp d) (TxProposeTimestamp d)))]) <$> map_to_list m).

Definition output (now : Time) (m : state) : go (list (list cell) * list spec_float * spec_float) :=
  rows ← csv m; Ret (rows, [], f_zero).

Definition header : list string :=
  ["TxHash (Byte -> Big Int)"; "Tx propose timestamp"; "Block propose timestamp"; "Tx finally commit timestamp";
   "Relay1 Tx commit timestamp (not a relay tx -> nil)"; "Relay2 Tx commit timestamp (not a relay tx -> nil)";
   "Broker1 Tx commit timestamp (not a broker tx -> nil)"; "Broker2 Tx commit timestamp (not a broker tx -> nil)";
   "Confirmed latency of this tx (ms)"].

End TxDetail.

Definition TestTxDetail : MeasureModule :=
  mkMeasure TxDetail.state ∅ TxDetail.update (λ _ s, s) "Tx_Details" TxDetail.header TxDetail.csv TxDetail.output.
