(* ===== verification/MeasureProps.v ===== *)
(** * The supervisor's statistics: properties *)

From Stdlib Require Import FloatOps SpecFloat.
From S2P Require Import Prelude Params Core Message External Storage Chain MerkleProof Partition Measure.

(** ** Columns: one entry per epoch *)

Definition col {A} (epochID : Z) (l : list A) : Prop := len l = epochID + 1.

Lemma len_insert {A} i (x : A) l : len (<[i := x]> l) = len l.
Proof. unfold len. by rewrite length_insert. Qed.

Lemma at_epoch_col {A} e (f : A → A) l ep :
  col ep l → 0 ≤ e ≤ ep → ∃ l', at_epoch e f l = Ret l' ∧ col ep l' ∧ l' = alter f (Z.to_nat e) l.
Proof.
  unfold col, at_epoch. intros Hl He. rewrite (proj2 (Z.ltb_ge e 0)) by lia.
  destruct (l !! Z.to_nat e) as [x|] eqn:E.
  - eexists. split; [done|]. rewrite len_insert. split; [done|]. by apply alter_insert.
  - apply lookup_ge_None in E. unfold len in Hl. lia.
Qed.
Lemma read_at_col {A} e (l : list A) ep : col ep l → 0 ≤ e ≤ ep → ∃ x, read_at e l = Ret x.
Proof.
  unfold col, read_at. intros Hl He. rewrite (proj2 (Z.ltb_ge e 0)) by lia.
  destruct (l !! Z.to_nat e) as [x|] eqn:E; [by exists x|]. apply lookup_ge_None in E. unfold len in Hl. lia.
Qed.
Lemma grow_col {A} ep e (z : A) l : col ep l → col (grown ep e) (grow ep e z l).
Proof.
  unfold col, grown, grow. intros Hl. rewrite len_app. unfold len at 2. rewrite length_replicate. lia.
Qed.
Lemma grown_ge ep e : ep ≤ grown ep e ∧ e ≤ grown ep e.
Proof. unfold grown. lia. Qed.

(** A loop over the entries of a column. *)
Lemma ifold_col {A S} (f : Z → S → A → go S) (I : S → Prop) ep (l : list A) s :
  col ep l → (∀ i s a, 0 ≤ i ≤ ep → I s → ∃ s', f i s a = Ret s' ∧ I s') → I s →
  ∃ s', go_ifold f 0 s l = Ret s' ∧ I s'.
Proof.
  unfold col. intros Hl Hf. assert (∀ i s, 0 ≤ i → i + len l = ep + 1 → I s → ∃ s', go_ifold f i s l = Ret s' ∧ I s') as H.
  { clear Hl s. induction l as [|a l IH]; intros i s Hi Hlen Hs; cbn [go_ifold]; [eauto|].
    rewrite len_cons in Hlen. pose proof (len_nonneg l). destruct (Hf i s a) as (s1 & -> & H1); [lia|done|].
    go_step. apply IH; [lia|lia|done]. }
  intros Hs. apply H; [lia|lia|done].
Qed.
Lemma rows_of_col {A B} ep (l : list A) (line : Z → A → go B) :
  col ep l → (∀ i a, 0 ≤ i ≤ ep → returns (line i a)) → returns (rows_of l line).
Proof.
  intros Hl Hline. destruct (ifold_col (λ eid rows x, r ← line eid x; Ret (rows ++ [r])) (λ _, True) ep l [] Hl)
    as (s & E & _); [|done|by exists s].
  intros i s a Hi _. destruct (Hline i a Hi) as [r ->]. go_step. by eexists.
Qed.

Definition counts_ok (ep : Z) (c : Counts) : Prop := col ep (normalTxNum c) ∧ col ep (tx1Num c) ∧ col ep (tx2Num c).

Lemma grow_counts_ok ep e c : counts_ok ep c → counts_ok (grown ep e) (grow_counts ep e c).
Proof. intros (H1 & H2 & H3). split_and!; simpl; by apply grow_col. Qed.

Definition counted_at (e n n1 n2 : Z) (c : Counts) : Counts :=
  mkCounts (alter (add_int n) (Z.to_nat e) (normalTxNum c)) (alter (add_int n1) (Z.to_nat e) (tx1Num c))
    (alter (add_int n2) (Z.to_nat e) (tx2Num c)).

Lemma count_ok ep e n n1 n2 c :
  counts_ok ep c → 0 ≤ e ≤ ep →
  count e n n1 n2 c = Ret (counted_at e n n1 n2 c) ∧ counts_ok ep (counted_at e n n1 n2 c).
Proof.
  intros (H1 & H2 & H3) He. unfold count, counted_at.
  destruct (at_epoch_col e (add_int n) _ ep H1 He) as (? & -> & ? & <-). go_step.
  destruct (at_epoch_col e (add_int n1) _ ep H2 He) as (? & -> & ? & <-). go_step.
  destruct (at_epoch_col e (add_int n2) _ ep H3 He) as (? & -> & ? & <-). go_step. by split_and!.
Qed.
Lemma count_cells_ok ep e c : counts_ok ep c → 0 ≤ e ≤ ep → returns (count_cells e c).
Proof.
  intros (H1 & H2 & H3) He. unfold count_cells.
  destruct (read_at_col e _ ep H1 He) as [? ->], (read_at_col e _ ep H2 He) as [? ->], (read_at_col e _ ep H3 He) as [? ->].
  go_step. by eexists.
Qed.

(** Run the next access of a column. *)
Ltac next_col He :=
  match goal with
  | H : col ?ep ?l |- context [at_epoch ?e ?f ?l] =>
      let l' := fresh "l" in destruct (at_epoch_col e f l ep H He) as (l' & -> & ? & ?); go_step
  | H : col ?ep ?l |- context [read_at ?e ?l] =>
      let x := fresh "x" in destruct (read_at_col e l ep H He) as (x & ->); go_step
  | H : counts_ok ?ep ?c |- context [count_cells ?e ?c] =>
      let x := fresh "x" in destruct (count_cells_ok ep e c H He) as (x & ->); go_step
  end.

(** ** What the supervisor needs of a measurement *)

(** A report that a measurement can take: its block is empty or its epoch is counted. *)
Definition countable (b : BlockInfoMsg) : Prop := bi_BlockBodyLength b = 0 ∨ 0 ≤ bi_Epoch b.

Class MeasureLaws (m : MeasureModule) := {
  mm_ok : mm_state m → Prop;
  mm_new_ok : mm_ok (mm_new m);
  mm_update_ok b s : mm_ok s → countable b → ∃ s', UpdateMeasureRecord m b s = Ret s' ∧ mm_ok s';
  mm_output_ok now s : mm_ok s → returns (OutputRecord m now s);
  mm_extra_ok p s : mm_ok s → mm_ok (HandleExtraMessage m p s)
}.

Section txnum.
Context (halves : BlockInfoMsg → list Transaction * list Transaction) (total : Z → Z → Z → spec_float) (p : string).
Import TxNumCount.

Definition txnum_ok (s : TxNumCount.state) : Prop :=
  -1 ≤ epochID s ∧ col (epochID s) (txNum s) ∧ counts_ok (epochID s) (counts s).

#[export] Instance txnum_laws : MeasureLaws (measure halves total p).
Proof.
  refine {| mm_ok := txnum_ok : mm_state (measure halves total p) → Prop; mm_extra_ok := λ _ _ Hs, Hs |}.
  - by split_and!.
  - intros b s (H0 & H1 & H2) Hb. simpl. unfold update.
    destruct (Z.eqb_spec (bi_BlockBodyLength b) 0) as [|Hne]; [by exists s|].
    assert (0 ≤ bi_Epoch b ≤ grown (epochID s) (bi_Epoch b)) as He by (pose proof (grown_ge (epochID s) (bi_Epoch b)); destruct Hb; lia).
    apply (grow_col _ (bi_Epoch b) f_zero) in H1. apply (grow_counts_ok _ (bi_Epoch b)) in H2.
    destruct (count_ok _ (bi_Epoch b) (len (bi_InnerShardTxs b)) (len (halves b).1) (len (halves b).2) _ H2 He) as [-> Hc].
    go_step. next_col He. eexists. split; [done|]. split; [simpl; lia|by split].
  - intros now s (H0 & H1 & H2). simpl. unfold output.
    assert (returns (csv s)) as [rows ->]; [|go_step; by eexists].
    apply (rows_of_col (epochID s)); [exact H1|]. intros eid x He. next_col He. by eexists.
Defined.
End txnum.

(** Every report that is counted has an epoch of the columns. *)
Lemma countable_epoch b ep : countable b → bi_BlockBodyLength b ≠ 0 → 0 ≤ bi_Epoch b ≤ grown ep (bi_Epoch b).
Proof. intros [?|?] ?; [done|]. pose proof (grown_ge ep (bi_Epoch b)). lia. Qed.

Section ratio.
Context (halves : BlockInfoMsg → list Transaction * list Transaction) (total : spec_float → spec_float → spec_float) (p : string).
Import CrossTxRate.

Definition ratio_ok (s : CrossTxRate.state) : Prop :=
  -1 ≤ epochID s ∧ col (epochID s) (totTxNum s) ∧ col (epochID s) (totCrossTxNum s) ∧ counts_ok (epochID s) (counts s).

#[export] Instance ratio_laws : MeasureLaws (measure halves total p).
Proof.
  refine {| mm_ok := ratio_ok : mm_state (measure halves total p) → Prop; mm_extra_ok := λ _ _ Hs, Hs |}.
  - by split_and!.
  - intros b s (H0 & H1 & H2 & H3) Hb. simpl. unfold update.
    destruct (Z.eqb_spec (bi_BlockBodyLength b) 0) as [|Hne]; [by exists s|].
    pose proof (countable_epoch b (epochID s) Hb Hne) as He.
    apply (grow_col _ (bi_Epoch b) f_zero) in H1. apply (grow_col _ (bi_Epoch b) f_zero) in H2.
    apply (grow_counts_ok _ (bi_Epoch b)) in H3.
    destruct (count_ok _ (bi_Epoch b) (len (bi_InnerShardTxs b)) (len (halves b).1) (len (halves b).2) _ H3 He) as [-> Hc].
    go_step. repeat next_col He. eexists. split; [done|]. split; [simpl; lia|by split_and!].
  - intros now s (H0 & H1 & H2 & H3). simpl. unfold output.
    assert (returns (csv s)) as [rows ->]; [|go_step].
    { apply (rows_of_col (epochID s)); [exact H1|]. intros eid x He. repeat next_col He. by eexists. }
    match goal with |- context [go_ifold ?f 0 ?s0 ?l] =>
      destruct (ifold_col f (λ _, True) (epochID s) l s0 H1) as ([[rs t] c] & -> & _) end;
      [|done|go_step; by eexists].
    intros i [[rs t] c] a He _. next_col He. by eexists.
Defined.
End ratio.

Section tps.
Context (halves : BlockInfoMsg → list Transaction * list Transaction) (execute : spec_float → spec_float → spec_float → spec_float) (p : string).
Import avgTPS.

Definition tps_ok (s : avgTPS.state) : Prop :=
  -1 ≤ epochID s ∧ col (epochID s) (excutedTxNum s) ∧ counts_ok (epochID s) (counts s)
  ∧ col (epochID s) (startTime s) ∧ col (epochID s) (endTime s).

Lemma epoch_rate_ok s eid ex : tps_ok s → 0 ≤ eid ≤ epochID s → returns (epoch_rate s eid ex).
Proof. intros (_ & _ & _ & H1 & H2) He. unfold epoch_rate. repeat next_col He. by eexists. Qed.

#[export] Instance tps_laws : MeasureLaws (measure halves execute p).
Proof.
  refine {| mm_ok := tps_ok : mm_state (measure halves execute p) → Prop; mm_extra_ok := λ _ _ Hs, Hs |}.
  - by split_and!.
  - intros b s (H0 & H1 & H2 & H3 & H4) Hb. simpl. unfold update.
    destruct (Z.eqb_spec (bi_BlockBodyLength b) 0) as [|Hne]; [by exists s|].
    pose proof (countable_epoch b (epochID s) Hb Hne) as He.
    apply (grow_col _ (bi_Epoch b) f_zero) in H1. apply (grow_counts_ok _ (bi_Epoch b)) in H2.
    apply (grow_col _ (bi_Epoch b) time_zero) in H3. apply (grow_col _ (bi_Epoch b) time_zero) in H4.
    destruct (count_ok _ (bi_Epoch b) (len (bi_InnerShardTxs b)) (len (halves b).1) (len (halves b).2) _ H2 He) as [Ec Hc].
    next_col He. rewrite Ec. go_step. repeat next_col He. eexists. split; [done|]. split; [simpl; lia|by split_and!].
  - intros now s Hs. pose proof Hs as (H0 & H1 & H2 & H3 & H4). simpl. unfold output.
    assert (returns (csv s)) as [rows ->]; [|go_step].
    { apply (rows_of_col (epochID s)); [exact H1|]. intros eid x He. destruct (epoch_rate_ok s eid x Hs He) as [[[st en] r] ->]. go_step. next_col He. by eexists. }
    rewrite (proj2 (Z.ltb_ge _ _)) by lia. go_step.
    match goal with |- context [go_ifold ?f 0 ?s0 ?l] =>
      destruct (ifold_col f (λ acc, col (epochID s) acc.1.1.1) (epochID s) l s0 H1) as ([[[per t] c] d] & -> & _) end;
      [| |go_step; by eexists].
    + intros i [[[per t] c] d] a He Hper. cbn [fst snd] in Hper.
      destruct (epoch_rate_ok s i a Hs He) as [[[st en] r] ->]. go_step. next_col He. eexists. split; [reflexivity|done].
    + unfold col, len. cbn. rewrite length_replicate. lia.
Defined.
End tps.

Section latency.
Import TCL.

(** All columns have one entry per epoch up to [ep]. *)
Definition tcl_cols (ep : Z) (s : TCL.state) : Prop :=
  epochID s = ep ∧ col ep (totTxLatencyEpoch s) ∧ col ep (tx1CommitLatency s) ∧ col ep (tx2CommitLatency s)
  ∧ col ep (ctxCommitLatency s) ∧ col ep (normalTxCommitLatency s) ∧ counts_ok ep (counts s) ∧ col ep (txNum s).

(** A step that keeps the columns, whatever they hold. *)
Definition keeps_cols (e : Z) (f : TCL.state → go TCL.state) : Prop :=
  ∀ ep s, tcl_cols ep s → 0 ≤ e ≤ ep → ∃ s', f s = Ret s' ∧ tcl_cols ep s'.

Lemma keeps_bind e f g : keeps_cols e f → keeps_cols e g → keeps_cols e (λ s, s ← f s; g s).
Proof. intros Hf Hg ep s Hs He. destruct (Hf ep s Hs He) as (s1 & -> & H1). by apply Hg. Qed.
Lemma keeps_fold {A} e (f : TCL.state → A → go TCL.state) l :
  (∀ a, keeps_cols e (λ s, f s a)) → keeps_cols e (λ s, go_fold f s l).
Proof.
  intros Hf ep s Hs He. apply go_fold_total; [|exact Hs]. intros s1 a _ H1. by apply (Hf a).
Qed.

Local Ltac keeps := intros ep s (He0 & H1 & H2 & H3 & H4 & H5 & H6 & H7) He; next_col He;
  eexists; (split; [reflexivity|by split_and!]).
Lemma add_tot_keeps e u t : keeps_cols e (add_tot e u t).
Proof. unfold add_tot. keeps. Qed.
Lemma add_tx1_keeps e u t : keeps_cols e (add_tx1 e u t).
Proof. unfold add_tx1. keeps. Qed.
Lemma add_tx2_keeps e u t : keeps_cols e (add_tx2 e u t).
Proof. unfold add_tx2. keeps. Qed.
Lemma add_ctx_keeps e u t : keeps_cols e (add_ctx e u t).
Proof. unfold add_ctx. keeps. Qed.
Lemma add_normal_keeps e u t : keeps_cols e (add_normal e u t).
Proof. unfold add_normal. keeps. Qed.
Lemma note_keeps e k t (g : TCL.state → go TCL.state) :
  keeps_cols e g → keeps_cols e (λ s, g (s <| firstTS ::= <[k := t]> |>)).
Proof. intros Hg ep s Hs He. by apply (Hg ep). Qed.
Lemma ret_keeps e : keeps_cols e Ret.
Proof. intros ep s Hs _. by exists s. Qed.

Lemma normal_keeps e u tx : keeps_cols e (λ s, normal_step e u s tx).
Proof. apply keeps_bind; [apply add_tot_keeps|apply add_normal_keeps]. Qed.
Lemma relay1_keeps e u tx : keeps_cols e (λ s, relay1_step e u s tx).
Proof. apply note_keeps, add_tx1_keeps. Qed.
Lemma relay2_keeps e u tx : keeps_cols e (λ s, relay2_step e u s tx).
Proof.
  apply keeps_bind; [apply add_tot_keeps|]. intros ep s Hs He. destruct (firstTS s !! _) as [t|]; [|by exists s].
  apply (keeps_bind e _ _ (add_tx2_keeps e u t) (add_ctx_keeps e u (tx_Time tx)) ep s Hs He).
Qed.
Lemma broker1_keeps e u tx : keeps_cols e (λ s, broker1_step e u s tx).
Proof. apply note_keeps, add_tx1_keeps. Qed.
Lemma broker2_keeps e u tx : keeps_cols e (λ s, broker2_step e u s tx).
Proof.
  apply keeps_bind; [|apply add_tx2_keeps]. intros ep s Hs He. destruct (firstTS s !! _) as [t|]; [|by exists s].
  apply (keeps_bind e _ _ (add_tot_keeps e u t) (add_ctx_keeps e u t) ep s Hs He).
Qed.

Lemma count_report_keeps halves b : keeps_cols (bi_Epoch b) (count_report halves b).
Proof.
  intros ep s (He0 & H1 & H2 & H3 & H4 & H5 & H6 & H7) He. unfold count_report.
  destruct (count_ok ep (bi_Epoch b) (len (bi_InnerShardTxs b)) (len (halves b).1) (len (halves b).2) _ H6 He) as [-> Hc].
  go_step. next_col He. eexists. split; [reflexivity|]. by split_and!.
Qed.

Lemma extend_cols e s : tcl_cols (epochID s) s → tcl_cols (grown (epochID s) e) (extend e s).
Proof.
  intros (_ & H1 & H2 & H3 & H4 & H5 & H6 & H7). split_and!; simpl; try done; try (by apply grow_col).
  by apply grow_counts_ok.
Qed.

Definition tcl_ok (s : TCL.state) : Prop := -1 ≤ epochID s ∧ tcl_cols (epochID s) s.

Lemma update_keeps (b : BlockInfoMsg) (f : TCL.state → go TCL.state) s :
  keeps_cols (bi_Epoch b) f → tcl_ok s → countable b → bi_BlockBodyLength b ≠ 0 →
  ∃ s', f (extend (bi_Epoch b) s) = Ret s' ∧ tcl_ok s'.
Proof.
  intros Hf [H0 Hs] Hb Hne. pose proof (countable_epoch b (epochID s) Hb Hne) as He.
  destruct (Hf _ _ (extend_cols (bi_Epoch b) s Hs) He) as (s' & E & Hs'). exists s'. split; [exact E|].
  assert (epochID s' = grown (epochID s) (bi_Epoch b)) as Ee by apply Hs'. split; [lia|by rewrite Ee].
Qed.

Lemma tcl_output_ok now s : tcl_ok s → returns (output now s).
Proof.
  intros (H0 & _ & H1 & H2 & H3 & H4 & H5 & H6 & H7). unfold output.
  assert (returns (csv s)) as [rows ->]; [|go_step].
  { apply (rows_of_col (epochID s)); [exact H7|]. intros eid x He. repeat next_col He. by eexists. }
  match goal with |- context [go_ifold ?f 0 ?s0 ?l] =>
    destruct (ifold_col f (λ _, True) (epochID s) l s0 H1) as ([[rs t] c] & -> & _) end;
    [|done|go_step; by eexists].
  intros i [[rs t] c] a He _. next_col He. by eexists.
Qed.

#[export] Instance tcl_relay_laws p : MeasureLaws (measure relay_update p).
Proof.
  refine {| mm_ok := tcl_ok : mm_state (measure relay_update p) → Prop; mm_output_ok := tcl_output_ok; mm_extra_ok := λ _ _ Hs, Hs |}.
  - by split_and!.
  - intros b s Hs Hb. simpl. unfold relay_update.
    destruct (Z.eqb_spec (bi_BlockBodyLength b) 0) as [|Hne]; [by exists s|].
    apply (update_keeps b (λ s, s ← count_report relay_halves b s; _)); [|done..].
    apply keeps_bind; [apply count_report_keeps|].
    apply keeps_bind; [apply keeps_fold; intros; apply relay1_keeps|].
    apply keeps_bind; apply keeps_fold; intros; [apply relay2_keeps|apply normal_keeps].
Defined.
#[export] Instance tcl_broker_laws p : MeasureLaws (measure broker_update p).
Proof.
  refine {| mm_ok := tcl_ok : mm_state (measure broker_update p) → Prop; mm_output_ok := tcl_output_ok; mm_extra_ok := λ _ _ Hs, Hs |}.
  - by split_and!.
  - intros b s Hs Hb. simpl. unfold broker_update.
    destruct (Z.eqb_spec (bi_BlockBodyLength b) 0) as [|Hne]; [by exists s|].
    apply (update_keeps b (λ s, s ← count_report broker_halves b s; _)); [|done..].
    apply keeps_bind; [apply count_report_keeps|].
    apply keeps_bind; [apply keeps_fold; intros; apply normal_keeps|].
    apply keeps_bind; apply keeps_fold; intros; [apply broker1_keeps|apply broker2_keeps].
Defined.
End latency.

#[export] Instance detail_laws : MeasureLaws TestTxDetail.
Proof.
  refine {| mm_ok := λ _ : mm_state TestTxDetail, True; mm_extra_ok := λ _ _ Hs, Hs |}.
  - done.
  - intros b s _ _. simpl. unfold TxDetail.update. destruct (_ =? 0); by eexists.
  - intros now s _. by eexists.
Defined.

(** ** The counters *)

(** A measurement whose state holds the three counters, which count the lists of a
    report. *)
Class Counting (m : MeasureModule) (halves : BlockInfoMsg → list Transaction * list Transaction) := {
  cn_epoch : mm_state m → Z;
  cn_counts : mm_state m → Counts;
  cn_new : cn_epoch (mm_new m) = -1 ∧ cn_counts (mm_new m) = mkCounts [] [] [];
  cn_empty b s s' : bi_BlockBodyLength b = 0 → UpdateMeasureRecord m b s = Ret s' → s' = s;
  cn_update b s s' : bi_BlockBodyLength b ≠ 0 → UpdateMeasureRecord m b s = Ret s' →
    cn_epoch s' = grown (cn_epoch s) (bi_Epoch b)
    ∧ count (bi_Epoch b) (len (bi_InnerShardTxs b)) (len (halves b).1) (len (halves b).2)
        (grow_counts (cn_epoch s) (bi_Epoch b) (cn_counts s)) = Ret (cn_counts s')
}.

#[export] Instance txnum_counting halves total p : Counting (TxNumCount.measure halves total p) halves.
Proof.
  refine {| cn_epoch := TxNumCount.epochID : mm_state (TxNumCount.measure halves total p) → Z;
            cn_counts := TxNumCount.counts : mm_state (TxNumCount.measure halves total p) → Counts |}; [done|..];
    intros b s s' Hb; cbn; unfold TxNumCount.update.
  - rewrite (proj2 (Z.eqb_eq _ _) Hb). by intros [= <-].
  - rewrite (proj2 (Z.eqb_neq _ _) Hb). by intros (c & Hc & (t & _ & [= <-])%bind_Ret)%bind_Ret.
Defined.
#[export] Instance ratio_counting halves total p : Counting (CrossTxRate.measure halves total p) halves.
Proof.
  refine {| cn_epoch := CrossTxRate.epochID : mm_state (CrossTxRate.measure halves total p) → Z;
            cn_counts := CrossTxRate.counts : mm_state (CrossTxRate.measure halves total p) → Counts |}; [done|..];
    intros b s s' Hb; cbn; unfold CrossTxRate.update.
  - rewrite (proj2 (Z.eqb_eq _ _) Hb). by intros [= <-].
  - rewrite (proj2 (Z.eqb_neq _ _) Hb). by intros (c & Hc & (x & _ & (t & _ & [= <-])%bind_Ret)%bind_Ret)%bind_Ret.
Defined.
#[export] Instance tps_counting halves execute p : Counting (avgTPS.measure halves execute p) halves.
Proof.
  refine {| cn_epoch := avgTPS.epochID : mm_state (avgTPS.measure halves execute p) → Z;
            cn_counts := avgTPS.counts : mm_state (avgTPS.measure halves execute p) → Counts |}; [done|..];
    intros b s s' Hb; cbn; unfold avgTPS.update.
  - rewrite (proj2 (Z.eqb_eq _ _) Hb). by intros [= <-].
  - rewrite (proj2 (Z.eqb_neq _ _) Hb).
    by intros (x & _ & (c & Hc & (st & _ & (en & _ & [= <-])%bind_Ret)%bind_Ret)%bind_Ret)%bind_Ret.
Defined.

(** The latency steps leave the counters alone. *)
Definition same_counts (s s' : TCL.state) : Prop := TCL.epochID s' = TCL.epochID s ∧ TCL.counts s' = TCL.counts s.
Lemma same_counts_trans s1 s2 s3 : same_counts s1 s2 → same_counts s2 s3 → same_counts s1 s3.
Proof. intros [] []. split; congruence. Qed.
Lemma fold_same_counts {A} (f : TCL.state → A → go TCL.state) l s s' :
  (∀ s a s', f s a = Ret s' → same_counts s s') → go_fold f s l = Ret s' → same_counts s s'.
Proof.
  intros Hf. apply (go_fold_inv (same_counts s)); [|by split]. intros s1 a s2 _ H1 H2.
  eapply same_counts_trans; [exact H1|by eapply Hf].
Qed.
Lemma normal_same e u s tx s' : TCL.normal_step e u s tx = Ret s' → same_counts s s'.
Proof. intros (s1 & (? & _ & [= <-])%bind_Ret & (? & _ & [= <-])%bind_Ret)%bind_Ret. by split. Qed.
Lemma relay1_same e u s tx s' : TCL.relay1_step e u s tx = Ret s' → same_counts s s'.
Proof. intros (? & _ & [= <-])%bind_Ret. by split. Qed.
Lemma relay2_same e u s tx s' : TCL.relay2_step e u s tx = Ret s' → same_counts s s'.
Proof.
  intros (s1 & (? & _ & [= <-])%bind_Ret & H)%bind_Ret. destruct (_ !! _); [|by injection H as <-].
  apply bind_Ret in H as (s2 & (? & _ & [= <-])%bind_Ret & (? & _ & [= <-])%bind_Ret). by split.
Qed.
Lemma broker1_same e u s tx s' : TCL.broker1_step e u s tx = Ret s' → same_counts s s'.
Proof. intros (? & _ & [= <-])%bind_Ret. by split. Qed.
Lemma broker2_same e u s tx s' : TCL.broker2_step e u s tx = Ret s' → same_counts s s'.
Proof.
  intros (s1 & H & (? & _ & [= <-])%bind_Ret)%bind_Ret. destruct (_ !! _); [|by injection H as <-].
  apply bind_Ret in H as (s2 & (? & _ & [= <-])%bind_Ret & (? & _ & [= <-])%bind_Ret). by split.
Qed.

Lemma extend_counted halves b s s1 s' :
  TCL.count_report halves b (TCL.extend (bi_Epoch b) s) = Ret s1 → same_counts s1 s' →
  TCL.epochID s' = grown (TCL.epochID s) (bi_Epoch b)
  ∧ count (bi_Epoch b) (len (bi_InnerShardTxs b)) (len (halves b).1) (len (halves b).2)
      (grow_counts (TCL.epochID s) (bi_Epoch b) (TCL.counts s)) = Ret (TCL.counts s').
Proof. intros (c & Hc & (t & _ & [= <-])%bind_Ret)%bind_Ret [-> ->]. split; [done|exact Hc]. Qed.

#[export] Instance tcl_relay_counting p : Counting (TCL.measure TCL.relay_update p) relay_halves.
Proof.
  refine {| cn_epoch := TCL.epochID : mm_state (TCL.measure TCL.relay_update p) → Z;
            cn_counts := TCL.counts : mm_state (TCL.measure TCL.relay_update p) → Counts |}; [done|..];
    intros b s s' Hb; cbn; unfold TCL.relay_update.
  - rewrite (proj2 (Z.eqb_eq _ _) Hb). by intros [= <-].
  - rewrite (proj2 (Z.eqb_neq _ _) Hb). intros (s1 & H1 & (s2 & H2 & (s3 & H3 & H4)%bind_Ret)%bind_Ret)%bind_Ret.
    apply (extend_counted relay_halves b s s1 s' H1).
    eapply same_counts_trans; [eapply fold_same_counts, H2; apply relay1_same|].
    eapply same_counts_trans; [eapply fold_same_counts, H3; apply relay2_same|].
    eapply fold_same_counts, H4; apply normal_same.
Defined.
#[export] Instance tcl_broker_counting p : Counting (TCL.measure TCL.broker_update p) broker_halves.
Proof.
  refine {| cn_epoch := TCL.epochID : mm_state (TCL.measure TCL.broker_update p) → Z;
            cn_counts := TCL.counts : mm_state (TCL.measure TCL.broker_update p) → Counts |}; [done|..];
    intros b s s' Hb; cbn; unfold TCL.broker_update.
  - rewrite (proj2 (Z.eqb_eq _ _) Hb). by intros [= <-].
  - rewrite (proj2 (Z.eqb_neq _ _) Hb). intros (s1 & H1 & (s2 & H2 & (s3 & H3 & H4)%bind_Ret)%bind_Ret)%bind_Ret.
    apply (extend_counted broker_halves b s s1 s' H1).
    eapply same_counts_trans; [eapply fold_same_counts, H2; apply normal_same|].
    eapply same_counts_trans; [eapply fold_same_counts, H3; apply broker1_same|].
    eapply fold_same_counts, H4; apply broker2_same.
Defined.

(** The sum of a number over the reports of epoch [e] that have transactions. *)
Definition counts_in (e : Z) (b : BlockInfoMsg) : Prop := bi_BlockBodyLength b ≠ 0 ∧ bi_Epoch b = e.
#[export] Instance counts_in_dec e b : Decision (counts_in e b).
Proof. unfold counts_in. apply _. Defined.
Definition total_of (f : BlockInfoMsg → Z) (e : Z) (bs : list BlockInfoMsg) : Z :=
  sumZ (f <$> filter (counts_in e) bs).

Lemma total_of_snoc f e bs b :
  total_of f e (bs ++ [b]) = total_of f e bs + if decide (counts_in e b) then f b else 0.
Proof.
  unfold total_of. rewrite filter_app, fmap_app, sumZ_app. f_equal. rewrite filter_cons.
  destruct (decide (counts_in e b)); csimpl; lia.
Qed.

(** The column holds the sums. *)
Definition sums (f : BlockInfoMsg → Z) (bs : list BlockInfoMsg) (ep : Z) (l : list Z) : Prop :=
  col ep l ∧ ∀ e, 0 ≤ e → default 0 (l !! Z.to_nat e) = total_of f e bs.

Lemma sums_step f bs b ep l :
  sums f bs ep l → bi_BlockBodyLength b ≠ 0 → 0 ≤ bi_Epoch b → -1 ≤ ep →
  (∀ e, is_i64 (total_of f e (bs ++ [b]))) →
  sums f (bs ++ [b]) (grown ep (bi_Epoch b)) (alter (add_int (f b)) (Z.to_nat (bi_Epoch b)) (grow ep (bi_Epoch b) 0 l)).
Proof.
  intros [Hc Hs] Hne Hb Hep Hr. assert (col (grown ep (bi_Epoch b)) (grow ep (bi_Epoch b) 0 l)) as Hg by by apply grow_col.
  assert (∀ e, 0 ≤ e → default 0 (grow ep (bi_Epoch b) 0 l !! Z.to_nat e) = total_of f e bs) as Hgrow.
  { intros e He. rewrite <- Hs by done. unfold grow. destruct (l !! Z.to_nat e) as [x|] eqn:E.
    - by rewrite (lookup_app_l_Some _ _ _ _ E).
    - apply lookup_ge_None in E. rewrite lookup_app_r by done.
      destruct (replicate _ 0 !! _) as [y|] eqn:Ey; [|done]. by apply lookup_replicate in Ey as [-> _]. }
  split; [unfold col, len in *; by rewrite length_alter|]. intros e He. rewrite total_of_snoc.
  specialize (Hgrow e He). specialize (Hr e). rewrite total_of_snoc in Hr.
  destruct (decide (counts_in e b)) as [[_ <-]|Hn].
  - rewrite list_lookup_alter_eq. destruct (grow ep (bi_Epoch b) 0 l !! Z.to_nat (bi_Epoch b)) as [x|] eqn:E.
    + simpl in *. unfold add_int. rewrite Hgrow. by apply i64_id.
    + exfalso. apply lookup_ge_None in E. pose proof (grown_ge ep (bi_Epoch b)). unfold col, len in Hg. lia.
  - rewrite list_lookup_alter_ne; [lia|]. intros E. apply Hn. split; [done|lia].
Qed.

Lemma sums_empty f bs b ep l : sums f bs ep l → bi_BlockBodyLength b = 0 → sums f (bs ++ [b]) ep l.
Proof.
  intros [Hc Hs] Hb. split; [done|]. intros e He. rewrite total_of_snoc, Hs by done.
  rewrite decide_False; [lia|]. intros [? _]. done.
Qed.

Definition inner_num (b : BlockInfoMsg) : Z := len (bi_InnerShardTxs b).
Definition first_num (halves : BlockInfoMsg → list Transaction * list Transaction) (b : BlockInfoMsg) : Z := len (halves b).1.
Definition second_num (halves : BlockInfoMsg → list Transaction * list Transaction) (b : BlockInfoMsg) : Z := len (halves b).2.

(** Everything counted fits an [int]. *)
Definition fit (halves : BlockInfoMsg → list Transaction * list Transaction) (bs : list BlockInfoMsg) : Prop :=
  sumZ ((λ b, inner_num b + first_num halves b + second_num halves b) <$> bs) < 2 ^ 63.

Lemma total_of_bound f g e bs :
  (∀ b, 0 ≤ f b ≤ g b) → 0 ≤ total_of f e bs ≤ sumZ (g <$> bs).
Proof.
  intros Hfg. unfold total_of. induction bs as [|b bs IH]; [done|]. rewrite filter_cons.
  destruct (decide (counts_in e b)); csimpl; specialize (Hfg b); lia.
Qed.

Definition report_all (m : MeasureModule) (bs : list BlockInfoMsg) : go (mm_state m) :=
  go_fold (λ s b, UpdateMeasureRecord m b s) (mm_new m) bs.

Lemma report_all_ok m `{!MeasureLaws m} bs :
  (∀ b, b ∈ bs → countable b) → ∃ s, report_all m bs = Ret s ∧ mm_ok s.
Proof. intros Hb. apply go_fold_total; [|apply mm_new_ok]. intros s b Hin Hs. by apply mm_update_ok; [|apply Hb]. Qed.

Record counters_hold m halves `{!Counting m halves} (bs : list BlockInfoMsg) (s : mm_state m) : Prop := {
  ch_epoch : -1 ≤ cn_epoch s;
  ch_inner : sums inner_num bs (cn_epoch s) (normalTxNum (cn_counts s));
  ch_first : sums (first_num halves) bs (cn_epoch s) (tx1Num (cn_counts s));
  ch_second : sums (second_num halves) bs (cn_epoch s) (tx2Num (cn_counts s))
}.

Lemma counters_step m halves `{!Counting m halves} bs b s s' :
  counters_hold m halves bs s → countable b → fit halves (bs ++ [b]) →
  UpdateMeasureRecord m b s = Ret s' → counters_hold m halves (bs ++ [b]) s'.
Proof.
  intros [H0 H1 H2 H3] Hb Hfit Hu. destruct (decide (bi_BlockBodyLength b = 0)) as [Hz|Hz].
  { apply (cn_empty b s s' Hz) in Hu as ->. split; [done|by apply sums_empty..]. }
  assert (0 ≤ bi_Epoch b) as He by (by destruct Hb).
  destruct (cn_update b s s' Hz Hu) as [Ee Hc].
  assert (∀ f, (∀ b, 0 ≤ f b ≤ inner_num b + first_num halves b + second_num halves b) →
    ∀ e, is_i64 (total_of f e (bs ++ [b]))) as Hi.
  { intros f Hf e. pose proof (total_of_bound f _ e (bs ++ [b]) Hf). unfold fit in Hfit. unfold is_i64. lia. }
  assert (∀ b, 0 ≤ inner_num b ∧ 0 ≤ first_num halves b ∧ 0 ≤ second_num halves b) as Hnn
    by (intros; unfold inner_num, first_num, second_num; split_and!; apply len_nonneg).
  apply (sums_step _ _ b) in H1; [|done..|apply Hi; intros b'; specialize (Hnn b'); lia].
  apply (sums_step _ _ b) in H2; [|done..|apply Hi; intros b'; specialize (Hnn b'); lia].
  apply (sums_step _ _ b) in H3; [|done..|apply Hi; intros b'; specialize (Hnn b'); lia].
  assert (counts_ok (grown (cn_epoch s) (bi_Epoch b)) (grow_counts (cn_epoch s) (bi_Epoch b) (cn_counts s))) as Hok.
  { destruct H1 as [C1 _], H2 as [C2 _], H3 as [C3 _]. unfold col, len in *. rewrite length_alter in *. done. }
  destruct (count_ok _ (bi_Epoch b) (inner_num b) (first_num halves b) (second_num halves b) _ Hok) as [E _];
    [pose proof (grown_ge (cn_epoch s) (bi_Epoch b)); lia|].
  pose proof (eq_trans (eq_sym Hc) E) as Es. injection Es as Es.
  split; rewrite Ee; [pose proof (grown_ge (cn_epoch s) (bi_Epoch b)); lia|rewrite Es; simpl..];
    [exact H1|exact H2|exact H3].
Qed.

Module MeasureProps.



(** *** Witnesses: two epochs of the broker mechanism *)

Definition some_tx : Transaction := mkTx "a" "b" 0 "" 5 "h" 7 false false false "" "" (Some "raw"%string).
Definition reports : list BlockInfoMsg :=
  [mkBlockInfo 2 [some_tx] 0 10 20 0 [] [] [some_tx] []; mkBlockInfo 0 [] 0 20 30 1 [] [] [] [];
   mkBlockInfo 1 [] 1 30 40 1 [] [] [] [some_tx]].

Lemma reports_countable b : b ∈ reports → countable b.
Proof. intros Hb. right. revert b Hb. by each_elem. Qed.



End MeasureProps.
