(* ===== verification/Supervisor.v ===== *)
(** * The supervisor process

    [supervisor/supervisor.go]: a committee, the measurements, the stop signal.
    Messages are handled one at a time, under [tcpLock].  Logs and sockets are left
    out; what is sent is appended to [sv_out].  [MsgSendingControl], which runs in a
    goroutine of its own, is DataFeed.v; here is what follows it. *)

From Stdlib Require Import FloatOps SpecFloat.
From S2P Require Import Prelude Params Core Message External Storage Chain MerkleProof Partition Committee DataFeed.
From S2P Require Import ClpaBrokerCommittee Measure.

(** ** The committees ([committeeInterface.go]) *)

Inductive CommitteeModule : Type :=
| CLPABroker (c : CLPABrokerCommittee)
| CLPA (c : CLPACommittee)
| BrokerCom (c : BrokerCommittee)
| Relay (c : SendingCommittee)
| Szhbft (c : SendingCommittee).

(** A measurement with its state. *)
Record running := mkRunning { rn_mod : MeasureModule; rn_state : mm_state rn_mod }.

Record Supervisor := mkSupervisor {
  sv_ChainConfig : ChainConfig;
  sv_table : gmap Z (gmap Z string);
  sv_Ss : StopSignal;
  comMod : CommitteeModule;
  testMeasureMods : list running;
  listenStop : bool;
  sv_out : list (string * payload)
}.
#[export] Instance Supervisor_eta : Eta Supervisor := λ d,
  mkSupervisor (sv_ChainConfig d) (sv_table d) (sv_Ss d) (comMod d) (testMeasureMods d) (listenStop d) (sv_out d).

Section supervisor.
Context {PA : Params} {EX : External}.
Context (clock : nat → Time).
Implicit Type d : Supervisor.

Definition com_HandleBlockInfo (b : BlockInfoMsg) (c : CommitteeModule) : go CommitteeModule :=
  match c with
  | CLPABroker c => c ← ClpaBrokerCommittee.HandleBlockInfo clock b c; Ret (CLPABroker c)
  | CLPA c => c ← ccm_HandleBlockInfo b c; Ret (CLPA c)
  | BrokerCom c => c ← bcm_HandleBlockInfo clock addr_shard b c; Ret (BrokerCom c)
  | Relay c => Ret (Relay (relay_HandleBlockInfo b c))
  | Szhbft c => Ret (Szhbft (szhbft_HandleBlockInfo b c))
  end.
Definition com_HandleOtherMessage (m : payload) (c : CommitteeModule) : go CommitteeModule :=
  match c with
  | CLPABroker c => c ← ClpaBrokerCommittee.HandleOtherMessage clock m c; Ret (CLPABroker c)
  | _ => Ret c
  end.

(** [lines]: the file of broker addresses. *)
Definition new_committee (committeeMethod : string) (lines : list string) (table : gmap Z (gmap Z string))
    : go CommitteeModule :=
  if String.eqb committeeMethod "CLPA_Broker" then
    c ← ClpaBrokerCommittee.NewCLPACommitteeMod_Broker lines table; Ret (CLPABroker c)
  else if String.eqb committeeMethod "CLPA" then c ← NewCLPACommitteeModule table; Ret (CLPA c)
  else if String.eqb committeeMethod "Broker" then Ret (BrokerCom (NewBrokerCommitteeMod lines table))
  else if String.eqb committeeMethod "Relay" then Ret (Relay (mkSC table []))
  else Ret (Szhbft (mkSC table [])).

(** The measurement of a name; an unknown name adds none. *)
Definition measure_of (mModName : string) : option MeasureModule :=
  let named s := String.eqb mModName s in
  if named "TPS_Relay" then Some TestModule_avgTPS_Relay
  else if named "TPS_Broker" then Some TestModule_avgTPS_Broker
  else if named "TPS_SZHBFT" then Some TestModule_avgTPS_Szhbft
  else if named "TCL_Relay" then Some TestModule_TCL_Relay
  else if named "TCL_Broker" then Some TestModule_TCL_Broker
  else if named "TCL_SZHBFT" then Some TestModule_TCL_Szhbft
  else if named "CrossTxRate_Relay" then Some TestCrossTxRate_Relay
  else if named "CrossTxRate_Broker" then Some TestCrossTxRate_Broker
  else if named "CrossTxRate_SZHBFT" then Some TestCrossTxRate_Szhbft
  else if named "TxNumberCount_Relay" then Some TestTxNumCount_Relay
  else if named "TxNumberCount_Broker" then Some TestTxNumCount_Broker
  else if named "TxNumberCount_SZHBFT" then Some TestTxNumCount_Szhbft
  else if named "Tx_Details" then Some TestTxDetail
  else None.

Definition NewSupervisor (pcc : ChainConfig) (committeeMethod : string) (measureModNames : list string)
    (lines : list string) (table : gmap Z (gmap Z string)) : go Supervisor :=
  com ← new_committee committeeMethod lines table;
  Ret (mkSupervisor pcc table (NewStopSignal (i64 (3 * i64 (ShardNums pcc)))) com
         ((λ m, mkRunning m (mm_new m)) <$> omap measure_of measureModNames) false []).

Definition measure_report (b : BlockInfoMsg) (r : running) : go running :=
  s ← UpdateMeasureRecord (rn_mod r) b (rn_state r); Ret (mkRunning (rn_mod r) s).

Definition handleBlockInfos (bim : BlockInfoMsg) d : go Supervisor :=
  let d := d <| sv_Ss ::= if bi_BlockBodyLength bim =? 0 then StopGap_Inc else StopGap_Reset |> in
  com ← com_HandleBlockInfo bim (comMod d);
  ms ← go_fold (λ ms r, r ← measure_report bim r; Ret (ms ++ [r])) [] (testMeasureMods d);
  Ret (d <| comMod := com |> <| testMeasureMods := ms |>).

Definition handleMessage (m : payload) d : go Supervisor :=
  match m with
  | MBlockInfo bim => handleBlockInfos bim d
  | _ =>
      com ← com_HandleOtherMessage m (comMod d);
      let extra r := mkRunning (rn_mod r) (HandleExtraMessage (rn_mod r) m (rn_state r)) in
      Ret (d <| comMod := com |> <| testMeasureMods ::= fmap extra |>)
  end.

(** The results of all measurements, in order. *)
Definition CloseSupervisor (now : Time) d : go (list (string * (list (list cell) * list spec_float * spec_float))) :=
  go_fold (λ acc r,
    out ← OutputRecord (rn_mod r) now (rn_state r);
    Ret (acc ++ [(OutputMetricName (rn_mod r), out)])) [] (testMeasureMods d).

Definition stop_messages d : list (string * payload) :=
  seqZ 0 (ShardNums (sv_ChainConfig d)) ≫= λ sid,
    (λ nid, (default "" (m ← sv_table d !! sid; m !! nid), MStop)) <$> seqZ 0 (Nodes_perShard (sv_ChainConfig d)).

(** After [MsgSendingControl]: one test of the loop that waits for the stop signal;
    [None]: it sleeps on. *)
Definition SupervisorTxHandling (now : Time) d
    : go (option (Supervisor * list (string * (list (list cell) * list spec_float * spec_float)))) :=
  if GapEnough (sv_Ss d) then
    let d := d <| sv_out ::= λ o, o ++ stop_messages d |> <| listenStop := true |> in
    res ← CloseSupervisor now d; Ret (Some (d, res))
  else Ret None.

End supervisor.
