(* ===== verification/SupervisorProps.v ===== *)
(** * The supervisor process: properties *)

From Stdlib Require Import FloatOps SpecFloat.
From S2P Require Import Prelude Params Core Message External Storage Chain Ledger MerkleProof Partition Committee.
From S2P Require Import DataFeed ClpaBrokerCommittee CommitteeProps Measure MeasureProps Supervisor.

(** Every measurement that a name can select keeps the laws. *)
Lemma measure_of_laws name m : measure_of name = Some m → MeasureLaws m.
Proof.
  unfold measure_of. repeat (destruct (String.eqb _ _); [intros [= <-]; apply _|]). done.
Defined.

Definition running_ok (r : running) : Prop := ∃ L : MeasureLaws (rn_mod r), @mm_ok _ L (rn_state r).

(** The block reports among some messages. *)
Definition reports_of (ms : list payload) : list BlockInfoMsg :=
  omap (λ m, match m with MBlockInfo b => Some b | _ => None end) ms.

(** The last [n] reports were of empty blocks. *)
Definition quiet (n : Z) (bs : list BlockInfoMsg) : Prop :=
  ∃ old recent, bs = old ++ recent ∧ len recent = n ∧ ∀ b, b ∈ recent → bi_BlockBodyLength b = 0.

(** How many reports of empty blocks came last. *)
Definition empty_tail (bs : list BlockInfoMsg) : Z :=
  foldl (λ n b, if bi_BlockBodyLength b =? 0 then n + 1 else 0) 0 bs.

Lemma empty_tail_snoc bs b :
  empty_tail (bs ++ [b]) = if bi_BlockBodyLength b =? 0 then empty_tail bs + 1 else 0.
Proof. unfold empty_tail. by rewrite foldl_app. Qed.

Lemma empty_tail_bound bs : 0 ≤ empty_tail bs ≤ len bs.
Proof.
  induction bs as [|b bs IH] using rev_ind; [done|]. rewrite empty_tail_snoc, len_app.
  change (len [b]) with 1. pose proof (len_nonneg bs). destruct (_ =? 0); lia.
Qed.

Lemma quiet_empty_tail n bs : 0 ≤ n → quiet n bs ↔ n ≤ empty_tail bs.
Proof.
  revert n. induction bs as [|b bs IH] using rev_ind; intros n Hn.
  { split; [|intros H; change (empty_tail []) with 0 in H; exists [], []; split_and!; [done|by unfold len; simpl; lia|by intros ? ?%not_elem_of_nil]].
    intros (old & recent & E & <- & _). symmetry in E. apply app_eq_nil in E as [_ ->]. done. }
  rewrite empty_tail_snoc. destruct (Z.eqb_spec (bi_BlockBodyLength b) 0) as [Eb|Eb].
  - split.
    + intros (old & recent & E & Hlen & Hr). destruct recent as [|x recent _] using rev_ind;
        [rewrite len_nil in Hlen; pose proof (empty_tail_bound bs); lia|].
      rewrite (assoc_L (++)) in E. apply app_inj_tail in E as [-> ->]. rewrite len_app, len_cons, len_nil in Hlen.
      assert (quiet (n - 1) (old ++ recent)) as Hq by (exists old, recent; split_and!; [done|lia|intros; apply Hr; set_solver]).
      apply IH in Hq; [lia|]. pose proof (len_nonneg recent). lia.
    + intros H. destruct (decide (n = 0)) as [->|Hn0].
      { exists (bs ++ [b]), []. split_and!; [by rewrite app_nil_r|done|by intros ? ?%not_elem_of_nil]. }
      assert (quiet (n - 1) bs) as (old & recent & -> & Hlen & Hr) by (apply IH; lia).
      exists old, (recent ++ [b]). rewrite (assoc_L (++)), len_app, len_cons, len_nil. split_and!; [done|lia|].
      intros x [?| ->%list_elem_of_singleton]%elem_of_app; [by apply Hr|done].
  - split.
    + intros (old & recent & E & Hlen & Hr). destruct recent as [|x recent _] using rev_ind; [rewrite len_nil in Hlen; lia|].
      rewrite (assoc_L (++)) in E. apply app_inj_tail in E as [_ ->]. destruct Eb. apply Hr. set_solver.
    + intros H. assert (n = 0) as -> by lia. exists (bs ++ [b]), [].
      split_and!; [by rewrite app_nil_r|done|by intros ? ?%not_elem_of_nil].
Qed.

Section lemmas.
Context {PA : Params} {EX : External} (clock : nat → Time).
Implicit Type d : Supervisor.

Lemma measure_reports_ok b rs :
  (∀ r, r ∈ rs → running_ok r) → countable b →
  ∃ rs', go_fold (λ ms r, r ← measure_report b r; Ret (ms ++ [r])) [] rs = Ret rs'
    ∧ Forall2 (λ r r', rn_mod r' = rn_mod r ∧ running_ok r') rs rs'.
Proof.
  intros Hr Hb. apply (go_collect (measure_report b) (λ r r', rn_mod r' = rn_mod r ∧ running_ok r') []).
  intros r [L Hok]%Hr. destruct (@mm_update_ok _ L b _ Hok Hb) as (s' & E & Hs').
  exists (mkRunning (rn_mod r) s'). unfold measure_report. rewrite E. split; [done|]. split; [done|]. by exists L.
Qed.

(** What a run keeps: the configuration, the kinds of measurement, the stop signal. *)
Record run_ok (n : Z) (mods : list MeasureModule) (cfg : ChainConfig) (table : gmap Z (gmap Z string))
    (bs : list BlockInfoMsg) d : Prop := {
  ro_ss : sv_Ss d = mkStop (empty_tail bs) n;
  ro_mods : rn_mod <$> testMeasureMods d = mods;
  ro_running : ∀ r, r ∈ testMeasureMods d → running_ok r;
  ro_cfg : sv_ChainConfig d = cfg;
  ro_table : sv_table d = table
}.

(** A message other than a report. *)
Definition other (m : payload) : Prop := match m with MBlockInfo _ => False | _ => True end.
Lemma other_step m d d' :
  other m → handleMessage clock m d = Ret d' →
  ∃ com, d' = d <| comMod := com |>
    <| testMeasureMods ::= fmap (λ r, mkRunning (rn_mod r) (HandleExtraMessage (rn_mod r) m (rn_state r))) |>.
Proof. by destruct m; intros Hm; try done; intros (com & _ & [= <-])%bind_Ret; exists com. Qed.

Lemma handle_other n mods cfg table bs m d d' :
  run_ok n mods cfg table bs d → other m → handleMessage clock m d = Ret d' → run_ok n mods cfg table bs d'.
Proof.
  intros [H1 H2 H3 H4 H5] Hm (com & ->)%other_step; [|done]. split; simpl; [done| | |done|done].
  - rewrite <- H2, <- list_fmap_compose. by apply list_fmap_ext.
  - intros r (r0 & -> & [L Hok]%H3)%list_elem_of_fmap. exists L. by apply mm_extra_ok.
Qed.
Lemma handle_report n mods cfg table bs b d d' :
  run_ok n mods cfg table bs d → countable b → len bs < 2 ^ 63 - 1 →
  handleBlockInfos clock b d = Ret d' → run_ok n mods cfg table (bs ++ [b]) d'.
Proof.
  intros [H1 H2 H3 H4 H5] Hb Hlen (com & _ & (rs & Hrs & [= <-])%bind_Ret)%bind_Ret.
  destruct (measure_reports_ok b (testMeasureMods d) H3 Hb) as (rs' & E & HF).
  pose proof (eq_trans (eq_sym Hrs) E) as Es. injection Es as ->. split; simpl; [| | |done|done].
  - rewrite empty_tail_snoc. pose proof (empty_tail_bound bs). destruct (_ =? 0); cbn [sv_Ss]; rewrite H1; [|done].
    change (mkStop (i64 (empty_tail bs + 1)) n = mkStop (empty_tail bs + 1) n). rewrite i64_id; [done|unfold is_i64; lia].
  - rewrite <- H2. clear -HF. induction HF as [|r r' l l' [E _] _ IH]; csimpl; [done|by rewrite E, IH].
  - intros r Hr. apply list_elem_of_lookup in Hr as [i Hi]. by destruct (Forall2_lookup_r _ _ _ _ _ HF Hi) as (? & _ & _ & ?).
Qed.

Lemma handleMessage_ok n mods cfg table bs m d d' :
  run_ok n mods cfg table bs d → (∀ b, m = MBlockInfo b → countable b) → len bs < 2 ^ 63 - 1 →
  handleMessage clock m d = Ret d' → run_ok n mods cfg table (bs ++ reports_of [m]) d'.
Proof.
  intros Hok Hc Hlen H. assert (other m ∧ reports_of [m] = [] ∨ ∃ b, m = MBlockInfo b) as [[Ho ->]|[b ->]]
    by (destruct m; solve [by left|right; by eexists]).
  - rewrite (right_id_L [] (++)). by apply (handle_other n mods cfg table bs m d).
  - by apply (handle_report n mods cfg table bs b d); [|apply Hc| |].
Qed.

Lemma new_ok pcc method names lines table d :
  NewSupervisor pcc method names lines table = Ret d → is_i64 (3 * ShardNums pcc) → is_i64 (ShardNums pcc) →
  run_ok (3 * ShardNums pcc) (omap measure_of names) pcc table [] d.
Proof.
  intros (com & _ & [= <-])%bind_Ret Hn Hs. split; [|..|done|done].
  - unfold NewStopSignal. cbn [sv_Ss]. by rewrite (i64_id (ShardNums pcc)), i64_id.
  - simpl. rewrite <- list_fmap_compose. by rewrite list_fmap_id.
  - intros r (m & -> & Hm)%list_elem_of_fmap. apply list_elem_of_omap in Hm as (name & _ & L%measure_of_laws).
    exists L. apply mm_new_ok.
Qed.

Lemma reports_snoc ms m : reports_of (ms ++ [m]) = reports_of ms ++ reports_of [m].
Proof. unfold reports_of. by rewrite omap_app. Qed.
Lemma reports_len ms : len (reports_of ms) ≤ len ms.
Proof. induction ms as [|m ms IH]; [done|]. unfold len in *. destruct m; csimpl; simpl; lia. Qed.

Lemma handle_all n mods cfg table ms d0 d :
  run_ok n mods cfg table [] d0 → (∀ b, b ∈ reports_of ms → countable b) → len ms < 2 ^ 63 - 1 →
  go_fold (λ d m, handleMessage clock m d) d0 ms = Ret d → run_ok n mods cfg table (reports_of ms) d.
Proof.
  intros H0. revert d. induction ms as [|m ms IH] using rev_ind; intros d Hc Hlen H; [by injection H as <-|].
  rewrite go_fold_app in H. apply bind_Ret in H as (d1 & H1 & (d2 & H2 & [= <-])%bind_Ret).
  rewrite len_app in Hlen. change (len [m]) with 1 in Hlen. rewrite reports_snoc in *.
  pose proof (reports_len ms). apply (handleMessage_ok n mods cfg table (reports_of ms) m d1); [|..|lia|done].
  - apply IH; [|lia|done]. intros b Hb. apply Hc. set_solver.
  - intros b ->. apply Hc. set_solver.
Qed.

Lemma close_ok now d n mods cfg table bs :
  run_ok n mods cfg table bs d →
  ∃ res, CloseSupervisor now d = Ret res ∧ res.*1 = OutputMetricName <$> mods.
Proof.
  intros [_ <- H _ _].
  destruct (go_collect (λ r, out ← OutputRecord (rn_mod r) now (rn_state r); Ret (OutputMetricName (rn_mod r), out))
    (λ r x, x.1 = OutputMetricName (rn_mod r)) [] (testMeasureMods d)) as (res & E & HF).
  { intros r [L Hok]%H. destruct (@mm_output_ok _ L now _ Hok) as [out ->]. by eexists. }
  exists res. split.
  - etransitivity; [|exact E]. apply go_fold_ext. intros acc r. by destruct (OutputRecord _ _ _).
  - clear -HF. induction HF as [|r x l l' E _ IH]; [done|]. csimpl. by rewrite IH, E.
Qed.
End lemmas.

Module SupervisorProps.


(** *** Witness: a relay run with two shards *)

Import LedgerProps CommitteeProps.
#[local] Existing Instances RefExternal.ext params4.

Definition some_config : ChainConfig := mkChainConfig 0 0 0 2 2 10 5 100.
Definition some_table : gmap Z (gmap Z string) :=
  {[0 := {[0 := "a:1"%string; 1 := "b:1"%string]}; 1 := {[0 := "c:1"%string; 1 := "d:1"%string]}]}.
Definition run_reports : list payload :=
  (MBlockInfo <$> MeasureProps.reports) ++ replicate 6 (MBlockInfo (mkBlockInfo 0 [] 1 40 50 0 [] [] [] [])).
Definition asked : list string := ["Tx_Details"; "TxNumberCount_Relay"]%string.
Definition sup_start : Supervisor :=
  mkSupervisor some_config some_table (mkStop 0 6) (Relay (mkSC some_table []))
    [mkRunning TestTxDetail (mm_new TestTxDetail); mkRunning TestTxNumCount_Relay (mm_new TestTxNumCount_Relay)] false [].
Definition sup_end : Supervisor := ret_or sup_start (go_fold (λ d m, handleMessage tick m d) sup_start run_reports).


End SupervisorProps.
