(* ===== verification/Startup.v ===== *)
(** * Start-up

    [main.go], [build/] and [ReadConfigFile] of params/global_config.go: the
    configuration, the checks on the table of addresses, the construction of a node or
    of the supervisor, and the generation of start scripts.

    - The globals are one record [Globals]; those that the rest of the program reads are
      its field [g_params], of the class [Params], and [g_net].
    - The flags, as pflag parses them, and the decoded files are arguments; [log.Fatalf]
      and [os.Exit] are [Panic]s.
    - Files on disk are a map from paths to contents; the answers of the system to a
      removal, an opening and a write are arguments ([FileSystem]). *)

From Stdlib Require Import Ascii.
From stdpp Require Import pretty.
From S2P Require Import Prelude Params Core Message Network External Storage Chain Pbft Relay Broker Clpa ClpaBroker Szhbft Supervisor.

(** ** The globals ([params/global_config.go], [params/static_config.go]) *)

Record Globals := mkGlobals {
  g_params : Params;
  ConsensusMethod : Z;
  Block_Interval : Z;
  MaxBlockSize_global : Z;
  TotalDataSize : Z;
  TxBatchSize : Z;
  ExpDataRootDir : string;
  DataWrite_path : string;
  LogWrite_path : string;
  DatabaseWrite_path : string;
  SupervisorAddr : string;
  DatasetFile : string;
  ReconfigTimeGap : Z;
  g_net : NetParams;
  IPmap_nodeTable : gmap Z (gmap Z string)
}.
#[export] Instance Globals_eta : Eta Globals := λ g,
  mkGlobals (g_params g) (ConsensusMethod g) (Block_Interval g) (MaxBlockSize_global g)
    (TotalDataSize g) (TxBatchSize g) (ExpDataRootDir g) (DataWrite_path g) (LogWrite_path g)
    (DatabaseWrite_path g) (SupervisorAddr g) (DatasetFile g) (ReconfigTimeGap g) (g_net g)
    (IPmap_nodeTable g).

(** The values of the declarations. *)
Definition defaults : Globals :=
  mkGlobals
    {| NodesInShard := 4; ShardNum := 4; PbftViewChangeTimeOut := 10000; BlocksizeInBytes := 20000;
       UseBlocksizeInBytes := 0; InjectSpeed := 500; BrokerNum := 10; RelayWithMerkleProof := 0 |}
    0 5000 2000 20000 1000 "expTest" "expTest/result/" "expTest/log" "expTest/database/"
    "127.0.0.1:18800" "./selectedTxs_300K.csv" 50 (mkNetParams 0 0 0) ∅.

Definition CommitteeMethod : list string := ["CLPA_Broker"; "CLPA"; "Broker"; "Relay"; "SZHBFT"]%string.
Definition MeasureBrokerMod : list string :=
  ["TPS_Broker"; "TCL_Broker"; "CrossTxRate_Broker"; "TxNumberCount_Broker"]%string.
Definition MeasureRelayMod : list string :=
  ["TPS_Relay"; "TCL_Relay"; "CrossTxRate_Relay"; "TxNumberCount_Relay"]%string.
Definition MeasureSZHBFTMod : list string :=
  ["TPS_SZHBFT"; "TCL_SZHBFT"; "CrossTxRate_SZHBFT"; "TxNumberCount_SZHBFT"]%string.

Record globalConfig := mkGlobalConfig {
  gc_ConsensusMethod : Z;
  gc_PbftViewChangeTimeOut : Z;
  gc_ExpDataRootDir : string;
  gc_BlockInterval : Z;
  gc_BlocksizeInBytes : Z;
  gc_MaxBlockSizeGlobal : Z;
  gc_UseBlocksizeInBytes : Z;
  gc_InjectSpeed : Z;
  gc_TotalDataSize : Z;
  gc_TxBatchSize : Z;
  gc_BrokerNum : Z;
  gc_RelayWithMerkleProof : Z;
  gc_DatasetFile : string;
  gc_ReconfigTimeGap : Z;
  gc_Delay : Z;
  gc_JitterRange : Z;
  gc_Bandwidth : Z
}.

(** [data]: the bytes of paramsConfig.json, [None] when it cannot be read; [Unmarshal]:
    the decoded bytes, [None] when they are not the JSON of a [globalConfig]. *)
Definition ReadConfigFile (Unmarshal : bytes → option globalConfig) (data : option bytes) (g : Globals)
    : go Globals :=
  data ← or_panic "Error reading file" data;
  config ← or_panic "Error unmarshalling JSON" (Unmarshal data);
  let root := gc_ExpDataRootDir config in
  Ret (mkGlobals
    {| NodesInShard := @NodesInShard (g_params g); ShardNum := @ShardNum (g_params g);
       PbftViewChangeTimeOut := gc_PbftViewChangeTimeOut config;
       BlocksizeInBytes := gc_BlocksizeInBytes config;
       UseBlocksizeInBytes := gc_UseBlocksizeInBytes config;
       InjectSpeed := gc_InjectSpeed config; BrokerNum := gc_BrokerNum config;
       RelayWithMerkleProof := gc_RelayWithMerkleProof config |}
    (gc_ConsensusMethod config) (gc_BlockInterval config) (gc_MaxBlockSizeGlobal config)
    (gc_TotalDataSize config) (gc_TxBatchSize config)
    root (root +:+ "/result/") (root +:+ "/log") (root +:+ "/database/")
    (SupervisorAddr g) (gc_DatasetFile config) (gc_ReconfigTimeGap config)
    (mkNetParams (gc_Delay config) (gc_JitterRange config) (gc_Bandwidth config))
    (IPmap_nodeTable g)).

Definition set_sizes (nodes shards : Z) (g : Globals) : Globals :=
  g <| g_params ::= λ P, {|
    NodesInShard := nodes; ShardNum := shards;
    PbftViewChangeTimeOut := @PbftViewChangeTimeOut P; BlocksizeInBytes := @BlocksizeInBytes P;
    UseBlocksizeInBytes := @UseBlocksizeInBytes P; InjectSpeed := @InjectSpeed P;
    BrokerNum := @BrokerNum P; RelayWithMerkleProof := @RelayWithMerkleProof P |} |>.

(** ** [build/build.go] *)

(** [ipMap[sid][nid]] as an expression. *)
Definition node_ip (ipMap : gmap Z (gmap Z string)) (sid nid : Z) : string :=
  default "" (t ← ipMap !! sid; t !! nid).
(** [len(ipMap[sid])] *)
Definition shard_len (ipMap : gmap Z (gmap Z string)) (sid : Z) : Z :=
  Z.of_nat (size (default ∅ (ipMap !! sid))).

(** Errors are printed and dropped: [Unmarshal] is what it has put into the map, which
    it leaves empty when there is nothing to read. *)
Definition readIpTable (Unmarshal : bytes → gmap Z (gmap Z string)) (file : option bytes)
    : gmap Z (gmap Z string) := Unmarshal (default "" file).

(** [ipMap]: what [readIpTable] has returned. *)
Definition initConfig (ipMap : gmap Z (gmap Z string)) (nid nnm sid snm : Z) (g : Globals)
    : go (ChainConfig * Globals) :=
  let shards := Z.of_nat (size ipMap) - 1 in
  let g := g <| IPmap_nodeTable := ipMap |> <| SupervisorAddr := node_ip ipMap SupervisorShard 0 |> in
  if shards <? i64 snm then Panic "Input ShardNumber, but only fewer shards in ipTable.json"
  else
    _ ← go_fold (λ _ shardID,
          if shard_len ipMap shardID <? i64 nnm then Panic "Input NodeNumber, but only fewer nodes in Shard"
          else Ret tt) tt (seqZ 0 shards);
    let g := set_sizes (i64 nnm) (i64 snm) g in
    let g := g <| g_net ::= clamp |> in
    Ret (mkChainConfig sid nid sid (u64 (@NodesInShard (g_params g))) snm (u64 (MaxBlockSize_global g))
           (u64 (Block_Interval g)) (u64 (@InjectSpeed (g_params g))), g).

(** [params.CommitteeMethod[methodID]] *)
Definition method_name (methodID : Z) : go string :=
  if methodID <? 0 then Panic "index out of range"
  else or_panic "index out of range" (CommitteeMethod !! Z.to_nat methodID).

Definition measure_names (methodID : Z) : list string :=
  (if (methodID =? 0) || (methodID =? 2) then MeasureBrokerMod
   else if methodID =? 4 then MeasureSZHBFTMod else MeasureRelayMod) ++ ["Tx_Details"%string].

(** What a node finds on its disk: the trie databases and the bolt files of its two
    chains; a database is [None] when it cannot be opened. *)
Record Disk `{External} := mkDisk {
  mptDB : option TrieDB;
  chainDB : DB;
  localMptDB : option TrieDB;
  localChainDB : DB
}.
Arguments mkDisk {_}. Arguments mptDB {_}. Arguments chainDB {_}. Arguments localMptDB {_}. Arguments localChainDB {_}.

(** A node with the modules of its mechanism. *)
Inductive Worker `{External} : Type :=
| CLPABrokerNode (p : PbftNode Data_supportCLPA)
| CLPANode (p : PbftNode Data_supportCLPA)
| BrokerNode (p : PbftNode broker_module)
| RelayNode (p : PbftNode relay_module)
| SZHBFTNode (p : PbftNode SZHBFT).

Section build.
Context {EX : External}.

(** [NewPbftNode] of pbft.go with the choice of the modules. *)
Definition new_worker (shardID nodeID : Z) (pcc : ChainConfig) (messageHandleType : string)
    (now : Time) (disk : Disk) (g : Globals) : go Worker :=
  db ← or_panic "NewLevelDBDatabase" (mptDB disk);
  CurChain ← NewBlockChain pcc db (chainDB disk);
  let new {M} (m : M) := NewPbftNode shardID nodeID pcc now (IPmap_nodeTable g) CurChain m in
  if String.eqb messageHandleType "CLPA_Broker" then Ret (CLPABrokerNode (new NewCLPADataSupport))
  else if String.eqb messageHandleType "CLPA" then Ret (CLPANode (new NewCLPADataSupport))
  else if String.eqb messageHandleType "Broker" then Ret (BrokerNode (new RawBroker))
  else if String.eqb messageHandleType "Relay" then Ret (RelayNode (new RawRelay))
  else
    localDb ← or_panic "cannot new a local ldb" (localMptDB disk);
    localChain ← NewBlockChain pcc localDb (localChainDB disk);
    Ret (SZHBFTNode (new (Szhbft.new_module shardID localChain))).

Definition BuildNewPbftNode (ipMap : gmap Z (gmap Z string)) (now : Time) (disk : Disk)
    (nid nnm sid snm : Z) (g : Globals) : go (Worker * Globals) :=
  '(pcc, g') ← initConfig ipMap nid nnm sid snm g;
  method ← method_name (ConsensusMethod g);
  w ← new_worker sid nid pcc method now disk g';
  Ret (w, g').

(** [lines]: the file of broker addresses.  The address is read in the same list of
    arguments in which [initConfig] is called and sets it; Go leaves open which comes
    first: [late] tells.  The result has the address the supervisor listens on. *)
Definition BuildSupervisor (ipMap : gmap Z (gmap Z string)) (lines : list string) (late : bool)
    (nnm snm : Z) (g : Globals) : go (string * Supervisor * Globals) :=
  '(pcc, g') ← initConfig ipMap 123 nnm 123 snm g;
  method ← method_name (ConsensusMethod g);
  lsn ← @NewSupervisor (g_params g') pcc method (measure_names (ConsensusMethod g)) lines
          (IPmap_nodeTable g');
  Ret (SupervisorAddr (if late then g' else g), lsn, g').

End build.

(** ** [build/io_file_helper.go], [build/tool.go]: start scripts *)

(** The answers of the operating system: does a removal of an existing file succeed; can
    the file be opened for appending; how many bytes of a write arrive, [None]: all. *)
Class FileSystem := {
  Remove : string → bool;
  OpenAppend : string → bool;
  WriteString : string → bytes → option nat
}.

(** The files, and those already touched by this process ([fileUpToDataSet]). *)
Record Scripts := mkScripts { files : gmap string bytes; fileUpToDataSet : gset string }.
#[export] Instance Scripts_eta : Eta Scripts := λ s, mkScripts (files s) (fileUpToDataSet s).

Section scripts.
Context {FS : FileSystem}.

(** The first test: an old file of this name goes, once per process. *)
Definition fresh_file (filePath : string) (s : Scripts) : go Scripts :=
  if decide (filePath ∈ fileUpToDataSet s) then Ret s
  else
    s ← match files s !! filePath with
        | None => Ret s
        | Some _ => if Remove filePath then Ret (s <| files ::= delete filePath |>) else Panic "os.Remove"
        end;
    Ret (s <| fileUpToDataSet ::= λ f, {[ filePath ]} ∪ f |>).

Definition attachLineToFile (filePath line : string) (s : Scripts) : go (option string * Scripts) :=
  s ← fresh_file filePath s;
  if OpenAppend filePath then
    let append (what : bytes) :=
      s <| files ::= λ f, <[filePath := default "" (f !! filePath) +:+ what]> f |> in
    match WriteString filePath (line +:+ nl) with
    | None => Ret (None, append (line +:+ nl))
    | Some k => Ret (Some "write", append (String.substring 0 k (line +:+ nl)))
    end
  else Ret (Some "open", s).

(** [strings.Split(s, ":")[0]] *)
Fixpoint before_colon (s : string) : string :=
  match s with
  | EmptyString => EmptyString
  | String c s => if Ascii.eqb c ":"%char then EmptyString else String c (before_colon s)
  end.
(** [strings.ReplaceAll(s, ".", "_")] *)
Fixpoint dots_to_underscores (s : string) : string :=
  match s with
  | EmptyString => EmptyString
  | String c s => String (if Ascii.eqb c "."%char then "_"%char else c) (dots_to_underscores s)
  end.

(** File names and commands, for one operating system: [fileNameFormat] is a text on
    each side of the address. *)
Record formats := mkFormats { name_before : string; name_after : string; commandFormat : string }.

Definition batFilePath (F : formats) (nodeIp : string) : string :=
  name_before F +:+ dots_to_underscores (before_colon nodeIp) +:+ name_after F.
Definition node_command (F : formats) (nodenum shardnum i j : Z) : string :=
  commandFormat F +:+ " -n " +:+ pretty j +:+ " -N " +:+ pretty nodenum +:+ " -s " +:+ pretty i
    +:+ " -S " +:+ pretty shardnum +:+ " & " +:+ nl.
Definition supervisor_command (F : formats) (nodenum shardnum : Z) : string :=
  commandFormat F +:+ " -c -N " +:+ pretty nodenum +:+ " -S " +:+ pretty shardnum +:+ " & " +:+ nl.

(** A loop whose body returns from the function with an error. *)
Fixpoint until_error {A} (body : A → Scripts → go (option string * Scripts)) (l : list A) (s : Scripts)
    : go (option string * Scripts) :=
  match l with
  | [] => Ret (None, s)
  | a :: l =>
      '(err, s) ← body a s;
      match err with Some _ => Ret (err, s) | None => until_error body l s end
  end.

Definition node_error : string := "the node is not existed in the IP Table file".
Definition shard_error : string := "the shard is not existed in the IP Table file".
Definition supervisor_error : string := "the supervisor is not existed in the IP Table file".

Definition generate (F : formats) (ipMap : gmap Z (gmap Z string)) (nodenum shardnum : Z) (s : Scripts)
    : go (option string * Scripts) :=
  '(err, s) ← until_error (λ i s,
    match ipMap !! i with
    | None => Ret (Some shard_error, s)
    | Some shard =>
        until_error (λ j s,
          match shard !! j with
          | None => Ret (Some node_error, s)
          | Some nodeIp => attachLineToFile (batFilePath F nodeIp) (node_command F nodenum shardnum i j) s
          end) (seqZ 0 nodenum) s
    end) (seqZ 0 shardnum) s;
  match err with
  | Some _ => Ret (err, s)
  | None =>
      match (shard ← ipMap !! SupervisorShard; shard !! 0) with
      | Some nodeIp => attachLineToFile (batFilePath F nodeIp) (supervisor_command F nodenum shardnum) s
      | None => Ret (Some supervisor_error, s)
      end
  end.

(** [GOOS]: [runtime.GOOS]. *)
Definition batch_formats (GOOS : string) : formats :=
  if String.eqb GOOS "windows" then mkFormats "complie_run_IpAddr=" ".bat" "start cmd /k go run main.go"
  else mkFormats "complie_run_IpAddr=" ".sh" "go run main.go".
Definition exe_formats (GOOS : string) : formats :=
  if String.eqb GOOS "windows" then
    mkFormats (GOOS +:+ "_exe_run_IpAddr=") ".bat" "start cmd /k blockEmulator_Windows_Precompile.exe"
  else mkFormats (GOOS +:+ "_exe_run_IpAddr=") ".sh" ("./blockEmulator_" +:+ GOOS +:+ "_Precompile").

Definition GenerateBatchByIpTable (GOOS : string) := generate (batch_formats GOOS).
Definition GenerateExeBatchByIpTable (GOOS : string) := generate (exe_formats GOOS).

End scripts.

(** ** [main.go] *)

(** The flags that were given. *)
Record Flags := mkFlags {
  isGen : bool;
  isGenerateForExeFile : bool;
  shardNum : option Z;
  nodeNum : option Z;
  shardID : option Z;
  nodeID : option Z;
  isSupervisor : bool
}.

(** What the process becomes. *)
Inductive Process `{External} : Type :=
| Generated (err : option string) (s : Scripts)
| Supervising (addr : string) (d : Supervisor)
| Working (w : Worker).

(** What the process finds around it. *)
Record Machine `{External} := mkMachine {
  paramsConfig_json : option bytes;
  ipTable_json : option bytes;
  json_config : bytes → option globalConfig;
  json_table : bytes → gmap Z (gmap Z string);
  GOOS : string;
  old_scripts : gmap string bytes;
  broker_lines : list string;
  disk : Disk;
  late_read : bool;
  start_time : Time
}.
Arguments paramsConfig_json {_}. Arguments ipTable_json {_}. Arguments json_config {_}. Arguments json_table {_}.
Arguments GOOS {_}. Arguments old_scripts {_}. Arguments broker_lines {_}. Arguments disk {_}.
Arguments late_read {_}. Arguments start_time {_}. Arguments mkMachine {_}.

Definition main `{External} `{FileSystem} (m : Machine) (f : Flags) : go (Process * Globals) :=
  g ← ReadConfigFile (json_config m) (paramsConfig_json m) defaults;
  let ipMap := readIpTable (json_table m) (ipTable_json m) in
  let shards := default (@ShardNum (g_params g)) (shardNum f) in
  let nodes := default (@NodesInShard (g_params g)) (nodeNum f) in
  let sid := default (-1) (shardID f) in
  let nid := default (-1) (nodeID f) in
  let g := set_sizes nodes shards g in
  if isGen f then
    let run := if isGenerateForExeFile f then GenerateExeBatchByIpTable else GenerateBatchByIpTable in
    '(err, s) ← run (GOOS m) ipMap nodes shards (mkScripts (old_scripts m) ∅);
    Ret (Generated err s, g)
  else if isSupervisor f then
    '(addr, d, g) ← BuildSupervisor ipMap (broker_lines m) (late_read m) (u64 nodes) (u64 shards) g;
    Ret (Supervising addr d, g)
  else if (shards <=? sid) || (sid <? 0) then Panic "Wrong ShardID"
  else if (nodes <=? nid) || (nid <? 0) then Panic "Wrong NodeID"
  else
    '(w, g) ← BuildNewPbftNode ipMap (start_time m) (disk m) (u64 nid) (u64 nodes) (u64 sid) (u64 shards) g;
    Ret (Working w, g).
