(* ===== verification/StartupProps.v ===== *)
(** * Properties of start-up

    What the generated scripts contain, and when and as what a process starts. *)

From stdpp Require Import pretty.
From S2P Require Import Prelude Params Core Message Network External Storage Chain Ledger ChainLemmas Pbft.
From S2P Require Import Relay Broker Clpa ClpaBroker Szhbft Supervisor Startup.

(** ** Start scripts *)

(** One line of a script: its path and its text. *)
Abbreviation job := (string * bytes)%type (only parsing).

Definition concat_bytes (l : list bytes) : bytes := foldr String.append "" l.
(** The text that the jobs for one path make together. *)
Definition text_of (path : string) (js : list job) : bytes :=
  concat_bytes ((filter (λ j : job, j.1 = path) js).*2).

(** All system calls succeed. *)
Definition cooperative (FS : FileSystem) : Prop :=
  (∀ p, Remove p = true) ∧ (∀ p, OpenAppend p = true) ∧ (∀ p b, WriteString p b = None).

(** The commands of a deployment, node by node, and then the supervisor's. *)
Definition node_jobs (F : formats) (ipMap : gmap Z (gmap Z string)) (N S i : Z) : list job :=
  (λ j, (batFilePath F (node_ip ipMap i j), node_command F N S i j +:+ nl)) <$> seqZ 0 N.
Definition all_jobs (F : formats) (ipMap : gmap Z (gmap Z string)) (N S : Z) : list job :=
  (seqZ 0 S ≫= node_jobs F ipMap N S)
  ++ [(batFilePath F (node_ip ipMap SupervisorShard 0), supervisor_command F N S +:+ nl)].

(** Every node of the deployment, and the supervisor, has an address. *)
Definition shard_complete (ipMap : gmap Z (gmap Z string)) (N i : Z) : Prop :=
  ∃ shard, ipMap !! i = Some shard ∧ ∀ j, j ∈ seqZ 0 N → is_Some (shard !! j).
Definition complete (ipMap : gmap Z (gmap Z string)) (N S : Z) : Prop :=
  (∀ i, i ∈ seqZ 0 S → shard_complete ipMap N i)
  ∧ ∃ shard, ipMap !! SupervisorShard = Some shard ∧ is_Some (shard !! 0).

Section scripts.
Context {FS : FileSystem} (Hfs : cooperative FS) (old : gmap string bytes).

(** The jobs [js] have been done since the process started. *)
Definition wrote (js : list job) (s : Scripts) : Prop :=
  ∀ path, (path ∈ fileUpToDataSet s ↔ path ∈ js.*1)
    ∧ files s !! path = if decide (path ∈ js.*1) then Some (text_of path js) else old !! path.

Lemma concat_bytes_app l k : concat_bytes (l ++ k) = concat_bytes l +:+ concat_bytes k.
Proof. induction l as [|x l IH]; simpl; [done|]. by rewrite IH, string_app_assoc. Qed.

Lemma text_of_app path js ks : text_of path (js ++ ks) = text_of path js +:+ text_of path ks.
Proof. unfold text_of. by rewrite filter_app, fmap_app, concat_bytes_app. Qed.

Lemma text_of_one path p line : text_of path [(p, line)] = if decide (path = p) then line else "".
Proof.
  unfold text_of. destruct (decide (path = p)) as [->|Hne].
  - rewrite filter_cons_True by done. simpl. by rewrite string_app_nil_r.
  - by rewrite filter_cons_False by (simpl; congruence).
Qed.

Lemma text_of_absent path js : path ∉ js.*1 → text_of path js = "".
Proof.
  intros Hp. unfold text_of. rewrite filter_none; [done|]. intros j Hj <-. apply Hp.
  by apply list_elem_of_fmap_2.
Qed.

Lemma attach_wrote js s p line :
  wrote js s → ∃ s', attachLineToFile p line s = Ret (None, s') ∧ wrote (js ++ [(p, line +:+ nl)]) s'.
Proof.
  destruct Hfs as (Hr & Ho & Hw). intros H.
  assert (∃ s1, fresh_file p s = Ret s1 ∧ fileUpToDataSet s1 = {[ p ]} ∪ fileUpToDataSet s
    ∧ (∀ q, q ≠ p → files s1 !! q = files s !! q)
    ∧ default "" (files s1 !! p) = text_of p js) as (s1 & E & Hset & Hne & Heq).
  { unfold fresh_file. destruct (H p) as [Hp Hf]. destruct (decide (p ∈ fileUpToDataSet s)) as [Hin|Hin].
    - case_decide; [|tauto]. exists s. split_and!; [done|set_solver|done|by rewrite Hf].
    - case_decide; [tauto|]. rewrite text_of_absent by done.
      destruct (files s !! p) eqn:Ep; rewrite ?Hr; simpl; eexists; (split; [reflexivity|]); simpl.
      + split_and!; [done| |by rewrite lookup_delete_eq]. intros q Hq. by rewrite lookup_delete_ne.
      + split_and!; [done|done|by rewrite Ep]. }
  unfold attachLineToFile. rewrite E. simpl. rewrite Ho, Hw. eexists. split; [done|].
  intros q. destruct (H q) as [Hq Hf]. simpl. rewrite Hset, fmap_app, text_of_app, text_of_one.
  assert (q ∈ js.*1 ++ [p] ↔ q ∈ js.*1 ∨ q = p) as Hin by set_solver.
  simpl. split; [set_solver|]. destruct (decide (q = p)) as [->|Hqp].
  - rewrite lookup_insert_eq, Heq. destruct (decide (p ∈ js.*1 ++ [p])); [done|tauto].
  - rewrite lookup_insert_ne, Hne, Hf, string_app_nil_r by done.
    destruct (decide (q ∈ js.*1)), (decide (q ∈ js.*1 ++ [p])); tauto.
Qed.

(** A loop each of whose turns either does its jobs or ends the function. *)
Lemma until_error_wrote {A} (body : A → Scripts → go (option string * Scripts))
    (good : A → Prop) (jobs : A → list job) l js s :
  (∀ a js s, a ∈ l → wrote js s → ∃ err s', body a s = Ret (err, s')
     ∧ (err = None ↔ good a) ∧ (err = None → wrote (js ++ jobs a) s')) →
  wrote js s →
  ∃ err s', until_error body l s = Ret (err, s')
    ∧ (err = None ↔ ∀ a, a ∈ l → good a) ∧ (err = None → wrote (js ++ (l ≫= jobs)) s').
Proof.
  revert js s. induction l as [|a l IH]; intros js s Hb Hs; simpl.
  { exists None, s. rewrite (right_id_L [] (++)). split_and!; [done| |done].
    split; [|done]. by intros _ a ?%elem_of_nil. }
  destruct (Hb a js s) as (err & s1 & -> & Hg & Hw); [by left|done|]. simpl. destruct err as [e|].
  { exists (Some e), s1. split_and!; [done| |done]. split; [done|]. intros Hall. apply Hg, Hall. by left. }
  destruct (IH (js ++ jobs a) s1) as (err & s2 & -> & Hg2 & Hw2); [intros; apply Hb; [by right|done]|by apply Hw|].
  exists err, s2. split_and!; [done| |by rewrite (assoc_L (++))].
  rewrite Hg2. split; [|intros Hall b Hb'; apply Hall; by right].
  intros Hall b [->|Hb']%elem_of_cons; [by apply Hg|by apply Hall].
Qed.

Lemma bind_one {A B} (f : A → B) (l : list A) : (l ≫= λ a, [f a]) = f <$> l.
Proof. induction l as [|a l IH]; csimpl; [done|]. by rewrite <- IH. Qed.

(** The turn of the outer loop for shard [i]. *)
Lemma shard_body_ok F ipMap N S i js s :
  wrote js s →
  ∃ err s', match ipMap !! i with
    | None => Ret (Some shard_error, s)
    | Some shard =>
        until_error (λ j s,
          match shard !! j with
          | None => Ret (Some node_error, s)
          | Some nodeIp => attachLineToFile (batFilePath F nodeIp) (node_command F N S i j) s
          end) (seqZ 0 N) s
    end = Ret (err, s')
    ∧ (err = None ↔ shard_complete ipMap N i) ∧ (err = None → wrote (js ++ node_jobs F ipMap N S i) s').
Proof.
  intros Hs. unfold shard_complete. destruct (ipMap !! i) as [shard|] eqn:Ei.
  2: { exists (Some shard_error), s. split_and!; [done| |done]. split; [done|]. by intros (? & ? & _). }
  destruct (until_error_wrote (λ j s,
      match shard !! j with
      | None => Ret (Some node_error, s)
      | Some nodeIp => attachLineToFile (batFilePath F nodeIp) (node_command F N S i j) s
      end) (λ j, is_Some (shard !! j))
      (λ j, [(batFilePath F (node_ip ipMap i j), node_command F N S i j +:+ nl)]) (seqZ 0 N) js s)
    as (err & s' & E & Hg & Hw); [|exact Hs|].
  - intros j js' s1 _ Hs1. unfold node_ip. rewrite Ei. simpl. destruct (shard !! j) as [nodeIp|] eqn:Ej; simpl.
    + destruct (attach_wrote js' s1 (batFilePath F nodeIp) (node_command F N S i j) Hs1) as (s2 & E & Hw).
      exists None, s2. split_and!; [exact E| |done]. split; [by eexists|done].
    + exists (Some node_error), s1. split_and!; [done| |done]. split; [done|]. by intros [].
  - rewrite bind_one in Hw. exists err, s'. split; [exact E|]. split; [rewrite Hg|exact Hw].
    split; [by exists shard|]. by intros (? & [= <-] & ?).
Qed.

End scripts.

Section start.
Context {EX : External} {EXO : ExternalOk}.

Definition method_of (w : Worker) : string :=
  match w with
  | CLPABrokerNode _ => "CLPA_Broker" | CLPANode _ => "CLPA" | BrokerNode _ => "Broker"
  | RelayNode _ => "Relay" | SZHBFTNode _ => "SZHBFT"
  end.
(** A property of the node, whatever its modules. *)
Definition on_node (P : ∀ M, PbftNode M → Prop) (w : Worker) : Prop :=
  match w with
  | CLPABrokerNode p | CLPANode p => P _ p
  | BrokerNode p => P _ p
  | RelayNode p => P _ p
  | SZHBFTNode p => P _ p
  end.

(** The configuration of node [j] of shard [i], of [S] shards of [N] nodes. *)
Definition node_config (config : globalConfig) (i j N S : Z) : ChainConfig :=
  mkChainConfig i j i N S (u64 (gc_MaxBlockSizeGlobal config)) (u64 (gc_BlockInterval config))
    (u64 (gc_InjectSpeed config)).

(** A new node: in view 0, so that node 0 leads, before its first block, listening at its
    own address, on a ledger in which every account has its initial balance. *)
Record new_node (ipMap : gmap Z (gmap Z string)) (pcc : ChainConfig) (i j : Z) (M : Type)
    (p : PbftNode M) : Prop := {
  nn_self : RunningNode p = mkNode j i (node_ip ipMap i j) ∧ pn_ShardID p = i ∧ pn_NodeID p = j;
  nn_config : pbftChainConfig p = pcc ∧ ip_nodeTable p = ipMap;
  nn_leader : is_leader p = (j =? 0);
  nn_faults : node_nums p = Nodes_perShard pcc ∧ malicious_nums p = (Nodes_perShard pcc - 1) `div` 3;
  nn_seq : sequenceID p = 1 ∧ stopSignal p = false;
  nn_chain : bh_Number (b_Header (bc_CurrentBlock (CurChain p))) = 0
    ∧ bc_ChainConfig (CurChain p) = pcc ∧ has_ledger (CurChain p) (λ _, Init_Balance)
}.

(** A machine on which no node has run yet. *)
Definition fresh_disk (d : Disk) : Prop :=
  is_Some (mptDB d) ∧ is_Some (localMptDB d)
  ∧ GetNewestBlockHash (chainDB d) = None ∧ GetNewestBlockHash (localChainDB d) = None
  ∧ ∀ gb, NewGenisisBlock = Ret gb → storable gb.

(** The table of addresses is large enough, as [initConfig] sees it. *)
Definition table_fits (ipMap : gmap Z (gmap Z string)) (N S : Z) : Prop :=
  S ≤ Z.of_nat (size ipMap) - 1
  ∧ ∀ k, k ∈ seqZ 0 (Z.of_nat (size ipMap) - 1) → N ≤ shard_len ipMap k.

Lemma check_shards ipMap N l :
  returns (go_fold (λ _ k, if shard_len ipMap k <? N
             then Panic "Input NodeNumber, but only fewer nodes in Shard" else Ret tt) tt l)
  ↔ ∀ k, k ∈ l → N ≤ shard_len ipMap k.
Proof.
  induction l as [|k l IH]; simpl.
  { split; [by intros _ k ?%elem_of_nil|by exists tt]. }
  destruct (shard_len ipMap k <? N) eqn:E; z_bool; simpl.
  - split; [by intros []|]. intros H. specialize (H k ltac:(by left)). lia.
  - rewrite IH. split; [by intros H k' [->|?]%elem_of_cons; [|apply H]|].
    intros H k' Hk. apply H. by right.
Qed.

(** The globals after [initConfig]. *)
Definition after_init (ipMap : gmap Z (gmap Z string)) (N S : Z) (g : Globals) : Globals :=
  set_sizes N S (g <| IPmap_nodeTable := ipMap |> <| SupervisorAddr := node_ip ipMap SupervisorShard 0 |>)
    <| g_net ::= clamp |>.

Lemma initConfig_ok ipMap i j N S g :
  is_i64 N → is_i64 S → table_fits ipMap N S →
  initConfig ipMap j (u64 N) i (u64 S) g
  = Ret (mkChainConfig i j i (u64 N) (u64 S) (u64 (MaxBlockSize_global g)) (u64 (Block_Interval g))
           (u64 (@InjectSpeed (g_params g))), after_init ipMap N S g).
Proof.
  intros HN HS [Hs Hk]. unfold initConfig. rewrite !i64_u64 by done.
  rewrite (proj2 (Z.ltb_ge _ _)) by done. apply check_shards in Hk as [[] ->]. done.
Qed.

Lemma initConfig_fits ipMap i j N S g :
  is_i64 N → is_i64 S → returns (initConfig ipMap j (u64 N) i (u64 S) g) → table_fits ipMap N S.
Proof.
  intros HN HS [r H]. unfold initConfig in H. rewrite !i64_u64 in H by done.
  destruct (_ <? S) eqn:E in H; [done|]. z_bool. apply bind_Ret in H as ([] & H & _).
  split; [done|]. apply check_shards. by exists tt.
Qed.

Lemma method_name_ok id : 0 ≤ id < 5 →
  ∃ s, method_name id = Ret s ∧ CommitteeMethod !! Z.to_nat id = Some s.
Proof.
  intros H. unfold method_name. rewrite (proj2 (Z.ltb_ge _ _)) by lia.
  destruct (lookup_lt_is_Some_2 CommitteeMethod (Z.to_nat id)) as [s Hs]; [simpl; lia|].
  exists s. by rewrite Hs.
Qed.

Lemma new_node_ok ipMap pcc i j now bc (M : Type) (m : M) :
  0 ≤ j < 2 ^ 64 → 1 ≤ Nodes_perShard pcc < 2 ^ 64 →
  bh_Number (b_Header (bc_CurrentBlock bc)) = 0 → bc_ChainConfig bc = pcc →
  has_ledger bc (λ _, Init_Balance) →
  new_node ipMap pcc i j M (NewPbftNode i j pcc now ipMap bc m).
Proof.
  intros Hj HN Hb Hc Hl. split; simpl.
  - by split_and!.
  - done.
  - unfold is_leader. simpl. by rewrite Z.eqb_sym.
  - by rewrite u64_id by (unfold is_u64; lia).
  - by rewrite Hb.
  - done.
Qed.

(** A new chain on an empty disk. *)
Lemma fresh_chain cc db s :
  GetNewestBlockHash s = None → (∀ gb, NewGenisisBlock = Ret gb → storable gb) →
  ∃ bc, NewBlockChain cc db s = Ret bc ∧ bh_Number (b_Header (bc_CurrentBlock bc)) = 0
    ∧ bc_ChainConfig bc = cc ∧ has_ledger bc (λ _, Init_Balance).
Proof.
  intros Hs Hg. destruct (NewBlockChain_empty cc db s Hs Hg) as (bc & E & Hl & Hn).
  exists bc. split_and!; [done..| |done]. unfold NewBlockChain in E. rewrite Hs in E.
  apply bind_Ret in E as (gb & _ & E). apply bind_Ret in E as ([curb s'] & _ & E). by injection E as <-.
Qed.

Lemma new_worker_ok ipMap pcc i j name now d g :
  fresh_disk d → IPmap_nodeTable g = ipMap → name ∈ CommitteeMethod →
  0 ≤ j < 2 ^ 64 → 1 ≤ Nodes_perShard pcc < 2 ^ 64 →
  ∃ w, new_worker i j pcc name now d g = Ret w ∧ method_of w = name
    ∧ on_node (new_node ipMap pcc i j) w.
Proof.
  intros ([db Hdb] & [ldb Hldb] & Hs & Hls & Hg) Ht Hname Hj HN. unfold new_worker.
  destruct (fresh_chain pcc db (chainDB d) Hs Hg) as (bc & Eb & Hb & Hc & Hl).
  destruct (fresh_chain pcc ldb (localChainDB d) Hls Hg) as (lbc & El & _).
  rewrite Hdb. simpl. rewrite Eb. simpl. rewrite Hldb. simpl. rewrite El, Ht.
  repeat (apply elem_of_cons in Hname as [->|Hname]); [..|by apply elem_of_nil in Hname];
    (eexists; split; [reflexivity|]; split; [done|]; by apply new_node_ok).
Qed.

End start.

Module StartupProps.

Section scripts.
Context {FS : FileSystem}.

(** C37. The start scripts start every node once: when the system calls succeed, the
    generator (for either kind of script, on any operating system) reports no error
    exactly when the table has an address for every node of the deployment and for the
    supervisor; then the script of each machine holds the commands of its nodes, in the
    order of shards and nodes, and the supervisor's last, and nothing else: what an
    earlier run had left in it is gone.  No other file is touched. *)
Theorem scripts_start_every_node (F : formats) (ipMap : gmap Z (gmap Z string)) (N S : Z)
    (old : gmap string bytes) :
  cooperative FS →
  ∃ err s, generate F ipMap N S (mkScripts old ∅) = Ret (err, s)
  ∧ (err = None ↔ complete ipMap N S)
  ∧ (err = None → ∀ path, files s !! path =
       if decide (path ∈ (all_jobs F ipMap N S).*1) then Some (text_of path (all_jobs F ipMap N S))
       else old !! path).
Proof.
  intros Hfs. assert (wrote old [] (mkScripts old ∅)) as H0 by (intros path; simpl; set_solver).
  unfold generate.
  match goal with |- context[until_error ?f _ _] => set (body := f) end.
  destruct (until_error_wrote old body (shard_complete ipMap N) (node_jobs F ipMap N S)
    (seqZ 0 S) [] (mkScripts old ∅)) as (err & s & -> & Hg & Hw); [|exact H0|].
  { intros i js s _ Hs. by apply shard_body_ok. }
  simpl. destruct err as [e|].
  { exists (Some e), s. split_and!; [done| |done]. split; [done|]. intros [Hc _]. by apply Hg. }
  pose proof (proj1 Hg eq_refl) as Hall. specialize (Hw eq_refl).
  destruct (ipMap !! SupervisorShard) as [shard|] eqn:Es; simpl.
  2: { exists (Some supervisor_error), s. split_and!; [done| |done]. split; [done|]. intros [_ (? & ? & _)]. congruence. }
  destruct (shard !! 0) as [ip|] eqn:E0.
  2: { exists (Some supervisor_error), s. split_and!; [done| |done]. split; [done|].
       intros [_ (sh & ? & [? ?])]. congruence. }
  destruct (attach_wrote Hfs old _ s (batFilePath F ip) (supervisor_command F N S) Hw) as (s' & -> & Hw').
  exists None, s'. split_and!; [done|..].
  - split; [|done]. intros _. split; [exact Hall|]. exists shard. split; [done|by eexists].
  - intros _ path. assert (node_ip ipMap SupervisorShard 0 = ip) as Hip by (unfold node_ip; rewrite Es; simpl; by rewrite E0).
    unfold all_jobs. rewrite Hip. by apply Hw'.
Qed.

End scripts.

Section start.
Context {EX : External} {EXO : ExternalOk} {FS : FileSystem}.


(** [initConfig] does not look for the supervisor in the table. *)
Theorem table_without_supervisor_passes (ipMap : gmap Z (gmap Z string)) (i j N S : Z) (g : Globals) :
  is_i64 N → is_i64 S → table_fits ipMap N S → ipMap !! SupervisorShard = None →
  ∃ cfg g', initConfig ipMap j (u64 N) i (u64 S) g = Ret (cfg, g') ∧ SupervisorAddr g' = "".
Proof.
  intros HN HS Hf Hs. eexists _, _. split; [by apply initConfig_ok|]. simpl. unfold node_ip. by rewrite Hs.
Qed.

(** The supervisor may listen on the address that was set before the table was read,
    while everything is sent to the one in the table. *)
Theorem supervisor_address_depends (ipMap : gmap Z (gmap Z string)) (lines : list string) (N S : Z) (g : Globals)
    (late : bool) (addr : string) (d : Supervisor) (g' : Globals) :
  BuildSupervisor ipMap lines late N S g = Ret (addr, d, g') →
  SupervisorAddr g' = node_ip ipMap SupervisorShard 0
  ∧ addr = if late then node_ip ipMap SupervisorShard 0 else SupervisorAddr g.
Proof.
  unfold BuildSupervisor, initConfig. intros H. apply bind_Ret in H as ([pcc g1] & H1 & H).
  destruct (_ <? _) in H1; [done|]. apply bind_Ret in H1 as ([] & _ & [= <- <-]).
  apply bind_Ret in H as (? & _ & H). apply bind_Ret in H as (? & _ & [= <- <- <-]). simpl. by destruct late.
Qed.

End start.

(** ** Witnesses *)

#[local] Existing Instances RefExternal.ext RefExternal.ext_ok.

Definition willing : FileSystem := {| Remove _ := true; OpenAppend _ := true; WriteString _ _ := None |}.
Lemma willing_cooperative : cooperative willing.
Proof. by split_and!. Qed.

(** Two shards of two nodes on two machines; the supervisor on one of them. *)
Definition table22 : gmap Z (gmap Z string) :=
  {[ 0 := {[ 0 := "10.0.0.1:80"; 1 := "10.0.0.2:80" ]};
     1 := {[ 0 := "10.0.0.1:81"; 1 := "10.0.0.2:81" ]};
     SupervisorShard := {[ 0 := "10.0.0.2:99" ]} ]}%string.

Lemma scripts_start_every_node_witness :
  let F := batch_formats "linux" in let old := {[ "complie_run_IpAddr=10_0_0_2.sh" := "old"; "notes" := "n" ]}%string in
  complete table22 2 2
  ∧ ∃ err s, @generate willing F table22 2 2 (mkScripts old ∅) = Ret (err, s)
  ∧ (err = None ↔ complete table22 2 2)
  ∧ (err = None → ∀ path, files s !! path =
       if decide (path ∈ (all_jobs F table22 2 2).*1) then Some (text_of path (all_jobs F table22 2 2))
       else old !! path).
Proof.
  split.
  - split; [|eexists; split; [reflexivity|by eexists]].
    intros i Hi%elem_of_seqZ. assert (i = 0 ∨ i = 1) as [->| ->] by lia;
      (eexists; split; [reflexivity|]; intros j Hj%elem_of_seqZ;
       assert (j = 0 ∨ j = 1) as [->| ->] by lia; by eexists).
  - apply (@scripts_start_every_node willing (batch_formats "linux") table22 2 2). split_and!; done.
Defined.

Definition config22 : globalConfig :=
  mkGlobalConfig 3 5000 "exp" 2000 20000 1000 0 800 3000 1600 10 0 "./txs.csv" 50 (-1) (-1) 10000000.
Definition machine22 : Machine :=
  mkMachine (Some "{}"%string) (Some "{}"%string) (λ _, Some config22) (λ _, table22) "linux" ∅ []
    (mkDisk (Some []) StorageProps.empty_store (Some []) StorageProps.empty_store) true 9.


End StartupProps.
